(** * Librarian game: the simulation core, embedded and verified

    A shallow embedding of the simulation core of the game:
    - [Shelf]        (src/game/entities/Shelf.js);
    - [Kid]          (src/game/entities/Kid.js);
    - [PlayingState] (src/game/states/PlayingState.js);
    - [PausedState]  (src/game/states/PausedState.js);
    - [VolumeBlock], [Player] and the base class of the entities, whose
      files (VolumeBlock.js, Player.js, Entity.js) are absent from the
      sources: what the classes above use of them is modelled from the
      specification, and marked so.

    JavaScript numbers are idealised as rationals ([Q]), except in the
    amount of an XP award, an integer cut out of a product of doubles:
    there the products are rounded as doubles are ([Num.mul]).  The
    transcendental functions of [Math] and the ambient random source are
    an interface ([MathEnv]) the model is parametric in.  Objects that are
    shared by reference (blocks, shelves, kids) live in the arrays of the
    playing state and are referred to by their index.  Rendering, audio playback
    and animation bookkeeping are outside the model, except for the
    one-shot cues the state machine guards with a flag. *)

From Stdlib Require Import QArith Qround Qabs Qpower Lqa ZArith Lia.
From stdpp Require Import base list.

Set Default Proof Using "Type".

(** ** Numbers *)

Module Num.
Local Open Scope Q_scope.

Definition ltb (a b : Q) : bool := negb (Qle_bool b a).
Definition leb (a b : Q) : bool := Qle_bool a b.
Definition gtb (a b : Q) : bool := ltb b a.
Definition geb (a b : Q) : bool := leb b a.

(** [Math.max] and [Math.min] *)
Definition max (a b : Q) : Q := if leb a b then b else a.
Definition min (a b : Q) : Q := if leb a b then a else b.
Definition abs (a : Q) : Q := Qabs a.

(** Truthiness of a number: every number but zero. *)
Definition truthy (a : Q) : bool := negb (Qeq_bool a 0).

(** [Math.floor] *)
Definition floor (a : Q) : Z := Qfloor a.

(** A number of the program is a double.  Where [awardXP] cuts an integer
    out of a product, the rounding of the product decides the integer, and
    the product is modelled as IEEE 754 prescribes it: the exact product,
    rounded to the nearest double, ties to even.  The rounding is written
    out on the rationals; the overflow to [Infinity] is outside the
    model. *)

(** [floor (log2 |a|)], for [a] other than zero. *)
Definition ilog2 (a : Q) : Z :=
  let n := Z.abs (Qnum a) in
  let d := Z.pos (Qden a) in
  let k := (Z.log2 n - Z.log2 d)%Z in
  if (if (0 <=? k)%Z then (d * 2 ^ k <=? n)%Z else (d <=? n * 2 ^ (- k))%Z)
  then k else (k - 1)%Z.

(** The nearest integer, the even one of two that are equally near. *)
Definition roundHalfEven (a : Q) : Z :=
  let f := Qfloor a in
  match Qcompare (a - inject_Z f) (1 # 2) with
  | Lt => f
  | Gt => (f + 1)%Z
  | Eq => if Z.even f then f else (f + 1)%Z
  end.

(** The exponent of the unit in the last place of the double nearest to
    [a]: 53 bits of mantissa, and the subnormal numbers below
    [2 ^ -1022]. *)
Definition exponent (a : Q) : Z := Z.max (ilog2 a - 52) (-1074).

(** The double nearest to [a]; a decimal literal of the source denotes the
    double nearest to it. *)
Definition double (a : Q) : Q :=
  if Qeq_bool a 0 then 0
  else Qred (inject_Z (roundHalfEven (a / 2 ^ exponent a)) * 2 ^ exponent a).

(** The product [a * b] of two doubles. *)
Definition mul (a b : Q) : Q := double (a * b).
End Num.

Declare Scope js_scope.
Delimit Scope js_scope with js.
Infix "<?" := Num.ltb (at level 70, no associativity) : js_scope.
Infix "<=?" := Num.leb (at level 70, no associativity) : js_scope.
Infix ">?" := Num.gtb (at level 70, no associativity) : js_scope.
Infix ">=?" := Num.geb (at level 70, no associativity) : js_scope.

(** The part of [Math] the rationals cannot compute, and the sequence of
    draws [Math.random()] returns, numbered from the start of the session. *)
Class MathEnv := {
  Math_cos : Q -> Q;
  Math_sin : Q -> Q;
  Math_atan2 : Q -> Q -> Q;
  Math_sqrt : Q -> Q;
  Math_PI : Q;
  Math_random : nat -> Q
}.

(** Reading a slot of a JavaScript array: a hole and [null] are both falsy. *)
Definition notNull {A} (v : option A) : bool :=
  match v with Some _ => true | None => false end.

(** Writing [arr[i] = v]: past the end the array is extended with holes. *)
Definition array_set {A} (i : nat) (v : option A) (arr : list (option A))
  : list (option A) :=
  if (i <? length arr)%nat then <[i := v]> arr
  else arr ++ replicate (i - length arr) None ++ [v].

Inductive Color := red | blue | green | yellow | purple | orange.

#[global] Instance Color_eq_dec : EqDecision Color.
Proof. solve_decision. Defined.

(** Who holds a block: the explicit form of the source's test on the
    holder's constructor name. *)
Inductive Holder := HPlayer | HKid (kid : nat).

#[global] Instance Holder_eq_dec : EqDecision Holder.
Proof. solve_decision. Defined.

(** ** VolumeBlock *)

Module VolumeBlock.
Local Open Scope Q_scope.

(** Modelled from the spec: VolumeBlock.js is absent.  Section 3 gives a
    block its position, velocity, colour, location state, owning reference
    and visibility flag; the fields have the names Shelf.js, Kid.js and
    PlayingState.js read and write. *)
Record t := mk {
  x : Q; y : Q; vx : Q; vy : Q; width : Q; height : Q;
  color : Color;
  isHeld : bool;
  isShelved : bool;
  holder : option Holder;
  shelf : option nat;
  visible : bool
}.

(** Field updates. *)
Definition set_x v (r : t) : t := mk v (y r) (vx r) (vy r) (width r)
    (height r) (color r) (isHeld r) (isShelved r) (holder r) (shelf r)
    (visible r).
Definition set_y v (r : t) : t := mk (x r) v (vx r) (vy r) (width r)
    (height r) (color r) (isHeld r) (isShelved r) (holder r) (shelf r)
    (visible r).
Definition set_vx v (r : t) : t := mk (x r) (y r) v (vy r) (width r)
    (height r) (color r) (isHeld r) (isShelved r) (holder r) (shelf r)
    (visible r).
Definition set_vy v (r : t) : t := mk (x r) (y r) (vx r) v (width r)
    (height r) (color r) (isHeld r) (isShelved r) (holder r) (shelf r)
    (visible r).
Definition set_isHeld v (r : t) : t := mk (x r) (y r) (vx r) (vy r)
    (width r) (height r) (color r) v (isShelved r) (holder r) (shelf r)
    (visible r).
Definition set_isShelved v (r : t) : t := mk (x r) (y r) (vx r) (vy r)
    (width r) (height r) (color r) (isHeld r) v (holder r) (shelf r)
    (visible r).
Definition set_holder v (r : t) : t := mk (x r) (y r) (vx r) (vy r)
    (width r) (height r) (color r) (isHeld r) (isShelved r) v (shelf r)
    (visible r).
Definition set_shelf v (r : t) : t := mk (x r) (y r) (vx r) (vy r) (width r)
    (height r) (color r) (isHeld r) (isShelved r) (holder r) v (visible r).
Definition set_visible v (r : t) : t := mk (x r) (y r) (vx r) (vy r)
    (width r) (height r) (color r) (isHeld r) (isShelved r) (holder r)
    (shelf r) v.

(** Modelled from the spec: Entity.js is absent; the horizontal centre of
    the bounding box of an entity. *)
Definition getCenterX (this : t) : Q := x this + width this / 2.

(** Modelled from the spec: Entity.js is absent; the vertical centre of
    the bounding box of an entity. *)
Definition getCenterY (this : t) : Q := y this + height this / 2.

(** Modelled from the spec: VolumeBlock.js is absent.  Section 4.2:
    pickup "transitions Floor->Held; sets owning reference; only valid
    when not already Held or Shelved", and section 7: it "is a no-op if
    already Held/Shelved". *)
Definition pickup (h : Holder) (this : t) : t :=
  if isHeld this || isShelved this then this
  else set_holder (Some h) (set_isHeld true this).

(** Modelled from the spec: VolumeBlock.js is absent.  Section 4.2:
    shelve "transitions to Shelved" with the owning reference set to the
    shelf; the location states are mutually exclusive and the owning
    reference is a holder or a shelf, never both. *)
Definition shelve (s : nat) (this : t) : t :=
  set_shelf (Some s)
    (set_isShelved true (set_holder None (set_isHeld false this))).

(** Modelled from the spec: VolumeBlock.js is absent.  Section 4.2:
    "unshelve clears owning reference and marks Floor". *)
Definition unshelve (this : t) : t :=
  set_shelf None
    (set_isShelved false (set_holder None (set_isHeld false this))).

(** Modelled from the spec: VolumeBlock.js is absent.  Section 4.2:
    "velocity integrates into position each tick". *)
Definition update (deltaTime : Q) (this : t) : t :=
  set_y (y this + vy this * deltaTime)
    (set_x (x this + vx this * deltaTime) this).

(** The test [!volumeBlock.isHeld && !volumeBlock.isShelved] of the
    playing state: the block lies on the floor. *)
Definition onFloor (this : t) : bool :=
  negb (isHeld this) && negb (isShelved this).

(** Modelled from the spec: VolumeBlock.js is absent.  Section 3: a block
    is on the Floor unless it is Held or Shelved; the constructor
    [new VolumeBlock(game, x, y, color)] leaves a visible block at rest
    at the given place.  The size of a block is not in the sources: it is
    a parameter. *)
Definition new (width height : Q) (x y : Q) (color : Color) : t :=
  mk x y 0 0 width height color false false None None true.
End VolumeBlock.

(** ** Shelf *)

Module Shelf.
Local Open Scope Q_scope.

Record Box := mkBox { offsetX : Q; offsetY : Q; boxWidth : Q; boxHeight : Q }.

Record t := mk {
  x : Q; y : Q; width : Q; height : Q;
  color : Color;
  capacity : nat;
  volumeBlocks : list (option nat);
  collisionBox : option Box
}.

(** Field updates. *)
Definition set_volumeBlocks v (r : t) : t := mk (x r) (y r) (width r)
    (height r) (color r) (capacity r) v (collisionBox r).

(** [constructor(game, x, y, color, capacity = 6)] *)
Definition new (x y : Q) (color : Color) (capacity : nat) : t :=
  mk x y 64 96 color capacity (replicate capacity None)
     (Some (mkBox 0 0 64 96)).

(** Modelled from the spec: Entity.js is absent; the horizontal centre of
    the bounding box of an entity. *)
Definition getCenterX (this : t) : Q := x this + width this / 2.

(** Modelled from the spec: Entity.js is absent; the vertical centre of
    the bounding box of an entity. *)
Definition getCenterY (this : t) : Q := y this + height this / 2.

(** Number of slots holding a block ([filter(v => v !== null).length]). *)
Definition volumeBlockCount (this : t) : nat :=
  length (List.filter notNull (volumeBlocks this)).

Definition hasEmptySlots (this : t) : bool :=
  (volumeBlockCount this <? capacity this)%nat.

Definition getEmptySlotCount (this : t) : Z :=
  (Z.of_nat (capacity this) - Z.of_nat (volumeBlockCount this))%Z.

(** The search loop of [addVolumeBlock]:
    [while (slotIndex < capacity && volumeBlocks[slotIndex]) slotIndex++].
    It starts at 0, so it runs at most [capacity] times. *)
Fixpoint findSlot (fuel : nat) (slotIndex : nat) (this : t) : nat :=
  match fuel with
  | O => slotIndex
  | S fuel' =>
      if (slotIndex <? capacity this)%nat
         && notNull (mjoin (volumeBlocks this !! slotIndex))
      then findSlot fuel' (S slotIndex) this
      else slotIndex
  end.

(** [addVolumeBlock(volumeBlock)]; [self] is the reference to this shelf,
    [volumeBlock] the reference to the block, [heap] the blocks. *)
Definition addVolumeBlock (self : nat) (this : t) (volumeBlock : nat)
    (heap : list VolumeBlock.t) : bool * t * list VolumeBlock.t :=
  match heap !! volumeBlock with
  | None => (false, this, heap)
  | Some blk =>
      if negb (hasEmptySlots this)
         || negb (bool_decide (VolumeBlock.color blk = color this))
      then (false, this, heap)
      else
        let slotIndex := findSlot (capacity this) 0 this in
        if (slotIndex <? capacity this)%nat then
          (true,
           set_volumeBlocks
             (array_set slotIndex (Some volumeBlock) (volumeBlocks this)) this,
           alter (VolumeBlock.shelve self) volumeBlock heap)
        else (false, this, heap)
  end.

(** [removeVolumeBlock(index)]; the result is the removed block's
    reference, [None] for [null]. *)
Definition removeVolumeBlock (this : t) (index : option nat)
    (heap : list VolumeBlock.t) : option nat * t * list VolumeBlock.t :=
  match index with
  | None => (None, this, heap)
  | Some i =>
      match volumeBlocks this !! i with
      | Some (Some volumeBlock) =>
          (Some volumeBlock,
           set_volumeBlocks (<[i := None]> (volumeBlocks this)) this,
           alter VolumeBlock.unshelve volumeBlock heap)
      | _ => (None, this, heap)
      end
  end.

(** Indices of the occupied slots, in increasing order. *)
Fixpoint occupiedFrom (i : nat) (slots : list (option nat)) : list nat :=
  match slots with
  | [] => []
  | v :: rest =>
      if notNull v then i :: occupiedFrom (S i) rest
      else occupiedFrom (S i) rest
  end.

Definition volumeBlockIndices (this : t) : list nat :=
  occupiedFrom 0 (volumeBlocks this).

(** The slot [removeRandomVolumeBlock] picks when [Math.random()]
    returns [r]: [volumeBlockIndices[Math.floor(r * length)]]. *)
Definition pickIndex (this : t) (r : Q) : option nat :=
  let idx := volumeBlockIndices this in
  let k := Num.floor (r * inject_Z (Z.of_nat (length idx))) in
  if (k <? 0)%Z then None else idx !! Z.to_nat k.

(** [removeRandomVolumeBlock()]; [rng] counts the draws made so far, and
    a draw is made only when some slot is occupied. *)
Definition removeRandomVolumeBlock `{MathEnv} (this : t) (rng : nat)
    (heap : list VolumeBlock.t)
  : option nat * t * list VolumeBlock.t * nat :=
  if (length (volumeBlockIndices this) =? 0)%nat then (None, this, heap, rng)
  else
    let '(res, this', heap') :=
      removeVolumeBlock this (pickIndex this (Math_random rng)) heap in
    (res, this', heap', S rng).

(** The glow of the empty slots, the only state [update] animates; the
    constructor sets it to 0, rising. *)
Record Glow := mkGlow { emptySlotGlow : Q; emptySlotGlowDirection : Q }.

Definition newGlow : Glow := mkGlow 0 1.

(** [state && state.player && carriedVolumeBlocks.some(v => v.color ===
    this.color)]; [carried] are the blocks the player carries, [None] when
    there is no current state or no player. *)
Definition playerHasMatchingVolumeBlock (this : t) (carried : option (list nat))
    (heap : list VolumeBlock.t) : bool :=
  match carried with
  | Some bs =>
      existsb (fun b =>
        bool_decide (VolumeBlock.color <$> heap !! b = Some (color this))) bs
  | None => false
  end.

(** [update(deltaTime)] *)
Definition update (deltaTime : Q) (carried : option (list nat))
    (heap : list VolumeBlock.t) (this : t) (glow : Glow) : Glow :=
  if hasEmptySlots this then
    let matching := playerHasMatchingVolumeBlock this carried heap in
    let glowSpeed := if matching then 4 else 2 in
    let maxGlow := if matching then 1 else 7 # 10 in
    let minGlow := if matching then 1 # 2 else 3 # 10 in
    let glow :=
      mkGlow (emptySlotGlow glow
              + emptySlotGlowDirection glow * deltaTime * glowSpeed)
        (emptySlotGlowDirection glow) in
    if Num.geb (emptySlotGlow glow) maxGlow then mkGlow maxGlow (-1)
    else if Num.leb (emptySlotGlow glow) minGlow then mkGlow minGlow 1
    else glow
  else mkGlow 0 (emptySlotGlowDirection glow).

(** Where [renderVolumeBlocks] puts the block of slot [index]: three
    slots per row, rows 24 pixels apart. *)
Definition placeInSlot (this : t) (index : nat) (blk : VolumeBlock.t)
  : VolumeBlock.t :=
  let slotsPerRow := 3%nat in
  let slotWidth := width this / 3 in
  let row := (index / slotsPerRow)%nat in
  let col := (index mod slotsPerRow)%nat in
  let blk :=
    VolumeBlock.set_x
      (x this + inject_Z (Z.of_nat col) * slotWidth
       + (slotWidth - VolumeBlock.width blk) / 2) blk in
  VolumeBlock.set_y (y this + 24 + inject_Z (Z.of_nat row) * 24) blk.

(** One round of the [forEach] of [renderVolumeBlocks], without the
    drawing: a slot whose block is not shelved on this shelf is cleared,
    the block of a valid slot is put in its place.  A reference always
    points to a block; the model skips a slot whose reference does not. *)
Definition renderSlot (self : nat) (st : t * list VolumeBlock.t)
    (index : nat) : t * list VolumeBlock.t :=
  let '(this, heap) := st in
  match mjoin (volumeBlocks this !! index) with
  | None => st
  | Some volumeBlock =>
      match heap !! volumeBlock with
      | None => st
      | Some blk =>
          if negb (VolumeBlock.isShelved blk)
             || negb (bool_decide (VolumeBlock.shelf blk = Some self))
          then (set_volumeBlocks (<[index := None]> (volumeBlocks this)) this,
                heap)
          else (this, alter (placeInSlot this index) volumeBlock heap)
      end
  end.

(** What [renderVolumeBlocks(ctx)] does to the shelf and the blocks;
    [self] is the reference to this shelf. *)
Definition renderVolumeBlocks (self : nat) (this : t)
    (heap : list VolumeBlock.t) : t * list VolumeBlock.t :=
  foldl (renderSlot self) (this, heap) (seq 0 (length (volumeBlocks this))).
End Shelf.

(** ** Player *)

Module Player.
Local Open Scope Q_scope.

(** Modelled from the spec: Player.js is absent.  Section 3: the "stat
    block (pickup radius, return radius, carry-slot count, stamina,
    chaos-dampening, XP multiplier)", with the names PlayingState.js
    reads. *)
Record Stats := mkStats {
  pickupRadius : Q;
  returnRadius : Q;
  carrySlots : nat;
  stamina : Q;
  maxStamina : Q;
  chaosDampening : Q;
  xpMultiplier : Q
}.

(** Modelled from the spec: Player.js is absent.  Section 3: position,
    stat block and the ordered collection of carried blocks; the radius
    PlayingState.js reads for snatching is [repelRadius]. *)
Record t := mk {
  x : Q; y : Q; width : Q; height : Q;
  stats : Stats;
  repelRadius : Q;
  carriedVolumeBlocks : list nat
}.

(** Field updates. *)
Definition set_stamina v (r : Stats) : Stats := mkStats (pickupRadius r)
    (returnRadius r) (carrySlots r) v (maxStamina r) (chaosDampening r)
    (xpMultiplier r).
Definition set_stats v (r : t) : t := mk (x r) (y r) (width r) (height r) v
    (repelRadius r) (carriedVolumeBlocks r).
Definition set_carriedVolumeBlocks v (r : t) : t := mk (x r) (y r) (width r)
    (height r) (stats r) (repelRadius r) v.

(** Modelled from the spec: Entity.js is absent; the horizontal centre of
    the bounding box of an entity. *)
Definition getCenterX (this : t) : Q := x this + width this / 2.

(** Modelled from the spec: Entity.js is absent; the vertical centre of
    the bounding box of an entity. *)
Definition getCenterY (this : t) : Q := y this + height this / 2.

(** Modelled from the spec: Player.js is absent.  Section 3: the player
    has an "ordered collection of carried Blocks (bounded by carry-slot
    count)"; the call sites use the boolean result. *)
Definition pickupVolumeBlock (this : t) (volumeBlock : nat) : bool * t :=
  if (length (carriedVolumeBlocks this) <? carrySlots (stats this))%nat
  then (true, set_carriedVolumeBlocks
                (carriedVolumeBlocks this ++ [volumeBlock]) this)
  else (false, this).

(** The first carried block of the given colour, and the others. *)
Fixpoint takeMatching (c : Color) (heap : list VolumeBlock.t)
    (carried : list nat) : option nat * list nat :=
  match carried with
  | [] => (None, [])
  | b :: rest =>
      if bool_decide (VolumeBlock.color <$> heap !! b = Some c)
      then (Some b, rest)
      else let '(res, rest') := takeMatching c heap rest in (res, b :: rest')
  end.

(** Modelled from the spec: Player.js is absent.  Section 2 lists
    "pickup/drop/shelve actions" and blocks return to colour-matched
    shelves: the first carried block of the shelf's colour leaves the
    carried collection and is handed to the caller; [None] when the
    player carries no such block. *)
Definition shelveVolumeBlock (this : t) (shelfColor : Color)
    (heap : list VolumeBlock.t) : option nat * t :=
  let '(res, rest) := takeMatching shelfColor heap (carriedVolumeBlocks this) in
  (res, set_carriedVolumeBlocks rest this).

(** Modelled from the spec: Player.js is absent; the XP multiplier is one
    of the player's stats (section 3). *)
Definition getXPMultiplier (this : t) : Q := xpMultiplier (stats this).

(** Modelled from the spec: Player.js is absent.  The player's own
    per-tick update (input, movement, stamina, dropping blocks) is an
    interface: it may change the player and the blocks. *)
Class Controls := {
  update : Q -> t -> list VolumeBlock.t -> t * list VolumeBlock.t
}.

(** Modelled from the spec: Player.js is absent.  The constructor
    [new Player(game, x, y)] is an interface: the stat block a player
    starts with is not in the sources. *)
Class Spawn := {
  new : Q -> Q -> t
}.
End Player.

(** Discrete cues sent to the audio collaborator. *)
Inductive Cue := LaughCue (spriteType : Z) | PickupCue | ShelfCue.

(** ** Kid *)

Module Kid.
Local Open Scope Q_scope.
Local Open Scope js_scope.

Inductive State := wandering | fleeing | stealing.

#[global] Instance State_eq_dec : EqDecision State.
Proof. solve_decision. Defined.

Record t := mk {
  x : Q; y : Q; width : Q; height : Q; vx : Q; vy : Q;
  aggressionLevel : Z;
  spriteType : Z;
  speed : Q;
  fleeSpeed : Q;
  direction : Q;
  directionChangeTimer : Q;
  directionChangeInterval : Q;
  state : State;
  target : option nat;
  carriedVolumeBlock : option nat;
  volumeBlockStealCooldown : Q;
  volumeBlockStealCooldownTime : Q;
  dropVolumeBlockTimer : Q;
  grabDelay : Q;
  grabDelayTime : Q;
  dropVolumeBlockMinTime : Q;
  dropVolumeBlockMaxTime : Q;
  shelfDetectionRange : Q;
  playerDetectionRange : Q;
  stuckTimer : Q;
  hasPlayedLaughSound : bool;
  fleeTimer : option Q
}.

(** Field updates. *)
Definition set_x v (r : t) : t := mk v (y r) (width r) (height r) (vx r)
    (vy r) (aggressionLevel r) (spriteType r) (speed r) (fleeSpeed r)
    (direction r) (directionChangeTimer r) (directionChangeInterval r)
    (state r) (target r) (carriedVolumeBlock r) (volumeBlockStealCooldown r)
    (volumeBlockStealCooldownTime r) (dropVolumeBlockTimer r) (grabDelay r)
    (grabDelayTime r) (dropVolumeBlockMinTime r) (dropVolumeBlockMaxTime r)
    (shelfDetectionRange r) (playerDetectionRange r) (stuckTimer r)
    (hasPlayedLaughSound r) (fleeTimer r).
Definition set_y v (r : t) : t := mk (x r) v (width r) (height r) (vx r)
    (vy r) (aggressionLevel r) (spriteType r) (speed r) (fleeSpeed r)
    (direction r) (directionChangeTimer r) (directionChangeInterval r)
    (state r) (target r) (carriedVolumeBlock r) (volumeBlockStealCooldown r)
    (volumeBlockStealCooldownTime r) (dropVolumeBlockTimer r) (grabDelay r)
    (grabDelayTime r) (dropVolumeBlockMinTime r) (dropVolumeBlockMaxTime r)
    (shelfDetectionRange r) (playerDetectionRange r) (stuckTimer r)
    (hasPlayedLaughSound r) (fleeTimer r).
Definition set_vx v (r : t) : t := mk (x r) (y r) (width r) (height r) v
    (vy r) (aggressionLevel r) (spriteType r) (speed r) (fleeSpeed r)
    (direction r) (directionChangeTimer r) (directionChangeInterval r)
    (state r) (target r) (carriedVolumeBlock r) (volumeBlockStealCooldown r)
    (volumeBlockStealCooldownTime r) (dropVolumeBlockTimer r) (grabDelay r)
    (grabDelayTime r) (dropVolumeBlockMinTime r) (dropVolumeBlockMaxTime r)
    (shelfDetectionRange r) (playerDetectionRange r) (stuckTimer r)
    (hasPlayedLaughSound r) (fleeTimer r).
Definition set_vy v (r : t) : t := mk (x r) (y r) (width r) (height r)
    (vx r) v (aggressionLevel r) (spriteType r) (speed r) (fleeSpeed r)
    (direction r) (directionChangeTimer r) (directionChangeInterval r)
    (state r) (target r) (carriedVolumeBlock r) (volumeBlockStealCooldown r)
    (volumeBlockStealCooldownTime r) (dropVolumeBlockTimer r) (grabDelay r)
    (grabDelayTime r) (dropVolumeBlockMinTime r) (dropVolumeBlockMaxTime r)
    (shelfDetectionRange r) (playerDetectionRange r) (stuckTimer r)
    (hasPlayedLaughSound r) (fleeTimer r).
Definition set_direction v (r : t) : t := mk (x r) (y r) (width r)
    (height r) (vx r) (vy r) (aggressionLevel r) (spriteType r) (speed r)
    (fleeSpeed r) v (directionChangeTimer r) (directionChangeInterval r)
    (state r) (target r) (carriedVolumeBlock r) (volumeBlockStealCooldown r)
    (volumeBlockStealCooldownTime r) (dropVolumeBlockTimer r) (grabDelay r)
    (grabDelayTime r) (dropVolumeBlockMinTime r) (dropVolumeBlockMaxTime r)
    (shelfDetectionRange r) (playerDetectionRange r) (stuckTimer r)
    (hasPlayedLaughSound r) (fleeTimer r).
Definition set_directionChangeTimer v (r : t) : t := mk (x r) (y r)
    (width r) (height r) (vx r) (vy r) (aggressionLevel r) (spriteType r)
    (speed r) (fleeSpeed r) (direction r) v (directionChangeInterval r)
    (state r) (target r) (carriedVolumeBlock r) (volumeBlockStealCooldown r)
    (volumeBlockStealCooldownTime r) (dropVolumeBlockTimer r) (grabDelay r)
    (grabDelayTime r) (dropVolumeBlockMinTime r) (dropVolumeBlockMaxTime r)
    (shelfDetectionRange r) (playerDetectionRange r) (stuckTimer r)
    (hasPlayedLaughSound r) (fleeTimer r).
Definition set_state v (r : t) : t := mk (x r) (y r) (width r) (height r)
    (vx r) (vy r) (aggressionLevel r) (spriteType r) (speed r) (fleeSpeed r)
    (direction r) (directionChangeTimer r) (directionChangeInterval r) v
    (target r) (carriedVolumeBlock r) (volumeBlockStealCooldown r)
    (volumeBlockStealCooldownTime r) (dropVolumeBlockTimer r) (grabDelay r)
    (grabDelayTime r) (dropVolumeBlockMinTime r) (dropVolumeBlockMaxTime r)
    (shelfDetectionRange r) (playerDetectionRange r) (stuckTimer r)
    (hasPlayedLaughSound r) (fleeTimer r).
Definition set_target v (r : t) : t := mk (x r) (y r) (width r) (height r)
    (vx r) (vy r) (aggressionLevel r) (spriteType r) (speed r) (fleeSpeed r)
    (direction r) (directionChangeTimer r) (directionChangeInterval r)
    (state r) v (carriedVolumeBlock r) (volumeBlockStealCooldown r)
    (volumeBlockStealCooldownTime r) (dropVolumeBlockTimer r) (grabDelay r)
    (grabDelayTime r) (dropVolumeBlockMinTime r) (dropVolumeBlockMaxTime r)
    (shelfDetectionRange r) (playerDetectionRange r) (stuckTimer r)
    (hasPlayedLaughSound r) (fleeTimer r).
Definition set_carriedVolumeBlock v (r : t) : t := mk (x r) (y r) (width r)
    (height r) (vx r) (vy r) (aggressionLevel r) (spriteType r) (speed r)
    (fleeSpeed r) (direction r) (directionChangeTimer r)
    (directionChangeInterval r) (state r) (target r) v
    (volumeBlockStealCooldown r) (volumeBlockStealCooldownTime r)
    (dropVolumeBlockTimer r) (grabDelay r) (grabDelayTime r)
    (dropVolumeBlockMinTime r) (dropVolumeBlockMaxTime r)
    (shelfDetectionRange r) (playerDetectionRange r) (stuckTimer r)
    (hasPlayedLaughSound r) (fleeTimer r).
Definition set_volumeBlockStealCooldown v (r : t) : t := mk (x r) (y r)
    (width r) (height r) (vx r) (vy r) (aggressionLevel r) (spriteType r)
    (speed r) (fleeSpeed r) (direction r) (directionChangeTimer r)
    (directionChangeInterval r) (state r) (target r) (carriedVolumeBlock r)
    v (volumeBlockStealCooldownTime r) (dropVolumeBlockTimer r)
    (grabDelay r) (grabDelayTime r) (dropVolumeBlockMinTime r)
    (dropVolumeBlockMaxTime r) (shelfDetectionRange r)
    (playerDetectionRange r) (stuckTimer r) (hasPlayedLaughSound r)
    (fleeTimer r).
Definition set_dropVolumeBlockTimer v (r : t) : t := mk (x r) (y r)
    (width r) (height r) (vx r) (vy r) (aggressionLevel r) (spriteType r)
    (speed r) (fleeSpeed r) (direction r) (directionChangeTimer r)
    (directionChangeInterval r) (state r) (target r) (carriedVolumeBlock r)
    (volumeBlockStealCooldown r) (volumeBlockStealCooldownTime r) v
    (grabDelay r) (grabDelayTime r) (dropVolumeBlockMinTime r)
    (dropVolumeBlockMaxTime r) (shelfDetectionRange r)
    (playerDetectionRange r) (stuckTimer r) (hasPlayedLaughSound r)
    (fleeTimer r).
Definition set_grabDelay v (r : t) : t := mk (x r) (y r) (width r)
    (height r) (vx r) (vy r) (aggressionLevel r) (spriteType r) (speed r)
    (fleeSpeed r) (direction r) (directionChangeTimer r)
    (directionChangeInterval r) (state r) (target r) (carriedVolumeBlock r)
    (volumeBlockStealCooldown r) (volumeBlockStealCooldownTime r)
    (dropVolumeBlockTimer r) v (grabDelayTime r) (dropVolumeBlockMinTime r)
    (dropVolumeBlockMaxTime r) (shelfDetectionRange r)
    (playerDetectionRange r) (stuckTimer r) (hasPlayedLaughSound r)
    (fleeTimer r).
Definition set_stuckTimer v (r : t) : t := mk (x r) (y r) (width r)
    (height r) (vx r) (vy r) (aggressionLevel r) (spriteType r) (speed r)
    (fleeSpeed r) (direction r) (directionChangeTimer r)
    (directionChangeInterval r) (state r) (target r) (carriedVolumeBlock r)
    (volumeBlockStealCooldown r) (volumeBlockStealCooldownTime r)
    (dropVolumeBlockTimer r) (grabDelay r) (grabDelayTime r)
    (dropVolumeBlockMinTime r) (dropVolumeBlockMaxTime r)
    (shelfDetectionRange r) (playerDetectionRange r) v
    (hasPlayedLaughSound r) (fleeTimer r).
Definition set_hasPlayedLaughSound v (r : t) : t := mk (x r) (y r) (width r)
    (height r) (vx r) (vy r) (aggressionLevel r) (spriteType r) (speed r)
    (fleeSpeed r) (direction r) (directionChangeTimer r)
    (directionChangeInterval r) (state r) (target r) (carriedVolumeBlock r)
    (volumeBlockStealCooldown r) (volumeBlockStealCooldownTime r)
    (dropVolumeBlockTimer r) (grabDelay r) (grabDelayTime r)
    (dropVolumeBlockMinTime r) (dropVolumeBlockMaxTime r)
    (shelfDetectionRange r) (playerDetectionRange r) (stuckTimer r) v
    (fleeTimer r).
Definition set_fleeTimer v (r : t) : t := mk (x r) (y r) (width r)
    (height r) (vx r) (vy r) (aggressionLevel r) (spriteType r) (speed r)
    (fleeSpeed r) (direction r) (directionChangeTimer r)
    (directionChangeInterval r) (state r) (target r) (carriedVolumeBlock r)
    (volumeBlockStealCooldown r) (volumeBlockStealCooldownTime r)
    (dropVolumeBlockTimer r) (grabDelay r) (grabDelayTime r)
    (dropVolumeBlockMinTime r) (dropVolumeBlockMaxTime r)
    (shelfDetectionRange r) (playerDetectionRange r) (stuckTimer r)
    (hasPlayedLaughSound r) v.

(** What a kid reaches through [this.game] and the current playing state:
    the player, the shelves, the blocks, the world bounds, the
    [kidsRepelled] counter of the game data, the audio collaborator and
    the random source.  A kid never reaches another kid. *)
Record World := mkWorld {
  player : option Player.t;
  shelves : list Shelf.t;
  volumeBlocks : list VolumeBlock.t;
  worldWidth : Q;
  worldHeight : Q;
  kidsRepelled : nat;
  cues : list Cue;
  rng : nat
}.

(** Field updates. *)
Definition set_shelves v (r : World) : World := mkWorld (player r) v
    (volumeBlocks r) (worldWidth r) (worldHeight r) (kidsRepelled r)
    (cues r) (rng r).
Definition set_volumeBlocks v (r : World) : World := mkWorld (player r)
    (shelves r) v (worldWidth r) (worldHeight r) (kidsRepelled r) (cues r)
    (rng r).
Definition set_kidsRepelled v (r : World) : World := mkWorld (player r)
    (shelves r) (volumeBlocks r) (worldWidth r) (worldHeight r) v (cues r)
    (rng r).
Definition set_cues v (r : World) : World := mkWorld (player r) (shelves r)
    (volumeBlocks r) (worldWidth r) (worldHeight r) (kidsRepelled r) v
    (rng r).
Definition set_rng v (r : World) : World := mkWorld (player r) (shelves r)
    (volumeBlocks r) (worldWidth r) (worldHeight r) (kidsRepelled r)
    (cues r) v.

Section Methods.
Context `{MathEnv}.

(** [Math.random()] *)
Definition random (w : World) : Q * World :=
  (Math_random (rng w), set_rng (S (rng w)) w).

(** Modelled from the spec: Entity.js is absent; the horizontal centre of
    the bounding box of an entity. *)
Definition getCenterX (this : t) : Q := x this + width this / 2.

(** Modelled from the spec: Entity.js is absent; the vertical centre of
    the bounding box of an entity. *)
Definition getCenterY (this : t) : Q := y this + height this / 2.

(** [getDistanceTo(entity)], given the centre of the entity. *)
Definition getDistanceTo (this : t) (centerX centerY : Q) : Q :=
  let dx := getCenterX this - centerX in
  let dy := getCenterY this - centerY in
  Math_sqrt (dx * dx + dy * dy).

(** [this.getDistanceTo(player)] *)
Definition distanceToPlayer (this : t) (p : Player.t) : Q :=
  getDistanceTo this (Player.getCenterX p) (Player.getCenterY p).

(** [this.getDistanceTo(shelf)] *)
Definition distanceToShelf (this : t) (s : Shelf.t) : Q :=
  getDistanceTo this (Shelf.getCenterX s) (Shelf.getCenterY s).

(** [checkCollision(x, y, entity)] for a kid of the given size. *)
Definition collides (w h : Q) (x y : Q) (entity : Shelf.t) : bool :=
  match Shelf.collisionBox entity with
  | None => false
  | Some box =>
      let kidLeft := x in
      let kidRight := x + w in
      let kidTop := y in
      let kidBottom := y + h in
      let entityLeft := Shelf.x entity + Shelf.offsetX box in
      let entityRight := entityLeft + Shelf.boxWidth box in
      let entityTop := Shelf.y entity + Shelf.offsetY box in
      let entityBottom := entityTop + Shelf.boxHeight box in
      negb ((kidLeft >=? entityRight) || (kidRight <=? entityLeft)
            || (kidTop >=? entityBottom) || (kidBottom <=? entityTop))
  end.

(** [checkCollision(x, y, entity)] *)
Definition checkCollision (this : t) (x y : Q) (entity : Shelf.t) : bool :=
  collides (width this) (height this) x y entity.

(** [isNearShelf(shelf, distance)] *)
Definition isNearShelf (this : t) (shelf : Shelf.t) (distance : Q) : bool :=
  let kidLeft := x this in
  let kidRight := x this + width this in
  let kidTop := y this in
  let kidBottom := y this + height this in
  let shelfLeft := Shelf.x shelf in
  let shelfRight := Shelf.x shelf + Shelf.width shelf in
  let shelfTop := Shelf.y shelf in
  let shelfBottom := Shelf.y shelf + Shelf.height shelf in
  let expandedLeft := shelfLeft - distance in
  let expandedRight := shelfRight + distance in
  let expandedTop := shelfTop - distance in
  let expandedBottom := shelfBottom + distance in
  negb ((kidLeft >=? expandedRight) || (kidRight <=? expandedLeft)
        || (kidTop >=? expandedBottom) || (kidBottom <=? expandedTop)).

(** [ensureSafeSpawnPosition()]: a kid created inside a shelf is moved
    to the top left corner. *)
Definition ensureSafeSpawnPosition (w h : Q) (x y : Q)
    (shelves : list Shelf.t) : Q * Q :=
  if existsb (collides w h x y) shelves then (30, 30) else (x, y).

(** [constructor(game, x, y, aggressionLevel)] *)
Definition new (x y : Q) (aggressionLevel : Z) (w : World) : t * World :=
  let '(x, y) := ensureSafeSpawnPosition 48 60 x y (shelves w) in
  let '(r1, w) := random w in
  let spriteType := (Num.floor (r1 * 3) + 1)%Z in
  let tier {A} (easy normal aggressive : A) : A :=
    if (aggressionLevel =? 1)%Z then easy
    else if (aggressionLevel =? 2)%Z then normal else aggressive in
  let '(r2, w) := random w in
  (mk x y 48 60 0 0 aggressionLevel spriteType
      (tier 70 80 90) (tier 100 110 120)
      (r2 * Math_PI * 2) 0 2
      wandering None
      None 0 (tier 2 (3 # 2) 1) 0
      0 (tier 1 (1 # 2) (1 # 5)) (tier 4 3 2) (tier 6 4 3)
      160 120
      0 false None,
   w).

(** The shelf the [target] reference points to. *)
Definition targetShelf (this : t) (w : World) : option Shelf.t :=
  target this ≫= (shelves w !!.).

(** [playLaughingSound()] *)
Definition playLaughingSound (this : t) (w : World) : t * World :=
  if hasPlayedLaughSound this then (this, w)
  else (set_hasPlayedLaughSound true this,
        set_cues (cues w ++ [LaughCue (spriteType this)]) w).

(** [dropVolumeBlock()] *)
Definition dropVolumeBlock (this : t) (w : World) : t * World :=
  match carriedVolumeBlock this with
  | None => (this, w)
  | Some volumeBlock =>
      let '(randomAngle01, w) := random w in
      let '(randomDistance01, w) := random w in
      let '(rvx, w) := random w in
      let '(rvy, w) := random w in
      let place (blk : VolumeBlock.t) : VolumeBlock.t :=
        let blk := VolumeBlock.set_isHeld false blk in
        let blk := VolumeBlock.set_holder None blk in
        let blk := VolumeBlock.set_isShelved false blk in
        let blk := VolumeBlock.set_visible true blk in
        let '(dropX, dropY) :=
          match targetShelf this w with
          | Some shelf =>
              let dropRadius := 180 in
              let randomAngle := randomAngle01 * Math_PI * 2 in
              let randomDistance := randomDistance01 * dropRadius in
              (Shelf.getCenterX shelf + Math_cos randomAngle * randomDistance
                 - VolumeBlock.width blk / 2,
               Shelf.getCenterY shelf + Math_sin randomAngle * randomDistance
                 - VolumeBlock.height blk / 2)
          | None =>
              let dropRadius := 60 in
              let randomAngle := randomAngle01 * Math_PI * 2 in
              let randomDistance := randomDistance01 * dropRadius in
              (getCenterX this + Math_cos randomAngle * randomDistance
                 - VolumeBlock.width blk / 2,
               getCenterY this + Math_sin randomAngle * randomDistance
                 - VolumeBlock.height blk / 2)
          end in
        let '(dropX, dropY) :=
          if Num.truthy (worldWidth w) && Num.truthy (worldHeight w) then
            let margin := 20 in
            (Num.max margin
               (Num.min (worldWidth w - VolumeBlock.width blk - margin) dropX),
             Num.max margin
               (Num.min (worldHeight w - VolumeBlock.height blk - margin) dropY))
          else (dropX, dropY) in
        let blk := VolumeBlock.set_x dropX blk in
        let blk := VolumeBlock.set_y dropY blk in
        let blk := VolumeBlock.set_vx ((rvx - (1 # 2)) * 40) blk in
        VolumeBlock.set_vy ((rvy - (1 # 2)) * 40) blk in
      (set_carriedVolumeBlock None this,
       set_volumeBlocks (alter place volumeBlock (volumeBlocks w)) w)
  end.

(** The collision scan of [applyMovement]: shelves further than
    [checkRadius] on either axis are skipped, and the scan stops as
    soon as both axes are blocked. *)
Fixpoint scanShelves (this : t) (newX newY : Q) (shelves : list Shelf.t)
    (canMoveX canMoveY : bool) : bool * bool :=
  match shelves with
  | [] => (canMoveX, canMoveY)
  | shelf :: rest =>
      let checkRadius := 150 in
      if (Num.abs (Shelf.x shelf - x this) >? checkRadius)
         || (Num.abs (Shelf.y shelf - y this) >? checkRadius)
      then scanShelves this newX newY rest canMoveX canMoveY
      else
        let canMoveX :=
          if canMoveX && checkCollision this newX (y this) shelf
          then false else canMoveX in
        let canMoveY :=
          if canMoveY && checkCollision this (x this) newY shelf
          then false else canMoveY in
        if negb canMoveX && negb canMoveY then (canMoveX, canMoveY)
        else scanShelves this newX newY rest canMoveX canMoveY
  end.

(** [applyMovement(deltaTime)]; the playing state always has its array
    of shelves, so the branch without collision detection is not
    taken. *)
Definition applyMovement (deltaTime : Q) (this : t) (w : World)
  : t * World :=
  let newX := x this + vx this * deltaTime in
  let newY := y this + vy this * deltaTime in
  let '(canMoveX, canMoveY) :=
    scanShelves this newX newY (shelves w) true true in
  let '(this, w) :=
    if canMoveX then (set_x newX this, w)
    else
      let this := set_vx (- vx this * (3 # 10)) this in
      match state this with
      | wandering =>
          let '(r, w) := random w in
          (set_direction
             (Math_PI - direction this + (r - (1 # 2)) * (1 # 2)) this, w)
      | _ => (this, w)
      end in
  let '(this, w) :=
    if canMoveY then (set_y newY this, w)
    else
      let this := set_vy (- vy this * (3 # 10)) this in
      match state this with
      | wandering =>
          let '(r, w) := random w in
          (set_direction (- direction this + (r - (1 # 2)) * (1 # 2)) this, w)
      | _ => (this, w)
      end in
  if negb canMoveX && negb canMoveY
     && bool_decide (state this = wandering)
  then
    let '(r, w) := random w in
    let this := set_direction (r * Math_PI * 2) this in
    let this := set_vx (Math_cos (direction this) * speed this * (1 # 2)) this in
    let this := set_vy (Math_sin (direction this) * speed this * (1 # 2)) this in
    (this, w)
  else (this, w).

(** The proximity test shared by [updateWandering] and
    [updateStealing]: the player exists and is closer than
    [playerDetectionRange]. *)
Definition playerInRange (this : t) (w : World) : bool :=
  match player w with
  | Some p => distanceToPlayer this p <? playerDetectionRange this
  | None => false
  end.

(** The body of that test: count the repelled kid, flee, laugh once. *)
Definition startFleeing (this : t) (w : World) : t * World :=
  let w :=
    if bool_decide (state this <> fleeing)
    then set_kidsRepelled (S (kidsRepelled w)) w else w in
  let this := set_state fleeing this in
  playLaughingSound this w.

(** [shelf.volumeBlocks.some(v => v !== null)] *)
Definition hasStock (shelf : Shelf.t) : bool :=
  existsb notNull (Shelf.volumeBlocks shelf).

(** First loop of [updateWandering]: the first shelf, in array order,
    that is within [shelfDetectionRange] and has stock. *)
Fixpoint findStealTarget (this : t) (i : nat) (shelves : list Shelf.t)
  : option nat :=
  match shelves with
  | [] => None
  | shelf :: rest =>
      if (Num.abs (Shelf.x shelf - x this) >? shelfDetectionRange this)
         || (Num.abs (Shelf.y shelf - y this) >? shelfDetectionRange this)
      then findStealTarget this (S i) rest
      else if (distanceToShelf this shelf <? shelfDetectionRange this)
              && hasStock shelf
      then Some i
      else findStealTarget this (S i) rest
  end.

(** Second loop of [updateWandering]: the nearest shelf with stock;
    [None] as distance stands for [Infinity]. *)
Fixpoint findNearestShelf (this : t) (shelves : list Shelf.t)
    (nearestShelf : option Shelf.t) (nearestDist : option Q)
  : option Shelf.t :=
  match shelves with
  | [] => nearestShelf
  | shelf :: rest =>
      if hasStock shelf then
        let dist := distanceToShelf this shelf in
        if match nearestDist with
           | None => true
           | Some d => dist <? d
           end
        then findNearestShelf this rest (Some shelf) (Some dist)
        else findNearestShelf this rest nearestShelf nearestDist
      else findNearestShelf this rest nearestShelf nearestDist
  end.

(** Heading towards the centre of the world, with a random nudge. *)
Definition headToCenter (this : t) (w : World) : t * World :=
  let centerX := worldWidth w / 2 in
  let centerY := worldHeight w / 2 in
  let dx := centerX - getCenterX this in
  let dy := centerY - getCenterY this in
  let '(r, w) := random w in
  (set_direction (Math_atan2 dy dx + (r - (1 # 2)) * (1 # 2)) this, w).

(** The heading of a wandering kid with no shelf to steal from in reach.
    A kid that seeks ([seeking]: nothing in hand, cooldown over) heads for
    the nearest shelf with stock, or now and then for the centre when no
    shelf has stock; another kid now and then turns away from its last
    target, or at random when it has none. *)
Definition chooseHeading (deltaTime : Q) (seeking : bool) (this : t)
    (w : World) : t * World :=
  if seeking && (0 <? length (shelves w))%nat then
    match findNearestShelf this (shelves w) None None with
    | Some nearestShelf =>
        let dx := Shelf.getCenterX nearestShelf - getCenterX this in
        let dy := Shelf.getCenterY nearestShelf - getCenterY this in
        (set_direction (Math_atan2 dy dx) this, w)
    | None =>
        let this :=
          set_directionChangeTimer
            (directionChangeTimer this - deltaTime) this in
        if directionChangeTimer this <=? 0 then
          let '(this, w) := headToCenter this w in
          (set_directionChangeTimer 1 this, w)
        else (this, w)
    end
  else
    let this :=
      set_directionChangeTimer
        (directionChangeTimer this - deltaTime) this in
    if directionChangeTimer this <=? 0 then
      let '(this, w) :=
        match targetShelf this w with
        | Some shelf =>
            let dx := getCenterX this - Shelf.getCenterX shelf in
            let dy := getCenterY this - Shelf.getCenterY shelf in
            let '(r, w) := random w in
            (set_direction
               (Math_atan2 dy dx + (r - (1 # 2)) * Math_PI / 2) this,
             w)
        | None =>
            let '(r, w) := random w in
            (set_direction (r * Math_PI * 2) this, w)
        end in
      (set_directionChangeTimer (3 # 2) this, w)
    else (this, w).

(** Near the edges of the world the kid turns towards the centre. *)
Definition turnAtEdges (this : t) (w : World) : t * World :=
  if Num.truthy (worldWidth w) && Num.truthy (worldHeight w) then
    let margin := 20 in
    if (x this <=? margin)
       || (x this >=? worldWidth w - width this - margin)
       || (y this <=? margin)
       || (y this >=? worldHeight w - height this - margin)
    then headToCenter this w
    else (this, w)
  else (this, w).

(** [updateWandering(deltaTime)] *)
Definition updateWandering (deltaTime : Q) (this : t) (w : World)
  : t * World :=
  if playerInRange this w then startFleeing this w
  else
    let seeking :=
      negb (notNull (carriedVolumeBlock this))
      && (volumeBlockStealCooldown this <=? 0) in
    match (if seeking then findStealTarget this 0 (shelves w) else None) with
    | Some shelf => (set_state stealing (set_target (Some shelf) this), w)
    | None =>
        let '(this, w) := chooseHeading deltaTime seeking this w in
        let this := set_vx (Math_cos (direction this) * speed this) this in
        let this := set_vy (Math_sin (direction this) * speed this) this in
        let '(this, w) := turnAtEdges this w in
        applyMovement deltaTime this w
    end.

(** [!this.fleeTimer]: unset, or zero. *)
Definition fleeTimerUnset (this : t) : bool :=
  match fleeTimer this with
  | None => true
  | Some v => negb (Num.truthy v)
  end.

(** [updateFleeing(deltaTime)] *)
Definition updateFleeing (deltaTime : Q) (this : t) (w : World)
  : t * World :=
  match player w with
  | None =>
      let this := set_vx (Math_cos (direction this) * fleeSpeed this) this in
      let this := set_vy (Math_sin (direction this) * fleeSpeed this) this in
      let '(this, w) := applyMovement deltaTime this w in
      let timer := if fleeTimerUnset this then 1
                   else default 0 (fleeTimer this) in
      let timer := timer - deltaTime in
      if timer <=? 0 then
        (set_hasPlayedLaughSound false
           (set_state wandering (set_fleeTimer None this)), w)
      else (set_fleeTimer (Some timer) this, w)
  | Some p =>
      let distToPlayer := distanceToPlayer this p in
      if distToPlayer >? playerDetectionRange this * (3 # 2) then
        (set_hasPlayedLaughSound false (set_state wandering this), w)
      else
        let dx := getCenterX this - Player.getCenterX p in
        let dy := getCenterY this - Player.getCenterY p in
        let dist := Math_sqrt (dx * dx + dy * dy) in
        let this :=
          if dist >? 0 then
            set_vy ((dy / dist) * fleeSpeed this)
              (set_vx ((dx / dist) * fleeSpeed this) this)
          else this in
        let '(this, w) := applyMovement deltaTime this w in
        match carriedVolumeBlock this with
        | Some _ =>
            let '(r, w) := random w in
            if r <? 2 * deltaTime then dropVolumeBlock this w
            else (this, w)
        | None => (this, w)
        end
  end.

(** The floor-drop branch of [updateStealing]: the block lands within
    [dropRadius] of the centre of the shelf it came from. *)
Definition knockToFloor (shelf : Shelf.t)
    (randomAngle01 randomDistance01 rvx rvy : Q) (blk : VolumeBlock.t)
  : VolumeBlock.t :=
  let dropRadius := 150 in
  let randomAngle := randomAngle01 * Math_PI * 2 in
  let randomDistance := randomDistance01 * dropRadius in
  let blk :=
    VolumeBlock.set_x
      (Shelf.getCenterX shelf + Math_cos randomAngle * randomDistance
         - VolumeBlock.width blk / 2) blk in
  let blk :=
    VolumeBlock.set_y
      (Shelf.getCenterY shelf + Math_sin randomAngle * randomDistance
         - VolumeBlock.height blk / 2) blk in
  let blk := VolumeBlock.set_vx ((rvx - (1 # 2)) * 60) blk in
  let blk := VolumeBlock.set_vy ((rvy - (1 # 2)) * 60) blk in
  VolumeBlock.set_visible true blk.

(** The carry branch of [updateStealing]; [self] refers to this kid. *)
Definition carryAway (self : nat) (blk : VolumeBlock.t) : VolumeBlock.t :=
  VolumeBlock.set_visible true
    (VolumeBlock.set_holder (Some (HKid self))
       (VolumeBlock.set_isHeld true blk)).

(** The grab of [updateStealing], once the grab delay has elapsed. *)
Definition grab (self : nat) (targetRef : nat) (shelf : Shelf.t)
    (this : t) (w : World) : t * World :=
  let '(res, shelf', heap', rng') :=
    Shelf.removeRandomVolumeBlock shelf (rng w) (volumeBlocks w) in
  let w :=
    set_rng rng'
      (set_volumeBlocks heap'
         (set_shelves (<[targetRef := shelf']> (shelves w)) w)) in
  let '(this, w) :=
    match res with
    | Some volumeBlock =>
        let '(r, w) := random w in
        let '(this, w) :=
          if r <? (1 # 2) then
            let '(randomAngle01, w) := random w in
            let '(randomDistance01, w) := random w in
            let '(rvx, w) := random w in
            let '(rvy, w) := random w in
            (this,
             set_volumeBlocks
               (alter (knockToFloor shelf randomAngle01 randomDistance01
                         rvx rvy) volumeBlock (volumeBlocks w)) w)
          else
            (set_carriedVolumeBlock (Some volumeBlock) this,
             set_volumeBlocks
               (alter (carryAway self) volumeBlock (volumeBlocks w)) w) in
        let this :=
          set_volumeBlockStealCooldown
            (volumeBlockStealCooldownTime this) this in
        (set_state fleeing this, w)
    | None =>
        (set_volumeBlockStealCooldown 1 (set_state wandering this), w)
    end in
  (set_grabDelay 0 (set_target None this), w).

(** [updateStealing(deltaTime)] *)
Definition updateStealing (self : nat) (deltaTime : Q) (this : t)
    (w : World) : t * World :=
  match target this, targetShelf this w with
  | Some targetRef, Some shelf =>
      if notNull (carriedVolumeBlock this) then (set_state wandering this, w)
      else if playerInRange this w then startFleeing this w
      else
        let dx := Shelf.getCenterX shelf - getCenterX this in
        let dy := Shelf.getCenterY shelf - getCenterY this in
        let dist := Math_sqrt (dx * dx + dy * dy) in
        if negb (isNearShelf this shelf 5) then
          let this := set_vx ((dx / dist) * speed this) this in
          let this := set_vy ((dy / dist) * speed this) this in
          applyMovement deltaTime this w
        else
          let this :=
            if grabDelay this <=? 0
            then set_grabDelay (grabDelayTime this) this else this in
          let this := set_grabDelay (grabDelay this - deltaTime) this in
          if grabDelay this <=? 0 then grab self targetRef shelf this w
          else (this, w)
  | _, _ => (set_state wandering this, w)
  end.

(** The stuck detector of [update]: a kid that barely moves for more than
    a second takes a random heading. *)
Definition checkStuck (deltaTime : Q) (this : t) (w : World) : t * World :=
  if (Num.abs (vx this) <? (1 # 10)) && (Num.abs (vy this) <? (1 # 10))
  then
    let this := set_stuckTimer (stuckTimer this + deltaTime) this in
    if stuckTimer this >? 1 then
      let '(r, w) := random w in
      (set_stuckTimer 0 (set_direction (r * Math_PI * 2) this), w)
    else (this, w)
  else (set_stuckTimer 0 this, w).

(** The carry timer of [update]: a carried block is dropped once it has
    been carried for longer than a random time between
    [dropVolumeBlockMinTime] and [dropVolumeBlockMaxTime], and the kid goes
    back to wandering. *)
Definition checkCarryTimer (deltaTime : Q) (this : t) (w : World)
  : t * World :=
  match carriedVolumeBlock this with
  | Some _ =>
      let this :=
        set_dropVolumeBlockTimer
          (dropVolumeBlockTimer this + deltaTime) this in
      let '(r, w) := random w in
      if dropVolumeBlockTimer this
         >? dropVolumeBlockMinTime this
            + r * (dropVolumeBlockMaxTime this - dropVolumeBlockMinTime this)
      then
        let '(this, w) := dropVolumeBlock this w in
        (set_state wandering (set_dropVolumeBlockTimer 0 this), w)
      else (this, w)
  | None => (this, w)
  end.

(** The end of [update]: the kid is kept within the world bounds. *)
Definition keepInBounds (this : t) (w : World) : t :=
  if Num.truthy (worldWidth w) && Num.truthy (worldHeight w) then
    let this :=
      set_x (Num.max 0 (Num.min (worldWidth w - width this) (x this)))
        this in
    set_y (Num.max 0 (Num.min (worldHeight w - height this) (y this)))
      this
  else this.

(** The state machine of [update]. *)
Definition step (self : nat) (deltaTime : Q) (this : t) (w : World)
  : t * World :=
  match state this with
  | wandering => updateWandering deltaTime this w
  | fleeing => updateFleeing deltaTime this w
  | stealing => updateStealing self deltaTime this w
  end.

(** [update(deltaTime)], without the animation frame and the facing,
    which only the renderer reads. *)
Definition update (self : nat) (deltaTime : Q) (this : t) (w : World)
  : t * World :=
  let this :=
    if volumeBlockStealCooldown this >? 0
    then set_volumeBlockStealCooldown
           (volumeBlockStealCooldown this - deltaTime) this
    else this in
  let '(this, w) := step self deltaTime this w in
  let '(this, w) := checkStuck deltaTime this w in
  let '(this, w) := checkCarryTimer deltaTime this w in
  (keepInBounds this w, w).

(** [getUnstuck()]; the playing state is the current state. *)
Definition getUnstuck (this : t) (w : World) : t * World :=
  let '(this, w) :=
    if Num.truthy (worldWidth w) && Num.truthy (worldHeight w) then
      let centerX := worldWidth w / 2 in
      let centerY := worldHeight w / 2 in
      let dx := centerX - x this in
      let dy := centerY - y this in
      let this := set_direction (Math_atan2 dy dx) this in
      let '(r, w) := random w in
      let this :=
        set_direction (direction this + (r - (1 # 2)) * Math_PI / 4) this in
      let this := set_vx (Math_cos (direction this) * speed this) this in
      let this := set_vy (Math_sin (direction this) * speed this) this in
      let this :=
        if (x this <? 50) || (x this >? worldWidth w - 50 - width this)
           || (y this <? 50) || (y this >? worldHeight w - 50 - height this)
        then
          let this :=
            set_x (Num.max 100
                     (Num.min (worldWidth w - 100 - width this) (x this)))
              this in
          set_y (Num.max 100
                   (Num.min (worldHeight w - 100 - height this) (y this)))
            this
        else this in
      (this, w)
    else (this, w) in
  (set_target None (set_state wandering this), w).
End Methods.
End Kid.

(** ** PlayingState *)

Module PlayingState.
Local Open Scope Q_scope.
Local Open Scope js_scope.

(** Floating "+N XP" text. *)
Record Particle := mkParticle {
  px : Q; py : Q; amount : Z; pvy : Q; lifetime : Q; age : Q
}.

Record Notification := mkNotification {
  active : bool; increase : Z; timer : Q; duration : Q
}.

(** [game.gameData] *)
Record GameData := mkGameData {
  chaosLevel : Q;
  maxChaos : Q;
  playerLevel : nat;
  xp : Z;
  xpToNext : Z;
  elapsedTime : Q;
  targetTime : Q;
  isPaused : bool;
  volumeBlocksCollected : nat;
  volumeBlocksShelved : nat;
  kidsRepelled : nat
}.

(** Field updates. *)
Definition set_chaosLevel v (r : GameData) : GameData := mkGameData v
    (maxChaos r) (playerLevel r) (xp r) (xpToNext r) (elapsedTime r)
    (targetTime r) (isPaused r) (volumeBlocksCollected r)
    (volumeBlocksShelved r) (kidsRepelled r).
Definition set_playerLevel v (r : GameData) : GameData := mkGameData
    (chaosLevel r) (maxChaos r) v (xp r) (xpToNext r) (elapsedTime r)
    (targetTime r) (isPaused r) (volumeBlocksCollected r)
    (volumeBlocksShelved r) (kidsRepelled r).
Definition set_xp v (r : GameData) : GameData := mkGameData (chaosLevel r)
    (maxChaos r) (playerLevel r) v (xpToNext r) (elapsedTime r)
    (targetTime r) (isPaused r) (volumeBlocksCollected r)
    (volumeBlocksShelved r) (kidsRepelled r).
Definition set_xpToNext v (r : GameData) : GameData := mkGameData
    (chaosLevel r) (maxChaos r) (playerLevel r) (xp r) v (elapsedTime r)
    (targetTime r) (isPaused r) (volumeBlocksCollected r)
    (volumeBlocksShelved r) (kidsRepelled r).
Definition set_elapsedTime v (r : GameData) : GameData := mkGameData
    (chaosLevel r) (maxChaos r) (playerLevel r) (xp r) (xpToNext r) v
    (targetTime r) (isPaused r) (volumeBlocksCollected r)
    (volumeBlocksShelved r) (kidsRepelled r).
Definition set_volumeBlocksCollected v (r : GameData) : GameData :=
    mkGameData (chaosLevel r) (maxChaos r) (playerLevel r) (xp r)
    (xpToNext r) (elapsedTime r) (targetTime r) (isPaused r) v
    (volumeBlocksShelved r) (kidsRepelled r).
Definition set_volumeBlocksShelved v (r : GameData) : GameData := mkGameData
    (chaosLevel r) (maxChaos r) (playerLevel r) (xp r) (xpToNext r)
    (elapsedTime r) (targetTime r) (isPaused r) (volumeBlocksCollected r) v
    (kidsRepelled r).
Definition set_kidsRepelled v (r : GameData) : GameData := mkGameData
    (chaosLevel r) (maxChaos r) (playerLevel r) (xp r) (xpToNext r)
    (elapsedTime r) (targetTime r) (isPaused r) (volumeBlocksCollected r)
    (volumeBlocksShelved r) v.

Record t := mk {
  player : option Player.t;
  kids : list Kid.t;
  volumeBlocks : list VolumeBlock.t;
  shelves : list Shelf.t;
  particles : list Particle;
  worldWidth : Q;
  worldHeight : Q;
  kidSpawnTimer : Q;
  kidSpawnInterval : Q;
  maxKids : Z;
  lastMaxKids : Z;
  maxKidsIncreaseNotification : Notification;
  spawnPoints : list (Q * Q)
}.

(** Field updates. *)
Definition set_player v (r : t) : t := mk v (kids r) (volumeBlocks r)
    (shelves r) (particles r) (worldWidth r) (worldHeight r)
    (kidSpawnTimer r) (kidSpawnInterval r) (maxKids r) (lastMaxKids r)
    (maxKidsIncreaseNotification r) (spawnPoints r).
Definition set_kids v (r : t) : t := mk (player r) v (volumeBlocks r)
    (shelves r) (particles r) (worldWidth r) (worldHeight r)
    (kidSpawnTimer r) (kidSpawnInterval r) (maxKids r) (lastMaxKids r)
    (maxKidsIncreaseNotification r) (spawnPoints r).
Definition set_volumeBlocks v (r : t) : t := mk (player r) (kids r) v
    (shelves r) (particles r) (worldWidth r) (worldHeight r)
    (kidSpawnTimer r) (kidSpawnInterval r) (maxKids r) (lastMaxKids r)
    (maxKidsIncreaseNotification r) (spawnPoints r).
Definition set_shelves v (r : t) : t := mk (player r) (kids r)
    (volumeBlocks r) v (particles r) (worldWidth r) (worldHeight r)
    (kidSpawnTimer r) (kidSpawnInterval r) (maxKids r) (lastMaxKids r)
    (maxKidsIncreaseNotification r) (spawnPoints r).
Definition set_particles v (r : t) : t := mk (player r) (kids r)
    (volumeBlocks r) (shelves r) v (worldWidth r) (worldHeight r)
    (kidSpawnTimer r) (kidSpawnInterval r) (maxKids r) (lastMaxKids r)
    (maxKidsIncreaseNotification r) (spawnPoints r).
Definition set_kidSpawnTimer v (r : t) : t := mk (player r) (kids r)
    (volumeBlocks r) (shelves r) (particles r) (worldWidth r)
    (worldHeight r) v (kidSpawnInterval r) (maxKids r) (lastMaxKids r)
    (maxKidsIncreaseNotification r) (spawnPoints r).
Definition set_kidSpawnInterval v (r : t) : t := mk (player r) (kids r)
    (volumeBlocks r) (shelves r) (particles r) (worldWidth r)
    (worldHeight r) (kidSpawnTimer r) v (maxKids r) (lastMaxKids r)
    (maxKidsIncreaseNotification r) (spawnPoints r).
Definition set_maxKids v (r : t) : t := mk (player r) (kids r)
    (volumeBlocks r) (shelves r) (particles r) (worldWidth r)
    (worldHeight r) (kidSpawnTimer r) (kidSpawnInterval r) v (lastMaxKids r)
    (maxKidsIncreaseNotification r) (spawnPoints r).
Definition set_maxKidsIncreaseNotification v (r : t) : t := mk (player r)
    (kids r) (volumeBlocks r) (shelves r) (particles r) (worldWidth r)
    (worldHeight r) (kidSpawnTimer r) (kidSpawnInterval r) (maxKids r)
    (lastMaxKids r) v (spawnPoints r).

(** Requests sent to the state manager. *)
Inductive Signal :=
| PushPaused
| GameOver (won : bool)
| PushUpgradeSelection.

(** The game object a playing state works on: the game data, the playing
    state itself, the requests sent so far to the state manager, the cues
    sent so far to the audio collaborator, and the number of draws made
    from the random source. *)
Record Game := mkGame {
  gameData : GameData;
  currentState : t;
  stateManager : list Signal;
  audio : list Cue;
  rng : nat
}.

(** Field updates. *)
Definition set_gameData v (r : Game) : Game := mkGame v (currentState r)
    (stateManager r) (audio r) (rng r).
Definition set_currentState v (r : Game) : Game := mkGame (gameData r) v
    (stateManager r) (audio r) (rng r).
Definition set_stateManager v (r : Game) : Game := mkGame (gameData r)
    (currentState r) v (audio r) (rng r).
Definition set_audio v (r : Game) : Game := mkGame (gameData r)
    (currentState r) (stateManager r) v (rng r).
Definition set_rng v (r : Game) : Game := mkGame (gameData r)
    (currentState r) (stateManager r) (audio r) v.

Definition initialGameData : GameData :=
  mkGameData 0 100 1 0 100 0 (30 * 60) false 0 0 0.

Definition defaultSpawnPoints : list (Q * Q) :=
  [(500, 400); (1500, 400); (500, 800); (1500, 800);
   (1000, 300); (1000, 900); (300, 600); (1700, 600)].

(** Field updates through the game object. *)
Definition withData (f : GameData -> GameData) (g : Game) : Game :=
  set_gameData (f (gameData g)) g.
Definition withState (f : t -> t) (g : Game) : Game :=
  set_currentState (f (currentState g)) g.

Section Methods.
Context `{MathEnv}.

(** [Math.random()] *)
Definition random (g : Game) : Q * Game :=
  (Math_random (rng g), set_rng (S (rng g)) g).

(** [volumeBlock.isHeld && volumeBlock.holder] and the holder is a kid. *)
Definition heldByKid (b : VolumeBlock.t) : bool :=
  VolumeBlock.isHeld b
  && match VolumeBlock.holder b with
     | Some (HKid _) => true
     | _ => false
     end.

(** The number of blocks that cause chaos: those on the floor and those
    held by a kid. *)
Definition totalChaosVolumeBlocks (g : Game) : nat :=
  let blocks := volumeBlocks (currentState g) in
  let volumeBlocksOnFloor := length (List.filter VolumeBlock.onFloor blocks) in
  let volumeBlocksHeldByKids := length (List.filter heldByKid blocks) in
  (volumeBlocksOnFloor + volumeBlocksHeldByKids)%nat.

(** The accrual rate per block and second, by elapsed minutes. *)
Definition chaosPerVolumeBlock (elapsedTime : Q) : Q :=
  let minutes := elapsedTime / 60 in
  if minutes <? 3 then 5 # 100
  else if minutes <? 5 then 3 # 100
  else 1 # 100.

(** [this.player?.stats?.chaosDampening || 0] *)
Definition chaosDampening (g : Game) : Q :=
  match player (currentState g) with
  | Some p => Player.chaosDampening (Player.stats p)
  | None => 0
  end.

(** [updateChaos(deltaTime)] *)
Definition updateChaos (deltaTime : Q) (g : Game) : Game :=
  let totalChaosVolumeBlocks := totalChaosVolumeBlocks g in
  let g :=
    if (0 <? totalChaosVolumeBlocks)%nat then
      let chaosRate :=
        inject_Z (Z.of_nat totalChaosVolumeBlocks)
        * chaosPerVolumeBlock (elapsedTime (gameData g)) in
      let chaosMultiplier := 1 - chaosDampening g / 100 in
      withData (fun d =>
        set_chaosLevel
          (chaosLevel d + chaosRate * deltaTime * chaosMultiplier) d) g
    else g in
  let g :=
    if chaosLevel (gameData g) >? 0 then
      if (totalChaosVolumeBlocks =? 0)%nat then
        withData (fun d =>
          set_chaosLevel (chaosLevel d - (1 # 10) * deltaTime) d) g
      else g
    else g in
  withData (fun d =>
    set_chaosLevel (Num.max 0 (Num.min (maxChaos d) (chaosLevel d))) d) g.

(** [this.player?.getXPMultiplier() || 1] *)
Definition playerXPMultiplier (g : Game) : Q :=
  match player (currentState g) with
  | Some p =>
      if Num.truthy (Player.getXPMultiplier p)
      then Player.getXPMultiplier p else 1
  | None => 1
  end.

(** [xpMultiplier] of [awardXP], once the early-game boost is applied:
    [if (gameData.elapsedTime < 120) xpMultiplier *= 1.5]. *)
Definition xpMultiplier (g : Game) : Q :=
  let xpMultiplier := playerXPMultiplier g in
  if elapsedTime (gameData g) <? 120 then Num.mul xpMultiplier (3 # 2)
  else xpMultiplier.

(** [Math.floor(100 * Math.pow(1.45, level - 1))] *)
Definition xpRequirement (level : nat) : Z :=
  Num.floor (100 * Qpower (145 # 100) (Z.of_nat level - 1)).

(** The body of the level-up loop of [awardXP]. *)
Definition levelUpStep (g : Game) : Game :=
  let g := withData (fun d => set_xp (xp d - xpToNext d)%Z d) g in
  let g := withData (fun d => set_playerLevel (S (playerLevel d)) d) g in
  let g :=
    withState (fun s =>
      set_player
        (fmap (fun p =>
           Player.set_stats
             (Player.set_stamina (Player.maxStamina (Player.stats p))
                (Player.stats p)) p) (player s)) s) g in
  let g :=
    withData (fun d => set_xpToNext (xpRequirement (playerLevel d)) d) g in
  set_stateManager (stateManager g ++ [PushUpgradeSelection]) g.

(** [while (xp >= xpToNext) ...], at most [fuel] rounds. *)
Fixpoint levelUpLoop (fuel : nat) (g : Game) : Game :=
  match fuel with
  | O => g
  | S fuel' =>
      if (xpToNext (gameData g) <=? xp (gameData g))%Z
      then levelUpLoop fuel' (levelUpStep g)
      else g
  end.

(** A number of rounds the loop never exceeds: the first round leaves
    [xp - xpToNext] points, and every later round costs at least 100. *)
Definition levelUpBound (g : Game) : nat :=
  S (S (Z.to_nat (Z.max (xp (gameData g))
                        (xp (gameData g) - xpToNext (gameData g))))).

Definition levelUp (g : Game) : Game := levelUpLoop (levelUpBound g) g.

(** [Math.floor(amount * xpMultiplier)], the amount [awardXP] grants for
    a base amount. *)
Definition multipliedAmount (amount : Q) (g : Game) : Z :=
  Num.floor (Num.mul amount (xpMultiplier g)).

(** The first half of [awardXP]: the points are added and the floating
    text is created. *)
Definition grantXP (amount : Q) (g : Game) : Game :=
  let multipliedAmount := multipliedAmount amount g in
  let g := withData (fun d => set_xp (xp d + multipliedAmount)%Z d) g in
  match player (currentState g) with
  | Some p =>
      withState (fun s =>
        set_particles
          (particles s
           ++ [mkParticle (Player.getCenterX p) (Player.y p - 10)
                 multipliedAmount (-50) (3 # 2) 0]) s) g
  | None => g
  end.

(** [awardXP(amount)] *)
Definition awardXP (amount : Q) (g : Game) : Game :=
  levelUp (grantXP amount g).

(** The runs of the level-up loop: [levelUpRun g n r] when the loop started
    in [g] makes [n] rounds and leaves [r]. *)
Inductive levelUpRun : Game -> nat -> Game -> Prop :=
| run_exit g :
    (xp (gameData g) < xpToNext (gameData g))%Z ->
    levelUpRun g 0 g
| run_round g n r :
    (xpToNext (gameData g) <= xp (gameData g))%Z ->
    levelUpRun (levelUpStep g) n r ->
    levelUpRun g (S n) r.

(** The view a kid has of the game, and its write-back. *)
Definition kidWorld (g : Game) : Kid.World :=
  let s := currentState g in
  Kid.mkWorld (player s) (shelves s) (volumeBlocks s)
    (worldWidth s) (worldHeight s)
    (kidsRepelled (gameData g)) (audio g) (rng g).

Definition putKidWorld (w : Kid.World) (g : Game) : Game :=
  let g :=
    withState (fun s =>
      set_volumeBlocks (Kid.volumeBlocks w)
        (set_shelves (Kid.shelves w) s)) g in
  let g := withData (set_kidsRepelled (Kid.kidsRepelled w)) g in
  set_rng (Kid.rng w) (set_audio (Kid.cues w) g).

(** The cap on the number of kids the wave system asks for. *)
Definition newMaxKids (elapsedTime : Q) : Z :=
  let minutes := elapsedTime / 60 in
  if minutes <? 1 then 3
  else if minutes <? 3 then 5
  else if minutes <? 5 then 7
  else if minutes <? 10 then 10
  else
    let additionalMinutes := Num.floor (minutes - 10) in
    (10 + additionalMinutes * 2)%Z.

(** The aggression level of a kid spawned now. *)
Definition spawnAggression (elapsedTime : Q) : Z :=
  let minutes := elapsedTime / 60 in
  if minutes >=? 15 then 3
  else if minutes >=? 10 then 3
  else if minutes >=? 5 then 2
  else 1.

(** The spawn point [spawnPoints[Math.floor(r * spawnPoints.length)]]. *)
Definition pickSpawnPoint (points : list (Q * Q)) (r : Q) : option (Q * Q) :=
  let k := Num.floor (r * inject_Z (Z.of_nat (length points))) in
  if (k <? 0)%Z then None else points !! Z.to_nat k.

(** The spawn of [updateKidSpawning], once the timer has expired.  The
    draw of [Math.random()] lies in [0, 1) and the list of spawn points
    is never empty, so the lookup succeeds; the model spawns nothing
    otherwise. *)
Definition spawnKid (g : Game) : Game :=
  let aggressionLevel := spawnAggression (elapsedTime (gameData g)) in
  let spawnInterval := 15 in
  let '(r, g) := random g in
  match pickSpawnPoint (spawnPoints (currentState g)) r with
  | Some spawnPoint =>
      let '(kid, w) :=
        Kid.new (fst spawnPoint) (snd spawnPoint) aggressionLevel
          (kidWorld g) in
      let g := putKidWorld w g in
      withState (fun s =>
        set_kidSpawnInterval spawnInterval
          (set_kidSpawnTimer spawnInterval
             (set_kids (kids s ++ [kid]) s))) g
  | None => g
  end.

(** The wave part of [updateKidSpawning]: the cap is raised when the wave
    system asks for more, which starts the on-screen notification; the
    timer of the notification advances. *)
Definition raiseCap (deltaTime : Q) (g : Game) : Game :=
  let newMaxKids := newMaxKids (elapsedTime (gameData g)) in
  let g :=
    if (maxKids (currentState g) <? newMaxKids)%Z then
      let increase := (newMaxKids - maxKids (currentState g))%Z in
      withState (fun s =>
        set_maxKidsIncreaseNotification (mkNotification true increase 0 3)
          (set_maxKids newMaxKids s)) g
    else g in
  let n := maxKidsIncreaseNotification (currentState g) in
  if active n then
    let n := mkNotification (active n) (increase n)
               (timer n + deltaTime) (duration n) in
    let n := if timer n >=? duration n
             then mkNotification false (increase n) (timer n) (duration n)
             else n in
    withState (set_maxKidsIncreaseNotification n) g
  else g.

(** [updateKidSpawning(deltaTime)] *)
Definition updateKidSpawning (deltaTime : Q) (g : Game) : Game :=
  let g := raiseCap deltaTime g in
  if (maxKids (currentState g) <=? Z.of_nat (length (kids (currentState g))))%Z
  then g
  else
    let g :=
      withState (fun s =>
        set_kidSpawnTimer (kidSpawnTimer s - deltaTime) s) g in
    if kidSpawnTimer (currentState g) <=? 0 then spawnKid g else g.

(** [playPickupSound()] and [playShelfSound()] *)
Definition playPickupSound (g : Game) : Game :=
  set_audio (audio g ++ [PickupCue]) g.
Definition playShelfSound (g : Game) : Game :=
  set_audio (audio g ++ [ShelfCue]) g.

(** [chaosLevel -= amount; chaosLevel = Math.max(0, chaosLevel)] *)
Definition reduceChaos (amount : Q) (g : Game) : Game :=
  withData (fun d =>
    set_chaosLevel (Num.max 0 (chaosLevel d - amount)) d) g.

(** [Math.sqrt(Math.pow(ax - bx, 2) + Math.pow(ay - by, 2))] *)
Definition distance (ax ay bx by_ : Q) : Q :=
  Math_sqrt ((ax - bx) ^ 2 + (ay - by_) ^ 2).

(** One round of the loop of [checkVolumeBlockPickup], for the block at
    index [i]. *)
Definition pickupStep (pickupRadiusPixels playerCenterX playerCenterY : Q)
    (g : Game) (i : nat) : Game :=
  match volumeBlocks (currentState g) !! i, player (currentState g) with
  | Some volumeBlock, Some p =>
      if VolumeBlock.isHeld volumeBlock || VolumeBlock.isShelved volumeBlock
      then g
      else if distance (VolumeBlock.getCenterX volumeBlock)
                (VolumeBlock.getCenterY volumeBlock)
                playerCenterX playerCenterY <=? pickupRadiusPixels
      then
        let '(ok, p) := Player.pickupVolumeBlock p i in
        if ok then
          let g :=
            withState (fun s =>
              set_volumeBlocks
                (alter (VolumeBlock.pickup HPlayer) i (volumeBlocks s))
                (set_player (Some p) s)) g in
          let g :=
            withData (fun d =>
              set_volumeBlocksCollected (S (volumeBlocksCollected d)) d) g in
          let g := reduceChaos (1 # 2) g in
          let g := awardXP 5 g in
          playPickupSound g
        else g
      else g
  | _, _ => g
  end.

(** [checkVolumeBlockPickup()] *)
Definition checkVolumeBlockPickup (g : Game) : Game :=
  match player (currentState g) with
  | None => g
  | Some p =>
      let pickupRadiusPixels := Player.pickupRadius (Player.stats p) * 32 in
      foldl (pickupStep pickupRadiusPixels
               (Player.getCenterX p) (Player.getCenterY p))
        g (seq 0 (length (volumeBlocks (currentState g))))
  end.

(** One round of the loop of [checkVolumeBlockSnatching], for the kid
    at index [k]. *)
Definition snatchStep (snatchRadius playerCenterX playerCenterY : Q)
    (g : Game) (k : nat) : Game :=
  match kids (currentState g) !! k, player (currentState g) with
  | Some kid, Some p =>
      match Kid.carriedVolumeBlock kid with
      | None => g
      | Some volumeBlock =>
          if distance (Kid.getCenterX kid) (Kid.getCenterY kid)
               playerCenterX playerCenterY <=? snatchRadius
          then
            let kid :=
              Kid.set_dropVolumeBlockTimer 0
                (Kid.set_carriedVolumeBlock None kid) in
            let g := withState (fun s => set_kids (<[k := kid]> (kids s)) s) g in
            let '(ok, p) := Player.pickupVolumeBlock p volumeBlock in
            if ok then
              let g :=
                withState (fun s =>
                  set_volumeBlocks
                    (alter (VolumeBlock.pickup HPlayer) volumeBlock
                       (volumeBlocks s))
                    (set_player (Some p) s)) g in
              let g :=
                withData (fun d =>
                  set_volumeBlocksCollected (S (volumeBlocksCollected d)) d)
                  g in
              let g :=
                withState (fun s =>
                  set_kids (alter (Kid.set_state Kid.fleeing) k (kids s)) s)
                  g in
              let g := reduceChaos (3 # 4) g in
              let g := awardXP 7 g in
              playPickupSound g
            else g
          else g
      end
  | _, _ => g
  end.

(** [checkVolumeBlockSnatching()] *)
Definition checkVolumeBlockSnatching (g : Game) : Game :=
  match player (currentState g) with
  | None => g
  | Some p =>
      if (Player.carrySlots (Player.stats p)
          <=? length (Player.carriedVolumeBlocks p))%nat
      then g
      else
        foldl (snatchStep (Player.repelRadius p)
                 (Player.getCenterX p) (Player.getCenterY p))
          g (seq 0 (length (kids (currentState g))))
  end.

(** [isPlayerNearShelf(shelf, distance)] *)
Definition isPlayerNearShelf (g : Game) (shelf : Shelf.t) (distance : Q)
  : bool :=
  match player (currentState g) with
  | None => false
  | Some p =>
      let playerLeft := Player.x p in
      let playerRight := Player.x p + Player.width p in
      let playerTop := Player.y p in
      let playerBottom := Player.y p + Player.height p in
      let shelfLeft := Shelf.x shelf in
      let shelfRight := Shelf.x shelf + Shelf.width shelf in
      let shelfTop := Shelf.y shelf in
      let shelfBottom := Shelf.y shelf + Shelf.height shelf in
      let expandedLeft := shelfLeft - distance in
      let expandedRight := shelfRight + distance in
      let expandedTop := shelfTop - distance in
      let expandedBottom := shelfBottom + distance in
      negb ((playerLeft >=? expandedRight) || (playerRight <=? expandedLeft)
            || (playerTop >=? expandedBottom)
            || (playerBottom <=? expandedTop))
  end.

(** One round of the loop of [checkVolumeBlockShelving], for the shelf
    at index [i]. *)
Definition shelveStep (returnDistance : Q) (g : Game) (i : nat) : Game :=
  match shelves (currentState g) !! i, player (currentState g) with
  | Some shelf, Some p =>
      if isPlayerNearShelf g shelf returnDistance
         && Shelf.hasEmptySlots shelf
      then
        let '(res, p) :=
          Player.shelveVolumeBlock p (Shelf.color shelf)
            (volumeBlocks (currentState g)) in
        let g := withState (set_player (Some p)) g in
        match res with
        | None => g
        | Some volumeBlock =>
            let '(ok, shelf, heap) :=
              Shelf.addVolumeBlock i shelf volumeBlock
                (volumeBlocks (currentState g)) in
            let g :=
              withState (fun s =>
                set_volumeBlocks heap
                  (set_shelves (<[i := shelf]> (shelves s)) s)) g in
            if ok then
              let g :=
                withData (fun d =>
                  set_volumeBlocksShelved (S (volumeBlocksShelved d)) d) g in
              let g := reduceChaos 1 g in
              let g := awardXP 10 g in
              playShelfSound g
            else g
        end
      else g
  | _, _ => g
  end.

(** [checkVolumeBlockShelving()] *)
Definition checkVolumeBlockShelving (g : Game) : Game :=
  match player (currentState g) with
  | None => g
  | Some p =>
      if (length (Player.carriedVolumeBlocks p) =? 0)%nat then g
      else
        let returnDistance := Player.returnRadius (Player.stats p) * 32 in
        foldl (shelveStep returnDistance) g
          (seq 0 (length (shelves (currentState g))))
  end.

(** [updateParticles(deltaTime)] *)
Definition updateParticles (deltaTime : Q) (g : Game) : Game :=
  withState (fun s =>
    set_particles
      (List.filter (fun p => age p <? lifetime p)
         (List.map (fun p =>
            mkParticle (px p) (py p + pvy p * deltaTime) (amount p)
              (pvy p + 100 * deltaTime) (lifetime p) (age p + deltaTime))
            (particles s))) s) g.

(** The loop [for (const kid of this.kids) kid.update(deltaTime)]. *)
Definition updateKid (deltaTime : Q) (g : Game) (k : nat) : Game :=
  match kids (currentState g) !! k with
  | Some kid =>
      let '(kid, w) := Kid.update k deltaTime kid (kidWorld g) in
      let g := putKidWorld w g in
      withState (fun s => set_kids (<[k := kid]> (kids s)) s) g
  | None => g
  end.

Definition updateKids (deltaTime : Q) (g : Game) : Game :=
  foldl (updateKid deltaTime) g (seq 0 (length (kids (currentState g)))).

Section Update.
Context `{Player.Controls}.

(** The entity updates of a tick: player, blocks, kids.  The update
    of a shelf only animates the glow of its empty slots. *)
Definition updateEntities (deltaTime : Q) (g : Game) : Game :=
  let g :=
    match player (currentState g) with
    | Some p =>
        let '(p, heap) :=
          Player.update deltaTime p (volumeBlocks (currentState g)) in
        withState (fun s => set_volumeBlocks heap (set_player (Some p) s)) g
    | None => g
    end in
  let g :=
    withState (fun s =>
      set_volumeBlocks
        (List.map (VolumeBlock.update deltaTime) (volumeBlocks s)) s) g in
  updateKids deltaTime g.

(** [update(deltaTime)]; [pausePressed] is the answer of the input
    manager to the pause keys. *)
Definition update (pausePressed : bool) (deltaTime : Q) (g : Game)
  : Game :=
  if pausePressed then set_stateManager (stateManager g ++ [PushPaused]) g
  else if isPaused (gameData g) then g
  else
    let g :=
      withData (fun d => set_elapsedTime (elapsedTime d + deltaTime) d) g in
    if elapsedTime (gameData g) >=? targetTime (gameData g) then
      set_stateManager (stateManager g ++ [GameOver true]) g
    else
      let g := updateChaos deltaTime g in
      if chaosLevel (gameData g) >=? maxChaos (gameData g) then
        set_stateManager (stateManager g ++ [GameOver false]) g
      else
        let g := updateEntities deltaTime g in
        let g := updateKidSpawning deltaTime g in
        let g := checkVolumeBlockPickup g in
        let g := checkVolumeBlockSnatching g in
        let g := checkVolumeBlockShelving g in
        let g := updateParticles deltaTime g in
        (* validateVolumeBlockStates only logs; its 1% gate draws *)
        let '(_, g) := random g in
        g.
End Update.

(** [isInViewport(entity, viewX, viewY, viewWidth, viewHeight)], for an
    entity with the given position and size. *)
Definition isInViewport (x y width height : Q)
    (viewX viewY viewWidth viewHeight : Q) : bool :=
  negb ((x + width <? viewX) || (x >? viewX + viewWidth)
        || (y + height <? viewY) || (y >? viewY + viewHeight)).

(** The tally [validateVolumeBlockStates] keeps, and what it writes to the
    error console about the block with the given reference. *)
Record VolumeBlockStates := mkVolumeBlockStates {
  shelved : nat; held : nat; floor : nat; invalid : nat
}.

Inductive Complaint :=
| BothShelvedAndHeld (volumeBlock : nat)
| ShelvedButInNoShelf (volumeBlock : nat)
| HeldWithoutHolder (volumeBlock : nat).

(** [shelf.volumeBlocks.includes(volumeBlock)] for some shelf. *)
Definition foundInShelf (shelves : list Shelf.t) (volumeBlock : nat) : bool :=
  existsb (fun shelf =>
    existsb (fun slot => bool_decide (slot = Some volumeBlock))
      (Shelf.volumeBlocks shelf)) shelves.

(** One round of the loop of [validateVolumeBlockStates]. *)
Definition validateStep (shelves : list Shelf.t)
    (acc : VolumeBlockStates * list Complaint)
    (entry : nat * VolumeBlock.t) : VolumeBlockStates * list Complaint :=
  let '(states, log) := acc in
  let '(i, volumeBlock) := entry in
  if VolumeBlock.isShelved volumeBlock && VolumeBlock.isHeld volumeBlock then
    (mkVolumeBlockStates (shelved states) (held states) (floor states)
       (S (invalid states)),
     log ++ [BothShelvedAndHeld i])
  else if VolumeBlock.isShelved volumeBlock then
    (mkVolumeBlockStates (S (shelved states)) (held states) (floor states)
       (invalid states),
     if foundInShelf shelves i then log else log ++ [ShelvedButInNoShelf i])
  else if VolumeBlock.isHeld volumeBlock then
    (mkVolumeBlockStates (shelved states) (S (held states)) (floor states)
       (invalid states),
     if notNull (VolumeBlock.holder volumeBlock) then log
     else log ++ [HeldWithoutHolder i])
  else
    (mkVolumeBlockStates (shelved states) (held states) (S (floor states))
       (invalid states),
     log).

(** [validateVolumeBlockStates()]: it changes nothing; the result is its
    tally and what it reports. *)
Definition validateVolumeBlockStates (g : Game)
  : VolumeBlockStates * list Complaint :=
  foldl (validateStep (shelves (currentState g)))
    (mkVolumeBlockStates 0 0 0 0, [])
    (imap pair (volumeBlocks (currentState g))).

(** Field updates. *)
Definition set_lastMaxKids v (r : t) : t := mk (player r) (kids r)
    (volumeBlocks r) (shelves r) (particles r) (worldWidth r)
    (worldHeight r) (kidSpawnTimer r) (kidSpawnInterval r) (maxKids r) v
    (maxKidsIncreaseNotification r) (spawnPoints r).
Definition set_isPaused v (r : GameData) : GameData := mkGameData
    (chaosLevel r) (maxChaos r) (playerLevel r) (xp r) (xpToNext r)
    (elapsedTime r) (targetTime r) v (volumeBlocksCollected r)
    (volumeBlocksShelved r) (kidsRepelled r).

(** The playing state as the constructor leaves it. *)
Definition initialState : t :=
  mk None [] [] [] [] 1920 1080 0 15 3 3 (mkNotification false 0 0 3)
    defaultSpawnPoints.

(** What [enter] and [exit] both reset: the entities, and the wave
    system. *)
Definition clearEntities (s : t) : t :=
  set_shelves [] (set_particles [] (set_volumeBlocks [] (set_kids [] s))).

Definition resetSpawning (s : t) : t :=
  set_maxKidsIncreaseNotification (mkNotification false 0 0 3)
    (set_kidSpawnInterval 15
       (set_kidSpawnTimer 0 (set_lastMaxKids 3 (set_maxKids 3 s)))).

(** [exit()]; the music and the sounds of the player are outside the
    model. *)
Definition exit (g : Game) : Game :=
  withState (fun s => resetSpawning (clearEntities s)) g.

Section Level.
(** The size of a block, which the sources do not give. *)
Context (blockWidth blockHeight : Q).
Context `{Player.Spawn}.

Definition colors : list Color := [red; blue; green; yellow; purple; orange].

(** Eight shelves of each colour, and one more red and one more blue. *)
Definition colorDistribution : list Color :=
  mjoin (replicate 8 colors) ++ [red; blue].

(** [[a[i], a[j]] = [a[j], a[i]]].  The draw of [Math.random()] lies in
    [0, 1), so [j] is an index of the array, at most [i]; the model leaves
    the array as it is otherwise. *)
Definition swap (i : nat) (j : Z) (l : list Color) : list Color :=
  if (j <? 0)%Z then l
  else
    match l !! i, l !! Z.to_nat j with
    | Some a, Some b => <[Z.to_nat j := a]> (<[i := b]> l)
    | _, _ => l
    end.

(** The shuffle: [for (let i = length - 1; i > 0; i--)], started at
    [i]. *)
Fixpoint shuffle (i : nat) (l : list Color) (g : Game)
  : list Color * Game :=
  match i with
  | O => (l, g)
  | S i' =>
      let '(r, g) := random g in
      let j := Num.floor (r * inject_Z (Z.of_nat (i + 1))) in
      shuffle i' (swap i j l) g
  end.

(** The inner loop that fills a new shelf: [n] rounds are left.  A new
    block is referred to by the index [push] gives it. *)
Fixpoint fillShelf (n : nat) (self : nat) (color : Color) (shelf : Shelf.t)
    (heap : list VolumeBlock.t) : Shelf.t * list VolumeBlock.t :=
  match n with
  | O => (shelf, heap)
  | S n' =>
      let volumeBlock := length heap in
      let heap := heap ++ [VolumeBlock.new blockWidth blockHeight 0 0 color] in
      let '(_, shelf, heap) :=
        Shelf.addVolumeBlock self shelf volumeBlock heap in
      fillShelf n' self color shelf heap
  end.

(** The rows and columns of the grid, in the order of the two loops. *)
Definition cells : list (nat * nat) :=
  row ← seq 0 5; col ← seq 0 10; [(row, col)].

(** The body of the two loops, for one cell of the grid; the state of the
    loops is the game and [shelfIndex].  The shelf is stored once it is
    filled: nothing reads the array of shelves in between.  The
    distribution has an entry for each of the 50 cells; the model skips a
    cell without one. *)
Definition placeShelf (colorDistribution : list Color)
    (st : Game * nat) (cell : nat * nat) : Game * nat :=
  let '(g, shelfIndex) := st in
  let '(row, col) := cell in
  let shelfSpacingX := 180 in
  let shelfSpacingY := 180 in
  let startX := 200 in
  let startY := 200 in
  let x := startX + inject_Z (Z.of_nat col) * shelfSpacingX in
  let y := startY + inject_Z (Z.of_nat row) * shelfSpacingY in
  match colorDistribution !! shelfIndex with
  | Some color =>
      let self := length (shelves (currentState g)) in
      let shelf := Shelf.new x y color 6 in
      let '(shelf, heap) :=
        fillShelf (Shelf.capacity shelf) self color shelf
          (volumeBlocks (currentState g)) in
      (withState (fun s =>
         set_volumeBlocks heap (set_shelves (shelves s ++ [shelf]) s)) g,
       S shelfIndex)
  | None => (g, S shelfIndex)
  end.

(** [generateVolumeVaultLayout()] *)
Definition generateVolumeVaultLayout (g : Game) : Game :=
  let '(colorDistribution, g) :=
    shuffle (length colorDistribution - 1) colorDistribution g in
  (foldl (placeShelf colorDistribution) (g, 0%nat) cells).1.

(** One round of the loop of [initializeLevel] that creates the first
    kids.  The constructor of a kid looks for shelves in the current state
    of the state manager: [isCurrent] tells whether that is this playing
    state already; the kid sees no shelf otherwise.  The list of spawn
    points is never empty; the model creates no kid otherwise. *)
Definition spawnInitialKid (isCurrent : bool) (g : Game) : Game :=
  let '(r, g) := random g in
  match pickSpawnPoint (spawnPoints (currentState g)) r with
  | Some spawnPoint =>
      let view :=
        if isCurrent then kidWorld g else Kid.set_shelves [] (kidWorld g) in
      let '(kid, w) := Kid.new (fst spawnPoint) (snd spawnPoint) 1 view in
      withState (fun s => set_kids (kids s ++ [kid]) s)
        (set_rng (Kid.rng w) g)
  | None => g
  end.

(** [initializeLevel()]; the camera is outside the model. *)
Definition initializeLevel (isCurrent : bool) (g : Game) : Game :=
  let g := generateVolumeVaultLayout g in
  let g := withState (set_player (Some (Player.new 100 500))) g in
  let g := spawnInitialKid isCurrent g in
  let g := spawnInitialKid isCurrent g in
  withState (set_kidSpawnTimer 15) g.

(** [enter()]; the music and the sound effects are outside the model. *)
Definition enter (isCurrent : bool) (g : Game) : Game :=
  let g := withState clearEntities g in
  let g := set_gameData initialGameData g in
  let g := withState resetSpawning g in
  initializeLevel isCurrent g.
End Level.
End Methods.
End PlayingState.

(** ** PausedState *)

Module PausedState.
Local Open Scope Q_scope.
Local Open Scope js_scope.

(** The keys the pause menu asks the input manager about. *)
Inductive Key :=
| KeyP | KeyEscape | KeyArrowUp | KeyW | KeyArrowDown | KeyS | KeyEnter
| KeySpace.

#[global] Instance Key_eq_dec : EqDecision Key.
Proof. solve_decision. Defined.

(** The answers of the input manager during one update. *)
Record Input := mkInput {
  isKeyPressed : Key -> bool;
  getMousePosition : option (Q * Q);
  isMouseButtonPressed : nat -> bool
}.

Inductive MenuItem := Resume | Restart | MainMenu.

Definition menuItems : list MenuItem := [Resume; Restart; MainMenu].

Inductive StateName := playing | menu.

(** Requests sent to the state manager. *)
Inductive Request :=
| PopState
| ClearStateStack
| ClearCurrentState
| RegisterState (name : StateName) (fresh : PlayingState.t)
| ChangeState (name : StateName).

Record t := mk {
  selectedIndex : Z;
  selectSound : bool
}.

(** What the pause menu reaches through [this.game]: the game data, the
    size of the canvas, the requests sent so far to the state manager, the
    number of times the select sound was started, and the number of draws
    made from the random source. *)
Record Game := mkGame {
  gameData : PlayingState.GameData;
  width : Q;
  height : Q;
  stateManager : list Request;
  selectSounds : nat;
  rng : nat
}.

(** Field updates. *)
Definition set_selectedIndex v (r : t) : t := mk v (selectSound r).
Definition set_gameData v (r : Game) : Game := mkGame v (width r) (height r)
    (stateManager r) (selectSounds r) (rng r).
Definition set_stateManager v (r : Game) : Game := mkGame (gameData r)
    (width r) (height r) v (selectSounds r) (rng r).
Definition set_selectSounds v (r : Game) : Game := mkGame (gameData r)
    (width r) (height r) (stateManager r) v (rng r).
Definition set_rng v (r : Game) : Game := mkGame (gameData r) (width r)
    (height r) (stateManager r) (selectSounds r) v.

Definition send (request : Request) (g : Game) : Game :=
  set_stateManager (stateManager g ++ [request]) g.

(** [constructor(game)] *)
Definition new : t := mk 0 false.

(** [enter()] *)
Definition enter (this : t) (g : Game) : t * Game :=
  (mk 0 true,
   set_gameData (PlayingState.set_isPaused true (gameData g)) g).

(** [exit()] *)
Definition exit (g : Game) : Game :=
  set_gameData (PlayingState.set_isPaused false (gameData g)) g.

(** [playSelectSound()] *)
Definition playSelectSound (this : t) (g : Game) : Game :=
  if selectSound this then set_selectSounds (S (selectSounds g)) g else g.

(** [resume()]; the music is outside the model. *)
Definition resume (g : Game) : Game := send PopState g.

(** [restart()]; the constructor of the playing state makes one draw, for
    the identifier it logs. *)
Definition restart (g : Game) : Game :=
  let g := send ClearStateStack g in
  let g := send ClearCurrentState g in
  let freshPlayingState := PlayingState.initialState in
  let g := set_rng (S (rng g)) g in
  let g := send (RegisterState playing freshPlayingState) g in
  send (ChangeState playing) g.

(** [mainMenu()] *)
Definition mainMenu (g : Game) : Game := send (ChangeState menu) g.

Definition action (item : MenuItem) (g : Game) : Game :=
  match item with
  | Resume => resume g
  | Restart => restart g
  | MainMenu => mainMenu g
  end.

(** [this.menuItems[this.selectedIndex].action()]: [None] stands for the
    TypeError of calling a method of [undefined]. *)
Definition activate (this : t) (g : Game) : option Game :=
  if (selectedIndex this <? 0)%Z then None
  else
    match menuItems !! Z.to_nat (selectedIndex this) with
    | Some item => Some (action item g)
    | None => None
    end.

(** The test of the mouse loop: the pointer is over the item [i]. *)
Definition isOverItem (g : Game) (mousePos : Q * Q) (i : nat) : bool :=
  let boxWidth := 400 in
  let boxHeight := 300 in
  let boxX := (width g - boxWidth) / 2 in
  let boxY := (height g - boxHeight) / 2 in
  let y := boxY + 140 + inject_Z (Z.of_nat i) * 50 in
  let itemTop := y - 20 in
  let itemBottom := y + 20 in
  let itemLeft := boxX + 50 in
  let itemRight := boxX + boxWidth - 50 in
  (fst mousePos >=? itemLeft) && (fst mousePos <=? itemRight)
  && (snd mousePos >=? itemTop) && (snd mousePos <=? itemBottom).

(** The mouse loop, over the items [items]: the first item under the
    pointer is selected, and activated on a click of the left button; the
    loop ends there. *)
Fixpoint checkItems (input : Input) (mousePos : Q * Q) (items : list nat)
    (this : t) (g : Game) : option (t * Game) :=
  match items with
  | [] => Some (this, g)
  | i :: rest =>
      if isOverItem g mousePos i then
        let '(this, g) :=
          if bool_decide (selectedIndex this <> Z.of_nat i) then
            let this := set_selectedIndex (Z.of_nat i) this in
            (this, playSelectSound this g)
          else (this, g) in
        if isMouseButtonPressed input 0 then
          g ← activate this g; Some (this, g)
        else Some (this, g)
      else checkItems input mousePos rest this g
  end.

(** [update(deltaTime)]; the remainder [%] of JavaScript takes the sign
    of the dividend. *)
Definition update (input : Input) (this : t) (g : Game) : option (t * Game) :=
  if isKeyPressed input KeyP || isKeyPressed input KeyEscape then
    Some (this, resume g)
  else
    let length := Z.of_nat (length menuItems) in
    let '(this, g) :=
      if isKeyPressed input KeyArrowUp || isKeyPressed input KeyW then
        let this :=
          set_selectedIndex
            (Z.rem (selectedIndex this - 1 + length) length) this in
        (this, playSelectSound this g)
      else (this, g) in
    let '(this, g) :=
      if isKeyPressed input KeyArrowDown || isKeyPressed input KeyS then
        let this :=
          set_selectedIndex (Z.rem (selectedIndex this + 1) length) this in
        (this, playSelectSound this g)
      else (this, g) in
    g ← (if isKeyPressed input KeyEnter || isKeyPressed input KeySpace
         then activate this g else Some g);
    match getMousePosition input with
    | Some mousePos =>
        checkItems input mousePos (seq 0 (List.length menuItems)) this g
    | None => Some (this, g)
    end.
End PausedState.

(** ** Vocabulary of the statements *)

(** The shelf is as the constructor leaves it: one slot per unit of
    capacity. *)
Definition shelf_wf (this : Shelf.t) : Prop :=
  length (Shelf.volumeBlocks this) = Shelf.capacity this.

(** The sum of the requirements of the levels [level + 1 .. level + n],
    which the rounds of the level-up loop after the first consume. *)
Fixpoint laterRequirements (level n : nat) : Z :=
  match n with
  | O => 0
  | S n' =>
      (PlayingState.xpRequirement (S level)
       + laterRequirements (S level) n')%Z
  end.

(** What no handler of a kid touches, but for the proximity trigger: the
    counter of repelled kids, the cues sent, the player and the bounds. *)
Definition kidFrame (w w' : Kid.World) : Prop :=
  Kid.kidsRepelled w' = Kid.kidsRepelled w
  /\ Kid.cues w' = Kid.cues w
  /\ Kid.player w' = Kid.player w
  /\ Kid.worldWidth w' = Kid.worldWidth w
  /\ Kid.worldHeight w' = Kid.worldHeight w.

(** The proximity trigger of the state machine: a wandering kid, or a
    stealing kid that has its target and carries nothing, with the player
    closer than [playerDetectionRange]. *)
Definition repelled `{MathEnv} (this : Kid.t) (w : Kid.World) : bool :=
  match Kid.state this with
  | Kid.wandering => Kid.playerInRange this w
  | Kid.stealing =>
      notNull (Kid.targetShelf this w)
      && negb (notNull (Kid.carriedVolumeBlock this))
      && Kid.playerInRange this w
  | Kid.fleeing => false
  end.

(** The number of draws the stuck detector makes in an update. *)
Definition stuckDraws (deltaTime : Q) (this : Kid.t) : nat :=
  if Num.ltb (Num.abs (Kid.vx this)) (1 # 10)
     && Num.ltb (Num.abs (Kid.vy this)) (1 # 10)
     && Num.gtb (Kid.stuckTimer this + deltaTime) 1
  then 1 else 0.

(** The carry timer runs out in this update, [r] being the draw of the
    random carry time. *)
Definition carryTimeout (deltaTime : Q) (this : Kid.t) (r : Q) : bool :=
  Num.gtb (Kid.dropVolumeBlockTimer this + deltaTime)
    (Kid.dropVolumeBlockMinTime this
     + r * (Kid.dropVolumeBlockMaxTime this - Kid.dropVolumeBlockMinTime this))%Q.

(** The flee timer of a kid that flees without a player, after a tick. *)
Definition fleeTimerAfter (deltaTime : Q) (this : Kid.t) : Q :=
  ((if Kid.fleeTimerUnset this then 1 else default 0 (Kid.fleeTimer this))
   - deltaTime)%Q.

(** The grab delay of a kid standing at its target shelf, after a tick of
    [deltaTime]: the delay is armed with [grabDelayTime] when it is not
    running, then decremented. *)
Definition grabDelayAfter (deltaTime : Q) (this : Kid.t) : Q :=
  (if Num.leb (Kid.grabDelay this) 0 then Kid.grabDelayTime this
   else Kid.grabDelay this) - deltaTime.

Section GameVocabulary.
Import PlayingState.
Local Open Scope Q_scope.

(** What the interaction steps do to the game data: the chaos level does
    not grow and stays non-negative, its maximum and the counter of
    repelled kids are kept. *)
Definition calmer (g g' : Game) : Prop :=
  maxChaos (gameData g') = maxChaos (gameData g)
  /\ kidsRepelled (gameData g') = kidsRepelled (gameData g)
  /\ (0 <= chaosLevel (gameData g) ->
      0 <= chaosLevel (gameData g') <= chaosLevel (gameData g)).

(** The tick gets as far as the chaos economy: the game is not paused, the
    pause keys are not pressed and the target time is not reached. *)
Definition reachesChaos (pausePressed : bool) (deltaTime : Q) (g : Game)
  : Prop :=
  pausePressed = false
  /\ isPaused (gameData g) = false
  /\ elapsedTime (gameData g) + deltaTime < targetTime (gameData g).

(** The chaos level and its maximum are the same in both games. *)
Definition sameChaos (g g' : Game) : Prop :=
  chaosLevel (gameData g') = chaosLevel (gameData g)
  /\ maxChaos (gameData g') = maxChaos (gameData g).

(** What snatching leaves of the flee bookkeeping: only pickup cues are
    sent, and every kid keeps its one-shot flag. *)
Definition quietly (g g' : Game) : Prop :=
  (exists n, audio g' = audio g ++ replicate n PickupCue)
  /\ Kid.hasPlayedLaughSound <$> kids (currentState g')
     = Kid.hasPlayedLaughSound <$> kids (currentState g).

(** What the level-up loop keeps. *)
Definition levelFrame (g g' : Game) : Prop :=
  chaosLevel (gameData g') = chaosLevel (gameData g)
  /\ maxChaos (gameData g') = maxChaos (gameData g)
  /\ kidsRepelled (gameData g') = kidsRepelled (gameData g)
  /\ kids (currentState g') = kids (currentState g)
  /\ volumeBlocks (currentState g') = volumeBlocks (currentState g)
  /\ shelves (currentState g') = shelves (currentState g)
  /\ audio g' = audio g
  /\ rng g' = rng g
  /\ (Player.carriedVolumeBlocks <$> player (currentState g'))
     = (Player.carriedVolumeBlocks <$> player (currentState g)).

End GameVocabulary.

(** ** Vocabulary of the shelves, the kids and the vault *)

(** The block but for its place. *)
Definition atOrigin (blk : VolumeBlock.t) : VolumeBlock.t :=
  VolumeBlock.set_x 0 (VolumeBlock.set_y 0 blk).

(** The block is Shelved, on the shelf [self]. *)
Definition shelvedOn (self : nat) (blk : VolumeBlock.t) : Prop :=
  VolumeBlock.isShelved blk = true /\ VolumeBlock.shelf blk = Some self.

(** What [renderVolumeBlocks] has done once the slots below [n] are
    visited: the blocks are where they were but for their place, slots
    were only cleared, and below [n] every block listed is Shelved on
    this shelf. *)
Definition rendered (self : nat) (this : Shelf.t)
    (heap : list VolumeBlock.t) (n : nat)
    (st : Shelf.t * list VolumeBlock.t) : Prop :=
  atOrigin <$> st.2 = atOrigin <$> heap
  /\ st.1 = Shelf.set_volumeBlocks (Shelf.volumeBlocks st.1) this
  /\ length (Shelf.volumeBlocks st.1) = length (Shelf.volumeBlocks this)
  /\ (forall i, Shelf.volumeBlocks st.1 !! i = Shelf.volumeBlocks this !! i
                \/ (i < n /\ Shelf.volumeBlocks st.1 !! i = Some None))
  /\ (forall i b blk, i < n ->
        Shelf.volumeBlocks st.1 !! i = Some (Some b) ->
        st.2 !! b = Some blk -> shelvedOn self blk)
  /\ (forall i b blk,
        Shelf.volumeBlocks this !! i = Some (Some b) ->
        heap !! b = Some blk -> shelvedOn self blk ->
        Shelf.volumeBlocks st.1 !! i = Some (Some b)).

(** What a kid is created with and keeps for life: its size, its sprite,
    its speeds, its ranges and the times of its aggression level. *)
Definition sameTraits (k k' : Kid.t) : Prop :=
  Kid.width k' = Kid.width k
  /\ Kid.height k' = Kid.height k
  /\ Kid.aggressionLevel k' = Kid.aggressionLevel k
  /\ Kid.spriteType k' = Kid.spriteType k
  /\ Kid.speed k' = Kid.speed k
  /\ Kid.fleeSpeed k' = Kid.fleeSpeed k
  /\ Kid.directionChangeInterval k' = Kid.directionChangeInterval k
  /\ Kid.volumeBlockStealCooldownTime k' = Kid.volumeBlockStealCooldownTime k
  /\ Kid.grabDelayTime k' = Kid.grabDelayTime k
  /\ Kid.dropVolumeBlockMinTime k' = Kid.dropVolumeBlockMinTime k
  /\ Kid.dropVolumeBlockMaxTime k' = Kid.dropVolumeBlockMaxTime k
  /\ Kid.shelfDetectionRange k' = Kid.shelfDetectionRange k
  /\ Kid.playerDetectionRange k' = Kid.playerDetectionRange k.

(** The world but for the number of draws made. *)
Definition sameButDraws (w w' : Kid.World) : Prop :=
  w' = Kid.set_rng (Kid.rng w') w.

(** The block is in the hands of the kid [self]. *)
Definition heldBy (self : nat) (blk : VolumeBlock.t) : Prop :=
  VolumeBlock.isHeld blk = true
  /\ VolumeBlock.isShelved blk = false
  /\ VolumeBlock.holder blk = Some (HKid self).

(** The block a kid carries, if any, is in its hands. *)
Definition carriesItsOwn (self : nat) (k : Kid.t) (w : Kid.World) : Prop :=
  forall b blk,
    Kid.carriedVolumeBlock k = Some b ->
    Kid.volumeBlocks w !! b = Some blk -> heldBy self blk.

(** The block lies on the floor (it is neither Held nor Shelved), visible
    and without holder. *)
Definition released (blk : VolumeBlock.t) : Prop :=
  VolumeBlock.isHeld blk = false
  /\ VolumeBlock.isShelved blk = false
  /\ VolumeBlock.holder blk = None
  /\ VolumeBlock.visible blk = true.

(** Between the two moments the kid kept what it carried and touched no
    block, or it let go of the block it carried and touched no other. *)
Definition keptOrDropped (k : Kid.t) (w : Kid.World) (k' : Kid.t)
    (w' : Kid.World) : Prop :=
  (Kid.carriedVolumeBlock k' = Kid.carriedVolumeBlock k
   /\ Kid.volumeBlocks w' = Kid.volumeBlocks w
   /\ Kid.shelves w' = Kid.shelves w)
  \/ (exists b,
        Kid.carriedVolumeBlock k = Some b
        /\ Kid.carriedVolumeBlock k' = None
        /\ Kid.shelves w' = Kid.shelves w
        /\ length (Kid.volumeBlocks w') = length (Kid.volumeBlocks w)
        /\ (forall blk', Kid.volumeBlocks w' !! b = Some blk' -> released blk')
        /\ (forall r, r <> b ->
              Kid.volumeBlocks w' !! r = Kid.volumeBlocks w !! r)).


(** The draws of [Math.random()] lie in [0, 1). *)
Definition fairDraws `{MathEnv} : Prop :=
  forall n, (0 <= Math_random n < 1)%Q.

(** The shelf number [k] of the vault and one of its blocks, for the colour
    the shuffle gave it. *)
Definition vaultShelf (k : nat) (color : Color) : Shelf.t :=
  Shelf.set_volumeBlocks (Some <$> seq (6 * k) 6)
    (Shelf.new (200 + inject_Z (Z.of_nat (k mod 10)) * 180)
       (200 + inject_Z (Z.of_nat (k / 10)) * 180) color 6).

Definition vaultBlock (blockWidth blockHeight : Q) (k : nat) (color : Color)
  : VolumeBlock.t :=
  VolumeBlock.shelve k (VolumeBlock.new blockWidth blockHeight 0 0 color).

(** The shelves and the blocks of the vault for the colours [cs], and the
    game with them. *)
Definition vaultShelves (cs : list Color) : list Shelf.t :=
  imap vaultShelf cs.

Definition vaultBlocks (blockWidth blockHeight : Q) (cs : list Color)
  : list VolumeBlock.t :=
  mjoin (imap (fun k color =>
                 replicate 6 (vaultBlock blockWidth blockHeight k color)) cs).

Definition withVault (blockWidth blockHeight : Q) (cs : list Color)
    (g : PlayingState.Game) : PlayingState.Game :=
  PlayingState.withState (fun s =>
    PlayingState.set_volumeBlocks (vaultBlocks blockWidth blockHeight cs)
      (PlayingState.set_shelves (vaultShelves cs) s)) g.

Section LevelVocabulary.
Context `{MathEnv}.
Context (blockWidth blockHeight : Q).
Context `{Player.Spawn}.
Import PlayingState.

(** The playing state once [enter] has cleared it, for a player [p]. *)
Definition cleared (p : option Player.t) (g : Game) : Game :=
  mkGame initialGameData
    (mk p [] [] [] [] (worldWidth (currentState g))
       (worldHeight (currentState g)) 0 15 3 3 (mkNotification false 0 0 3)
       (spawnPoints (currentState g)))
    (stateManager g) (audio g) (rng g).

(** The playing state with the vault and the new player. *)
Definition furnished (g : Game) : Game :=
  withState (set_player (Some (Player.new 100 500)))
    (withVault blockWidth blockHeight (shuffle 49 colorDistribution g).1
       (set_rng (rng g + 49) (cleared None g))).

End LevelVocabulary.

(** ** Vocabulary of the pause menu *)


(** The input of an update in which [key] is pressed, nothing else, and
    the pointer is away. *)
Definition pressing (key : PausedState.Key) : PausedState.Input :=
  PausedState.mkInput (fun k => bool_decide (k = key)) None (fun _ => false).

(** ** Scenarios and example configurations *)

Module Scenario.
Local Open Scope Q_scope.

(** Adding the blocks [bs] to a shelf, one after the other; the results
    of the calls, in order, then the shelf and the blocks. *)
Fixpoint addAll (self : nat) (this : Shelf.t) (bs : list nat)
    (heap : list VolumeBlock.t) : list bool * Shelf.t * list VolumeBlock.t :=
  match bs with
  | [] => ([], this, heap)
  | b :: rest =>
      let '(ok, this, heap) := Shelf.addVolumeBlock self this b heap in
      let '(oks, this, heap) := addAll self this rest heap in
      (ok :: oks, this, heap)
  end.

(** A block lying on the floor. *)
Definition floorBlock (x y : Q) (c : Color) : VolumeBlock.t :=
  VolumeBlock.mk x y 0 0 24 24 c false false None None true.

(** A player with room for three blocks, no dampening and no XP bonus. *)
Definition player0 : Player.t :=
  Player.mk 100 500 32 48 (Player.mkStats 1 2 3 100 100 0 1) 60 [].

(** A playing state with that player and nothing else. *)
Definition emptyState : PlayingState.t :=
  PlayingState.mk (Some player0) [] [] [] [] 1920 1080 15 15 3 3
    (PlayingState.mkNotification false 0 0 3) PlayingState.defaultSpawnPoints.

Definition gameOf (d : PlayingState.GameData) (s : PlayingState.t)
  : PlayingState.Game :=
  PlayingState.mkGame d s [] [] 0.

(** Scenario B: four blocks on the floor, one minute played, chaos at 10. *)
Definition scenarioB : PlayingState.Game :=
  gameOf
    (PlayingState.set_elapsedTime 60
       (PlayingState.set_chaosLevel 10 PlayingState.initialGameData))
    (PlayingState.set_volumeBlocks
       [floorBlock 300 300 red; floorBlock 400 300 blue;
        floorBlock 500 300 green; floorBlock 600 300 red] emptyState).

(** A player whose upgrades brought the chaos dampening to 20 and the XP
    multiplier to the double written 1.4. *)
Definition trainedPlayer : Player.t :=
  Player.mk 100 500 32 48
    (Player.mkStats 1 2 3 100 100 20 (Num.double (14 # 10))) 60 [].

(** A block in the hands of the player. *)
Definition carriedBlock : VolumeBlock.t :=
  VolumeBlock.mk 0 0 0 0 24 24 green true false (Some HPlayer) None true.

(** Three and a half minutes played, chaos at 10, the trained player: two
    blocks lie on the floor, one is in the hands of a kid, one in the
    hands of the player, one on a shelf. *)
Definition mixedFloor : PlayingState.Game :=
  gameOf
    (PlayingState.set_elapsedTime 210
       (PlayingState.set_chaosLevel 10 PlayingState.initialGameData))
    (PlayingState.set_player (Some trainedPlayer)
       (PlayingState.set_volumeBlocks
          [floorBlock 300 300 red;
           VolumeBlock.mk 0 0 0 0 24 24 red true false (Some (HKid 0%nat))
             None true;
           carriedBlock;
           VolumeBlock.mk 0 0 0 0 24 24 red false true None (Some 0%nat) true;
           floorBlock 400 300 blue] emptyState)).

(** Chaos at 10 with every block in the hands of the player or on a
    shelf. *)
Definition tidyFloor : PlayingState.Game :=
  gameOf (PlayingState.set_chaosLevel 10 PlayingState.initialGameData)
    (PlayingState.set_volumeBlocks
       [carriedBlock;
        VolumeBlock.mk 0 0 0 0 24 24 red false true None (Some 0%nat) true]
       emptyState).

(** The trained player one minute into the game, with 95 XP out of 100. *)
Definition earlyAward : PlayingState.Game :=
  gameOf
    (PlayingState.set_elapsedTime 60
       (PlayingState.set_xp 95 PlayingState.initialGameData))
    (PlayingState.set_player (Some trainedPlayer) emptyState).

(** A player with the XP multiplier written 1.2, after the early-game
    boost. *)
Definition lateAward : PlayingState.Game :=
  gameOf (PlayingState.set_elapsedTime 200 PlayingState.initialGameData)
    (PlayingState.set_player
       (Some (Player.mk 100 500 32 48
                (Player.mkStats 1 2 3 100 100 0 (Num.double (12 # 10))) 60 []))
       emptyState).

(** Scenario E: 95 XP out of 100 at level 1, after the early-game boost. *)
Definition scenarioE : PlayingState.Game :=
  gameOf
    (PlayingState.set_elapsedTime 200
       (PlayingState.set_xp 95 PlayingState.initialGameData))
    emptyState.

(** An environment to run the model on examples: [draws] are the values
    [Math.random()] returns, in order (then 0); the square root is the
    integer square root, exact on the perfect squares the examples use;
    the other functions are constant.  The theorems hold for every
    environment. *)
Definition exampleMath (draws : list Q) : MathEnv :=
  {| Math_cos := fun _ => 1;
     Math_sin := fun _ => 0;
     Math_atan2 := fun _ _ => 0;
     Math_sqrt := fun q => inject_Z (Z.sqrt (Qfloor q));
     Math_PI := 355 # 113;
     Math_random := fun n => nth n draws 0 |}.

(** A kid of aggression level 1 at the given place, as the constructor
    leaves it but for its heading. *)
Definition kidAt (x y : Q) (st : Kid.State) : Kid.t :=
  Kid.mk x y 48 60 0 0 1 1 70 100 1 0 2 st None None 0 2 0 0 1 4 6 160 120
    0 false None.

(** What a kid sees of a world with the given player, shelves and blocks. *)
Definition worldOf (p : option Player.t) (shelves : list Shelf.t)
    (blocks : list VolumeBlock.t) : Kid.World :=
  Kid.mkWorld p shelves blocks 1920 1080 0 [] 0.

(** A kid standing inside the shelf at (200, 200): whatever it tries, both
    axes are blocked. *)
Definition boxedIn (st : Kid.State) : Kid.t :=
  Kid.set_vy 30 (Kid.set_vx 40 (kidAt 205 210 st)).

Definition boxedWorld : Kid.World :=
  worldOf None [Shelf.new 200 200 red 6] [].

(** A stealing kid of aggression level 1 that touches the shelf at
    (200, 200), its target, with the grab delay about to run out. *)
Definition thief : Kid.t :=
  Kid.set_grabDelay (1 # 100)
    (Kid.set_target (Some 0%nat) (kidAt 150 210 Kid.stealing)).

(** A red shelf at (200, 200) holding the blocks 0 and 1 in its slots 1
    and 3, and those blocks. *)
Definition stockedShelf : Shelf.t :=
  Shelf.set_volumeBlocks [None; Some 0%nat; None; Some 1%nat; None; None]
    (Shelf.new 200 200 red 6).

Definition shelvedBlock : VolumeBlock.t :=
  VolumeBlock.mk 0 0 0 0 24 24 red false true None (Some 0%nat) true.

Definition theftWorld : Kid.World :=
  worldOf None [stockedShelf] [shelvedBlock; shelvedBlock].

(** A block in the hands of kid 0. *)
Definition stolenBlock : VolumeBlock.t :=
  VolumeBlock.mk 0 0 0 0 24 24 red true false (Some (HKid 0%nat)) None true.

(** A wandering kid ten pixels from the player. *)
Definition wanderer : Kid.t := kidAt 100 500 Kid.wandering.

(** The same kid with block 0 in its hands for five seconds already: its
    carry time, drawn anew in every update between 4 and 6 seconds, can run
    out any moment. *)
Definition loadedWanderer : Kid.t :=
  Kid.set_dropVolumeBlockTimer 5
    (Kid.set_carriedVolumeBlock (Some 0%nat) wanderer).

Definition meetingWorld : Kid.World :=
  worldOf (Some player0) [] [stolenBlock].

(** Six minutes and forty seconds played, no kid yet, the spawn timer
    about to run out. *)
Definition spawnDue : PlayingState.Game :=
  gameOf (PlayingState.set_elapsedTime 400 PlayingState.initialGameData)
    (PlayingState.set_kidSpawnTimer (1 # 100) emptyState).

(** A player that stands still. *)
Definition stillPlayer : Player.Controls :=
  {| Player.update := fun _ p heap => (p, heap) |}.

(** The player meets the kid that carries block 0. *)
Definition robbery : PlayingState.Game :=
  gameOf PlayingState.initialGameData
    (PlayingState.set_volumeBlocks [stolenBlock]
       (PlayingState.set_kids [loadedWanderer] emptyState)).

(** A player with a single carry slot. *)
Definition smallPlayer : Player.t :=
  Player.mk 100 500 32 48 (Player.mkStats 1 2 1 100 100 0 1) 60 [].

(** Block 1 in the hands of kid 1. *)
Definition secondStolenBlock : VolumeBlock.t :=
  VolumeBlock.mk 0 0 0 0 24 24 blue true false (Some (HKid 1%nat)) None true.

(** That player within reach of two kids, which carry the blocks 0 and 1. *)
Definition doubleRobbery : PlayingState.Game :=
  gameOf PlayingState.initialGameData
    (PlayingState.set_player (Some smallPlayer)
       (PlayingState.set_volumeBlocks [stolenBlock; secondStolenBlock]
          (PlayingState.set_kids
             [loadedWanderer;
              Kid.set_carriedVolumeBlock (Some 1%nat) (kidAt 110 490 Kid.wandering)]
             emptyState))).

(** The player a new game starts with. *)
Definition newPlayer : Player.Spawn :=
  {| Player.new := fun x y =>
       Player.mk x y 32 48 (Player.mkStats 1 2 3 100 100 0 1) 60 [] |}.

(** A paused game on a canvas of 800 by 600, and the pause menu as
    [enter] leaves it. *)
Definition pausedGame : PausedState.Game :=
  PausedState.mkGame
    (PlayingState.set_isPaused true PlayingState.initialGameData)
    800 600 [] 0 0.

Definition pauseMenu : PausedState.t := PausedState.mk 0 true.

(** The input of an update in which no key is pressed and the pointer is
    at [pos]; [click] tells whether the left button is pressed. *)
Definition pointerAt (pos : Q * Q) (click : bool) : PausedState.Input :=
  PausedState.mkInput (fun _ => false) (Some pos) (fun _ => click).

(** Two floating texts: one a second old, one just created. *)
Definition twoTexts : PlayingState.Game :=
  gameOf PlayingState.initialGameData
    (PlayingState.set_particles
       [PlayingState.mkParticle 116 490 5 (-50) (3 # 2) 1;
        PlayingState.mkParticle 116 490 7 (-50) (3 # 2) 0] emptyState).
End Scenario.

(** * Verification *)

(** ** Comparisons on rationals *)

Section NumFacts.
Local Open Scope Q_scope.

Lemma ltb_lt (a b : Q) : Num.ltb a b = true <-> (a < b)%Q.
Proof.
unfold Num.ltb. destruct (Qle_bool b a) eqn:E; simpl.
- apply Qle_bool_iff in E. split; [discriminate | intros; lra].
- split; [intros _ | reflexivity].
  destruct (Qlt_le_dec a b) as [|Hle]; [assumption|].
  apply Qle_bool_iff in Hle. congruence.
Qed.

Lemma ltb_ge (a b : Q) : Num.ltb a b = false <-> (b <= a)%Q.
Proof.
unfold Num.ltb. destruct (Qle_bool b a) eqn:E; simpl.
- apply Qle_bool_iff in E. tauto.
- split; [discriminate|]. intros Hle. apply Qle_bool_iff in Hle. congruence.
Qed.

Lemma leb_le (a b : Q) : Num.leb a b = true <-> (a <= b)%Q.
Proof. apply Qle_bool_iff. Qed.

Lemma leb_gt (a b : Q) : Num.leb a b = false <-> (b < a)%Q.
Proof.
unfold Num.leb. destruct (Qle_bool a b) eqn:E.
- apply Qle_bool_iff in E. split; [discriminate | intros; lra].
- split; [intros _ | reflexivity].
  destruct (Qlt_le_dec b a) as [|Hle]; [assumption|].
  apply Qle_bool_iff in Hle. congruence.
Qed.

Lemma gtb_gt (a b : Q) : Num.gtb a b = true <-> (b < a)%Q.
Proof. apply ltb_lt. Qed.

Lemma gtb_le (a b : Q) : Num.gtb a b = false <-> (a <= b)%Q.
Proof. apply ltb_ge. Qed.

Lemma geb_ge (a b : Q) : Num.geb a b = true <-> (b <= a)%Q.
Proof. apply leb_le. Qed.

Lemma geb_lt (a b : Q) : Num.geb a b = false <-> (a < b)%Q.
Proof. apply leb_gt. Qed.

Lemma max_spec (a b : Q) :
(a <= b /\ Num.max a b = b) \/ (b < a /\ Num.max a b = a).
Proof.
unfold Num.max. destruct (Num.leb a b) eqn:E.
- left. apply leb_le in E. auto.
- right. apply leb_gt in E. auto.
Qed.

Lemma min_spec (a b : Q) :
(a <= b /\ Num.min a b = a) \/ (b < a /\ Num.min a b = b).
Proof.
unfold Num.min. destruct (Num.leb a b) eqn:E.
- left. apply leb_le in E. auto.
- right. apply leb_gt in E. auto.
Qed.

(** Clamping to [[0, top]] lands in the interval. *)
Lemma clamp_range (top v : Q) :
(0 <= top)%Q ->
(0 <= Num.max 0 (Num.min top v) <= top)%Q.
Proof.
intros Htop.
destruct (min_spec top v) as [[? ->]|[? ->]];
  destruct (max_spec 0 top) as [[? E1]|[? E1]];
  destruct (max_spec 0 v) as [[? E2]|[? E2]];
  rewrite ?E1, ?E2; lra.
Qed.

End NumFacts.

(** ** The rounding of doubles *)

Section Doubles.
Local Open Scope Q_scope.

Lemma pow2_pos (e : Z) : 0 < 2 ^ e.
Proof. apply Qpower_0_lt. reflexivity. Qed.

Lemma pow2_plus (x y : Z) : 2 ^ (x + y) == 2 ^ x * 2 ^ y.
Proof. apply Qpower_plus. discriminate. Qed.

Lemma pow2_inject (k : Z) : (0 <= k)%Z -> inject_Z (2 ^ k) == 2 ^ k.
Proof. intros Hk. rewrite Zpower_Qpower by exact Hk. reflexivity. Qed.

Lemma roundHalfEven_near (a : Q) :
  Qabs (a - inject_Z (Num.roundHalfEven a)) <= 1 # 2.
Proof.
  unfold Num.roundHalfEven.
  pose proof (Qfloor_le a) as Hlo. pose proof (Qlt_floor a) as Hhi.
  rewrite inject_Z_plus in Hhi. change (inject_Z 1) with 1 in Hhi.
  apply Qabs_Qle_condition.
  destruct (Qcompare (a - inject_Z (Qfloor a)) (1 # 2)) eqn:Hc.
  - apply Qeq_alt in Hc.
    destruct (Z.even (Qfloor a)); [|rewrite inject_Z_plus; change (inject_Z 1) with 1];
      lra.
  - apply Qlt_alt in Hc. lra.
  - apply Qgt_alt in Hc. rewrite inject_Z_plus. change (inject_Z 1) with 1. lra.
Qed.

Lemma roundHalfEven_mono_bound (a : Q) (k : Z) :
  Qabs a <= inject_Z k -> (Z.abs (Num.roundHalfEven a) <= k)%Z.
Proof.
  intros Ha. apply Qabs_Qle_condition in Ha as [Hlo Hhi].
  unfold Num.roundHalfEven.
  pose proof (Qfloor_le a) as Hfl. pose proof (Qlt_floor a) as Hfh.
  assert (Hf1 : (Qfloor a <= k)%Z).
  { rewrite Zle_Qle. lra. }
  assert (Hf2 : (- k <= Qfloor a)%Z).
  { change (- k)%Z with (Qfloor (inject_Z (- k))) || idtac.
    rewrite <- (Qfloor_Z (- k)). apply Qfloor_resp_le.
    rewrite inject_Z_opp. exact Hlo. }
  rewrite inject_Z_plus in Hfh. change (inject_Z 1) with 1 in Hfh.
  assert (Hup : Qfloor a = k -> a == inject_Z k).
  { intros E. rewrite E in Hfl. lra. }
  destruct (Qcompare (a - inject_Z (Qfloor a)) (1 # 2)) eqn:Hc.
  - apply Qeq_alt in Hc.
    assert ((Qfloor a < k)%Z).
    { destruct (Z.eq_dec (Qfloor a) k) as [E|]; [|lia].
      specialize (Hup E). rewrite E in Hc. lra. }
    destruct (Z.even (Qfloor a)); lia.
  - lia.
  - apply Qgt_alt in Hc.
    assert ((Qfloor a < k)%Z).
    { destruct (Z.eq_dec (Qfloor a) k) as [E|]; [|lia].
      specialize (Hup E). rewrite E in Hc. lra. }
    lia.
Qed.

Lemma ilog2_spec (a : Q) :
  ~ a == 0 ->
  2 ^ Num.ilog2 a <= Qabs a /\ Qabs a < 2 ^ (Num.ilog2 a + 1).
Proof.
  intros Hz. destruct a as [n0 d]. unfold Num.ilog2. cbn [Qnum Qden Qabs].
  set (n := Z.abs n0). set (ln := Z.log2 n). set (ld := Z.log2 (Z.pos d)).
  assert (Hn : (0 < n)%Z).
  { subst n. destruct n0; [exfalso; apply Hz; reflexivity | reflexivity..]. }
  pose proof (Z.log2_spec n Hn) as [Hn1 Hn2].
  pose proof (Z.log2_spec (Z.pos d) eq_refl) as [Hd1 Hd2].
  pose proof (Z.log2_nonneg n) as Hln. pose proof (Z.log2_nonneg (Z.pos d)) as Hld.
  fold ln in Hn1, Hn2, Hln. fold ld in Hd1, Hd2, Hld.
  set (N := inject_Z n). set (D := inject_Z (Z.pos d)).
  assert (HN1 : 2 ^ ln <= N).
  { rewrite <- pow2_inject by exact Hln. subst N. rewrite <- Zle_Qle. exact Hn1. }
  assert (HN2 : N < 2 * 2 ^ ln).
  { change 2 with (2 ^ 1) at 1. rewrite <- pow2_plus.
    rewrite <- pow2_inject by lia. subst N. rewrite <- Zlt_Qlt.
    replace (1 + ln)%Z with (Z.succ ln) by lia. exact Hn2. }
  assert (HD1 : 2 ^ ld <= D).
  { rewrite <- pow2_inject by exact Hld. subst D. rewrite <- Zle_Qle. exact Hd1. }
  assert (HD2 : D < 2 * 2 ^ ld).
  { change 2 with (2 ^ 1) at 1. rewrite <- pow2_plus.
    rewrite <- pow2_inject by lia. subst D. rewrite <- Zlt_Qlt.
    replace (1 + ld)%Z with (Z.succ ld) by lia. exact Hd2. }
  set (k := (ln - ld)%Z).
  assert (HA : 2 ^ ln == 2 ^ k * 2 ^ ld).
  { rewrite <- pow2_plus. subst k. replace (ln - ld + ld)%Z with ln by lia.
    reflexivity. }
  assert (Habs : (n # d) == N / D).
  { subst N D. rewrite (Qmake_Qdiv n d). reflexivity. }
  assert (HDpos : 0 < D) by (subst D; reflexivity).
  pose proof (pow2_pos k) as HK. pose proof (pow2_pos ld) as HB.
  assert (Htest : (if (0 <=? k)%Z then (Z.pos d * 2 ^ k <=? n)%Z
                   else (Z.pos d <=? n * 2 ^ (- k))%Z) = true
                  <-> D * 2 ^ k <= N).
  { destruct (0 <=? k)%Z eqn:Hk.
    - apply Z.leb_le in Hk. rewrite Z.leb_le, Zle_Qle, inject_Z_mult.
      rewrite pow2_inject by exact Hk. reflexivity.
    - apply Z.leb_gt in Hk. rewrite Z.leb_le, Zle_Qle, inject_Z_mult.
      rewrite pow2_inject by lia. fold N D.
      pose proof (pow2_pos (- k)) as HK'.
      assert (Hinv : 2 ^ k * 2 ^ (- k) == 1).
      { rewrite <- pow2_plus. replace (k + - k)%Z with 0%Z by lia. reflexivity. }
      split; intros Hle; nra. }
  rewrite Habs.
  destruct (if (0 <=? k)%Z then _ else _) eqn:Ht.
  - apply proj1 in Htest. specialize (Htest eq_refl).
    split.
    + apply Qle_shift_div_l; [exact HDpos | lra].
    + apply Qlt_shift_div_r; [exact HDpos|].
      rewrite pow2_plus. change (2 ^ 1) with 2. nra.
  - assert (Hlt : N < D * 2 ^ k).
    { apply Qnot_le_lt. intros Hle. apply Htest in Hle. congruence. }
    assert (Hhalf : 2 ^ (k - 1) * 2 == 2 ^ k).
    { change 2 with (2 ^ 1) at 2. rewrite <- pow2_plus.
      replace (k - 1 + 1)%Z with k by lia. reflexivity. }
    pose proof (pow2_pos (k - 1)) as HK1.
    split.
    + apply Qle_shift_div_l; [exact HDpos|]. nra.
    + apply Qlt_shift_div_r; [exact HDpos|].
      replace (k - 1 + 1)%Z with k by lia. lra.
Qed.

(** The double nearest to a rational: its mantissa has at most 53 bits and
    it is within half a unit in the last place of the rational. *)
Lemma double_spec (a : Q) :
  ~ a == 0 ->
  exists m : Z,
    Num.double a == inject_Z m * 2 ^ Num.exponent a
    /\ (Z.abs m <= 2 ^ 53)%Z
    /\ Qabs (a - Num.double a) <= 2 ^ Num.exponent a / 2.
Proof.
  intros Hz. unfold Num.double.
  destruct (Qeq_bool a 0) eqn:E; [apply Qeq_bool_iff in E; contradiction|].
  set (e := Num.exponent a).
  exists (Num.roundHalfEven (a / 2 ^ e)).
  pose proof (pow2_pos e) as He.
  split; [apply Qred_correct|]. split.
  - apply roundHalfEven_mono_bound.
    destruct (ilog2_spec a Hz) as [_ Hhi].
    assert (Hexp : (Num.ilog2 a + 1 <= e + 53)%Z) by (subst e; unfold Num.exponent; lia).
    assert (Hpow : 2 ^ (Num.ilog2 a + 1) <= 2 ^ (e + 53)).
    { assert (Hsplit : 2 ^ (e + 53)
                       == 2 ^ (Num.ilog2 a + 1)
                          * 2 ^ (e + 53 - (Num.ilog2 a + 1))).
      { rewrite <- pow2_plus.
        replace (Num.ilog2 a + 1 + (e + 53 - (Num.ilog2 a + 1)))%Z
          with (e + 53)%Z by lia.
        reflexivity. }
      pose proof (pow2_pos (Num.ilog2 a + 1)).
      assert (1 <= 2 ^ (e + 53 - (Num.ilog2 a + 1))).
      { rewrite <- pow2_inject by lia.
        change 1 with (inject_Z 1). rewrite <- Zle_Qle.
        apply (Z.pow_le_mono_r 2 0); lia. }
      nra. }
    pose proof (pow2_plus e 53) as Hsp.
    unfold Qdiv. rewrite Qabs_Qmult.
    rewrite (Qabs_pos (/ 2 ^ e)) by (apply Qlt_le_weak, Qinv_lt_0_compat, He).
    rewrite pow2_inject by lia.
    apply Qle_shift_div_r; [exact He|]. lra.
  - rewrite Qred_correct.
    pose proof (roundHalfEven_near (a / 2 ^ e)) as Hnear.
    assert (Hfac : a - inject_Z (Num.roundHalfEven (a / 2 ^ e)) * 2 ^ e
                   == (a / 2 ^ e - inject_Z (Num.roundHalfEven (a / 2 ^ e))) * 2 ^ e).
    { field. lra. }
    rewrite Hfac, Qabs_Qmult, (Qabs_pos (2 ^ e)) by lra.
    apply Qle_trans with ((1 # 2) * 2 ^ e).
    + apply Qmult_le_compat_r; [exact Hnear | lra].
    + apply Qle_lteq. right. field.
Qed.
End Doubles.

(** ** Shelf *)

Section ShelfFacts.
Implicit Types (this : Shelf.t) (slots : list (option nat)).

Lemma count_le slots : length (List.filter notNull slots) <= length slots.
Proof. induction slots as [|[?|] ? IH]; simpl; lia. Qed.

(** A slot array is full exactly when it has no empty slot. *)
Lemma count_lt_iff slots :
  length (List.filter notNull slots) < length slots
  <-> exists i, slots !! i = Some None.
Proof.
  induction slots as [|[c|] rest IH]; simpl.
  - split; [lia | intros [i Hi]; discriminate].
  - rewrite <- Nat.succ_lt_mono, IH. split.
    + intros [i Hi]. exists (S i). exact Hi.
    + intros [[|i] Hi]; [discriminate | exists i; exact Hi].
  - pose proof (count_le rest). split; [|lia].
    intros _. exists 0. reflexivity.
Qed.

Lemma count_insert slots i (b : nat) :
  slots !! i = Some None ->
  length (List.filter notNull (<[i := Some b]> slots))
  = S (length (List.filter notNull slots)).
Proof.
  revert i. induction slots as [|[c|] rest IH]; intros [|i] Hi;
    simpl in *; try discriminate; auto.
Qed.

Lemma hasEmptySlots_iff this :
  length (Shelf.volumeBlocks this) = Shelf.capacity this ->
  Shelf.hasEmptySlots this = true
  <-> exists i, Shelf.volumeBlocks this !! i = Some None.
Proof.
  intros Hwf. unfold Shelf.hasEmptySlots, Shelf.volumeBlockCount.
  rewrite Nat.ltb_lt, <- Hwf. apply count_lt_iff.
Qed.

(** The search loop stops at the first empty slot at or after where it
    starts, or at the capacity. *)
Lemma findSlot_spec this fuel i :
  length (Shelf.volumeBlocks this) = Shelf.capacity this ->
  i + fuel = Shelf.capacity this ->
  let r := Shelf.findSlot fuel i this in
  i <= r <= Shelf.capacity this
  /\ (forall j, i <= j < r ->
        exists c, Shelf.volumeBlocks this !! j = Some (Some c))
  /\ (r < Shelf.capacity this -> Shelf.volumeBlocks this !! r = Some None).
Proof.
  intros Hwf. revert i. induction fuel as [|fuel IH]; intros i Hi; simpl.
  - split; [lia|]. split; [intros; lia | lia].
  - destruct (i <? Shelf.capacity this) eqn:Hlt; simpl.
    2: { apply Nat.ltb_ge in Hlt. lia. }
    apply Nat.ltb_lt in Hlt.
    destruct (Shelf.volumeBlocks this !! i) as [[c|]|] eqn:Hslot; simpl.
    + destruct (IH (S i)) as (Hr & Hocc & Hemp); [lia|].
      split; [lia|]. split; [|exact Hemp].
      intros j Hj. destruct (decide (j = i)) as [->|]; [eauto|].
      apply Hocc. lia.
    + split; [lia|]. split; [intros; lia | auto].
    + apply lookup_ge_None in Hslot. lia.
Qed.

Lemma findSlot_found this :
  length (Shelf.volumeBlocks this) = Shelf.capacity this ->
  Shelf.hasEmptySlots this = true ->
  Shelf.findSlot (Shelf.capacity this) 0 this < Shelf.capacity this.
Proof.
  intros Hwf Hempty.
  destruct (findSlot_spec this (Shelf.capacity this) 0 Hwf eq_refl)
    as (Hr & Hocc & _).
  apply hasEmptySlots_iff in Hempty as [i Hi]; [|assumption].
  destruct (Nat.lt_ge_cases
              (Shelf.findSlot (Shelf.capacity this) 0 this)
              (Shelf.capacity this)) as [|Hge]; [assumption|].
  assert (Hi' : i < Shelf.capacity this).
  { rewrite <- Hwf. eapply lookup_lt_Some; eauto. }
  destruct (Hocc i) as [c Hc]; [lia|]. congruence.
Qed.

Lemma array_set_in_range {A} i (v : option A) arr :
  i < length arr -> array_set i v arr = <[i := v]> arr.
Proof.
  intros Hi. unfold array_set.
  apply Nat.ltb_lt in Hi. rewrite Hi. reflexivity.
Qed.
End ShelfFacts.

Section AddVolumeBlock.
Implicit Types (this : Shelf.t) (heap : list VolumeBlock.t).

Lemma new_wf x y c n : shelf_wf (Shelf.new x y c n).
Proof. unfold shelf_wf. simpl. apply length_replicate. Qed.

Lemma addVolumeBlock_success self this b heap blk :
  shelf_wf this ->
  heap !! b = Some blk ->
  Shelf.hasEmptySlots this = true ->
  VolumeBlock.color blk = Shelf.color this ->
  exists i,
    Shelf.volumeBlocks this !! i = Some None
    /\ (forall j, j < i ->
          exists c, Shelf.volumeBlocks this !! j = Some (Some c))
    /\ Shelf.addVolumeBlock self this b heap
       = (true,
          Shelf.set_volumeBlocks (<[i := Some b]> (Shelf.volumeBlocks this)) this,
          alter (VolumeBlock.shelve self) b heap).
Proof.
  intros Hwf Hb Hempty Hcolor.
  pose proof (findSlot_found this Hwf Hempty) as Hlt.
  destruct (findSlot_spec this (Shelf.capacity this) 0 Hwf eq_refl)
    as (_ & Hocc & Hslot).
  exists (Shelf.findSlot (Shelf.capacity this) 0 this).
  split; [auto|]. split; [intros j Hj; apply Hocc; lia|].
  unfold Shelf.addVolumeBlock. rewrite Hb, Hempty. simpl.
  rewrite bool_decide_eq_true_2 by assumption. simpl.
  apply Nat.ltb_lt in Hlt as Hlt'. rewrite Hlt'.
  rewrite array_set_in_range by (unfold shelf_wf in Hwf; lia).
  reflexivity.
Qed.

Lemma addVolumeBlock_failure self this b heap blk :
  heap !! b = Some blk ->
  Shelf.hasEmptySlots this = false
  \/ VolumeBlock.color blk <> Shelf.color this ->
  Shelf.addVolumeBlock self this b heap = (false, this, heap).
Proof.
  intros Hb Hfail. unfold Shelf.addVolumeBlock. rewrite Hb.
  destruct Hfail as [-> | Hne]; simpl; [reflexivity|].
  rewrite bool_decide_eq_false_2 by assumption.
  rewrite orb_true_r. reflexivity.
Qed.

Lemma shelve_color self blk :
  VolumeBlock.color (VolumeBlock.shelve self blk) = VolumeBlock.color blk.
Proof. reflexivity. Qed.

Lemma alter_shelve_color self b heap r :
  VolumeBlock.color <$> alter (VolumeBlock.shelve self) b heap !! r
  = VolumeBlock.color <$> heap !! r.
Proof.
  rewrite list_lookup_alter. destruct (decide (b = r)) as [->|]; [|done].
  destruct (heap !! r); reflexivity.
Qed.

(** Adding blocks of the right colour succeeds as long as there is room. *)
Lemma addAll_success self bs : forall this heap,
  shelf_wf this ->
  Forall (fun b => VolumeBlock.color <$> heap !! b = Some (Shelf.color this)) bs ->
  Shelf.volumeBlockCount this + length bs <= Shelf.capacity this ->
  exists this' heap',
    Scenario.addAll self this bs heap
    = (replicate (length bs) true, this', heap')
    /\ shelf_wf this'
    /\ Shelf.capacity this' = Shelf.capacity this
    /\ Shelf.color this' = Shelf.color this
    /\ Shelf.volumeBlockCount this'
       = Shelf.volumeBlockCount this + length bs
    /\ forall r, VolumeBlock.color <$> heap' !! r
                 = VolumeBlock.color <$> heap !! r.
Proof.
  induction bs as [|b rest IH]; intros this heap Hwf Hall Hroom; simpl.
  - exists this, heap. rewrite Nat.add_0_r. auto 10.
  - inversion Hall as [|? ? Hb Hrest]; subst.
    destruct (heap !! b) as [blk|] eqn:Hblk; [|discriminate].
    simpl in Hb. injection Hb as Hb. simpl in Hroom.
    assert (Hempty : Shelf.hasEmptySlots this = true).
    { unfold Shelf.hasEmptySlots. apply Nat.ltb_lt. lia. }
    destruct (addVolumeBlock_success self this b heap blk Hwf Hblk Hempty Hb)
      as (i & Hi & _ & ->).
    set (this1 := Shelf.set_volumeBlocks _ this).
    assert (Hcount : Shelf.volumeBlockCount this1
                     = S (Shelf.volumeBlockCount this)).
    { apply count_insert. exact Hi. }
    destruct (IH this1 (alter (VolumeBlock.shelve self) b heap))
      as (this' & heap' & -> & Hwf' & Hcap & Hcol & Hcnt & Hheap).
    + unfold shelf_wf, this1. simpl. rewrite length_insert. exact Hwf.
    + eapply Forall_impl; [exact Hrest|]. intros r Hr. simpl in Hr.
      rewrite alter_shelve_color. exact Hr.
    + rewrite Hcount. simpl. lia.
    + exists this', heap'. split; [reflexivity|].
      split; [assumption|]. split; [assumption|]. split; [assumption|].
      split; [rewrite Hcnt, Hcount; lia|].
      intros r. rewrite Hheap. apply alter_shelve_color.
Qed.
End AddVolumeBlock.

(** Scenario A of the specification, for any blocks of the right colour. *)
Lemma six_adds_then_full (self : nat) (x y : Q) (bs : list nat) (b7 : nat)
    (heap0 : list VolumeBlock.t) :
  length bs = 6 ->
  Forall (fun r => VolumeBlock.color <$> heap0 !! r = Some red) (bs ++ [b7]) ->
  exists s6 h6,
    Scenario.addAll self (Shelf.new x y red 6) bs heap0
    = (replicate 6 true, s6, h6)
    /\ Shelf.hasEmptySlots s6 = false
    /\ Shelf.addVolumeBlock self s6 b7 h6 = (false, s6, h6)
    /\ Shelf.volumeBlockCount s6 = 6.
Proof.
  intros Hlen Hall.
  apply Forall_app in Hall as [Hbs Hb7].
  destruct (addAll_success self bs (Shelf.new x y red 6) heap0)
    as (s6 & h6 & Hrun & Hwf6 & Hcap & Hcolor & Hcnt & Hheap).
  { apply new_wf. }
  { exact Hbs. }
  { rewrite Hlen. vm_compute. lia. }
  rewrite Hlen in Hrun, Hcnt.
  change (Shelf.volumeBlockCount _ + 6) with 6 in Hcnt.
  assert (Hfull : Shelf.hasEmptySlots s6 = false).
  { unfold Shelf.hasEmptySlots. rewrite Hcnt, Hcap. reflexivity. }
  exists s6, h6. repeat split; try assumption.
  inversion Hb7 as [|? ? H7 _]; subst.
  rewrite <- Hheap in H7.
  destruct (h6 !! b7) as [blk7|] eqn:E7; [|discriminate].
  eapply addVolumeBlock_failure; eauto.
Qed.

(** C3.  [addVolumeBlock] returns true exactly when the shelf has an empty
    slot and the block has the colour of the shelf.  On success the block
    is written into the lowest empty slot and becomes Shelved, owned by
    this shelf; on failure the shelf and the blocks are unchanged.  From an
    empty red shelf of capacity 6, six red blocks are all accepted and
    leave no empty slot; a seventh is refused and the count stays 6. *)
Theorem addVolumeBlock_spec (self : nat) (this : Shelf.t) (b : nat)
    (heap : list VolumeBlock.t) (blk : VolumeBlock.t) :
  shelf_wf this ->
  heap !! b = Some blk ->
  let '(ok, this', heap') := Shelf.addVolumeBlock self this b heap in
  (ok = true <->
     (exists i, Shelf.volumeBlocks this !! i = Some None)
     /\ VolumeBlock.color blk = Shelf.color this)
  /\ (ok = true ->
      exists i,
        Shelf.volumeBlocks this !! i = Some None
        /\ (forall j, j < i ->
              exists c, Shelf.volumeBlocks this !! j = Some (Some c))
        /\ this' = Shelf.set_volumeBlocks
                     (<[i := Some b]> (Shelf.volumeBlocks this)) this
        /\ heap' !! b = Some (VolumeBlock.shelve self blk)
        /\ (forall r, r <> b -> heap' !! r = heap !! r)
        /\ VolumeBlock.isShelved (VolumeBlock.shelve self blk) = true
        /\ VolumeBlock.isHeld (VolumeBlock.shelve self blk) = false
        /\ VolumeBlock.shelf (VolumeBlock.shelve self blk) = Some self)
  /\ (ok = false -> this' = this /\ heap' = heap)
  /\ (forall x y bs b7 heap0,
        length bs = 6 ->
        Forall (fun r => VolumeBlock.color <$> heap0 !! r = Some red)
          (bs ++ [b7]) ->
        exists s6 h6,
          Scenario.addAll self (Shelf.new x y red 6) bs heap0
          = (replicate 6 true, s6, h6)
          /\ Shelf.hasEmptySlots s6 = false
          /\ Shelf.addVolumeBlock self s6 b7 h6 = (false, s6, h6)
          /\ Shelf.volumeBlockCount s6 = 6).
Proof.
  intros Hwf Hb.
  destruct (Shelf.hasEmptySlots this) eqn:Hempty;
    [destruct (decide (VolumeBlock.color blk = Shelf.color this)) as [Hcol|Hcol]|].
  - destruct (addVolumeBlock_success self this b heap blk Hwf Hb Hempty Hcol)
      as (i & Hi & Hlow & ->).
    split; [split; [|reflexivity]|].
    { intros _. split; [eauto | assumption]. }
    split; [|split; [discriminate | apply six_adds_then_full]].
    intros _. exists i. repeat split; try assumption.
    + rewrite list_lookup_alter_eq, Hb. reflexivity.
    + intros r Hr. apply list_lookup_alter_ne. congruence.
  - erewrite addVolumeBlock_failure by eauto.
    split; [split; [discriminate | intros [_ ?]; contradiction]|].
    split; [discriminate|]. split; [auto | apply six_adds_then_full].
  - erewrite addVolumeBlock_failure by eauto.
    split; [split; [discriminate|]|].
    { intros [Hex _]. apply hasEmptySlots_iff in Hex; [congruence | assumption]. }
    split; [discriminate|]. split; [auto | apply six_adds_then_full].
Qed.

Lemma addVolumeBlock_spec_witness :
  let this := Shelf.new 200 200 red 6 in
  let heap := [Scenario.floorBlock 0 0 red] in
  shelf_wf this
  /\ heap !! 0 = Some (Scenario.floorBlock 0 0 red)
  /\ (Shelf.addVolumeBlock 0 this 0 heap).1.1 = true.
Proof.
  intros this heap.
  split; [apply new_wf|]. split; [reflexivity|].
  pose proof (addVolumeBlock_spec 0 this 0 heap (Scenario.floorBlock 0 0 red)
                (new_wf 200 200 red 6) eq_refl) as Hspec.
  destruct (Shelf.addVolumeBlock 0 this 0 heap) as [[ok this'] heap'].
  destruct Hspec as [[_ Hok] _]. simpl. apply Hok.
  split; [exists 0; reflexivity | reflexivity].
Defined.

(** ** Chaos economy *)

Section Chaos.
Import PlayingState.
Local Open Scope Q_scope.

Lemma chaosPerVolumeBlock_tiers (elapsed : Q) :
  (elapsed / 60 < 3 -> chaosPerVolumeBlock elapsed = 5 # 100)
  /\ (3 <= elapsed / 60 < 5 -> chaosPerVolumeBlock elapsed = 3 # 100)
  /\ (5 <= elapsed / 60 -> chaosPerVolumeBlock elapsed = 1 # 100).
Proof.
  unfold chaosPerVolumeBlock. repeat split.
  - intros Hlt. apply ltb_lt in Hlt. rewrite Hlt. reflexivity.
  - intros [Hge Hlt]. apply ltb_ge in Hge. apply ltb_lt in Hlt.
    rewrite Hge, Hlt. reflexivity.
  - intros Hge.
    assert (H3 : 3 <= elapsed / 60) by lra.
    apply ltb_ge in Hge. apply ltb_ge in H3. rewrite H3, Hge. reflexivity.
Qed.

(** The value [updateChaos] clamps, as the source computes it. *)
Lemma updateChaos_level (deltaTime : Q) (g : Game) :
  let n := totalChaosVolumeBlocks g in
  let c := chaosLevel (gameData g) in
  let top := maxChaos (gameData g) in
  chaosLevel (gameData (updateChaos deltaTime g))
  = Num.max 0 (Num.min top
      (if (0 <? n)%nat then
         c + inject_Z (Z.of_nat n)
             * chaosPerVolumeBlock (elapsedTime (gameData g))
             * deltaTime * (1 - chaosDampening g / 100)
       else if Num.gtb c 0 then c - (1 # 10) * deltaTime
       else c)).
Proof.
  unfold updateChaos.
  destruct (totalChaosVolumeBlocks g) as [|n] eqn:Hn; simpl.
  - destruct (Num.gtb (chaosLevel (gameData g)) 0); reflexivity.
  - destruct (Num.gtb _ 0); reflexivity.
Qed.

(** C2.  Each tick of the chaos economy, with [n] the number of blocks on
    the floor (neither Held nor Shelved) plus the number of blocks Held by
    a kid, and [dampening] the stat of the player (0 without player): when
    [n > 0] the chaos level grows by
    [n * rate * deltaTime * (1 - dampening / 100)], the rate being 0.05
    before minute 3, 0.03 from minute 3 to minute 5 and 0.01 afterwards,
    and nothing is subtracted; when [n = 0] and the level is positive it
    shrinks by [0.1 * deltaTime]; the result is clamped to [0, maxChaos],
    as Scenario B says.  Nothing else of the game changes. *)
Theorem updateChaos_spec (deltaTime : Q) (g : Game) :
  let blocks := volumeBlocks (currentState g) in
  let onTheFloor := fun b =>
    negb (VolumeBlock.isHeld b) && negb (VolumeBlock.isShelved b) in
  let inTheHandsOfAKid := fun b =>
    VolumeBlock.isHeld b
    && match VolumeBlock.holder b with
       | Some (HKid _) => true
       | _ => false
       end in
  let n := (length (List.filter onTheFloor blocks)
            + length (List.filter inTheHandsOfAKid blocks))%nat in
  let dampening :=
    match player (currentState g) with
    | Some p => Player.chaosDampening (Player.stats p)
    | None => 0
    end in
  let c := chaosLevel (gameData g) in
  let top := maxChaos (gameData g) in
  let minutes := elapsedTime (gameData g) / 60 in
  let rate :=
    if Qlt_le_dec minutes 3 then 5 # 100
    else if Qlt_le_dec minutes 5 then 3 # 100
    else 1 # 100 in
  let growth :=
    inject_Z (Z.of_nat n) * rate * deltaTime * (1 - dampening / 100) in
  let v :=
    if (0 <? n)%nat then c + growth
    else if Qlt_le_dec 0 c then c - (1 # 10) * deltaTime
    else c in
  let c' := chaosLevel (gameData (updateChaos deltaTime g)) in
  totalChaosVolumeBlocks g = n
  /\ (v <= 0 \/ top <= 0 -> c' == 0)
  /\ (0 <= v <= top -> c' == v)
  /\ (0 < top -> top <= v -> c' == top)
  /\ ((0 < n)%nat -> 0 <= growth -> 0 <= c <= top ->
      c <= c' /\ c' - c <= growth /\ (c' - c == growth \/ c' == top))
  /\ (n = 0%nat -> 0 < c <= top -> 0 <= deltaTime ->
      c' <= c /\ (c - c' == (1 # 10) * deltaTime \/ c' == 0))
  /\ updateChaos deltaTime g = withData (set_chaosLevel c') g.
Proof.
  cbv zeta.
  assert (Hframe : updateChaos deltaTime g
                   = withData
                       (set_chaosLevel
                          (chaosLevel (gameData (updateChaos deltaTime g)))) g).
  { unfold updateChaos.
    destruct (0 <? totalChaosVolumeBlocks g)%nat;
      destruct (totalChaosVolumeBlocks g =? 0)%nat;
      destruct g as [d st]; destruct d; cbn;
      repeat match goal with
             | |- context [if ?b then _ else _] => destruct b; cbn
             end; reflexivity. }
  pose proof (chaosPerVolumeBlock_tiers (elapsedTime (gameData g)))
    as (T1 & T2 & T3).
  pose proof (updateChaos_level deltaTime g) as Hlevel. cbv zeta in Hlevel.
  change (totalChaosVolumeBlocks g)
    with (length (List.filter
                    (fun b => negb (VolumeBlock.isHeld b)
                              && negb (VolumeBlock.isShelved b))
                    (volumeBlocks (currentState g)))
          + length (List.filter
                      (fun b => VolumeBlock.isHeld b
                                && match VolumeBlock.holder b with
                                   | Some (HKid _) => true
                                   | _ => false
                                   end)
                      (volumeBlocks (currentState g))))%nat in Hlevel.
  set (n := (length _ + length _)%nat) in *.
  change (chaosDampening g)
    with (match player (currentState g) with
          | Some p => Player.chaosDampening (Player.stats p)
          | None => 0
          end) in Hlevel.
  set (dampening := match player (currentState g) with
                    | Some p => _ | None => _ end) in *.
  assert (Hrate : chaosPerVolumeBlock (elapsedTime (gameData g))
                  = if Qlt_le_dec (elapsedTime (gameData g) / 60) 3 then 5 # 100
                    else if Qlt_le_dec (elapsedTime (gameData g) / 60) 5
                    then 3 # 100 else 1 # 100).
  { destruct (Qlt_le_dec _ 3); [auto|].
    destruct (Qlt_le_dec _ 5); auto. }
  rewrite Hrate in Hlevel. clear Hrate T1 T2 T3.
  set (rate := if Qlt_le_dec _ 3 then _ else _) in *.
  set (growth := inject_Z (Z.of_nat n) * rate * deltaTime
                 * (1 - dampening / 100)) in *.
  set (c := chaosLevel (gameData g)) in *.
  set (top := maxChaos (gameData g)) in *.
  assert (Hv : (if (0 <? n)%nat then c + growth
                else if Num.gtb c 0 then c - (1 # 10) * deltaTime else c)
               = (if (0 <? n)%nat then c + growth
                  else if Qlt_le_dec 0 c then c - (1 # 10) * deltaTime else c)).
  { destruct (0 <? n)%nat; [reflexivity|].
    destruct (Qlt_le_dec 0 c) as [Hc | Hc].
    - apply gtb_gt in Hc. rewrite Hc. reflexivity.
    - apply gtb_le in Hc. rewrite Hc. reflexivity. }
  rewrite Hv in Hlevel. clear Hv.
  set (v := if (0 <? n)%nat then _ else _) in *.
  assert (Hclamp : (v <= 0 \/ top <= 0 -> Num.max 0 (Num.min top v) == 0)
                   /\ (0 <= v <= top -> Num.max 0 (Num.min top v) == v)
                   /\ (0 < top -> top <= v -> Num.max 0 (Num.min top v) == top)).
  { destruct (min_spec top v) as [[? ->]|[? ->]];
      [destruct (max_spec 0 top) as [[? ->]|[? ->]]
      |destruct (max_spec 0 v) as [[? ->]|[? ->]]];
      (split; [intros [?|?]|split; [intros [? ?]|intros ? ?]]); lra. }
  destruct Hclamp as (K0 & K1 & K2).
  split; [reflexivity|].
  split; [|split; [|split; [|split; [|split; [|exact Hframe]]]]];
    rewrite Hlevel; [exact K0 | exact K1 | exact K2 | |].
  - intros Hn Hg [Hc0 Hc1].
    assert (Ev : v == c + growth).
    { unfold v. apply Nat.ltb_lt in Hn. rewrite Hn. reflexivity. }
    destruct (Qlt_le_dec top v) as [Hbig | Hfit].
    + destruct (Qlt_le_dec 0 top) as [Htop | Htop].
      * rewrite (K2 Htop (Qlt_le_weak _ _ Hbig)).
        split; [lra|]. split; [lra|]. right. reflexivity.
      * rewrite (K0 (or_intror Htop)).
        split; [lra|]. split; [lra|]. right. lra.
    + assert (Hin : 0 <= v <= top) by lra.
      rewrite (K1 Hin).
      split; [lra|]. split; [lra|]. left. lra.
  - intros Hn [Hc0 Hc1] Hdt.
    assert (Ev : v == c - (1 # 10) * deltaTime).
    { unfold v. rewrite Hn. simpl.
      destruct (Qlt_le_dec 0 c); [reflexivity | lra]. }
    destruct (Qlt_le_dec v 0) as [Hneg | Hpos].
    + rewrite (K0 (or_introl (Qlt_le_weak _ _ Hneg))).
      split; [lra|]. right. reflexivity.
    + assert (Hin : 0 <= v <= top) by lra.
      rewrite (K1 Hin). split; [lra|]. left. lra.
Qed.

Lemma updateChaos_spec_witness :
  (totalChaosVolumeBlocks Scenario.mixedFloor = 3%nat
   /\ chaosLevel (gameData (updateChaos (1 # 2) Scenario.mixedFloor))
      == 10036 # 1000)
  /\ (totalChaosVolumeBlocks Scenario.tidyFloor = 0%nat
      /\ chaosLevel (gameData (updateChaos (1 # 2) Scenario.tidyFloor))
         == 995 # 100)
  /\ (totalChaosVolumeBlocks Scenario.scenarioB = 4%nat
      /\ chaosLevel (gameData (updateChaos (1 # 60) Scenario.scenarioB))
         == 10 + 4 * (5 # 100) * (1 # 60)).
Proof.
  pose proof (updateChaos_spec (1 # 2) Scenario.mixedFloor) as Hmixed.
  pose proof (updateChaos_spec (1 # 2) Scenario.tidyFloor) as Htidy.
  pose proof (updateChaos_spec (1 # 60) Scenario.scenarioB) as HB.
  cbv zeta in Hmixed, Htidy, HB.
  destruct Hmixed as (Hn1 & _ & Hin1 & _).
  destruct Htidy as (Hn2 & _ & Hin2 & _).
  destruct HB as (Hn3 & _ & Hin3 & _).
  split; [|split]; (split; [assumption|]).
  - rewrite Hin1; [reflexivity | split; vm_compute; discriminate].
  - rewrite Hin2; [reflexivity | split; vm_compute; discriminate].
  - rewrite Hin3; [reflexivity | split; vm_compute; discriminate].
Defined.

End Chaos.

(** ** Leveling *)

Section Leveling.
Import PlayingState.

Lemma pow_ge_1 (n : nat) : (1 <= Qpower (145 # 100) (Z.of_nat n))%Q.
Proof.
  induction n as [|n IH]; [discriminate|].
  replace (Z.of_nat (S n)) with (1 + Z.of_nat n)%Z by lia.
  rewrite Qpower_plus by discriminate.
  change (Qpower (145 # 100) 1) with (145 # 100)%Q. nra.
Qed.

Lemma xpRequirement_S (level : nat) :
  xpRequirement (S level)
  = Qfloor (100 * Qpower (145 # 100) (Z.of_nat level)).
Proof.
  unfold xpRequirement, Num.floor.
  replace (Z.of_nat (S level) - 1)%Z with (Z.of_nat level) by lia.
  reflexivity.
Qed.

Lemma xpRequirement_ge_100 (level : nat) : (100 <= xpRequirement (S level))%Z.
Proof.
  rewrite xpRequirement_S.
  change 100%Z with (Qfloor 100) at 1.
  apply Qfloor_resp_le. pose proof (pow_ge_1 level). nra.
Qed.

(** What one round of the loop does. *)
Lemma levelUpStep_effect (g : Game) :
  let g' := levelUpStep g in
  xp (gameData g') = (xp (gameData g) - xpToNext (gameData g))%Z
  /\ playerLevel (gameData g') = S (playerLevel (gameData g))
  /\ xpToNext (gameData g') = xpRequirement (S (playerLevel (gameData g)))
  /\ stateManager g' = stateManager g ++ [PushUpgradeSelection]
  /\ (forall p, player (currentState g) = Some p ->
        exists p', player (currentState g') = Some p'
          /\ Player.stamina (Player.stats p') = Player.maxStamina (Player.stats p)
          /\ Player.maxStamina (Player.stats p') = Player.maxStamina (Player.stats p))
  /\ (player (currentState g) = None -> player (currentState g') = None).
Proof.
  simpl. repeat split; try reflexivity.
  - intros p Hp. rewrite Hp. simpl. eauto.
  - intros Hp. rewrite Hp. reflexivity.
Qed.

(** Once the requirement is positive, as many rounds as there are points
    suffice. *)
Lemma levelUpLoop_runs (fuel : nat) : forall g,
  (1 <= xpToNext (gameData g))%Z ->
  Z.to_nat (xp (gameData g)) < fuel ->
  exists n, levelUpRun g n (levelUpLoop fuel g).
Proof.
  induction fuel as [|fuel IH]; intros g Hreq Hfuel; [lia|]. simpl.
  destruct (xpToNext (gameData g) <=? xp (gameData g))%Z eqn:Hcmp.
  - apply Z.leb_le in Hcmp.
    pose proof (levelUpStep_effect g) as (Hxp & Hlevel & Hnext & _).
    destruct (IH (levelUpStep g)) as [n Hrun].
    + rewrite Hnext. pose proof (xpRequirement_ge_100 (playerLevel (gameData g))).
      lia.
    + rewrite Hxp. lia.
    + exists (S n). apply run_round; assumption.
  - apply Z.leb_gt in Hcmp. exists 0. apply run_exit. assumption.
Qed.

(** The loop of [awardXP] terminates from every state, and [levelUp] is its
    result. *)
Lemma levelUp_runs (g : Game) : exists n, levelUpRun g n (levelUp g).
Proof.
  unfold levelUp, levelUpBound. simpl.
  destruct (xpToNext (gameData g) <=? xp (gameData g))%Z eqn:Hcmp.
  - apply Z.leb_le in Hcmp.
    pose proof (levelUpStep_effect g) as (Hxp & Hlevel & Hnext & _).
    destruct (levelUpLoop_runs
                (S (Z.to_nat (Z.max (xp (gameData g))
                                (xp (gameData g) - xpToNext (gameData g)))))
                (levelUpStep g)) as [n Hrun].
    + rewrite Hnext. pose proof (xpRequirement_ge_100 (playerLevel (gameData g))).
      lia.
    + rewrite Hxp. lia.
    + exists (S n). apply run_round; assumption.
  - apply Z.leb_gt in Hcmp. exists 0. apply run_exit. assumption.
Qed.

(** A run is determined by its start. *)
Lemma levelUpRun_det g n r :
  levelUpRun g n r -> forall n' r', levelUpRun g n' r' -> n' = n /\ r' = r.
Proof.
  induction 1 as [g Hexit | g n r Hguard Hrun IH]; intros n' r' Hrun'.
  - inversion Hrun'; subst; [auto | lia].
  - inversion Hrun'; subst; [lia|].
    destruct (IH _ _ ltac:(eassumption)) as [-> ->]. auto.
Qed.

(** What a run of [n] rounds leaves. *)
Lemma levelUpRun_effect g n r :
  levelUpRun g n r ->
  (xp (gameData r) < xpToNext (gameData r))%Z
  /\ playerLevel (gameData r) = playerLevel (gameData g) + n
  /\ stateManager r = stateManager g ++ replicate n PushUpgradeSelection
  /\ (0 < n -> xpToNext (gameData r) = xpRequirement (playerLevel (gameData r)))
  /\ (0 < n ->
      xp (gameData g)
      = (xp (gameData r) + xpToNext (gameData g)
         + laterRequirements (playerLevel (gameData g)) (n - 1))%Z)
  /\ (n = 0 -> r = g)
  /\ (0 < n -> forall p, player (currentState g) = Some p ->
        exists p', player (currentState r) = Some p'
          /\ Player.stamina (Player.stats p') = Player.maxStamina (Player.stats p)
          /\ Player.maxStamina (Player.stats p') = Player.maxStamina (Player.stats p)).
Proof.
  induction 1 as [g Hexit | g n r Hguard Hrun IH].
  - rewrite Nat.add_0_r, app_nil_r.
    repeat split; try assumption; try reflexivity; intros; lia.
  - destruct IH as (Hexit & Hlevel & Hsig & Hnext & Hsum & Hzero & Hstam).
    pose proof (levelUpStep_effect g)
      as (Hxp1 & Hlevel1 & Hnext1 & Hsig1 & Hstam1 & _).
    split; [assumption|]. split; [rewrite Hlevel, Hlevel1; lia|].
    split.
    { rewrite Hsig, Hsig1, <- app_assoc. reflexivity. }
    split.
    { intros _. destruct n as [|n].
      - rewrite (Hzero eq_refl), Hnext1, Hlevel1. reflexivity.
      - apply Hnext. lia. }
    split.
    { intros _. destruct n as [|n].
      - rewrite (Hzero eq_refl), Hxp1. simpl. lia.
      - rewrite Hxp1, Hnext1, Hlevel1 in Hsum.
        specialize (Hsum ltac:(lia)).
        replace (S n - 1) with n in Hsum by lia.
        replace (S (S n) - 1) with (S n) by lia.
        simpl. lia. }
    split; [discriminate|].
    intros _ p Hp. destruct (Hstam1 p Hp) as (p1 & Hp1 & Hs1 & Hm1).
    destruct n as [|n].
    + rewrite (Hzero eq_refl). eauto.
    + destruct (Hstam ltac:(lia) p1 Hp1) as (p' & Hp' & Hs' & Hm').
      exists p'. rewrite Hs', Hm', Hm1. auto.
Qed.

Lemma grantXP_effect (amount : Q) (g : Game) :
  gameData (grantXP amount g)
  = set_xp (xp (gameData g) + multipliedAmount amount g)%Z (gameData g)
  /\ stateManager (grantXP amount g) = stateManager g
  /\ player (currentState (grantXP amount g)) = player (currentState g)
  /\ audio (grantXP amount g) = audio g
  /\ rng (grantXP amount g) = rng g.
Proof.
  unfold grantXP. simpl.
  destruct (player (currentState g)) eqn:Hp; simpl; rewrite ?Hp;
    repeat split; reflexivity.
Qed.

(** C6.  An award of a base amount grants
    [floor (base * multiplier)] points, where the multiplier is the XP
    multiplier of the player (1 without a player, or when the stat is 0),
    times 1.5 before the second minute is over; both products are products
    of doubles, rounded as doubles are.  The level-up loop then runs some
    number [n] of rounds, possibly several: the level grows by [n], one
    upgrade selection is requested per level gained, the stamina is
    refilled, the requirement of the level reached is
    [floor (100 * 1.45 ^ (level - 1))], and the points granted are the
    points left plus the requirements consumed.  With 95 points, 100 to
    the next level and 10 points granted, exactly one level is gained, 5
    points are left and the next requirement is
    [floor (100 * 1.45 ^ oldLevel)]. *)
Theorem awardXP_spec (amount : Q) (g : Game) :
  let d := gameData g in
  let r := awardXP amount g in
  let stat :=
    match player (currentState g) with
    | Some p =>
        if Qeq_bool (Player.xpMultiplier (Player.stats p)) 0 then 1%Q
        else Player.xpMultiplier (Player.stats p)
    | None => 1%Q
    end in
  let multiplier :=
    if Qlt_le_dec (elapsedTime d) 120 then Num.double (stat * (3 # 2))
    else stat in
  let product := Num.double (amount * multiplier) in
  let granted := Qfloor product in
  multipliedAmount amount g = granted
  /\ xp (gameData (grantXP amount g)) = (xp d + granted)%Z
  /\ (inject_Z granted <= product < inject_Z granted + 1)%Q
  /\ (~ (amount * multiplier == 0)%Q ->
      exists m : Z,
        (product == inject_Z m * 2 ^ Num.exponent (amount * multiplier))%Q
        /\ (Z.abs m <= 2 ^ 53)%Z
        /\ (Qabs (amount * multiplier - product)
            <= 2 ^ Num.exponent (amount * multiplier) / 2)%Q)
  /\ (forall level,
        xpRequirement level
        = Qfloor (100 * Qpower (145 # 100) (Z.of_nat level - 1)))
  /\ (exists n,
        levelUpRun (grantXP amount g) n r
        /\ (xp (gameData r) < xpToNext (gameData r))%Z
        /\ playerLevel (gameData r) = playerLevel d + n
        /\ stateManager r = stateManager g ++ replicate n PushUpgradeSelection
        /\ (n = 0 ->
            xp (gameData r) = (xp d + granted)%Z
            /\ xpToNext (gameData r) = xpToNext d)
        /\ (0 < n ->
            xpToNext (gameData r) = xpRequirement (playerLevel (gameData r))
            /\ (xp d + granted
                = xp (gameData r) + xpToNext d
                  + laterRequirements (playerLevel d) (n - 1))%Z
            /\ forall p, player (currentState g) = Some p ->
                 exists p', player (currentState r) = Some p'
                   /\ Player.stamina (Player.stats p')
                      = Player.maxStamina (Player.stats p)))
  /\ (xp d = 95%Z -> xpToNext d = 100%Z -> granted = 10%Z ->
      playerLevel (gameData r) = S (playerLevel d)
      /\ xp (gameData r) = 5%Z
      /\ xpToNext (gameData r)
         = Qfloor (100 * Qpower (145 # 100) (Z.of_nat (playerLevel d)))
      /\ stateManager r = stateManager g ++ [PushUpgradeSelection]).
Proof.
  cbv zeta.
  pose proof (grantXP_effect amount g) as (Hdata & Hsig0 & Hplayer0 & _).
  assert (Hgranted :
    multipliedAmount amount g
    = Qfloor (Num.double
        (amount
         * (if Qlt_le_dec (elapsedTime (gameData g)) 120
            then Num.double
                   (match player (currentState g) with
                    | Some p =>
                        if Qeq_bool (Player.xpMultiplier (Player.stats p)) 0
                        then 1%Q
                        else Player.xpMultiplier (Player.stats p)
                    | None => 1%Q
                    end * (3 # 2))
            else match player (currentState g) with
                 | Some p =>
                     if Qeq_bool (Player.xpMultiplier (Player.stats p)) 0
                     then 1%Q
                     else Player.xpMultiplier (Player.stats p)
                 | None => 1%Q
                 end)))).
  { unfold multipliedAmount, xpMultiplier, Num.floor, Num.mul.
    assert (Hstat :
      playerXPMultiplier g
      = match player (currentState g) with
        | Some p =>
            if Qeq_bool (Player.xpMultiplier (Player.stats p)) 0 then 1%Q
            else Player.xpMultiplier (Player.stats p)
        | None => 1%Q
        end).
    { unfold playerXPMultiplier, Num.truthy, Player.getXPMultiplier.
      destruct (player (currentState g)) as [p|]; [|reflexivity].
      destruct (Qeq_bool _ 0); reflexivity. }
    rewrite Hstat.
    destruct (Qlt_le_dec (elapsedTime (gameData g)) 120) as [Hlt | Hge].
    - apply ltb_lt in Hlt. rewrite Hlt. reflexivity.
    - apply ltb_ge in Hge. rewrite Hge. reflexivity. }
  rewrite Hgranted in Hdata.
  set (stat := match player (currentState g) with
               | Some p => _ | None => _ end) in *.
  set (multiplier := if Qlt_le_dec _ 120 then _ else _) in *.
  set (product := Num.double (amount * multiplier)) in *.
  split; [exact Hgranted|].
  split; [rewrite Hdata; reflexivity|].
  split.
  { split; [apply Qfloor_le|].
    pose proof (Qlt_floor product) as Hlt.
    rewrite inject_Z_plus in Hlt. exact Hlt. }
  split; [apply double_spec|].
  split; [reflexivity|].
  destruct (levelUp_runs (grantXP amount g)) as [n Hrun].
  fold (awardXP amount g) in Hrun.
  pose proof (levelUpRun_effect _ _ _ Hrun)
    as (Hexit & Hlevel & Hsig & Hnext & Hsum & Hzero & Hstam).
  rewrite Hdata in Hlevel, Hsum. simpl in Hlevel, Hsum.
  rewrite Hsig0 in Hsig. rewrite Hplayer0 in Hstam.
  split.
  { exists n. split; [exact Hrun|]. split; [exact Hexit|].
    split; [exact Hlevel|]. split; [exact Hsig|]. split.
    - intros Hn. rewrite (Hzero Hn), Hdata. simpl. auto.
    - intros Hn. split; [auto|]. split; [auto|].
      intros p Hp. destruct (Hstam Hn p Hp) as (p' & Hp' & Hs & _). eauto. }
  intros Hxp Hto Hten.
  assert (Hone : levelUpRun (grantXP amount g) 1
                   (levelUpStep (grantXP amount g))).
  { apply run_round.
    - rewrite Hdata. simpl. lia.
    - apply run_exit.
      pose proof (levelUpStep_effect (grantXP amount g)) as (Hxp1 & _ & Hnext1 & _).
      rewrite Hxp1, Hnext1, Hdata. simpl.
      pose proof (xpRequirement_ge_100 (playerLevel (gameData g))). lia. }
  destruct (levelUpRun_det _ _ _ Hone _ _ Hrun) as [-> Hr].
  rewrite Hlevel, Hsig.
  split; [lia|]. split.
  { specialize (Hsum ltac:(lia)). simpl in Hsum. lia. }
  split; [|reflexivity].
  rewrite (Hnext ltac:(lia)), Hlevel, Nat.add_1_r. apply xpRequirement_S.
Qed.

Lemma awardXP_spec_witness :
  (multipliedAmount 10 Scenario.earlyAward = 20%Z
   /\ playerLevel (gameData (awardXP 10 Scenario.earlyAward)) = 2
   /\ xp (gameData (awardXP 10 Scenario.earlyAward)) = 15%Z
   /\ xpToNext (gameData (awardXP 10 Scenario.earlyAward)) = 145%Z)
  /\ multipliedAmount 5 Scenario.lateAward = 6%Z
  /\ multipliedAmount 10
       (withData (set_elapsedTime 60) Scenario.lateAward) = 18%Z
  /\ (xp (gameData Scenario.scenarioE) = 95%Z
      /\ xpToNext (gameData Scenario.scenarioE) = 100%Z
      /\ multipliedAmount 10 Scenario.scenarioE = 10%Z
      /\ playerLevel (gameData (awardXP 10 Scenario.scenarioE)) = 2
      /\ xp (gameData (awardXP 10 Scenario.scenarioE)) = 5%Z
      /\ xpToNext (gameData (awardXP 10 Scenario.scenarioE)) = 145%Z).
Proof.
  pose proof (awardXP_spec 10 Scenario.earlyAward) as Hearly.
  pose proof (awardXP_spec 5 Scenario.lateAward) as Hlate.
  pose proof (awardXP_spec 10
                (withData (set_elapsedTime 60) Scenario.lateAward)) as Hboost.
  pose proof (awardXP_spec 10 Scenario.scenarioE) as HE.
  cbv zeta in Hearly, Hlate, Hboost, HE.
  destruct Hearly as (Hearly & _).
  destruct Hlate as (Hlate & _).
  destruct Hboost as (Hboost & _).
  destruct HE as (Hten & _ & _ & _ & _ & _ & HE).
  destruct (HE eq_refl eq_refl ltac:(vm_compute; reflexivity))
    as (Hlevel & Hxp & Hnext & _).
  split; [|split; [|split]].
  - split; [rewrite Hearly; vm_compute; reflexivity|].
    vm_compute. auto.
  - rewrite Hlate. vm_compute. reflexivity.
  - rewrite Hboost. vm_compute. reflexivity.
  - split; [reflexivity|]. split; [reflexivity|].
    split; [rewrite Hten; vm_compute; reflexivity|].
    split; [exact Hlevel|]. split; [exact Hxp|]. rewrite Hnext. reflexivity.
Defined.

End Leveling.

(** ** Movement *)

Section Movement.
Context `{MathEnv}.
Local Open Scope Q_scope.

(** C9, as amended.  When both axes of a move are rejected, the kid stays
    where it is.  A wandering kid then takes a new heading, the third draw
    of the call scaled to a full turn, and its velocity is set from that
    heading at half its speed.  In the other states no draw is made: the
    heading is kept and each velocity component is reversed and damped. *)
Theorem applyMovement_both_blocked (deltaTime : Q) (this : Kid.t)
    (w : Kid.World) :
  Kid.scanShelves this
    (Kid.x this + Kid.vx this * deltaTime)
    (Kid.y this + Kid.vy this * deltaTime) (Kid.shelves w) true true
  = (false, false) ->
  let '(this', w') := Kid.applyMovement deltaTime this w in
  Kid.x this' = Kid.x this
  /\ Kid.y this' = Kid.y this
  /\ Kid.state this' = Kid.state this
  /\ (Kid.state this = Kid.wandering ->
      Kid.rng w' = (Kid.rng w + 3)%nat
      /\ Kid.direction this' = Math_random (Kid.rng w + 2)%nat * Math_PI * 2
      /\ Kid.vx this'
         = Math_cos (Kid.direction this') * Kid.speed this * (1 # 2)
      /\ Kid.vy this'
         = Math_sin (Kid.direction this') * Kid.speed this * (1 # 2))
  /\ (Kid.state this <> Kid.wandering ->
      w' = w
      /\ Kid.direction this' = Kid.direction this
      /\ Kid.vx this' = - Kid.vx this * (3 # 10)
      /\ Kid.vy this' = - Kid.vy this * (3 # 10)).
Proof.
  intros Hscan. unfold Kid.applyMovement. rewrite Hscan. clear Hscan.
  replace (Kid.rng w + 3)%nat with (S (S (S (Kid.rng w)))) by lia.
  replace (Kid.rng w + 2)%nat with (S (S (Kid.rng w))) by lia.
  destruct this; simpl.
  match goal with s : Kid.State |- _ => destruct s end; simpl;
    repeat split; try reflexivity; try congruence; destruct w; reflexivity.
Qed.

End Movement.

Section MovementExamples.
Local Open Scope Q_scope.

Lemma applyMovement_both_blocked_witness :
  let M := Scenario.exampleMath [1 # 4; 1 # 2; 3 # 4] in
  let this := Scenario.boxedIn Kid.wandering in
  let w := Scenario.boxedWorld in
  Kid.scanShelves this
    (Kid.x this + Kid.vx this * (1 # 60))
    (Kid.y this + Kid.vy this * (1 # 60)) (Kid.shelves w) true true
  = (false, false)
  /\ Kid.state this = Kid.wandering
  /\ Kid.direction (Kid.applyMovement (1 # 60) this w).1
     = (3 # 4) * (355 # 113) * 2.
Proof.
  intros M this w.
  assert (Hscan : Kid.scanShelves this
                    (Kid.x this + Kid.vx this * (1 # 60))
                    (Kid.y this + Kid.vy this * (1 # 60)) (Kid.shelves w)
                    true true = (false, false)) by reflexivity.
  split; [exact Hscan|]. split; [reflexivity|].
  pose proof (applyMovement_both_blocked (1 # 60) this w Hscan) as Hspec.
  destruct (Kid.applyMovement (1 # 60) this w) as [this' w'].
  destruct Hspec as (_ & _ & _ & Hwander & _).
  destruct (Hwander eq_refl) as (_ & Hdir & _).
  simpl. rewrite Hdir. reflexivity.
Defined.

(** C9 fails for a kid that is not wandering: a fleeing kid blocked on both
    axes makes no draw, keeps its heading, and its velocity is the old one
    reversed and damped, not one derived from a new heading. *)
Lemma applyMovement_fleeing_keeps_heading :
  let M := Scenario.exampleMath [1 # 4; 1 # 2; 3 # 4] in
  let this := Scenario.boxedIn Kid.fleeing in
  let w := Scenario.boxedWorld in
  let this' := (Kid.applyMovement (1 # 60) this w).1 in
  let w' := (Kid.applyMovement (1 # 60) this w).2 in
  Kid.scanShelves this
    (Kid.x this + Kid.vx this * (1 # 60))
    (Kid.y this + Kid.vy this * (1 # 60)) (Kid.shelves w) true true
  = (false, false)
  /\ Kid.rng w' = Kid.rng w
  /\ Kid.direction this' = Kid.direction this
  /\ Kid.vx this' == -12
  /\ Kid.vy this' == -9
  /\ ~ Kid.vx this'
       == Math_cos (Kid.direction this') * Kid.speed this' * (1 # 2).
Proof.
  vm_compute. repeat split; discriminate.
Qed.

End MovementExamples.

(** ** Theft *)

Section RandomSlot.
Local Open Scope Q_scope.

(** [Math.floor(r * n)] is an index below [n] for a draw [r] in [0, 1). *)
Lemma floor_draw_bounds (r : Q) (n : nat) :
  0 <= r < 1 -> (0 < n)%nat ->
  (0 <= Qfloor (r * inject_Z (Z.of_nat n)) < Z.of_nat n)%Z.
Proof.
  intros [Hr0 Hr1] Hn.
  assert (Hn' : 0 < inject_Z (Z.of_nat n)).
  { change 0 with (inject_Z 0). rewrite <- Zlt_Qlt. lia. }
  split.
  - change 0%Z with (Qfloor 0). apply Qfloor_resp_le. nra.
  - rewrite Zlt_Qlt.
    apply Qle_lt_trans with (r * inject_Z (Z.of_nat n)); [apply Qfloor_le | nra].
Qed.

(** The k-th occupied slot is the one drawn exactly when the draw falls
    into the k-th of [n] equal parts of [0, 1). *)
Lemma floor_draw_part (r : Q) (n k : nat) :
  (0 < n)%nat ->
  inject_Z (Z.of_nat k) / inject_Z (Z.of_nat n) <= r
    < inject_Z (Z.of_nat k + 1) / inject_Z (Z.of_nat n) ->
  Qfloor (r * inject_Z (Z.of_nat n)) = Z.of_nat k.
Proof.
  intros Hn [Hlo Hhi].
  assert (Hn' : 0 < inject_Z (Z.of_nat n)).
  { change 0 with (inject_Z 0). rewrite <- Zlt_Qlt. lia. }
  assert (Hlo' : inject_Z (Z.of_nat k) <= r * inject_Z (Z.of_nat n)).
  { assert (E : inject_Z (Z.of_nat k) / inject_Z (Z.of_nat n)
                * inject_Z (Z.of_nat n) == inject_Z (Z.of_nat k))
      by (field; lra).
    rewrite <- E. apply Qmult_le_compat_r; lra. }
  assert (Hhi' : r * inject_Z (Z.of_nat n) < inject_Z (Z.of_nat k + 1)).
  { assert (E : inject_Z (Z.of_nat k + 1) / inject_Z (Z.of_nat n)
                * inject_Z (Z.of_nat n) == inject_Z (Z.of_nat k + 1))
      by (field; lra).
    rewrite <- E. apply Qmult_lt_compat_r; lra. }
  apply Z.le_antisymm.
  - apply Z.lt_succ_r. rewrite Zlt_Qlt.
    apply Qle_lt_trans with (r * inject_Z (Z.of_nat n)); [apply Qfloor_le|].
    exact Hhi'.
  - rewrite <- (Qfloor_Z (Z.of_nat k)). apply Qfloor_resp_le. exact Hlo'.
Qed.

Lemma occupiedFrom_lookup (slots : list (option nat)) : forall start k i,
  Shelf.occupiedFrom start slots !! k = Some i ->
  (start <= i)%nat
  /\ exists b, slots !! (i - start)%nat = Some (Some b).
Proof.
  induction slots as [|v rest IH]; intros start k i Hk; simpl in Hk.
  - discriminate.
  - destruct v as [b|]; simpl in Hk.
    + destruct k as [|k]; simpl in Hk.
      * injection Hk as <-. split; [lia|]. rewrite Nat.sub_diag. eauto.
      * destruct (IH _ _ _ Hk) as (Hle & b' & Hb').
        split; [lia|]. exists b'.
        replace (i - start)%nat with (S (i - S start)) by lia. exact Hb'.
    + destruct (IH _ _ _ Hk) as (Hle & b' & Hb').
      split; [lia|]. exists b'.
      replace (i - start)%nat with (S (i - S start)) by lia. exact Hb'.
Qed.

(** Every occupied slot is among the indices the draw chooses from. *)
Lemma occupiedFrom_complete (slots : list (option nat)) : forall start j b,
  slots !! j = Some (Some b) ->
  (start + j)%nat ∈ Shelf.occupiedFrom start slots.
Proof.
  induction slots as [|v rest IH]; intros start j b Hj; [discriminate|].
  destruct j as [|j]; simpl in Hj.
  - injection Hj as ->. simpl. rewrite Nat.add_0_r. apply list_elem_of_here.
  - specialize (IH (S start) j b Hj).
    replace (start + S j)%nat with (S start + j)%nat by lia.
    simpl. destruct v; simpl; [apply list_elem_of_further|]; exact IH.
Qed.

Lemma volumeBlockIndices_lookup (shelf : Shelf.t) k i :
  Shelf.volumeBlockIndices shelf !! k = Some i ->
  exists b, Shelf.volumeBlocks shelf !! i = Some (Some b).
Proof.
  intros Hk. apply occupiedFrom_lookup in Hk as (_ & b & Hb).
  rewrite Nat.sub_0_r in Hb. eauto.
Qed.

(** The slot picked for a draw in [0, 1) is an occupied one. *)
Lemma pickIndex_occupied (shelf : Shelf.t) (r : Q) :
  0 <= r < 1 ->
  Shelf.volumeBlockIndices shelf <> [] ->
  exists i b,
    Shelf.pickIndex shelf r = Some i
    /\ Shelf.volumeBlockIndices shelf
         !! Z.to_nat (Qfloor (r * inject_Z
                                (Z.of_nat (length (Shelf.volumeBlockIndices shelf)))))
       = Some i
    /\ Shelf.volumeBlocks shelf !! i = Some (Some b).
Proof.
  intros Hr Hne. unfold Shelf.pickIndex, Num.floor.
  set (idx := Shelf.volumeBlockIndices shelf) in *.
  assert (Hlen : (0 < length idx)%nat).
  { destruct idx; [contradiction | simpl; lia]. }
  pose proof (floor_draw_bounds r (length idx) Hr Hlen) as [Hk0 Hk1].
  destruct (Qfloor (r * inject_Z (Z.of_nat (length idx))) <? 0)%Z eqn:Hneg;
    [apply Z.ltb_lt in Hneg; lia|].
  destruct (idx !! Z.to_nat (Qfloor (r * inject_Z (Z.of_nat (length idx)))))
    as [i|] eqn:Hi.
  - destruct (volumeBlockIndices_lookup shelf _ _ Hi) as [b Hb]. eauto.
  - apply lookup_ge_None in Hi. lia.
Qed.

End RandomSlot.

Section Theft.
Context `{MathEnv}.
Local Open Scope Q_scope.

(** At its target shelf, with nothing in hand and the player away, a kid
    whose grab delay runs out grabs. *)
Lemma updateStealing_at_shelf (self : nat) (deltaTime : Q) (this : Kid.t)
    (w : Kid.World) (t : nat) (shelf : Shelf.t) :
  Kid.target this = Some t ->
  Kid.shelves w !! t = Some shelf ->
  Kid.carriedVolumeBlock this = None ->
  Kid.playerInRange this w = false ->
  Kid.isNearShelf this shelf 5 = true ->
  grabDelayAfter deltaTime this <= 0 ->
  Kid.updateStealing self deltaTime this w
  = Kid.grab self t shelf
      (Kid.set_grabDelay (grabDelayAfter deltaTime this) this) w.
Proof.
  intros Ht Hshelf Hcarry Hplayer Hnear Hdelay.
  unfold Kid.updateStealing, Kid.targetShelf. rewrite Ht. simpl.
  rewrite Hshelf, Hcarry, Hplayer, Hnear. simpl.
  unfold grabDelayAfter in *.
  destruct (Num.leb (Kid.grabDelay this) 0); simpl;
    apply leb_le in Hdelay; rewrite Hdelay; destruct this; reflexivity.
Qed.

Lemma world_refresh (w : Kid.World) :
  Kid.set_rng (Kid.rng w)
    (Kid.set_volumeBlocks (Kid.volumeBlocks w)
       (Kid.set_shelves (Kid.shelves w) w)) = w.
Proof. destruct w; reflexivity. Qed.

(** The grab at a shelf without stock. *)
Lemma grab_nothing (self t : nat) (shelf : Shelf.t) (this : Kid.t)
    (w : Kid.World) :
  Kid.shelves w !! t = Some shelf ->
  Shelf.volumeBlockIndices shelf = [] ->
  Kid.grab self t shelf this w
  = (Kid.set_grabDelay 0
       (Kid.set_target None
          (Kid.set_volumeBlockStealCooldown 1
             (Kid.set_state Kid.wandering this))), w).
Proof.
  intros Hshelf Hnone. unfold Kid.grab, Shelf.removeRandomVolumeBlock.
  rewrite Hnone. simpl. rewrite list_insert_id by assumption.
  rewrite world_refresh. reflexivity.
Qed.

(** The grab at a shelf with stock: the slot the first draw picks is
    emptied and its block unshelved; the second draw decides between the
    floor and the kid's hands. *)
Lemma grab_something (self t : nat) (shelf : Shelf.t) (this : Kid.t)
    (w : Kid.World) (i b : nat) :
  Shelf.volumeBlockIndices shelf <> [] ->
  Shelf.pickIndex shelf (Math_random (Kid.rng w)) = Some i ->
  Shelf.volumeBlocks shelf !! i = Some (Some b) ->
  let n := Kid.rng w in
  let shelves' :=
    <[t := Shelf.set_volumeBlocks (<[i := None]> (Shelf.volumeBlocks shelf)) shelf]>
      (Kid.shelves w) in
  let heap' := alter VolumeBlock.unshelve b (Kid.volumeBlocks w) in
  let this1 :=
    Kid.set_state Kid.fleeing
      (Kid.set_volumeBlockStealCooldown
         (Kid.volumeBlockStealCooldownTime this) this) in
  Kid.grab self t shelf this w
  = if Num.ltb (Math_random (S n)) (1 # 2) then
      (Kid.set_grabDelay 0 (Kid.set_target None this1),
       Kid.mkWorld (Kid.player w) shelves'
         (alter (Kid.knockToFloor shelf (Math_random (S (S n)))
                   (Math_random (S (S (S n)))) (Math_random (S (S (S (S n)))))
                   (Math_random (S (S (S (S (S n))))))) b heap')
         (Kid.worldWidth w) (Kid.worldHeight w) (Kid.kidsRepelled w)
         (Kid.cues w) (S (S (S (S (S (S n)))))))
    else
      (Kid.set_grabDelay 0
         (Kid.set_target None
            (Kid.set_state Kid.fleeing
               (Kid.set_volumeBlockStealCooldown
                  (Kid.volumeBlockStealCooldownTime this)
                  (Kid.set_carriedVolumeBlock (Some b) this)))),
       Kid.mkWorld (Kid.player w) shelves'
         (alter (Kid.carryAway self) b heap')
         (Kid.worldWidth w) (Kid.worldHeight w) (Kid.kidsRepelled w)
         (Kid.cues w) (S (S n))).
Proof.
  intros Hsome Hpick Hslot. cbv zeta.
  unfold Kid.grab, Shelf.removeRandomVolumeBlock.
  destruct (Shelf.volumeBlockIndices shelf) as [|i0 rest] eqn:Hidx;
    [contradiction|].
  simpl length. simpl Nat.eqb. cbv iota.
  unfold Shelf.removeVolumeBlock. rewrite Hpick, Hslot. simpl.
  destruct (Num.ltb (Math_random (S (Kid.rng w))) (1 # 2)); reflexivity.
Qed.

(** C1, as amended.  A stealing kid that touches its target shelf (within
    5 pixels), carries nothing, is not within reach of the player and whose
    grab delay runs out in this tick:
    - at a shelf without stock, goes back to wandering with a steal
      cooldown of 1 and leaves the world as it is;
    - otherwise the first draw picks one of the occupied slots, each for an
      equal share of [0, 1); that slot is emptied and its block unshelved.
      When the second draw is below 1/2 the block is put on the floor
      around the shelf and the kid carries nothing; otherwise the kid
      carries the block, which is Held with the kid as holder.  In both
      cases the kid is Fleeing afterwards, with its steal cooldown armed. *)
Theorem updateStealing_grab (self : nat) (deltaTime : Q) (this : Kid.t)
    (w : Kid.World) (t : nat) (shelf : Shelf.t) :
  Kid.target this = Some t ->
  Kid.shelves w !! t = Some shelf ->
  Kid.carriedVolumeBlock this = None ->
  Kid.playerInRange this w = false ->
  Kid.isNearShelf this shelf 5 = true ->
  grabDelayAfter deltaTime this <= 0 ->
  (forall i b, Shelf.volumeBlocks shelf !! i = Some (Some b) ->
     is_Some (Kid.volumeBlocks w !! b)) ->
  0 <= Math_random (Kid.rng w) < 1 ->
  let '(this', w') := Kid.updateStealing self deltaTime this w in
  let indices := Shelf.volumeBlockIndices shelf in
  let n := Kid.rng w in
  Kid.target this' = None
  /\ Kid.grabDelay this' = 0
  /\ (indices = [] ->
      Kid.state this' = Kid.wandering
      /\ Kid.volumeBlockStealCooldown this' = 1
      /\ Kid.carriedVolumeBlock this' = None
      /\ w' = w)
  /\ (indices <> [] ->
      exists i b blk,
        indices !! Z.to_nat (Qfloor (Math_random n
                                     * inject_Z (Z.of_nat (length indices))))
        = Some i
        /\ (forall k : nat,
              inject_Z (Z.of_nat k) / inject_Z (Z.of_nat (length indices))
                <= Math_random n
                < inject_Z (Z.of_nat k + 1) / inject_Z (Z.of_nat (length indices)) ->
              indices !! k = Some i)
        /\ Shelf.volumeBlocks shelf !! i = Some (Some b)
        /\ Kid.volumeBlocks w !! b = Some blk
        /\ Kid.shelves w'
           = <[t := Shelf.set_volumeBlocks
                      (<[i := None]> (Shelf.volumeBlocks shelf)) shelf]>
               (Kid.shelves w)
        /\ Kid.state this' = Kid.fleeing
        /\ Kid.volumeBlockStealCooldown this'
           = Kid.volumeBlockStealCooldownTime this
        /\ (Math_random (S n) < 1 # 2 ->
            Kid.carriedVolumeBlock this' = None
            /\ Kid.rng w' = (n + 6)%nat
            /\ exists blk',
                 Kid.volumeBlocks w' !! b = Some blk'
                 /\ blk' = Kid.knockToFloor shelf (Math_random (n + 2))
                             (Math_random (n + 3)) (Math_random (n + 4))
                             (Math_random (n + 5)) (VolumeBlock.unshelve blk)
                 /\ VolumeBlock.onFloor blk' = true
                 /\ VolumeBlock.holder blk' = None
                 /\ VolumeBlock.x blk'
                    = Shelf.getCenterX shelf
                      + Math_cos (Math_random (n + 2) * Math_PI * 2)
                        * (Math_random (n + 3) * 150)
                      - VolumeBlock.width blk / 2
                 /\ VolumeBlock.y blk'
                    = Shelf.getCenterY shelf
                      + Math_sin (Math_random (n + 2) * Math_PI * 2)
                        * (Math_random (n + 3) * 150)
                      - VolumeBlock.height blk / 2)
        /\ (1 # 2 <= Math_random (S n) ->
            Kid.carriedVolumeBlock this' = Some b
            /\ Kid.rng w' = (n + 2)%nat
            /\ exists blk',
                 Kid.volumeBlocks w' !! b = Some blk'
                 /\ blk' = Kid.carryAway self (VolumeBlock.unshelve blk)
                 /\ VolumeBlock.isHeld blk' = true
                 /\ VolumeBlock.isShelved blk' = false
                 /\ VolumeBlock.holder blk' = Some (HKid self))).
Proof.
  intros Ht Hshelf Hcarry Hplayer Hnear Hdelay Hheap Hdraw.
  rewrite (updateStealing_at_shelf self deltaTime this w t shelf)
    by assumption.
  set (this0 := Kid.set_grabDelay _ this).
  cbv zeta.
  destruct (decide (Shelf.volumeBlockIndices shelf = [])) as [Hidx|Hne].
  - rewrite grab_nothing by assumption.
    split; [reflexivity|]. split; [reflexivity|]. split.
    + intros _. repeat split; try reflexivity. exact Hcarry.
    + intros Hne. contradiction.
  - destruct (pickIndex_occupied shelf _ Hdraw Hne) as (i & b & Hpick & Hith & Hslot).
    destruct (Hheap i b Hslot) as [blk Hblk].
    assert (Hshare : forall k : nat,
              inject_Z (Z.of_nat k)
                / inject_Z (Z.of_nat (length (Shelf.volumeBlockIndices shelf)))
                <= Math_random (Kid.rng w)
                < inject_Z (Z.of_nat k + 1)
                  / inject_Z (Z.of_nat (length (Shelf.volumeBlockIndices shelf))) ->
              Shelf.volumeBlockIndices shelf !! k = Some i).
    { intros k Hk. rewrite <- Hith. f_equal.
      rewrite (floor_draw_part _ _ k); [lia | | exact Hk].
      destruct (Shelf.volumeBlockIndices shelf); [contradiction | simpl; lia]. }
    rewrite (grab_something self t shelf this0 w i b Hne Hpick Hslot).
    replace (Kid.rng w + 2)%nat with (S (S (Kid.rng w))) by lia.
    replace (Kid.rng w + 3)%nat with (S (S (S (Kid.rng w)))) by lia.
    replace (Kid.rng w + 4)%nat with (S (S (S (S (Kid.rng w))))) by lia.
    replace (Kid.rng w + 5)%nat with (S (S (S (S (S (Kid.rng w)))))) by lia.
    replace (Kid.rng w + 6)%nat with (S (S (S (S (S (S (Kid.rng w))))))) by lia.
    destruct (Num.ltb (Math_random (S (Kid.rng w))) (1 # 2)) eqn:Hcoin.
    + split; [reflexivity|]. split; [reflexivity|].
      split; [intros; contradiction|].
      intros _. exists i, b, blk.
      split; [exact Hith|]. split; [exact Hshare|].
      split; [exact Hslot|]. split; [exact Hblk|].
      split; [reflexivity|]. split; [reflexivity|]. split; [reflexivity|].
      split.
      * intros _. split; [exact Hcarry|]. split; [reflexivity|].
        eexists. split.
        { cbn [Kid.volumeBlocks]. rewrite !list_lookup_alter_eq, Hblk. reflexivity. }
        repeat split; reflexivity.
      * intros Hge. apply ltb_lt in Hcoin. lra.
    + split; [reflexivity|]. split; [reflexivity|].
      split; [intros; contradiction|].
      intros _. exists i, b, blk.
      split; [exact Hith|]. split; [exact Hshare|].
      split; [exact Hslot|]. split; [exact Hblk|].
      split; [reflexivity|]. split; [reflexivity|]. split; [reflexivity|].
      split.
      * intros Hlt. apply ltb_ge in Hcoin. lra.
      * intros _. split; [reflexivity|]. split; [reflexivity|].
        eexists. split.
        { cbn [Kid.volumeBlocks]. rewrite !list_lookup_alter_eq, Hblk. reflexivity. }
        repeat split; reflexivity.
Qed.

End Theft.

Section TheftExamples.
Local Open Scope Q_scope.

Lemma updateStealing_grab_witness :
  let M := Scenario.exampleMath [3 # 5; 1 # 4; 1 # 8; 1 # 2; 1 # 2; 1 # 2] in
  let this := Scenario.thief in
  let w := Scenario.theftWorld in
  Kid.target this = Some 0%nat
  /\ Kid.shelves w !! 0%nat = Some Scenario.stockedShelf
  /\ Kid.carriedVolumeBlock this = None
  /\ Kid.playerInRange this w = false
  /\ Kid.isNearShelf this Scenario.stockedShelf 5 = true
  /\ grabDelayAfter (1 # 60) this <= 0
  /\ 0 <= Math_random (Kid.rng w) < 1
  /\ Kid.state (Kid.updateStealing 7 (1 # 60) this w).1 = Kid.fleeing.
Proof.
  intros M this w.
  assert (Hheap : forall i b,
            Shelf.volumeBlocks Scenario.stockedShelf !! i = Some (Some b) ->
            is_Some (Kid.volumeBlocks w !! b)).
  { intros i b Hb.
    do 6 (destruct i as [|i]; [simpl in Hb; try discriminate;
                               injection Hb as <-; eexists; reflexivity|]).
    discriminate. }
  assert (Hdelay : grabDelayAfter (1 # 60) this <= 0)
    by (vm_compute; discriminate).
  assert (Hdraw : 0 <= Math_random (Kid.rng w) < 1)
    by (split; vm_compute; [discriminate | reflexivity]).
  repeat (split; [first [reflexivity | exact Hdelay | exact Hdraw]|]).
  pose proof (updateStealing_grab 7 (1 # 60) this w 0%nat Scenario.stockedShelf
                eq_refl eq_refl eq_refl eq_refl eq_refl Hdelay Hheap Hdraw)
    as Hspec.
  destruct (Kid.updateStealing 7 (1 # 60) this w) as [this' w'].
  destruct Hspec as (_ & _ & _ & Hstock).
  destruct Hstock as (i & b & blk & _ & _ & _ & _ & _ & Hstate & _);
    [discriminate|].
  exact Hstate.
Defined.

(** C1 fails on the floor-drop branch: the kid below knocks block 1 to the
    floor (second draw 1/4, below 1/2) and carries nothing, yet it is
    Fleeing afterwards, as it is on the carry branch, not Wandering. *)
Lemma updateStealing_drop_flees :
  let M := Scenario.exampleMath [3 # 5; 1 # 4; 1 # 8; 1 # 2; 1 # 2; 1 # 2] in
  let this := Scenario.thief in
  let w := Scenario.theftWorld in
  let this' := (Kid.updateStealing 7 (1 # 60) this w).1 in
  let w' := (Kid.updateStealing 7 (1 # 60) this w).2 in
  Kid.state this = Kid.stealing
  /\ Kid.isNearShelf this Scenario.stockedShelf 5 = true
  /\ Math_random 1%nat < 1 # 2
  /\ Kid.carriedVolumeBlock this' = None
  /\ VolumeBlock.onFloor <$> Kid.volumeBlocks w' !! 1%nat = Some true
  /\ Shelf.volumeBlocks <$> Kid.shelves w' !! 0%nat
     = Some [None; Some 0%nat; None; None; None; None]
  /\ Kid.state this' = Kid.fleeing
  /\ Kid.state this' <> Kid.wandering.
Proof.
  vm_compute. repeat split; discriminate.
Qed.

End TheftExamples.

(** ** The flee episode *)

Section FleeEpisode.
Context `{MathEnv}.

Lemma kidFrame_refl w : kidFrame w w.
Proof. repeat split. Qed.

Lemma kidFrame_trans w1 w2 w3 : kidFrame w1 w2 -> kidFrame w2 w3 -> kidFrame w1 w3.
Proof.
  intros (A1 & A2 & A3 & A4 & A5) (B1 & B2 & B3 & B4 & B5).
  repeat split; congruence.
Qed.

Lemma kidFrame_rng n w : kidFrame w (Kid.set_rng n w).
Proof. repeat split. Qed.

Lemma kidFrame_random w : kidFrame w (Kid.random w).2.
Proof. repeat split. Qed.

Lemma applyMovement_frame dt this w :
  kidFrame w (Kid.applyMovement dt this w).2
  /\ Kid.state (Kid.applyMovement dt this w).1 = Kid.state this
  /\ Kid.carriedVolumeBlock (Kid.applyMovement dt this w).1
     = Kid.carriedVolumeBlock this
  /\ Kid.hasPlayedLaughSound (Kid.applyMovement dt this w).1
     = Kid.hasPlayedLaughSound this
  /\ Kid.fleeTimer (Kid.applyMovement dt this w).1 = Kid.fleeTimer this.
Proof.
  unfold Kid.applyMovement.
  destruct (Kid.scanShelves _ _ _ _ _ _) as [[] []];
  destruct this; simpl; 
  match goal with s : Kid.State |- _ => destruct s end; simpl; 
  repeat split; reflexivity.
Qed.

Lemma dropVolumeBlock_frame this w :
  kidFrame w (Kid.dropVolumeBlock this w).2
  /\ Kid.state (Kid.dropVolumeBlock this w).1 = Kid.state this
  /\ Kid.hasPlayedLaughSound (Kid.dropVolumeBlock this w).1
     = Kid.hasPlayedLaughSound this.
Proof.
  unfold Kid.dropVolumeBlock. destruct (Kid.carriedVolumeBlock this); simpl;
  repeat split; reflexivity.
Qed.

Lemma headToCenter_frame this w :
  kidFrame w (Kid.headToCenter this w).2.
Proof. repeat split. Qed.

Lemma grab_frame self t shelf this w :
  kidFrame w (Kid.grab self t shelf this w).2.
Proof.
  unfold Kid.grab, Shelf.removeRandomVolumeBlock.
  destruct (length _ =? 0); simpl.
  - repeat split.
  - destruct (Shelf.removeVolumeBlock _ _ _) as [[[b|] s'] h']; simpl.
    + destruct (Num.ltb _ _); repeat split.
    + repeat split.
Qed.

Lemma checkStuck_frame dt this w :
  kidFrame w (Kid.checkStuck dt this w).2
  /\ Kid.state (Kid.checkStuck dt this w).1 = Kid.state this
  /\ Kid.carriedVolumeBlock (Kid.checkStuck dt this w).1 = Kid.carriedVolumeBlock this
  /\ Kid.hasPlayedLaughSound (Kid.checkStuck dt this w).1 = Kid.hasPlayedLaughSound this.
Proof.
  unfold Kid.checkStuck.
  destruct (_ && _); simpl; [destruct (Num.gtb _ _); simpl|]; repeat split.
Qed.

Lemma checkCarryTimer_frame dt this w :
  kidFrame w (Kid.checkCarryTimer dt this w).2
  /\ Kid.hasPlayedLaughSound (Kid.checkCarryTimer dt this w).1 = Kid.hasPlayedLaughSound this
  /\ (Kid.state (Kid.checkCarryTimer dt this w).1 = Kid.state this
      \/ Kid.state (Kid.checkCarryTimer dt this w).1 = Kid.wandering).
Proof.
  unfold Kid.checkCarryTimer.
  destruct (Kid.carriedVolumeBlock this) eqn:Hc; simpl.
  - destruct (Num.gtb _ _); simpl.
    + unfold Kid.dropVolumeBlock. simpl. rewrite Hc. simpl. repeat split. auto.
    + repeat split. auto.
  - repeat split. auto.
Qed.

Lemma updateFleeing_frame dt this w :
  kidFrame w (Kid.updateFleeing dt this w).2.
Proof.
  unfold Kid.updateFleeing.
  destruct (Kid.player w) as [p|] eqn:Hp.
  - destruct (Num.gtb _ _); [apply kidFrame_refl|].
    match goal with |- context [Kid.applyMovement ?d ?k ?w0] =>
      pose proof (applyMovement_frame d k w0) as (Hf & _ & Hc & _);
      destruct (Kid.applyMovement d k w0) as [k1 w1] end.
    simpl in *. destruct (Kid.carriedVolumeBlock k1); [|exact Hf].
    simpl. destruct (Num.ltb _ _); simpl.
    + eapply kidFrame_trans; [exact Hf|].
      eapply kidFrame_trans; [apply (kidFrame_rng (S (Kid.rng w1)))|].
      apply dropVolumeBlock_frame.
    + eapply kidFrame_trans; [exact Hf|]. apply kidFrame_rng.
  - match goal with |- context [Kid.applyMovement ?d ?k ?w0] =>
      pose proof (applyMovement_frame d k w0) as (Hf & _);
      destruct (Kid.applyMovement d k w0) as [k1 w1] end.
    simpl in *. destruct (Num.leb _ _); exact Hf.
Qed.

Lemma chooseHeading_frame dt seeking this w :
  kidFrame w (Kid.chooseHeading dt seeking this w).2.
Proof.
  unfold Kid.chooseHeading.
  destruct (_ && _).
  - destruct (Kid.findNearestShelf _ _ _ _); [apply kidFrame_refl|].
    simpl. destruct (Num.leb _ _); repeat split.
  - simpl. destruct (Num.leb _ _); [|apply kidFrame_refl].
    destruct (Kid.targetShelf _ _); repeat split.
Qed.

Lemma turnAtEdges_frame this w : kidFrame w (Kid.turnAtEdges this w).2.
Proof.
  unfold Kid.turnAtEdges.
  destruct (_ && _); [|apply kidFrame_refl].
  destruct (_ || _); repeat split.
Qed.

Lemma updateWandering_frame dt this w :
  Kid.playerInRange this w = false ->
  kidFrame w (Kid.updateWandering dt this w).2.
Proof.
  intros Hfar. unfold Kid.updateWandering. rewrite Hfar.
  destruct (if _ : bool then Kid.findStealTarget this 0 (Kid.shelves w) else None);
    [apply kidFrame_refl|].
  pose proof (chooseHeading_frame dt
                (negb (notNull (Kid.carriedVolumeBlock this))
                 && Num.leb (Kid.volumeBlockStealCooldown this) 0) this w) as H1.
  destruct (Kid.chooseHeading _ _ _ _) as [k1 w1]. simpl in H1.
  match goal with |- context [Kid.turnAtEdges ?k ?w0] =>
    pose proof (turnAtEdges_frame k w0) as H2;
    destruct (Kid.turnAtEdges k w0) as [k2 w2] end.
  simpl in H2.
  pose proof (applyMovement_frame dt k2 w2) as (H3 & _).
  eapply kidFrame_trans; [exact H1|]. eapply kidFrame_trans; eassumption.
Qed.

Lemma updateStealing_frame self dt this w :
  (notNull (Kid.targetShelf this w)
   && negb (notNull (Kid.carriedVolumeBlock this))
   && Kid.playerInRange this w) = false ->
  kidFrame w (Kid.updateStealing self dt this w).2.
Proof.
  intros Hquiet. unfold Kid.updateStealing.
  destruct (Kid.target this) as [t|] eqn:Ht; [|apply kidFrame_refl].
  destruct (Kid.targetShelf this w) as [shelf|] eqn:Hs; [|apply kidFrame_refl].
  destruct (Kid.carriedVolumeBlock this) as [b|]; simpl in *;
    [apply kidFrame_refl|].
  rewrite Hquiet.
  destruct (negb _).
  - apply applyMovement_frame.
  - destruct (Num.leb (Kid.grabDelay this) 0);
      destruct (Num.leb _ 0); apply grab_frame || apply kidFrame_refl.
Qed.

(** The proximity trigger: what [startFleeing] does. *)
Lemma startFleeing_effect this w :
  let '(this', w') := Kid.startFleeing this w in
  Kid.kidsRepelled w'
  = (if bool_decide (Kid.state this <> Kid.fleeing)
     then S (Kid.kidsRepelled w) else Kid.kidsRepelled w)
  /\ Kid.state this' = Kid.fleeing
  /\ Kid.hasPlayedLaughSound this' = true
  /\ Kid.cues w'
     = (if Kid.hasPlayedLaughSound this then Kid.cues w
        else Kid.cues w ++ [LaughCue (Kid.spriteType this)])
  /\ Kid.rng w' = Kid.rng w
  /\ Kid.player w' = Kid.player w
  /\ Kid.shelves w' = Kid.shelves w
  /\ Kid.volumeBlocks w' = Kid.volumeBlocks w
  /\ Kid.carriedVolumeBlock this' = Kid.carriedVolumeBlock this
  /\ Kid.vx this' = Kid.vx this /\ Kid.vy this' = Kid.vy this
  /\ Kid.stuckTimer this' = Kid.stuckTimer this
  /\ Kid.dropVolumeBlockTimer this' = Kid.dropVolumeBlockTimer this
  /\ Kid.dropVolumeBlockMinTime this' = Kid.dropVolumeBlockMinTime this
  /\ Kid.dropVolumeBlockMaxTime this' = Kid.dropVolumeBlockMaxTime this.
Proof.
  unfold Kid.startFleeing, Kid.playLaughingSound. simpl.
  destruct (Kid.hasPlayedLaughSound this) eqn:Hflag; simpl;
    destruct (bool_decide _); simpl; repeat split; auto.
Qed.

Lemma step_count self dt this w :
  Kid.kidsRepelled (Kid.step self dt this w).2
  = if repelled this w then S (Kid.kidsRepelled w) else Kid.kidsRepelled w.
Proof.
  unfold Kid.step, repelled. destruct (Kid.state this) eqn:Hstate.
  - destruct (Kid.playerInRange this w) eqn:Hin.
    + unfold Kid.updateWandering. rewrite Hin.
      pose proof (startFleeing_effect this w) as Heff.
      destruct (Kid.startFleeing this w) as [k1 w1]. simpl.
      destruct Heff as (-> & _). rewrite Hstate. reflexivity.
    + apply updateWandering_frame. exact Hin.
  - apply updateFleeing_frame.
  - destruct (_ && _) eqn:Htrig.
    + apply andb_true_iff in Htrig as [Htrig Hin].
      apply andb_true_iff in Htrig as [Htarget Hcarry].
      unfold Kid.updateStealing.
      destruct (Kid.targetShelf this w) as [shelf|] eqn:Hs;
        [|simpl in Htarget; discriminate].
      destruct (Kid.target this) as [t|] eqn:Ht;
        [|unfold Kid.targetShelf in Hs; rewrite Ht in Hs; discriminate].
      destruct (Kid.carriedVolumeBlock this); [discriminate|]. simpl.
      rewrite Hin.
      pose proof (startFleeing_effect this w) as Heff.
      destruct (Kid.startFleeing this w) as [k1 w1]. simpl.
      destruct Heff as (-> & _). rewrite Hstate. reflexivity.
    + apply updateStealing_frame. exact Htrig.
Qed.

Lemma update_count self dt this w :
  Kid.kidsRepelled (Kid.update self dt this w).2
  = if repelled this w then S (Kid.kidsRepelled w) else Kid.kidsRepelled w.
Proof.
  unfold Kid.update.
  set (this0 := if Num.gtb _ _ then _ else this).
  assert (Hsame : repelled this0 w = repelled this w).
  { unfold this0. destruct (Num.gtb _ _); reflexivity. }
  pose proof (step_count self dt this0 w) as Hstep. rewrite Hsame in Hstep.
  destruct (Kid.step self dt this0 w) as [k1 w1]. simpl in Hstep.
  pose proof (checkStuck_frame dt k1 w1) as ((H2 & _) & _).
  destruct (Kid.checkStuck dt k1 w1) as [k2 w2]. simpl in H2.
  pose proof (checkCarryTimer_frame dt k2 w2) as ((H3 & _) & _).
  destruct (Kid.checkCarryTimer dt k2 w2) as [k3 w3]. simpl in *.
  congruence.
Qed.

(** The end of an update, after the state machine: only the carry timer
    can change the state, and only to wandering. *)
Lemma tail_effect dt k w :
  let '(k2, w2) := Kid.checkStuck dt k w in
  let '(k3, w3) := Kid.checkCarryTimer dt k2 w2 in
  let k4 := Kid.keepInBounds k3 w3 in
  Kid.hasPlayedLaughSound k4 = Kid.hasPlayedLaughSound k
  /\ (Kid.carriedVolumeBlock k = None ->
      Kid.state k4 = Kid.state k /\ Kid.carriedVolumeBlock k4 = None)
  /\ (forall b, Kid.carriedVolumeBlock k = Some b ->
        let r := Math_random (Kid.rng w + stuckDraws dt k) in
        (carryTimeout dt k r = false ->
           Kid.state k4 = Kid.state k /\ Kid.carriedVolumeBlock k4 = Some b)
        /\ (carryTimeout dt k r = true ->
            Kid.state k4 = Kid.wandering /\ Kid.carriedVolumeBlock k4 = None)).
Proof.
  unfold Kid.checkStuck, stuckDraws, carryTimeout.
  destruct (Num.ltb (Num.abs (Kid.vx k)) (1 # 10));
    destruct (Num.ltb (Num.abs (Kid.vy k)) (1 # 10)); simpl;
    try destruct (Num.gtb (Kid.stuckTimer k + dt) 1); simpl;
    rewrite ?Nat.add_0_r, ?Nat.add_1_r;
    unfold Kid.checkCarryTimer; simpl;
    destruct (Kid.carriedVolumeBlock k) as [b|] eqn:Hc; simpl;
    try (destruct (Num.gtb (Kid.dropVolumeBlockTimer k + dt) _) eqn:Hto; simpl;
         unfold Kid.dropVolumeBlock; simpl; rewrite ?Hc; simpl);
    unfold Kid.keepInBounds; simpl;
    destruct (Num.truthy (Kid.worldWidth w) && Num.truthy (Kid.worldHeight w));
    simpl; (split; [reflexivity|]); (split; [try discriminate; auto|]);
    intros b' Hb'; try discriminate; injection Hb' as <-;
    split; intros; try discriminate; auto.
Qed.

Lemma update_unfold self dt this w :
  Kid.update self dt this w
  = let this0 :=
      if Num.gtb (Kid.volumeBlockStealCooldown this) 0
      then Kid.set_volumeBlockStealCooldown
             (Kid.volumeBlockStealCooldown this - dt) this
      else this in
    let '(k1, w1) := Kid.step self dt this0 w in
    let '(k2, w2) := Kid.checkStuck dt k1 w1 in
    let '(k3, w3) := Kid.checkCarryTimer dt k2 w2 in
    (Kid.keepInBounds k3 w3, w3).
Proof. reflexivity. Qed.

(** The state machine of a kid the player repels. *)
Lemma step_repelled self dt this w :
  repelled this w = true ->
  Kid.step self dt this w = Kid.startFleeing this w.
Proof.
  unfold repelled, Kid.step. destruct (Kid.state this).
  - intros Hin. unfold Kid.updateWandering. rewrite Hin. reflexivity.
  - discriminate.
  - intros Htrig.
    apply andb_true_iff in Htrig as [Htrig Hin].
    apply andb_true_iff in Htrig as [Htarget Hcarry].
    unfold Kid.updateStealing.
    destruct (Kid.targetShelf this w) as [shelf|] eqn:Hs;
      [|simpl in Htarget; discriminate].
    destruct (Kid.target this) as [t|] eqn:Ht;
      [|unfold Kid.targetShelf in Hs; rewrite Ht in Hs; discriminate].
    destruct (Kid.carriedVolumeBlock this); [discriminate|]. simpl.
    rewrite Hin. reflexivity.
Qed.

(** Leaving the Fleeing state resets the one-shot flag. *)
Lemma updateFleeing_far dt k w p :
  Kid.player w = Some p ->
  (Kid.playerDetectionRange k * (3 # 2) < Kid.distanceToPlayer k p)%Q ->
  Kid.updateFleeing dt k w
  = (Kid.set_hasPlayedLaughSound false (Kid.set_state Kid.wandering k), w).
Proof.
  intros Hp Hfar. unfold Kid.updateFleeing. rewrite Hp.
  apply gtb_gt in Hfar. rewrite Hfar. reflexivity.
Qed.

Lemma updateFleeing_timeout dt k w :
  Kid.player w = None ->
  (fleeTimerAfter dt k <= 0)%Q ->
  Kid.state (Kid.updateFleeing dt k w).1 = Kid.wandering
  /\ Kid.hasPlayedLaughSound (Kid.updateFleeing dt k w).1 = false
  /\ Kid.fleeTimer (Kid.updateFleeing dt k w).1 = None.
Proof.
  intros Hp Hout. unfold Kid.updateFleeing. rewrite Hp.
  match goal with |- context [Kid.applyMovement ?d ?k0 ?w0] =>
    pose proof (applyMovement_frame d k0 w0) as (_ & _ & _ & _ & Hft);
    destruct (Kid.applyMovement d k0 w0) as [k1 w1] end.
  simpl in Hft.
  unfold fleeTimerAfter, Kid.fleeTimerUnset in *. rewrite Hft.
  apply leb_le in Hout. rewrite Hout. simpl. auto.
Qed.

(** An update from the state machine on: the cooldown tick that precedes
    it touches nothing the result below depends on. *)
Lemma core_flee_episode (self : nat) (deltaTime : Q) (k : Kid.t)
    (w : Kid.World) :
  let '(k1, w1) := Kid.step self deltaTime k w in
  let '(k2, w2) := Kid.checkStuck deltaTime k1 w1 in
  let '(k3, w3) := Kid.checkCarryTimer deltaTime k2 w2 in
  let this' := Kid.keepInBounds k3 w3 in
  (repelled k w = true ->
     Kid.hasPlayedLaughSound this' = true
     /\ (Kid.carriedVolumeBlock k = None -> Kid.state this' = Kid.fleeing)
     /\ (forall b, Kid.carriedVolumeBlock k = Some b ->
           let r := Math_random (Kid.rng w + stuckDraws deltaTime k) in
           (carryTimeout deltaTime k r = false ->
              Kid.state this' = Kid.fleeing
              /\ Kid.carriedVolumeBlock this' = Some b)
           /\ (carryTimeout deltaTime k r = true ->
               Kid.state this' = Kid.wandering
               /\ Kid.carriedVolumeBlock this' = None)))
  /\ (Kid.state k = Kid.fleeing ->
      forall p, Kid.player w = Some p ->
        (Kid.playerDetectionRange k * (3 # 2) < Kid.distanceToPlayer k p)%Q ->
        Kid.state this' = Kid.wandering
        /\ Kid.hasPlayedLaughSound this' = false)
  /\ (Kid.state k = Kid.fleeing ->
      Kid.player w = None ->
      (fleeTimerAfter deltaTime k <= 0)%Q ->
      Kid.state this' = Kid.wandering
      /\ Kid.hasPlayedLaughSound this' = false).
Proof.
  destruct (Kid.step self deltaTime k w) as [k1 w1] eqn:Hstep.
  pose proof (tail_effect deltaTime k1 w1) as Htail.
  destruct (Kid.checkStuck deltaTime k1 w1) as [k2 w2].
  destruct (Kid.checkCarryTimer deltaTime k2 w2) as [k3 w3].
  cbv zeta in *. destruct Htail as (Hflag & Hfree & Hcarry).
  split; [|split].
  - intros Htrig. rewrite step_repelled in Hstep by assumption.
    pose proof (startFleeing_effect k w) as Heff. rewrite Hstep in Heff.
    destruct Heff as (_ & Hst & Hfl & _ & Hrng & _ & _ & _ & Hc & Hvx & Hvy
                      & Hstuck & Hdt & Hmin & Hmax).
    assert (Hdraws : stuckDraws deltaTime k1 = stuckDraws deltaTime k).
    { unfold stuckDraws. rewrite Hvx, Hvy, Hstuck. reflexivity. }
    assert (Hto : forall r, carryTimeout deltaTime k1 r = carryTimeout deltaTime k r).
    { intros r. unfold carryTimeout. rewrite Hdt, Hmin, Hmax. reflexivity. }
    rewrite Hst, Hc, Hrng, Hdraws in *.
    split; [congruence|]. split.
    + intros Hnone. apply Hfree. exact Hnone.
    + intros b Hb. specialize (Hcarry b Hb). rewrite Hto in Hcarry. exact Hcarry.
  - intros Hstate p Hp Hfar. unfold Kid.step in Hstep. rewrite Hstate in Hstep.
    rewrite (updateFleeing_far _ _ _ p) in Hstep by assumption.
    injection Hstep as <- <-. simpl in *. split; [|exact Hflag].
    destruct (Kid.carriedVolumeBlock k) as [b|] eqn:Hc.
    + destruct (Hcarry b eq_refl) as [Hno Hyes].
      destruct (carryTimeout deltaTime _ _); [apply Hyes | apply Hno]; reflexivity.
    + apply Hfree. reflexivity.
  - intros Hstate Hp Hout. unfold Kid.step in Hstep. rewrite Hstate in Hstep.
    pose proof (updateFleeing_timeout deltaTime k w Hp Hout) as (Hst & Hfl & _).
    rewrite Hstep in Hst, Hfl. simpl in Hst, Hfl.
    rewrite Hst, Hfl in *. split; [|exact Hflag].
    destruct (Kid.carriedVolumeBlock k1) as [b|] eqn:Hc.
    + destruct (Hcarry b eq_refl) as [Hno Hyes].
      destruct (carryTimeout deltaTime _ _); [apply Hyes | apply Hno]; reflexivity.
    + apply Hfree. reflexivity.
Qed.

(** C8, as amended.  An update of a wandering kid, or of a stealing kid
    that has its target and carries nothing, with the player closer than
    [playerDetectionRange], counts the kid as repelled exactly once and
    sets the one-shot flag; the kid ends the update Fleeing, unless it
    carries a block whose carry timer runs out in this very update: the
    block is then dropped and the kid ends the update Wandering.  No update
    of a kid that is already Fleeing changes the counter.  A fleeing kid
    that leaves the state because the player is further than 1.5 times the
    range, or because its timer without a player runs out, has its flag
    reset. *)
Theorem update_flee_episode (self : nat) (deltaTime : Q) (this : Kid.t)
    (w : Kid.World) :
  let '(this', w') := Kid.update self deltaTime this w in
  (forall p,
     Kid.player w = Some p ->
     (Kid.distanceToPlayer this p < Kid.playerDetectionRange this)%Q ->
     Kid.state this = Kid.wandering
     \/ (Kid.state this = Kid.stealing
         /\ is_Some (Kid.targetShelf this w)
         /\ Kid.carriedVolumeBlock this = None) ->
     Kid.kidsRepelled w' = S (Kid.kidsRepelled w)
     /\ Kid.hasPlayedLaughSound this' = true
     /\ (Kid.carriedVolumeBlock this = None -> Kid.state this' = Kid.fleeing)
     /\ (forall b, Kid.carriedVolumeBlock this = Some b ->
           let r := Math_random (Kid.rng w + stuckDraws deltaTime this) in
           (carryTimeout deltaTime this r = false ->
              Kid.state this' = Kid.fleeing
              /\ Kid.carriedVolumeBlock this' = Some b)
           /\ (carryTimeout deltaTime this r = true ->
               Kid.state this' = Kid.wandering
               /\ Kid.carriedVolumeBlock this' = None)))
  /\ (Kid.state this = Kid.fleeing ->
      Kid.kidsRepelled w' = Kid.kidsRepelled w)
  /\ (Kid.state this = Kid.fleeing ->
      forall p, Kid.player w = Some p ->
        (Kid.playerDetectionRange this * (3 # 2) < Kid.distanceToPlayer this p)%Q ->
        Kid.state this' = Kid.wandering
        /\ Kid.hasPlayedLaughSound this' = false)
  /\ (Kid.state this = Kid.fleeing ->
      Kid.player w = None ->
      (fleeTimerAfter deltaTime this <= 0)%Q ->
      Kid.state this' = Kid.wandering
      /\ Kid.hasPlayedLaughSound this' = false).
Proof.
  pose proof (update_count self deltaTime this w) as Hcount.
  assert (Htrigger : forall p,
            Kid.player w = Some p ->
            (Kid.distanceToPlayer this p < Kid.playerDetectionRange this)%Q ->
            Kid.state this = Kid.wandering
            \/ (Kid.state this = Kid.stealing
                /\ is_Some (Kid.targetShelf this w)
                /\ Kid.carriedVolumeBlock this = None) ->
            repelled this w = true).
  { intros p Hp Hnear Hstate. unfold repelled, Kid.playerInRange.
    rewrite Hp. apply ltb_lt in Hnear.
    destruct Hstate as [-> | (-> & [s ->] & ->)]; simpl; rewrite Hnear; reflexivity. }
  rewrite update_unfold in *. cbv zeta in *.
  destruct (Num.gtb (Kid.volumeBlockStealCooldown this) 0).
  - pose proof (core_flee_episode self deltaTime
                  (Kid.set_volumeBlockStealCooldown
                     (Kid.volumeBlockStealCooldown this - deltaTime) this) w)
      as Hcore.
    destruct (Kid.step _ _ _ _) as [k1 w1].
    destruct (Kid.checkStuck _ _ _) as [k2 w2].
    destruct (Kid.checkCarryTimer _ _ _) as [k3 w3].
    cbv zeta in Hcore. simpl in Hcount.
    destruct Hcore as (HA & HC1 & HC2).
    split; [|split; [|split]].
    + intros p Hp Hnear Hstate.
      pose proof (Htrigger p Hp Hnear Hstate) as Htrig.
      rewrite Htrig in Hcount. split; [exact Hcount|]. apply HA. exact Htrig.
    + intros Hstate. unfold repelled in Hcount. rewrite Hstate in Hcount.
      exact Hcount.
    + exact HC1.
    + exact HC2.
  - pose proof (core_flee_episode self deltaTime this w) as Hcore.
    destruct (Kid.step _ _ _ _) as [k1 w1].
    destruct (Kid.checkStuck _ _ _) as [k2 w2].
    destruct (Kid.checkCarryTimer _ _ _) as [k3 w3].
    cbv zeta in Hcore. simpl in Hcount.
    destruct Hcore as (HA & HC1 & HC2).
    split; [|split; [|split]].
    + intros p Hp Hnear Hstate.
      pose proof (Htrigger p Hp Hnear Hstate) as Htrig.
      rewrite Htrig in Hcount. split; [exact Hcount|]. apply HA. exact Htrig.
    + intros Hstate. unfold repelled in Hcount. rewrite Hstate in Hcount.
      exact Hcount.
    + exact HC1.
    + exact HC2.
Qed.
End FleeEpisode.

Section FleeEpisodeExamples.
Local Open Scope Q_scope.

Lemma update_flee_episode_witness :
  let M := Scenario.exampleMath [] in
  let this := Scenario.wanderer in
  let w := Scenario.meetingWorld in
  Kid.player w = Some Scenario.player0
  /\ Kid.distanceToPlayer this Scenario.player0 < Kid.playerDetectionRange this
  /\ Kid.state this = Kid.wandering
  /\ Kid.carriedVolumeBlock this = None
  /\ Kid.kidsRepelled (Kid.update 0 (1 # 60) this w).2 = 1%nat
  /\ Kid.state (Kid.update 0 (1 # 60) this w).1 = Kid.fleeing.
Proof.
  intros M this w.
  assert (Hnear : Kid.distanceToPlayer this Scenario.player0
                  < Kid.playerDetectionRange this) by reflexivity.
  split; [reflexivity|]. split; [exact Hnear|].
  split; [reflexivity|]. split; [reflexivity|].
  pose proof (update_flee_episode 0 (1 # 60) this w) as Hspec.
  destruct (Kid.update 0 (1 # 60) this w) as [this' w'].
  destruct Hspec as (Hrepel & _).
  destruct (Hrepel Scenario.player0 eq_refl Hnear (or_introl eq_refl))
    as (Hcount & _ & Hflee & _).
  split; [exact Hcount | exact (Hflee eq_refl)].
Defined.

(** C8 fails for a wandering kid that carries a block whose carry timer
    runs out in the update in which the player repels it (the draw 2/5
    makes the carry time 4.8 seconds): the counter is incremented, but the
    block is dropped and the kid ends the update Wandering, not Fleeing. *)
Lemma update_repelled_ends_wandering :
  let M := Scenario.exampleMath [2 # 5; 1 # 2; 1 # 2; 1 # 2; 1 # 2] in
  let this := Scenario.loadedWanderer in
  let w := Scenario.meetingWorld in
  let this' := (Kid.update 0 (1 # 60) this w).1 in
  let w' := (Kid.update 0 (1 # 60) this w).2 in
  Kid.state this = Kid.wandering
  /\ Kid.player w = Some Scenario.player0
  /\ Kid.distanceToPlayer this Scenario.player0 < Kid.playerDetectionRange this
  /\ Kid.kidsRepelled w' = S (Kid.kidsRepelled w)
  /\ Kid.carriedVolumeBlock this' = None
  /\ Kid.state this' = Kid.wandering
  /\ Kid.state this' <> Kid.fleeing.
Proof.
  vm_compute. repeat split; discriminate.
Qed.

End FleeEpisodeExamples.

(** ** Waves and spawning *)

Section Spawning.
Context `{MathEnv}.
Import PlayingState.
Local Open Scope Q_scope.

Lemma newMaxKids_steps (elapsed : Q) :
  let minutes := elapsed / 60 in
  (minutes < 1 -> newMaxKids elapsed = 3%Z)
  /\ (1 <= minutes < 3 -> newMaxKids elapsed = 5%Z)
  /\ (3 <= minutes < 5 -> newMaxKids elapsed = 7%Z)
  /\ (5 <= minutes < 10 -> newMaxKids elapsed = 10%Z)
  /\ (10 <= minutes ->
      newMaxKids elapsed = (10 + Qfloor (minutes - 10) * 2)%Z).
Proof.
  unfold newMaxKids. cbv zeta. repeat split.
  - intros H1. apply ltb_lt in H1. rewrite H1. reflexivity.
  - intros [H1 H3]. apply ltb_ge in H1. apply ltb_lt in H3.
    rewrite H1, H3. reflexivity.
  - intros [H3 H5].
    assert (H1 : 1 <= elapsed / 60) by lra.
    apply ltb_ge in H1. apply ltb_ge in H3. apply ltb_lt in H5.
    rewrite H1, H3, H5. reflexivity.
  - intros [H5 H10].
    assert (H1 : 1 <= elapsed / 60) by lra.
    assert (H3 : 3 <= elapsed / 60) by lra.
    apply ltb_ge in H1. apply ltb_ge in H3. apply ltb_ge in H5.
    apply ltb_lt in H10. rewrite H1, H3, H5, H10. reflexivity.
  - intros H10.
    assert (H1 : 1 <= elapsed / 60) by lra.
    assert (H3 : 3 <= elapsed / 60) by lra.
    assert (H5 : 5 <= elapsed / 60) by lra.
    apply ltb_ge in H1. apply ltb_ge in H3. apply ltb_ge in H5.
    apply ltb_ge in H10. rewrite H1, H3, H5, H10. reflexivity.
Qed.

Lemma spawnAggression_tiers (elapsed : Q) :
  let minutes := elapsed / 60 in
  (minutes < 5 -> spawnAggression elapsed = 1%Z)
  /\ (5 <= minutes < 10 -> spawnAggression elapsed = 2%Z)
  /\ (10 <= minutes -> spawnAggression elapsed = 3%Z).
Proof.
  unfold spawnAggression. cbv zeta. repeat split.
  - intros H5.
    assert (H10 : elapsed / 60 < 10) by lra.
    assert (H15 : elapsed / 60 < 15) by lra.
    apply geb_lt in H5. apply geb_lt in H10. apply geb_lt in H15.
    rewrite H15, H10, H5. reflexivity.
  - intros [H5 H10].
    assert (H15 : elapsed / 60 < 15) by lra.
    apply geb_ge in H5. apply geb_lt in H10. apply geb_lt in H15.
    rewrite H15, H10, H5. reflexivity.
  - intros H10. apply geb_ge in H10. rewrite H10.
    destruct (Num.geb _ 15); reflexivity.
Qed.

Lemma raiseCap_effect dt g :
  let g' := raiseCap dt g in
  maxKids (currentState g')
  = Z.max (maxKids (currentState g)) (newMaxKids (elapsedTime (gameData g)))
  /\ kids (currentState g') = kids (currentState g)
  /\ kidSpawnTimer (currentState g') = kidSpawnTimer (currentState g)
  /\ spawnPoints (currentState g') = spawnPoints (currentState g)
  /\ shelves (currentState g') = shelves (currentState g)
  /\ gameData g' = gameData g
  /\ rng g' = rng g
  /\ (active (maxKidsIncreaseNotification (currentState g)) = false ->
      maxKids (currentState g) >= newMaxKids (elapsedTime (gameData g)) ->
      g' = g)%Z.
Proof.
  unfold raiseCap. cbv zeta.
  destruct (maxKids (currentState g) <? newMaxKids _)%Z eqn:Hrise.
  - apply Z.ltb_lt in Hrise. simpl.
    destruct (Num.geb _ _); simpl; (split; [lia|]); repeat split; try reflexivity;
      intros; lia.
  - apply Z.ltb_ge in Hrise.
    destruct (active _) eqn:Hact; simpl.
    + destruct (Num.geb _ _); simpl; (split; [lia|]); repeat split;
        try reflexivity; intros; discriminate.
    + split; [lia|]. repeat split; reflexivity.
Qed.


Lemma pickSpawnPoint_some (points : list (Q * Q)) (r : Q) :
  0 <= r < 1 -> points <> [] ->
  exists sp,
    pickSpawnPoint points r = Some sp
    /\ points !! Z.to_nat (Qfloor (r * inject_Z (Z.of_nat (length points))))
       = Some sp.
Proof.
  intros Hr Hne. unfold pickSpawnPoint, Num.floor.
  assert (Hlen : (0 < length points)%nat).
  { destruct points; [contradiction | simpl; lia]. }
  pose proof (floor_draw_bounds r (length points) Hr Hlen) as [Hk0 Hk1].
  destruct (Qfloor (r * inject_Z (Z.of_nat (length points))) <? 0)%Z eqn:Hneg;
    [apply Z.ltb_lt in Hneg; lia|].
  destruct (points !! Z.to_nat (Qfloor (r * inject_Z (Z.of_nat (length points)))))
    as [sp|] eqn:Hsp; [eauto|].
  apply lookup_ge_None in Hsp. lia.
Qed.

(** A kid as the constructor makes it. *)
Lemma new_kid x y level w :
  let kid := (Kid.new x y level w).1 in
  Kid.aggressionLevel kid = level
  /\ Kid.state kid = Kid.wandering
  /\ Kid.carriedVolumeBlock kid = None
  /\ Kid.target kid = None
  /\ (Kid.x kid, Kid.y kid)
     = Kid.ensureSafeSpawnPosition 48 60 x y (Kid.shelves w).
Proof.
  unfold Kid.new. destruct (Kid.ensureSafeSpawnPosition _ _ _ _ _) as [x' y'].
  simpl. repeat split; reflexivity.
Qed.

Lemma spawnKid_effect g sp :
  pickSpawnPoint (spawnPoints (currentState g)) (Math_random (rng g)) = Some sp ->
  let g' := spawnKid g in
  let kid :=
    (Kid.new sp.1 sp.2 (spawnAggression (elapsedTime (gameData g)))
       (kidWorld (set_rng (S (rng g)) g))).1 in
  kids (currentState g') = kids (currentState g) ++ [kid]
  /\ kidSpawnTimer (currentState g') = 15
  /\ kidSpawnInterval (currentState g') = 15
  /\ maxKids (currentState g') = maxKids (currentState g).
Proof.
  intros Hpick. unfold spawnKid, random. cbv zeta. simpl.
  rewrite Hpick.
  destruct (Kid.new _ _ _ _) as [kid w]. simpl. repeat split; reflexivity.
Qed.

Lemma spawnKid_none g :
  pickSpawnPoint (spawnPoints (currentState g)) (Math_random (rng g)) = None ->
  kids (currentState (spawnKid g)) = kids (currentState g).
Proof.
  intros Hpick. unfold spawnKid, random. cbv zeta. simpl.
  rewrite Hpick. reflexivity.
Qed.

(** The four ways [updateKidSpawning] ends. *)
Lemma updateKidSpawning_cases (deltaTime : Q) (g : Game) :
  let s := currentState g in
  let s' := currentState (updateKidSpawning deltaTime g) in
  let r := Math_random (rng g) in
  maxKids s' = Z.max (maxKids s) (newMaxKids (elapsedTime (gameData g)))
  /\ (((maxKids s' <= Z.of_nat (length (kids s)))%Z
       /\ kids s' = kids s /\ kidSpawnTimer s' = kidSpawnTimer s)
      \/ ((Z.of_nat (length (kids s)) < maxKids s')%Z
          /\ 0 < kidSpawnTimer s - deltaTime
          /\ kids s' = kids s
          /\ kidSpawnTimer s' = kidSpawnTimer s - deltaTime)
      \/ ((Z.of_nat (length (kids s)) < maxKids s')%Z
          /\ kidSpawnTimer s - deltaTime <= 0
          /\ pickSpawnPoint (spawnPoints s) r = None
          /\ kids s' = kids s
          /\ kidSpawnTimer s' = kidSpawnTimer s - deltaTime)
      \/ ((Z.of_nat (length (kids s)) < maxKids s')%Z
          /\ kidSpawnTimer s - deltaTime <= 0
          /\ exists sp kid,
               pickSpawnPoint (spawnPoints s) r = Some sp
               /\ kids s' = kids s ++ [kid]
               /\ Kid.aggressionLevel kid
                  = spawnAggression (elapsedTime (gameData g))
               /\ Kid.state kid = Kid.wandering
               /\ (Kid.x kid, Kid.y kid)
                  = Kid.ensureSafeSpawnPosition 48 60 sp.1 sp.2 (shelves s)
               /\ kidSpawnTimer s' = 15)).
Proof.
  cbv zeta.
  pose proof (raiseCap_effect deltaTime g)
    as (Hmax & Hkids & Htimer & Hpoints & Hshelves & Hdata & Hrng & _).
  unfold updateKidSpawning. cbv zeta.
  set (g1 := raiseCap deltaTime g) in *.
  destruct (maxKids (currentState g1) <=? Z.of_nat (length (kids (currentState g1))))%Z
    eqn:Hfull.
  { apply Z.leb_le in Hfull. rewrite Hkids in Hfull.
    split; [exact Hmax|]. left. auto. }
  apply Z.leb_gt in Hfull. rewrite Hkids in Hfull.
  set (g2 := withState _ g1).
  assert (Hg2 : spawnPoints (currentState g2) = spawnPoints (currentState g)
                /\ rng g2 = rng g
                /\ kids (currentState g2) = kids (currentState g)
                /\ maxKids (currentState g2) = maxKids (currentState g1)
                /\ gameData g2 = gameData g
                /\ shelves (currentState g2) = shelves (currentState g)
                /\ kidSpawnTimer (currentState g2)
                   = kidSpawnTimer (currentState g) - deltaTime).
  { unfold g2. simpl. rewrite Htimer. auto 10. }
  destruct Hg2 as (Hp2 & Hr2 & Hk2 & Hm2 & Hd2 & Hs2 & Ht2).
  rewrite Ht2.
  destruct (Num.leb (kidSpawnTimer (currentState g) - deltaTime) 0) eqn:Hexp.
  2: { apply leb_gt in Hexp. rewrite Hm2, Hk2, Ht2.
       split; [exact Hmax|]. right. left. auto. }
  apply leb_le in Hexp.
  destruct (pickSpawnPoint (spawnPoints (currentState g2))
              (Math_random (rng g2))) as [sp|] eqn:Hpick.
  - pose proof (spawnKid_effect g2 sp Hpick) as (Hk' & Ht' & _ & Hm').
    cbv zeta in Hk', Ht', Hm'. rewrite Hm', Hm2, Ht', Hk', Hk2.
    split; [exact Hmax|]. right. right. right.
    split; [exact Hfull|]. split; [exact Hexp|].
    rewrite Hp2, Hr2 in Hpick.
    eexists sp, _. split; [exact Hpick|]. split; [reflexivity|].
    match goal with |- context [Kid.new ?x ?y ?l ?w0] =>
      pose proof (new_kid x y l w0) as (Ha & Hst & _ & _ & Hxy) end.
    cbv zeta in Ha, Hst, Hxy. rewrite Hd2 in *.
    split; [exact Ha|]. split; [exact Hst|]. split; [|reflexivity].
    rewrite Hxy. cbn [kidWorld Kid.shelves currentState set_rng].
    rewrite Hs2. reflexivity.
  - assert (Hsame : spawnKid g2 = set_rng (S (rng g2)) g2).
    { unfold spawnKid, random. cbv zeta.
      cbn [currentState set_rng gameData]. rewrite Hpick. reflexivity. }
    rewrite Hsame. cbn [currentState set_rng]. rewrite Hm2, Hk2, Ht2.
    rewrite Hp2, Hr2 in Hpick.
    split; [exact Hmax|]. right. right. left. auto.
Qed.

(** C5.  Each tick the cap on the number of kids is the larger of the old
    cap and the step function of the elapsed minutes: 3 before minute 1, 5
    before minute 3, 7 before minute 5, 10 before minute 10, then 10 plus 2
    per full minute past 10; it never decreases.  A kid is added only when
    there are fewer kids than the cap and the spawn timer, decremented by
    the tick, has run out; the timer then restarts at 15 seconds.  Raising
    the cap does not spawn by itself.  The new kid is wandering, made at
    the spawn point the draw picks (each point for an equal share of
    [0, 1)), with aggression level 1 before minute 5, 2 before minute 10
    and 3 from then on. *)
Theorem updateKidSpawning_spec (deltaTime : Q) (g : Game) :
  let s := currentState g in
  let s' := currentState (updateKidSpawning deltaTime g) in
  let elapsed := elapsedTime (gameData g) in
  let minutes := elapsed / 60 in
  let cap := newMaxKids elapsed in
  let level := spawnAggression elapsed in
  ((minutes < 1 -> cap = 3%Z)
   /\ (1 <= minutes < 3 -> cap = 5%Z)
   /\ (3 <= minutes < 5 -> cap = 7%Z)
   /\ (5 <= minutes < 10 -> cap = 10%Z)
   /\ (10 <= minutes -> cap = (10 + Qfloor (minutes - 10) * 2)%Z))
  /\ maxKids s' = Z.max (maxKids s) cap
  /\ (maxKids s <= maxKids s')%Z
  /\ ((minutes < 5 -> level = 1%Z)
      /\ (5 <= minutes < 10 -> level = 2%Z)
      /\ (10 <= minutes -> level = 3%Z))
  /\ ((maxKids s' <= Z.of_nat (length (kids s)))%Z ->
      kids s' = kids s /\ kidSpawnTimer s' = kidSpawnTimer s)
  /\ ((Z.of_nat (length (kids s)) < maxKids s')%Z ->
      0 < kidSpawnTimer s - deltaTime ->
      kids s' = kids s /\ kidSpawnTimer s' = kidSpawnTimer s - deltaTime)
  /\ (length (kids s') <> length (kids s) ->
      (Z.of_nat (length (kids s)) < maxKids s')%Z
      /\ kidSpawnTimer s - deltaTime <= 0)
  /\ ((Z.of_nat (length (kids s)) < maxKids s')%Z ->
      kidSpawnTimer s - deltaTime <= 0 ->
      0 <= Math_random (rng g) < 1 ->
      spawnPoints s <> [] ->
      exists sp kid,
        spawnPoints s
          !! Z.to_nat (Qfloor (Math_random (rng g)
                               * inject_Z (Z.of_nat (length (spawnPoints s)))))
        = Some sp
        /\ kids s' = kids s ++ [kid]
        /\ Kid.aggressionLevel kid = level
        /\ Kid.state kid = Kid.wandering
        /\ (Kid.x kid, Kid.y kid)
           = Kid.ensureSafeSpawnPosition 48 60 sp.1 sp.2 (shelves s)
        /\ kidSpawnTimer s' = 15).
Proof.
  cbv zeta.
  pose proof (newMaxKids_steps (elapsedTime (gameData g))) as Hcap.
  pose proof (spawnAggression_tiers (elapsedTime (gameData g))) as Hlevel.
  pose proof (updateKidSpawning_cases deltaTime g) as (Hmax & Hcases).
  cbv zeta in Hcap, Hlevel, Hmax, Hcases.
  split; [exact Hcap|]. split; [exact Hmax|]. split; [lia|].
  split; [exact Hlevel|].
  destruct Hcases as [(Hfull & Hk & Ht)
                     |[(Hroom & Hwait & Hk & Ht)
                      |[(Hroom & Hexp & Hpick & Hk & Ht)
                       |(Hroom & Hexp & sp & kid & Hpick & Hk & Hl & Hst & Hxy & Ht)]]].
  - split; [auto|]. split; [intros; lia|].
    split; [intros Hne; congruence|]. intros; lia.
  - split; [intros; lia|]. split; [auto|].
    split; [intros Hne; congruence|]. intros; lra.
  - split; [intros; lia|]. split; [intros; lra|].
    split; [intros Hne; congruence|].
    intros _ _ Hdraw Hne.
    destruct (pickSpawnPoint_some _ _ Hdraw Hne) as (sp & Hsome & _). congruence.
  - split; [intros; lia|]. split; [intros; lra|]. split; [auto|].
    intros _ _ Hdraw Hne.
    destruct (pickSpawnPoint_some _ _ Hdraw Hne) as (sp' & Hsome & Hith).
    rewrite Hpick in Hsome. injection Hsome as <-.
    exists sp, kid. auto 10.
Qed.

End Spawning.

Section SpawningExamples.
Import PlayingState.
Local Open Scope Q_scope.

Lemma updateKidSpawning_spec_witness :
  let M := Scenario.exampleMath [1 # 2; 1 # 3; 1 # 4] in
  let g := Scenario.spawnDue in
  let s := currentState g in
  let s' := currentState (updateKidSpawning (1 # 60) g) in
  (Z.of_nat (length (kids s)) < maxKids s')%Z
  /\ kidSpawnTimer s - (1 # 60) <= 0
  /\ 0 <= Math_random (rng g) < 1
  /\ spawnPoints s <> []
  /\ maxKids s' = 10%Z
  /\ exists kid,
       kids s' = [kid]
       /\ Kid.aggressionLevel kid = 2%Z
       /\ (Kid.x kid, Kid.y kid) = (1000, 300)
       /\ kidSpawnTimer s' = 15.
Proof.
  intros M g s s'.
  pose proof (updateKidSpawning_spec (1 # 60) g) as Hspec.
  cbv zeta in Hspec. fold s s' in Hspec.
  destruct Hspec as (_ & Hmax & _ & _ & _ & _ & _ & Hspawn).
  assert (Hroom : (Z.of_nat (length (kids s)) < maxKids s')%Z)
    by (rewrite Hmax; vm_compute; reflexivity).
  assert (Hexp : kidSpawnTimer s - (1 # 60) <= 0) by (vm_compute; discriminate).
  assert (Hdraw : 0 <= Math_random (rng g) < 1)
    by (split; vm_compute; [discriminate | reflexivity]).
  assert (Hpoints : spawnPoints s <> []) by discriminate.
  destruct (Hspawn Hroom Hexp Hdraw Hpoints)
    as (sp & kid & Hsp & Hkids & Hlevel & _ & Hxy & Htimer).
  split; [exact Hroom|]. split; [exact Hexp|]. split; [exact Hdraw|].
  split; [exact Hpoints|]. split; [rewrite Hmax; reflexivity|].
  exists kid. split; [exact Hkids|]. split; [rewrite Hlevel; reflexivity|].
  split; [|exact Htimer].
  rewrite Hxy. vm_compute in Hsp. injection Hsp as <-. reflexivity.
Defined.

End SpawningExamples.

(** ** Interactions and the tick *)

Section Interactions.
Context `{MathEnv}.
Import PlayingState.
Local Open Scope Q_scope.

Lemma calmer_refl g : calmer g g.
Proof. repeat split; auto; lra. Qed.

Lemma calmer_trans g1 g2 g3 : calmer g1 g2 -> calmer g2 g3 -> calmer g1 g3.
Proof.
  intros (A1 & A2 & A3) (B1 & B2 & B3).
  split; [congruence|]. split; [congruence|].
  intros H0. specialize (A3 H0). destruct A3 as [A3 A4].
  specialize (B3 A3). lra.
Qed.

(** A step that keeps the game data keeps the chaos level. *)
Lemma calmer_same_data g g' : gameData g' = gameData g -> calmer g g'.
Proof. intros E. unfold calmer. rewrite E. repeat split; auto; lra. Qed.

(** Steps that keep the chaos level, its maximum and the counter. *)
Ltac calm_direct :=
  unfold calmer;
  (split; [reflexivity|]); (split; [reflexivity|]);
  let H0 := fresh in intros H0; split; [exact H0 | apply Qle_refl].

Lemma calmer_foldl {A} (f : Game -> A -> Game) (l : list A) :
  (forall g a, calmer g (f g a)) -> forall g, calmer g (foldl f g l).
Proof.
  intros Hf. induction l as [|a l IH]; intros g; simpl.
  - apply calmer_refl.
  - eapply calmer_trans; [apply Hf | apply IH].
Qed.

Lemma levelFrame_refl g : levelFrame g g.
Proof. repeat split. Qed.

Lemma levelFrame_trans g1 g2 g3 :
  levelFrame g1 g2 -> levelFrame g2 g3 -> levelFrame g1 g3.
Proof.
  intros (A1 & A2 & A3 & A4 & A5 & A6 & A7 & A8 & A9)
         (B1 & B2 & B3 & B4 & B5 & B6 & B7 & B8 & B9).
  repeat split; congruence.
Qed.

Lemma levelUpStep_frame g : levelFrame g (levelUpStep g).
Proof.
  unfold levelFrame. simpl. repeat split.
  destruct (player (currentState g)); reflexivity.
Qed.

Lemma levelUpLoop_frame fuel : forall g, levelFrame g (levelUpLoop fuel g).
Proof.
  induction fuel as [|fuel IH]; intros g; simpl; [apply levelFrame_refl|].
  destruct (_ <=? _)%Z; [|apply levelFrame_refl].
  eapply levelFrame_trans; [apply levelUpStep_frame | apply IH].
Qed.

Lemma awardXP_frame amount g : levelFrame g (awardXP amount g).
Proof.
  unfold awardXP, levelUp.
  eapply levelFrame_trans; [|apply levelUpLoop_frame].
  unfold grantXP. simpl.
  destruct (player (currentState g)) eqn:Hp; unfold levelFrame; simpl;
    rewrite ?Hp; repeat split.
Qed.

Lemma reduceChaos_calmer amount g :
  0 <= amount -> calmer g (reduceChaos amount g).
Proof.
  intros Ha. unfold calmer, reduceChaos. simpl.
  split; [reflexivity|]. split; [reflexivity|]. intros H0.
  destruct (max_spec 0 (chaosLevel (gameData g) - amount)) as [[? ->]|[? ->]]; lra.
Qed.

Lemma levelFrame_calmer g g' : levelFrame g g' -> calmer g g'.
Proof.
  intros (A1 & A2 & A3 & _). unfold calmer. rewrite A1, A2, A3.
  repeat split; auto; lra.
Qed.

Lemma playPickupSound_calmer g : calmer g (playPickupSound g).
Proof. calm_direct. Qed.

Lemma playShelfSound_calmer g : calmer g (playShelfSound g).
Proof. calm_direct. Qed.

(** The reward of an interaction: less chaos, then the XP, then the cue. *)
Lemma reward_calmer (cue : Game -> Game) amount xp g0 g :
  (forall g1, calmer g1 (cue g1)) ->
  0 <= amount ->
  calmer g0 g ->
  calmer g0 (cue (awardXP xp (reduceChaos amount g))).
Proof.
  intros Hcue Ha Hg.
  eapply calmer_trans; [exact Hg|].
  eapply calmer_trans; [apply reduceChaos_calmer; exact Ha|].
  eapply calmer_trans; [apply levelFrame_calmer, awardXP_frame|].
  apply Hcue.
Qed.

Lemma pickupStep_calmer r cx cy g i : calmer g (pickupStep r cx cy g i).
Proof.
  unfold pickupStep.
  destruct (volumeBlocks (currentState g) !! i) as [b|]; [|apply calmer_refl].
  destruct (player (currentState g)) as [p|]; [|apply calmer_refl].
  destruct (_ || _); [apply calmer_refl|].
  destruct (Num.leb _ _); [|apply calmer_refl].
  destruct (Player.pickupVolumeBlock p i) as [[] p']; [|apply calmer_refl].
  apply reward_calmer;
    [apply playPickupSound_calmer | discriminate | calm_direct].
Qed.

Lemma snatchStep_calmer r cx cy g k : calmer g (snatchStep r cx cy g k).
Proof.
  unfold snatchStep.
  destruct (kids (currentState g) !! k) as [kid|]; [|apply calmer_refl].
  destruct (player (currentState g)) as [p|]; [|apply calmer_refl].
  destruct (Kid.carriedVolumeBlock kid) as [b|]; [|apply calmer_refl].
  destruct (Num.leb _ _); [|apply calmer_refl].
  destruct (Player.pickupVolumeBlock p b) as [[] p'];
    [|calm_direct].
  apply reward_calmer;
    [apply playPickupSound_calmer | discriminate | calm_direct].
Qed.

Lemma shelveStep_calmer d g i : calmer g (shelveStep d g i).
Proof.
  unfold shelveStep.
  destruct (shelves (currentState g) !! i) as [shelf|]; [|apply calmer_refl].
  destruct (player (currentState g)) as [p|]; [|apply calmer_refl].
  destruct (_ && _); [|apply calmer_refl].
  destruct (Player.shelveVolumeBlock _ _ _) as [[b|] p'];
    [|calm_direct].
  cbn [currentState withState set_currentState volumeBlocks set_player].
  destruct (Shelf.addVolumeBlock _ _ _ _) as [[[] shelf'] heap'];
    [|calm_direct].
  apply reward_calmer;
    [apply playShelfSound_calmer | discriminate | calm_direct].
Qed.

Lemma checkVolumeBlockPickup_calmer g : calmer g (checkVolumeBlockPickup g).
Proof.
  unfold checkVolumeBlockPickup.
  destruct (player (currentState g)); [|apply calmer_refl].
  apply calmer_foldl. intros. apply pickupStep_calmer.
Qed.

Lemma checkVolumeBlockSnatching_calmer g :
  calmer g (checkVolumeBlockSnatching g).
Proof.
  unfold checkVolumeBlockSnatching.
  destruct (player (currentState g)); [|apply calmer_refl].
  destruct (_ <=? _)%nat; [apply calmer_refl|].
  apply calmer_foldl. intros. apply snatchStep_calmer.
Qed.

Lemma checkVolumeBlockShelving_calmer g :
  calmer g (checkVolumeBlockShelving g).
Proof.
  unfold checkVolumeBlockShelving.
  destruct (player (currentState g)); [|apply calmer_refl].
  destruct (_ =? _)%nat; [apply calmer_refl|].
  apply calmer_foldl. intros. apply shelveStep_calmer.
Qed.


Lemma sameChaos_refl g : sameChaos g g.
Proof. split; reflexivity. Qed.

Lemma sameChaos_trans g1 g2 g3 :
  sameChaos g1 g2 -> sameChaos g2 g3 -> sameChaos g1 g3.
Proof. intros [A1 A2] [B1 B2]. split; congruence. Qed.

Lemma sameChaos_foldl {A} (f : Game -> A -> Game) (l : list A) :
  (forall g a, sameChaos g (f g a)) -> forall g, sameChaos g (foldl f g l).
Proof.
  intros Hf. induction l as [|a l IH]; intros g; simpl.
  - apply sameChaos_refl.
  - eapply sameChaos_trans; [apply Hf | apply IH].
Qed.

Lemma putKidWorld_sameChaos w g : sameChaos g (putKidWorld w g).
Proof. split; reflexivity. Qed.

Lemma updateKid_sameChaos dt g k : sameChaos g (updateKid dt g k).
Proof.
  unfold updateKid.
  destruct (kids (currentState g) !! k) as [kid|]; [|apply sameChaos_refl].
  destruct (Kid.update k dt kid (kidWorld g)) as [kid' w'].
  split; reflexivity.
Qed.

Lemma updateKids_sameChaos dt g : sameChaos g (updateKids dt g).
Proof. apply sameChaos_foldl. intros. apply updateKid_sameChaos. Qed.

Lemma updateKidSpawning_sameChaos dt g : sameChaos g (updateKidSpawning dt g).
Proof.
  pose proof (raiseCap_effect dt g) as (_ & _ & _ & _ & _ & Hdata & _).
  unfold updateKidSpawning. cbv zeta.
  set (g1 := raiseCap dt g) in *.
  assert (H1 : sameChaos g g1) by (unfold sameChaos; rewrite Hdata; auto).
  destruct (_ <=? _)%Z; [exact H1|].
  set (g2 := withState _ g1).
  assert (H2 : sameChaos g g2)
    by (eapply sameChaos_trans; [exact H1 | split; reflexivity]).
  destruct (Num.leb _ _); [|exact H2].
  eapply sameChaos_trans; [exact H2|].
  unfold spawnKid, random. cbv zeta.
  destruct (pickSpawnPoint _ _); [|split; reflexivity].
  destruct (Kid.new _ _ _ _) as [kid w]. split; reflexivity.
Qed.

Lemma sameChaos_calmer_range g g' g'' :
  (0 <= chaosLevel (gameData g) <= maxChaos (gameData g)) ->
  sameChaos g g' -> calmer g' g'' ->
  maxChaos (gameData g'') = maxChaos (gameData g)
  /\ 0 <= chaosLevel (gameData g'') <= maxChaos (gameData g'').
Proof.
  intros Hrange [S1 S2] (C1 & _ & C3).
  rewrite S1 in C3. specialize (C3 (proj1 Hrange)).
  rewrite C1, S2. split; [reflexivity|]. lra.
Qed.

Section Tick.
Context `{Player.Controls}.

Lemma updateEntities_sameChaos dt g : sameChaos g (updateEntities dt g).
Proof.
  unfold updateEntities.
  eapply sameChaos_trans; [|apply updateKids_sameChaos].
  destruct (player (currentState g)) as [p|]; [|split; reflexivity].
  destruct (Player.update dt p _) as [p' heap']. split; reflexivity.
Qed.

Lemma updateChaos_range dt g :
  0 <= maxChaos (gameData g) ->
  maxChaos (gameData (updateChaos dt g)) = maxChaos (gameData g)
  /\ 0 <= chaosLevel (gameData (updateChaos dt g)) <= maxChaos (gameData g).
Proof.
  intros Htop. split.
  - unfold updateChaos. cbv zeta.
    destruct (0 <? _)%nat; simpl; destruct (Num.gtb _ _); simpl;
      try destruct (_ =? _)%nat; reflexivity.
  - rewrite updateChaos_level. cbv zeta. apply clamp_range. exact Htop.
Qed.

(** C7.  Every tick that gets as far as the chaos economy ends with the
    chaos level in [0, maxChaos], whatever the entity updates, the spawn
    scheduler and the pickup, snatch and shelve steps do afterwards; and a
    tick that is cut short before keeps a level that was in that
    interval. *)
Theorem update_chaos_in_range (pausePressed : bool) (deltaTime : Q)
    (g : Game) :
  0 <= maxChaos (gameData g) ->
  let g' := update pausePressed deltaTime g in
  (reachesChaos pausePressed deltaTime g ->
     maxChaos (gameData g') = maxChaos (gameData g)
     /\ 0 <= chaosLevel (gameData g') <= maxChaos (gameData g'))
  /\ (0 <= chaosLevel (gameData g) <= maxChaos (gameData g) ->
      maxChaos (gameData g') = maxChaos (gameData g)
      /\ 0 <= chaosLevel (gameData g') <= maxChaos (gameData g')).
Proof.
  intros Htop. cbv zeta.
  assert (Hrun : forall g0,
            maxChaos (gameData g0) = maxChaos (gameData g) ->
            let g1 := updateChaos deltaTime g0 in
            let g2 :=
              if Num.geb (chaosLevel (gameData g1)) (maxChaos (gameData g1))
              then set_stateManager (stateManager g1 ++ [GameOver false]) g1
              else
                let g := updateEntities deltaTime g1 in
                let g := updateKidSpawning deltaTime g in
                let g := checkVolumeBlockPickup g in
                let g := checkVolumeBlockSnatching g in
                let g := checkVolumeBlockShelving g in
                let g := updateParticles deltaTime g in
                let '(_, g) := random g in g in
            maxChaos (gameData g2) = maxChaos (gameData g)
            /\ 0 <= chaosLevel (gameData g2) <= maxChaos (gameData g2)).
  { intros g0 Hmax0. cbv zeta.
    pose proof (updateChaos_range deltaTime g0 ltac:(rewrite Hmax0; exact Htop))
      as [Hm1 Hr1].
    set (g1 := updateChaos deltaTime g0) in *.
    rewrite <- Hm1 in Hr1.
    destruct (Num.geb _ _).
    - assert (E : forall a, gameData (set_stateManager a g1) = gameData g1)
        by reflexivity.
      rewrite E. split; [congruence | exact Hr1].
    - match goal with
      | |- context [updateParticles ?d ?gx] => set (g6 := gx)
      end.
      assert (H6 : maxChaos (gameData g6) = maxChaos (gameData g1)
                   /\ 0 <= chaosLevel (gameData g6) <= maxChaos (gameData g6)).
      { unfold g6. eapply sameChaos_calmer_range; [exact Hr1| |].
        - eapply sameChaos_trans;
            [apply updateEntities_sameChaos | apply updateKidSpawning_sameChaos].
        - eapply calmer_trans; [apply checkVolumeBlockPickup_calmer|].
          eapply calmer_trans; [apply checkVolumeBlockSnatching_calmer|].
          apply checkVolumeBlockShelving_calmer. }
      clearbody g6.
      assert (E : gameData (let '(_, g7) := random (updateParticles deltaTime g6)
                            in g7) = gameData g6) by reflexivity.
      rewrite E. destruct H6 as [H6 H7]. split; [congruence | exact H7]. }
  unfold update, reachesChaos.
  destruct pausePressed.
  { split; [intros (Hp & _); discriminate|]. simpl. auto. }
  destruct (isPaused (gameData g)) eqn:Hpaused.
  { split; [intros (_ & Hp & _); discriminate|]. auto. }
  set (g0 := withData _ g).
  assert (Hmax0 : maxChaos (gameData g0) = maxChaos (gameData g)) by reflexivity.
  assert (Hc0 : chaosLevel (gameData g0) = chaosLevel (gameData g)) by reflexivity.
  destruct (Num.geb (elapsedTime (gameData g0)) (targetTime (gameData g0))) eqn:Hwon.
  { split.
    - intros (_ & _ & Hlt). apply geb_ge in Hwon. simpl in Hwon. lra.
    - intros Hrange. simpl. auto. }
  specialize (Hrun g0 Hmax0). cbv zeta in Hrun.
  split; intros _; exact Hrun.
Qed.

End Tick.
End Interactions.

Section Snatching.
Context `{MathEnv}.
Import PlayingState.
Local Open Scope Q_scope.

Lemma quietly_refl g : quietly g g.
Proof. split; [exists 0%nat; rewrite app_nil_r|]; reflexivity. Qed.

Lemma quietly_trans g1 g2 g3 : quietly g1 g2 -> quietly g2 g3 -> quietly g1 g3.
Proof.
  intros [[n Hn] Hf] [[m Hm] Hf'].
  split; [|congruence].
  exists (n + m)%nat. rewrite Hm, Hn, replicate_add, app_assoc. reflexivity.
Qed.

Lemma quietly_foldl {A} (f : Game -> A -> Game) (l : list A) :
  (forall g a, quietly g (f g a)) -> forall g, quietly g (foldl f g l).
Proof.
  intros Hf. induction l as [|a l IH]; intros g; simpl.
  - apply quietly_refl.
  - eapply quietly_trans; [apply Hf | apply IH].
Qed.

Lemma levelFrame_quietly g g' : levelFrame g g' -> quietly g g'.
Proof.
  intros (_ & _ & _ & Hk & _ & _ & Ha & _). unfold quietly.
  rewrite Hk, Ha. split; [exists 0%nat; rewrite app_nil_r|]; reflexivity.
Qed.

Lemma playPickupSound_quietly g : quietly g (playPickupSound g).
Proof. split; [exists 1%nat|]; reflexivity. Qed.

(** Taking the block out of the hands of kid [k] and sending it fleeing
    does not touch its flag. *)
Lemma robbed_flags (l : list Kid.t) k kid :
  l !! k = Some kid ->
  Kid.hasPlayedLaughSound
    <$> alter (Kid.set_state Kid.fleeing) k
          (<[k := Kid.set_dropVolumeBlockTimer 0
                    (Kid.set_carriedVolumeBlock None kid)]> l)
  = Kid.hasPlayedLaughSound <$> l.
Proof.
  intros Hk.
  rewrite (list_fmap_alter _ _ id) by (apply Forall_forall; intros; reflexivity).
  rewrite list_alter_id by reflexivity.
  rewrite list_fmap_insert. simpl.
  apply list_insert_id. rewrite list_lookup_fmap, Hk. reflexivity.
Qed.

Lemma disarmed_flags (l : list Kid.t) k kid :
  l !! k = Some kid ->
  Kid.hasPlayedLaughSound
    <$> <[k := Kid.set_dropVolumeBlockTimer 0
                 (Kid.set_carriedVolumeBlock None kid)]> l
  = Kid.hasPlayedLaughSound <$> l.
Proof.
  intros Hk. rewrite list_fmap_insert. simpl.
  apply list_insert_id. rewrite list_lookup_fmap, Hk. reflexivity.
Qed.

Lemma snatchStep_quietly r cx cy g k : quietly g (snatchStep r cx cy g k).
Proof.
  unfold snatchStep.
  destruct (kids (currentState g) !! k) as [kid|] eqn:Hk; [|apply quietly_refl].
  destruct (player (currentState g)) as [p|]; [|apply quietly_refl].
  destruct (Kid.carriedVolumeBlock kid) as [b|]; [|apply quietly_refl].
  destruct (Num.leb _ _); [|apply quietly_refl].
  destruct (Player.pickupVolumeBlock p b) as [[] p'].
  - eapply quietly_trans; [|apply playPickupSound_quietly].
    eapply quietly_trans; [|apply levelFrame_quietly, awardXP_frame].
    split; [exists 0%nat; rewrite app_nil_r; reflexivity|].
    cbn [reduceChaos withData withState gameData currentState set_gameData
         set_currentState kids set_kids set_volumeBlocks set_player].
    apply robbed_flags. exact Hk.
  - split; [exists 0%nat; rewrite app_nil_r; reflexivity|].
    cbn [withState currentState set_currentState kids set_kids].
    apply disarmed_flags. exact Hk.
Qed.

Lemma checkVolumeBlockSnatching_quietly g :
  quietly g (checkVolumeBlockSnatching g).
Proof.
  unfold checkVolumeBlockSnatching.
  destruct (player (currentState g)); [|apply quietly_refl].
  destruct (_ <=? _)%nat; [apply quietly_refl|].
  apply quietly_foldl. intros. apply snatchStep_quietly.
Qed.

(** A snatch that succeeds. *)
Lemma snatchStep_success r cx cy g k kid p b :
  kids (currentState g) !! k = Some kid ->
  player (currentState g) = Some p ->
  Kid.carriedVolumeBlock kid = Some b ->
  distance (Kid.getCenterX kid) (Kid.getCenterY kid) cx cy <= r ->
  (length (Player.carriedVolumeBlocks p) < Player.carrySlots (Player.stats p))%nat ->
  let g' := snatchStep r cx cy g k in
  kids (currentState g') !! k
  = Some (Kid.set_state Kid.fleeing
            (Kid.set_dropVolumeBlockTimer 0
               (Kid.set_carriedVolumeBlock None kid)))
  /\ (Player.carriedVolumeBlocks <$> player (currentState g'))
     = Some (Player.carriedVolumeBlocks p ++ [b])
  /\ kidsRepelled (gameData g') = kidsRepelled (gameData g)
  /\ audio g' = audio g ++ [PickupCue]
  /\ chaosLevel (gameData g') = Num.max 0 (chaosLevel (gameData g) - (3 # 4)).
Proof.
  intros Hk Hp Hb Hnear Hroom. cbv zeta. unfold snatchStep.
  rewrite Hk, Hp, Hb. apply leb_le in Hnear. rewrite Hnear.
  unfold Player.pickupVolumeBlock. apply Nat.ltb_lt in Hroom. rewrite Hroom.
  unfold playPickupSound.
  match goal with |- context [awardXP ?a ?g0] =>
    pose proof (awardXP_frame a g0)
      as (Hc & _ & Hr & Hkids & _ & _ & Ha & _ & Hcarried);
    set (g1 := awardXP a g0) in *
  end.
  cbn [currentState set_audio gameData audio].
  rewrite Hkids, Hcarried, Hr, Ha, Hc.
  cbn [reduceChaos withData withState gameData currentState set_gameData
       set_currentState kids set_kids set_volumeBlocks set_player player
       kidsRepelled set_chaosLevel set_volumeBlocksCollected chaosLevel audio
       fmap option_fmap option_map Player.carriedVolumeBlocks
       Player.set_carriedVolumeBlocks].
  split; [|auto].
  rewrite list_lookup_alter_eq, list_lookup_insert_eq
    by (eapply lookup_lt_Some; eauto).
  reflexivity.
Qed.

(** A snatch the player has no room for: the kid loses its block and its
    carry timer all the same, and nothing else changes; the block is not
    touched. *)
Lemma snatchStep_refused r cx cy g k kid p b :
  kids (currentState g) !! k = Some kid ->
  player (currentState g) = Some p ->
  Kid.carriedVolumeBlock kid = Some b ->
  distance (Kid.getCenterX kid) (Kid.getCenterY kid) cx cy <= r ->
  (Player.carrySlots (Player.stats p) <= length (Player.carriedVolumeBlocks p))%nat ->
  snatchStep r cx cy g k
  = withState (fun s =>
      set_kids (<[k := Kid.set_dropVolumeBlockTimer 0
                         (Kid.set_carriedVolumeBlock None kid)]> (kids s)) s) g.
Proof.
  intros Hk Hp Hb Hnear Hfull. unfold snatchStep.
  rewrite Hk, Hp, Hb. apply leb_le in Hnear. rewrite Hnear.
  unfold Player.pickupVolumeBlock. apply Nat.ltb_ge in Hfull. rewrite Hfull.
  reflexivity.
Qed.

(** C10.  Snatching leaves the counter of repelled kids as it is, sends no
    cue but pickup cues and touches no kid's one-shot flag; the kid that is
    robbed is set to Fleeing directly.  The counter only moves in the
    update of a kid, and there only when the proximity trigger of a
    wandering or stealing kid fires. *)
Theorem snatching_keeps_repelled (g : Game) :
  let g' := checkVolumeBlockSnatching g in
  kidsRepelled (gameData g') = kidsRepelled (gameData g)
  /\ (exists n, audio g' = audio g ++ replicate n PickupCue)
  /\ Kid.hasPlayedLaughSound <$> kids (currentState g')
     = Kid.hasPlayedLaughSound <$> kids (currentState g)
  /\ (forall r cx cy k kid p b,
        kids (currentState g) !! k = Some kid ->
        player (currentState g) = Some p ->
        Kid.carriedVolumeBlock kid = Some b ->
        distance (Kid.getCenterX kid) (Kid.getCenterY kid) cx cy <= r ->
        (length (Player.carriedVolumeBlocks p)
         < Player.carrySlots (Player.stats p))%nat ->
        let g1 := snatchStep r cx cy g k in
        kids (currentState g1) !! k
        = Some (Kid.set_state Kid.fleeing
                  (Kid.set_dropVolumeBlockTimer 0
                     (Kid.set_carriedVolumeBlock None kid)))
        /\ kidsRepelled (gameData g1) = kidsRepelled (gameData g)
        /\ audio g1 = audio g ++ [PickupCue])
  /\ (forall self deltaTime this w,
        Kid.kidsRepelled (Kid.update self deltaTime this w).2
        = if repelled this w then S (Kid.kidsRepelled w)
          else Kid.kidsRepelled w).
Proof.
  cbv zeta.
  pose proof (checkVolumeBlockSnatching_calmer g) as (_ & Hcount & _).
  pose proof (checkVolumeBlockSnatching_quietly g) as (Hcues & Hflags).
  split; [exact Hcount|]. split; [exact Hcues|]. split; [exact Hflags|].
  split.
  - intros r cx cy k kid p b Hk Hp Hb Hnear Hroom.
    destruct (snatchStep_success r cx cy g k kid p b Hk Hp Hb Hnear Hroom)
      as (Hkid & _ & Hrep & Haudio & _).
    auto.
  - intros. apply update_count.
Qed.

End Snatching.

Section InteractionExamples.
Import PlayingState.
Local Open Scope Q_scope.

Lemma update_chaos_in_range_witness :
  let M := Scenario.exampleMath [] in
  let C := Scenario.stillPlayer in
  let g := Scenario.scenarioB in
  0 <= maxChaos (gameData g)
  /\ reachesChaos false (1 # 60) g
  /\ 0 <= chaosLevel (gameData (update false (1 # 60) g))
       <= maxChaos (gameData (update false (1 # 60) g)).
Proof.
  intros M C g.
  assert (Htop : 0 <= maxChaos (gameData g)) by discriminate.
  assert (Hreach : reachesChaos false (1 # 60) g)
    by (split; [reflexivity | split; reflexivity]).
  split; [exact Htop|]. split; [exact Hreach|].
  destruct (update_chaos_in_range false (1 # 60) g Htop) as [Hrange _].
  exact (proj2 (Hrange Hreach)).
Defined.

Lemma snatching_keeps_repelled_witness :
  let M := Scenario.exampleMath [] in
  let g := Scenario.robbery in
  kids (currentState g) !! 0%nat = Some Scenario.loadedWanderer
  /\ player (currentState g) = Some Scenario.player0
  /\ Kid.carriedVolumeBlock Scenario.loadedWanderer = Some 0%nat
  /\ distance (Kid.getCenterX Scenario.loadedWanderer)
       (Kid.getCenterY Scenario.loadedWanderer)
       (Player.getCenterX Scenario.player0)
       (Player.getCenterY Scenario.player0) <= 60
  /\ kidsRepelled (gameData (checkVolumeBlockSnatching g)) = 0%nat
  /\ Kid.state
       <$> kids (currentState
                   (snatchStep 60 (Player.getCenterX Scenario.player0)
                      (Player.getCenterY Scenario.player0) g 0)) !! 0%nat
     = Some Kid.fleeing.
Proof.
  intros M g.
  assert (Hnear : distance (Kid.getCenterX Scenario.loadedWanderer)
                    (Kid.getCenterY Scenario.loadedWanderer)
                    (Player.getCenterX Scenario.player0)
                    (Player.getCenterY Scenario.player0) <= 60)
    by (vm_compute; discriminate).
  destruct (snatching_keeps_repelled g) as (Hcount & _ & _ & Hstep & _).
  split; [reflexivity|]. split; [reflexivity|]. split; [reflexivity|].
  split; [exact Hnear|]. split; [rewrite Hcount; reflexivity|].
  destruct (Hstep 60 (Player.getCenterX Scenario.player0)
              (Player.getCenterY Scenario.player0) 0%nat
              Scenario.loadedWanderer Scenario.player0 0%nat
              eq_refl eq_refl eq_refl Hnear ltac:(vm_compute; lia))
    as (Hkid & _).
  cbv zeta in Hkid. rewrite Hkid. reflexivity.
Defined.

(** C4 fails on the code: with one free carry slot and two kids in reach
    that each carry a block, the first snatch fills the slot; the second
    kid then loses its reference to block 1 and its carry timer although
    the player takes nothing: the kid is not set Fleeing, and block 1 stays
    Held with that kid as holder, out of everybody's hands. *)
Theorem snatching_orphans_block :
  let M := Scenario.exampleMath [] in
  let g := Scenario.doubleRobbery in
  let g' := checkVolumeBlockSnatching g in
  (Kid.carriedVolumeBlock <$> kids (currentState g)) = [Some 0%nat; Some 1%nat]
  /\ (Player.carriedVolumeBlocks <$> player (currentState g')) = Some [0%nat]
  /\ (Kid.carriedVolumeBlock <$> kids (currentState g')) = [None; None]
  /\ (Kid.state <$> kids (currentState g')) = [Kid.fleeing; Kid.wandering]
  /\ (VolumeBlock.isHeld <$> volumeBlocks (currentState g') !! 1%nat) = Some true
  /\ (VolumeBlock.holder <$> volumeBlocks (currentState g') !! 1%nat)
     = Some (Some (HKid 1%nat))
  /\ currentState g' <> currentState g.
Proof.
  vm_compute. repeat split; discriminate.
Qed.

End InteractionExamples.

(** ** The shelf: glow, rendering and slots *)

Section Glow.
Local Open Scope Q_scope.

(** X1.  The glow of the empty slots.  On a shelf with as many blocks as
    its capacity, a tick sets the glow to 0 and keeps the direction of the
    pulse.  Otherwise the glow moves by [direction * deltaTime * speed],
    with speed 4 between 0.5 and 1 when the player carries a block of the
    colour of the shelf, and speed 2 between 0.3 and 0.7 when not: at or
    above the maximum it is set to the maximum and the pulse turns down,
    at or below the minimum it is set to the minimum and the pulse turns
    up, and in between the direction is kept.  So the glow always ends in
    the range. *)
Theorem update_glow_range (deltaTime : Q) (carried : option (list nat))
    (heap : list VolumeBlock.t) (this : Shelf.t) (glow : Shelf.Glow) :
  let glow' := Shelf.update deltaTime carried heap this glow in
  let stocked :=
    length (List.filter (fun slot => match slot with
                                     | Some _ => true
                                     | None => false
                                     end) (Shelf.volumeBlocks this)) in
  let matching :=
    match carried with
    | Some bs =>
        existsb (fun b =>
          bool_decide (VolumeBlock.color <$> heap !! b
                       = Some (Shelf.color this))) bs
    | None => false
    end in
  let glowSpeed := if matching then 4 else 2 in
  let maxGlow := if matching then 1 else 7 # 10 in
  let minGlow := if matching then 1 # 2 else 3 # 10 in
  let moved :=
    Shelf.emptySlotGlow glow
    + Shelf.emptySlotGlowDirection glow * deltaTime * glowSpeed in
  ((Shelf.capacity this <= stocked)%nat ->
   glow' = Shelf.mkGlow 0 (Shelf.emptySlotGlowDirection glow))
  /\ ((stocked < Shelf.capacity this)%nat ->
      (maxGlow <= moved -> glow' = Shelf.mkGlow maxGlow (-1))
      /\ (moved < maxGlow -> moved <= minGlow ->
          glow' = Shelf.mkGlow minGlow 1)
      /\ (minGlow < moved < maxGlow ->
          glow' = Shelf.mkGlow moved (Shelf.emptySlotGlowDirection glow))
      /\ minGlow <= Shelf.emptySlotGlow glow' <= maxGlow).
Proof.
  cbv zeta. unfold Shelf.update.
  change (Shelf.hasEmptySlots this)
    with (length (List.filter (fun slot => match slot with
                                           | Some _ => true
                                           | None => false
                                           end) (Shelf.volumeBlocks this))
          <? Shelf.capacity this)%nat.
  change (Shelf.playerHasMatchingVolumeBlock this carried heap)
    with (match carried with
          | Some bs =>
              existsb (fun b =>
                bool_decide (VolumeBlock.color <$> heap !! b
                             = Some (Shelf.color this))) bs
          | None => false
          end).
  set (stocked := length _).
  set (matching := match carried with Some _ => _ | None => _ end).
  cbv zeta.
  destruct (stocked <? Shelf.capacity this)%nat eqn:Hroom.
  - apply Nat.ltb_lt in Hroom. split; [lia|]. intros _.
    cbn [Shelf.emptySlotGlow Shelf.emptySlotGlowDirection].
    set (moved := Shelf.emptySlotGlow glow + _).
    assert (Hrange : (if matching then 1 # 2 else 3 # 10)
                     < (if matching then 1 else 7 # 10))
      by (destruct matching; reflexivity).
    destruct (Num.geb moved (if matching then 1 else 7 # 10)) eqn:E1.
    + apply geb_ge in E1.
      split; [reflexivity|]. split; [lra|]. split; [lra|].
      cbn [Shelf.emptySlotGlow]. lra.
    + apply geb_lt in E1.
      destruct (Num.leb moved (if matching then 1 # 2 else 3 # 10)) eqn:E2.
      * apply leb_le in E2.
        split; [lra|]. split; [reflexivity|]. split; [lra|].
        cbn [Shelf.emptySlotGlow]. lra.
      * apply leb_gt in E2.
        split; [lra|]. split; [lra|]. split; [reflexivity|].
        cbn [Shelf.emptySlotGlow]. lra.
  - apply Nat.ltb_ge in Hroom. split; [reflexivity | lia].
Qed.

Lemma update_glow_range_witness :
  let carried := Some [0%nat] in
  let heap := [Scenario.floorBlock 0 0 red] in
  let glow := Shelf.mkGlow (6 # 10) 1 in
  Shelf.update (1 # 4) carried heap Scenario.stockedShelf glow
  = Shelf.mkGlow 1 (-1)
  /\ Shelf.update (1 # 4) None heap Scenario.stockedShelf glow
     = Shelf.mkGlow (7 # 10) (-1)
  /\ Shelf.update (1 # 4) carried heap (Shelf.new 0 0 blue 6)
       (Shelf.mkGlow (6 # 10) (-1))
     = Shelf.mkGlow (3 # 10) 1
  /\ Shelf.update (1 # 4) carried heap (Shelf.new 0 0 red 0) glow
     = Shelf.mkGlow 0 1.
Proof.
  intros carried heap glow.
  split; [|split; [|split]].
  - apply (update_glow_range (1 # 4) carried heap Scenario.stockedShelf glow);
      [vm_compute; lia | vm_compute; discriminate].
  - apply (update_glow_range (1 # 4) None heap Scenario.stockedShelf glow);
      [vm_compute; lia | vm_compute; discriminate].
  - apply (update_glow_range (1 # 4) carried heap (Shelf.new 0 0 blue 6)
             (Shelf.mkGlow (6 # 10) (-1)));
      [vm_compute; lia | reflexivity | vm_compute; discriminate].
  - apply (update_glow_range (1 # 4) carried heap (Shelf.new 0 0 red 0) glow).
    vm_compute. lia.
Defined.
End Glow.

Section Render.
Implicit Types (this : Shelf.t) (heap : list VolumeBlock.t).

Lemma atOrigin_placeInSlot this i blk :
  atOrigin (Shelf.placeInSlot this i blk) = atOrigin blk.
Proof. reflexivity. Qed.

Lemma shelvedOn_atOrigin self blk blk' :
  atOrigin blk' = atOrigin blk -> shelvedOn self blk -> shelvedOn self blk'.
Proof.
  intros E [H1 H2]. unfold shelvedOn.
  change (VolumeBlock.isShelved blk') with (VolumeBlock.isShelved (atOrigin blk')).
  change (VolumeBlock.shelf blk') with (VolumeBlock.shelf (atOrigin blk')).
  rewrite E. auto.
Qed.

Lemma atOrigin_lookup heap heap' b blk' :
  atOrigin <$> heap' = atOrigin <$> heap ->
  heap' !! b = Some blk' ->
  exists blk, heap !! b = Some blk /\ atOrigin blk' = atOrigin blk.
Proof.
  intros E Hb.
  assert (Hl : (atOrigin <$> heap') !! b = Some (atOrigin blk')).
  { rewrite list_lookup_fmap, Hb. reflexivity. }
  rewrite E, list_lookup_fmap in Hl.
  destruct (heap !! b) as [blk|]; [|discriminate].
  exists blk. split; [reflexivity|]. simpl in Hl. congruence.
Qed.

Lemma shelvedOn_dec self blk :
  negb (VolumeBlock.isShelved blk)
  || negb (bool_decide (VolumeBlock.shelf blk = Some self)) = false
  <-> shelvedOn self blk.
Proof.
  unfold shelvedOn. rewrite orb_false_iff, !negb_false_iff, bool_decide_eq_true.
  tauto.
Qed.

(** What one round does. *)
Lemma renderSlot_effect self this heap i :
  let '(this', heap') := Shelf.renderSlot self (this, heap) i in
  atOrigin <$> heap' = atOrigin <$> heap
  /\ this' = Shelf.set_volumeBlocks (Shelf.volumeBlocks this') this
  /\ (Shelf.volumeBlocks this' = Shelf.volumeBlocks this
      \/ Shelf.volumeBlocks this' = <[i := None]> (Shelf.volumeBlocks this))
  /\ (forall b blk,
        Shelf.volumeBlocks this' !! i = Some (Some b) ->
        heap' !! b = Some blk -> shelvedOn self blk)
  /\ (forall b blk,
        Shelf.volumeBlocks this !! i = Some (Some b) ->
        heap !! b = Some blk -> shelvedOn self blk ->
        Shelf.volumeBlocks this' = Shelf.volumeBlocks this).
Proof.
  unfold Shelf.renderSlot.
  assert (Hid : this = Shelf.set_volumeBlocks (Shelf.volumeBlocks this) this)
    by (destruct this; reflexivity).
  destruct (Shelf.volumeBlocks this !! i) as [[b|]|] eqn:Hslot; simpl;
    try (refine (conj _ (conj _ (conj _ (conj _ _)))); auto; intros; congruence).
  destruct (heap !! b) as [blk|] eqn:Hb.
  2: { refine (conj _ (conj _ (conj _ (conj _ _)))); auto; intros; congruence. }
  destruct (negb (VolumeBlock.isShelved blk) || _) eqn:Hv.
  - simpl. refine (conj _ (conj _ (conj _ (conj _ _)))); auto.
    + intros b' blk' Hs. apply lookup_lt_Some in Hslot.
      rewrite list_lookup_insert_eq in Hs by assumption. discriminate.
    + intros b' blk' Hs Hb' Hok. assert (b' = b) by congruence. subst b'.
      assert (blk' = blk) by congruence. subst blk'.
      apply shelvedOn_dec in Hok. congruence.
  - apply shelvedOn_dec in Hv.
    refine (conj _ (conj _ (conj _ (conj _ _)))); auto.
    + rewrite (list_fmap_alter atOrigin _ id).
      * apply list_alter_id. reflexivity.
      * apply Forall_forall. intros blk' _. reflexivity.
    + intros b' blk' Hs Hb'. assert (b' = b) by congruence. subst b'.
      rewrite list_lookup_alter_eq, Hb in Hb'. simpl in Hb'.
      injection Hb' as <-.
      eapply shelvedOn_atOrigin; [|exact Hv]. reflexivity.
Qed.

Lemma rendered_prefix self this heap n :
  n <= length (Shelf.volumeBlocks this) ->
  rendered self this heap n
    (foldl (Shelf.renderSlot self) (this, heap) (seq 0 n)).
Proof.
  induction n as [|n IH]; intros Hn.
  - simpl. unfold rendered. simpl.
    refine (conj _ (conj _ (conj _ (conj _ (conj _ _))))); auto.
    + destruct this; reflexivity.
    + intros; lia.
  - rewrite seq_S, foldl_app. cbn [foldl Nat.add].
    destruct (foldl (Shelf.renderSlot self) (this, heap) (seq 0 n))
      as [t1 h1] eqn:Hfold.
    destruct IH as (Ho & Hid & Hlen & Hslots & Hvalid & Hkeep); [lia|].
    cbn [fst snd] in *.
    pose proof (renderSlot_effect self t1 h1 n) as Heff.
    destruct (Shelf.renderSlot self (t1, h1) n) as [t2 h2].
    destruct Heff as (Ho2 & Hid2 & Hch & Hv2 & Hk2).
    unfold rendered. simpl.
    split; [congruence|].
    split. { rewrite Hid2, Hid. reflexivity. }
    split. { destruct Hch as [-> | ->]; [|rewrite length_insert]; exact Hlen. }
    split.
    { intros i. destruct Hch as [-> | ->].
      - destruct (Hslots i) as [?|[? ?]]; [left|right]; auto with lia.
      - destruct (decide (i = n)) as [->|Hne].
        + right. split; [lia|]. apply list_lookup_insert_eq. lia.
        + rewrite list_lookup_insert_ne by congruence.
          destruct (Hslots i) as [?|[? ?]]; [left|right]; auto with lia. }
    split.
    { intros i b blk Hi Hs Hb.
      destruct (decide (i = n)) as [->|Hne]; [eauto|].
      assert (Hs1 : Shelf.volumeBlocks t1 !! i = Some (Some b)).
      { destruct Hch as [E | E]; rewrite E in Hs; [exact Hs|].
        rewrite list_lookup_insert_ne in Hs by congruence. exact Hs. }
      destruct (atOrigin_lookup h1 h2 b blk Ho2 Hb) as (blk1 & Hb1 & E1).
      eapply shelvedOn_atOrigin; [exact E1|].
      eapply Hvalid; eauto. lia. }
    intros i b blk Hs Hb Hok.
    pose proof (Hkeep i b blk Hs Hb Hok) as Hs1.
    destruct (decide (i = n)) as [->|Hne].
    + assert (Hb1 : exists blk1, h1 !! b = Some blk1 /\ atOrigin blk1 = atOrigin blk).
      { assert (Hl : (atOrigin <$> heap) !! b = Some (atOrigin blk))
          by (rewrite list_lookup_fmap, Hb; reflexivity).
        rewrite <- Ho, list_lookup_fmap in Hl.
        destruct (h1 !! b) as [blk1|]; [|discriminate].
        exists blk1. split; [reflexivity|]. simpl in Hl. congruence. }
      destruct Hb1 as (blk1 & Hb1 & E1).
      rewrite (Hk2 b blk1 Hs1 Hb1); [exact Hs1|].
      eapply shelvedOn_atOrigin; [exact E1 | exact Hok].
    + destruct Hch as [-> | ->]; [exact Hs1|].
      rewrite list_lookup_insert_ne by congruence. exact Hs1.
Qed.

(** X2.  Rendering the blocks of a shelf repairs its slots: a slot is
    cleared or left as it is, never filled; every block the shelf still
    lists is Shelved on this shelf; a slot whose block is Shelved on this
    shelf is kept; and the blocks change in nothing but their place. *)
Theorem renderVolumeBlocks_heals (self : nat) (this : Shelf.t)
    (heap : list VolumeBlock.t) :
  let '(this', heap') := Shelf.renderVolumeBlocks self this heap in
  this' = Shelf.set_volumeBlocks (Shelf.volumeBlocks this') this
  /\ length (Shelf.volumeBlocks this') = length (Shelf.volumeBlocks this)
  /\ atOrigin <$> heap' = atOrigin <$> heap
  /\ (forall i, Shelf.volumeBlocks this' !! i = Shelf.volumeBlocks this !! i
                \/ Shelf.volumeBlocks this' !! i = Some None)
  /\ (forall i b blk,
        Shelf.volumeBlocks this' !! i = Some (Some b) ->
        heap' !! b = Some blk -> shelvedOn self blk)
  /\ (forall i b blk,
        Shelf.volumeBlocks this !! i = Some (Some b) ->
        heap !! b = Some blk -> shelvedOn self blk ->
        Shelf.volumeBlocks this' !! i = Some (Some b)).
Proof.
  unfold Shelf.renderVolumeBlocks.
  pose proof (rendered_prefix self this heap
                (length (Shelf.volumeBlocks this)) (le_n _)) as Hr.
  destruct (foldl _ _ _) as [this' heap'].
  destruct Hr as (Ho & Hid & Hlen & Hslots & Hvalid & Hkeep). simpl in *.
  refine (conj _ (conj _ (conj _ (conj _ (conj _ _))))); auto.
  - intros i. destruct (Hslots i) as [?|[? ?]]; auto.
  - intros i b blk Hs Hb. eapply Hvalid; eauto.
    rewrite <- Hlen. eapply lookup_lt_Some; eauto.
Qed.
End Render.

Section SlotAccounting.
Implicit Types (this : Shelf.t) (heap : list VolumeBlock.t)
  (slots : list (option nat)).

Lemma count_clear slots i (b : nat) :
  slots !! i = Some (Some b) ->
  S (length (List.filter notNull (<[i := None]> slots)))
  = length (List.filter notNull slots).
Proof.
  revert i. induction slots as [|[c|] rest IH]; intros [|i] Hi;
    simpl in *; try discriminate; auto.
Qed.

Lemma set_volumeBlocks_same this :
  Shelf.set_volumeBlocks (Shelf.volumeBlocks this) this = this.
Proof. destruct this; reflexivity. Qed.

Lemma removeVolumeBlock_cases this index heap :
  (exists i b,
     index = Some i
     /\ Shelf.volumeBlocks this !! i = Some (Some b)
     /\ Shelf.removeVolumeBlock this index heap
        = (Some b,
           Shelf.set_volumeBlocks (<[i := None]> (Shelf.volumeBlocks this)) this,
           alter VolumeBlock.unshelve b heap))
  \/ ((forall i b, index = Some i ->
         Shelf.volumeBlocks this !! i <> Some (Some b))
      /\ Shelf.removeVolumeBlock this index heap = (None, this, heap)).
Proof.
  unfold Shelf.removeVolumeBlock.
  destruct index as [i|]; [|right; split; [discriminate | reflexivity]].
  destruct (Shelf.volumeBlocks this !! i) as [[b|]|] eqn:Hslot.
  - left. exists i, b. auto.
  - right. split; [congruence | reflexivity].
  - right. split; [congruence | reflexivity].
Qed.

Lemma addVolumeBlock_cases self this b heap :
  shelf_wf this ->
  (exists i,
     Shelf.volumeBlocks this !! i = Some None
     /\ Shelf.addVolumeBlock self this b heap
        = (true,
           Shelf.set_volumeBlocks (<[i := Some b]> (Shelf.volumeBlocks this)) this,
           alter (VolumeBlock.shelve self) b heap))
  \/ Shelf.addVolumeBlock self this b heap = (false, this, heap).
Proof.
  intros Hwf.
  destruct (heap !! b) as [blk|] eqn:Hb.
  2: { right. unfold Shelf.addVolumeBlock. rewrite Hb. reflexivity. }
  destruct (Shelf.hasEmptySlots this) eqn:Hempty.
  2: { right. eapply addVolumeBlock_failure; eauto. }
  destruct (decide (VolumeBlock.color blk = Shelf.color this)) as [Hc|Hc].
  2: { right. eapply addVolumeBlock_failure; eauto. }
  left.
  destruct (addVolumeBlock_success self this b heap blk Hwf Hb Hempty Hc)
    as (i & Hi & _ & E).
  eauto.
Qed.

(** X3.  On a shelf with one slot per unit of capacity [getEmptySlotCount]
    is the number of null slots; it lies between 0 and the capacity and
    is positive exactly when [hasEmptySlots] holds.  [addVolumeBlock] lowers it by one when it
    succeeds and [removeVolumeBlock] raises it by one when it returns a
    block; otherwise they leave it.  Both keep one slot per unit of
    capacity. *)
Theorem emptySlotCount_accounts (self : nat) (this : Shelf.t) (b : nat)
    (index : option nat) (heap : list VolumeBlock.t) :
  shelf_wf this ->
  Shelf.getEmptySlotCount this
  = Z.of_nat (length (List.filter (fun slot => match slot with
                                               | Some _ => false
                                               | None => true
                                               end) (Shelf.volumeBlocks this)))
  /\ (0 <= Shelf.getEmptySlotCount this <= Z.of_nat (Shelf.capacity this))%Z
  /\ (Shelf.hasEmptySlots this = true
      <-> (0 < Shelf.getEmptySlotCount this)%Z)
  /\ (let '(ok, this', _) := Shelf.addVolumeBlock self this b heap in
      shelf_wf this'
      /\ Shelf.getEmptySlotCount this'
         = (Shelf.getEmptySlotCount this - (if ok then 1 else 0))%Z)
  /\ (let '(res, this', _) := Shelf.removeVolumeBlock this index heap in
      shelf_wf this'
      /\ Shelf.getEmptySlotCount this'
         = (Shelf.getEmptySlotCount this + (if notNull res then 1 else 0))%Z).
Proof.
  intros Hwf.
  pose proof (count_le (Shelf.volumeBlocks this)) as Hle.
  unfold shelf_wf in Hwf.
  split.
  { unfold Shelf.getEmptySlotCount, Shelf.volumeBlockCount.
    rewrite <- Hwf. clear.
    induction (Shelf.volumeBlocks this) as [|[c|] rest IH]; cbn [List.filter length notNull];
      [reflexivity | |]; pose proof (count_le rest); lia. }
  split; [unfold Shelf.getEmptySlotCount, Shelf.volumeBlockCount; lia|].
  split.
  { unfold Shelf.hasEmptySlots, Shelf.getEmptySlotCount.
    rewrite Nat.ltb_lt. lia. }
  split.
  - destruct (addVolumeBlock_cases self this b heap Hwf)
      as [(i & Hi & ->) | ->].
    + split; [unfold shelf_wf; simpl; rewrite length_insert; exact Hwf|].
      unfold Shelf.getEmptySlotCount, Shelf.volumeBlockCount. simpl.
      rewrite (count_insert _ _ _ Hi). lia.
    + split; [exact Hwf | lia].
  - destruct (removeVolumeBlock_cases this index heap)
      as [(i & c & _ & Hi & ->) | [_ ->]].
    + split; [unfold shelf_wf; simpl; rewrite length_insert; exact Hwf|].
      unfold Shelf.getEmptySlotCount, Shelf.volumeBlockCount. simpl.
      pose proof (count_clear _ _ _ Hi). lia.
    + split; [exact Hwf | simpl; lia].
Qed.

(** X4.  Removing undoes adding: when [addVolumeBlock] succeeds the block
    sits in a slot that was empty, and [removeVolumeBlock] on that slot
    returns the block and leaves the shelf as it was before; the block
    then lies on the floor, and every other block is as it was. *)
Theorem add_then_remove (self : nat) (this : Shelf.t) (b : nat)
    (heap : list VolumeBlock.t) (this' : Shelf.t)
    (heap' : list VolumeBlock.t) :
  shelf_wf this ->
  Shelf.addVolumeBlock self this b heap = (true, this', heap') ->
  exists i,
    Shelf.volumeBlocks this !! i = Some None
    /\ Shelf.volumeBlocks this' !! i = Some (Some b)
    /\ Shelf.removeVolumeBlock this' (Some i) heap'
       = (Some b, this, alter VolumeBlock.unshelve b heap')
    /\ (exists blk,
          alter VolumeBlock.unshelve b heap' !! b = Some blk
          /\ VolumeBlock.isHeld blk = false
          /\ VolumeBlock.isShelved blk = false
          /\ VolumeBlock.shelf blk = None)
    /\ (forall r, r <> b ->
          alter VolumeBlock.unshelve b heap' !! r = heap !! r).
Proof.
  intros Hwf Hadd.
  destruct (addVolumeBlock_cases self this b heap Hwf)
    as [(i & Hi & E) | E]; rewrite E in Hadd; [|discriminate].
  injection Hadd as <- <-.
  assert (Hlt : i < length (Shelf.volumeBlocks this))
    by (eapply lookup_lt_Some; eauto).
  exists i. split; [exact Hi|].
  assert (Hnew : <[i := Some b]> (Shelf.volumeBlocks this) !! i = Some (Some b))
    by (apply list_lookup_insert_eq; exact Hlt).
  split; [exact Hnew|]. split.
  - unfold Shelf.removeVolumeBlock. simpl. rewrite Hnew.
    rewrite list_insert_insert_eq, list_insert_id by exact Hi.
    destruct this; reflexivity.
  - split.
    + rewrite !list_lookup_alter_eq.
      destruct (heap !! b) as [blk|] eqn:Hb.
      * eexists. split; [reflexivity|]. repeat split.
      * unfold Shelf.addVolumeBlock in E. rewrite Hb in E. discriminate.
    + intros r Hr. rewrite !list_lookup_alter_ne by congruence. reflexivity.
Qed.
End SlotAccounting.

Section RandomRemoval.
Context `{MathEnv}.
Local Open Scope Q_scope.

Lemma indices_nil_count (slots : list (option nat)) (start : nat) :
  Shelf.occupiedFrom start slots = []
  <-> length (List.filter notNull slots) = 0%nat.
Proof.
  revert start. induction slots as [|[c|] rest IH]; intros start; simpl.
  - tauto.
  - split; discriminate.
  - apply IH.
Qed.

(** X5.  With a draw in [0, 1), [removeRandomVolumeBlock] returns nothing
    and changes nothing, the draws included, on a shelf without blocks;
    otherwise it makes one draw, empties one occupied slot and returns the
    block of that slot, unshelved: the shelf holds one block less. *)
Theorem removeRandomVolumeBlock_frees_one (this : Shelf.t) (rng : nat)
    (heap : list VolumeBlock.t) :
  0 <= Math_random rng < 1 ->
  let '(res, this', heap', rng') :=
    Shelf.removeRandomVolumeBlock this rng heap in
  (Shelf.volumeBlockCount this = 0%nat ->
     res = None /\ this' = this /\ heap' = heap /\ rng' = rng)
  /\ (Shelf.volumeBlockCount this <> 0%nat ->
      exists i b,
        Shelf.volumeBlocks this !! i = Some (Some b)
        /\ res = Some b
        /\ this' = Shelf.set_volumeBlocks
                     (<[i := None]> (Shelf.volumeBlocks this)) this
        /\ S (Shelf.volumeBlockCount this') = Shelf.volumeBlockCount this
        /\ heap' = alter VolumeBlock.unshelve b heap
        /\ rng' = S rng).
Proof.
  intros Hr. unfold Shelf.removeRandomVolumeBlock.
  destruct (decide (Shelf.volumeBlockIndices this = [])) as [Hnil|Hne].
  - rewrite Hnil. simpl. split; [auto|].
    intros Hc. apply indices_nil_count in Hnil. contradiction.
  - assert (Hz : (length (Shelf.volumeBlockIndices this) =? 0)%nat = false).
    { apply Nat.eqb_neq. destruct (Shelf.volumeBlockIndices this);
        [contradiction | discriminate]. }
    rewrite Hz.
    destruct (pickIndex_occupied this (Math_random rng) Hr Hne)
      as (i & b & Hpick & _ & Hslot).
    rewrite Hpick. unfold Shelf.removeVolumeBlock. rewrite Hslot.
    split.
    + intros Hc. exfalso. apply Hne.
      apply indices_nil_count. exact Hc.
    + intros _. exists i, b. repeat split; auto.
      unfold Shelf.volumeBlockCount. simpl.
      apply (count_clear _ _ _ Hslot).
Qed.
End RandomRemoval.

Section ShelfExamples.
Local Open Scope Q_scope.

Lemma emptySlotCount_accounts_witness :
  let this := Scenario.stockedShelf in
  let heap := [Scenario.shelvedBlock; Scenario.shelvedBlock;
               Scenario.floorBlock 0 0 red] in
  shelf_wf this
  /\ Shelf.getEmptySlotCount this = 4%Z
  /\ Shelf.hasEmptySlots this = true
  /\ Shelf.getEmptySlotCount (Shelf.addVolumeBlock 0 this 2 heap).1.2 = 3%Z
  /\ Shelf.getEmptySlotCount
       (Shelf.removeVolumeBlock this (Some 3%nat) heap).1.2 = 5%Z.
Proof.
  intros this heap.
  pose proof (emptySlotCount_accounts 0 this 2 (Some 3%nat) heap eq_refl)
    as (_ & _ & Hsome & Hadd & Hremove).
  split; [reflexivity|]. split; [reflexivity|].
  split; [apply Hsome; reflexivity|].
  destruct (Shelf.addVolumeBlock 0 this 2 heap) as [[ok this1] heap1] eqn:Eadd.
  destruct (Shelf.removeVolumeBlock this (Some 3%nat) heap)
    as [[res this2] heap2] eqn:Eremove.
  destruct Hadd as [_ Hadd]. destruct Hremove as [_ Hremove].
  assert (Hok : ok = true) by (injection Eadd as <- _ _; reflexivity).
  assert (Hres : res = Some 1%nat) by (injection Eremove as <- _ _; reflexivity).
  subst ok res. split; [exact Hadd | exact Hremove].
Defined.

Lemma add_then_remove_witness :
  let this := Scenario.stockedShelf in
  let heap := [Scenario.shelvedBlock; Scenario.shelvedBlock;
               Scenario.floorBlock 0 0 red] in
  let this' :=
    Shelf.set_volumeBlocks
      [Some 2%nat; Some 0%nat; None; Some 1%nat; None; None] this in
  let heap' := [Scenario.shelvedBlock; Scenario.shelvedBlock;
                VolumeBlock.shelve 0 (Scenario.floorBlock 0 0 red)] in
  shelf_wf this
  /\ Shelf.addVolumeBlock 0 this 2 heap = (true, this', heap')
  /\ Shelf.removeVolumeBlock this' (Some 0%nat) heap'
     = (Some 2%nat, this, alter VolumeBlock.unshelve 2%nat heap').
Proof.
  intros this heap this' heap'.
  assert (Hadd : Shelf.addVolumeBlock 0 this 2 heap = (true, this', heap'))
    by reflexivity.
  split; [reflexivity|]. split; [exact Hadd|].
  destruct (add_then_remove 0 this 2 heap this' heap' eq_refl Hadd)
    as (i & Hfree & Hslot & Hremove & _).
  assert (i = 0%nat) as ->.
  { destruct i as [|[|[|[|[|[|i]]]]]]; try discriminate; reflexivity. }
  exact Hremove.
Defined.

Lemma removeRandomVolumeBlock_frees_one_witness :
  let M := Scenario.exampleMath [1 # 2] in
  let this := Scenario.stockedShelf in
  let heap := [Scenario.shelvedBlock; Scenario.shelvedBlock] in
  0 <= Math_random 0 < 1
  /\ Shelf.volumeBlockCount this = 2%nat
  /\ Shelf.removeRandomVolumeBlock this 0 heap
     = (Some 1%nat,
        Shelf.set_volumeBlocks [None; Some 0%nat; None; None; None; None] this,
        [Scenario.shelvedBlock; VolumeBlock.unshelve Scenario.shelvedBlock],
        1%nat)
  /\ Shelf.volumeBlockCount (Shelf.removeRandomVolumeBlock this 0 heap).1.1.2
     = 1%nat.
Proof.
  intros M this heap.
  assert (Hdraw : 0 <= Math_random 0 < 1) by (split; [vm_compute; discriminate | reflexivity]).
  split; [exact Hdraw|]. split; [reflexivity|]. split; [reflexivity|].
  pose proof (removeRandomVolumeBlock_frees_one this 0%nat heap Hdraw) as Hspec.
  destruct (Shelf.removeRandomVolumeBlock this 0 heap)
    as [[[res this'] heap'] rng'].
  destruct Hspec as [_ Hsome].
  destruct Hsome as (i & b & _ & _ & _ & Hcount & _); [discriminate|].
  cbn [fst snd]. change (Shelf.volumeBlockCount this) with 2%nat in Hcount.
  lia.
Defined.

Lemma renderVolumeBlocks_heals_witness :
  let this :=
    Shelf.set_volumeBlocks
      [Some 0%nat; Some 1%nat; None; Some 2%nat; None; None]
      (Shelf.new 200 200 red 6) in
  let heap :=
    [Scenario.shelvedBlock; Scenario.floorBlock 5 5 red;
     VolumeBlock.shelve 7 (Scenario.floorBlock 0 0 red)] in
  Shelf.volumeBlocks (Shelf.renderVolumeBlocks 0 this heap).1
  = [Some 0%nat; None; None; None; None; None]
  /\ (exists blk,
        (Shelf.renderVolumeBlocks 0 this heap).2 !! 0%nat = Some blk
        /\ VolumeBlock.x blk == 596 # 3 /\ VolumeBlock.y blk == 224)
  /\ (forall i b blk,
        Shelf.volumeBlocks (Shelf.renderVolumeBlocks 0 this heap).1 !! i
        = Some (Some b) ->
        (Shelf.renderVolumeBlocks 0 this heap).2 !! b = Some blk ->
        shelvedOn 0 blk).
Proof.
  intros this heap.
  split; [reflexivity|].
  split; [eexists; split; [reflexivity | split; reflexivity]|].
  pose proof (renderVolumeBlocks_heals 0 this heap) as Hspec.
  destruct (Shelf.renderVolumeBlocks 0 this heap) as [this' heap'].
  destruct Hspec as (_ & _ & _ & _ & Hlisted & _). exact Hlisted.
Defined.

End ShelfExamples.

(** ** The kids: what every update keeps *)

Section Traits.
Context `{MathEnv}.
Local Open Scope Q_scope.

Lemma sameTraits_refl k : sameTraits k k.
Proof. unfold sameTraits. tauto. Qed.

Lemma sameTraits_trans k1 k2 k3 :
  sameTraits k1 k2 -> sameTraits k2 k3 -> sameTraits k1 k3.
Proof.
  unfold sameTraits. intros H1 H2.
  destruct H1 as (?&?&?&?&?&?&?&?&?&?&?&?&?).
  destruct H2 as (?&?&?&?&?&?&?&?&?&?&?&?&?).
  repeat split; congruence.
Qed.

Ltac traits := unfold sameTraits; simpl; repeat split; reflexivity.

Lemma applyMovement_traits dt this w :
  sameTraits this (Kid.applyMovement dt this w).1.
Proof.
  unfold Kid.applyMovement.
  destruct (Kid.scanShelves _ _ _ _ _ _) as [[] []];
  destruct this; simpl;
  match goal with s : Kid.State |- _ => destruct s end; traits.
Qed.

Lemma dropVolumeBlock_traits this w :
  sameTraits this (Kid.dropVolumeBlock this w).1.
Proof.
  unfold Kid.dropVolumeBlock. destruct (Kid.carriedVolumeBlock this); traits.
Qed.

Lemma startFleeing_traits this w :
  sameTraits this (Kid.startFleeing this w).1.
Proof.
  unfold Kid.startFleeing, Kid.playLaughingSound. simpl.
  destruct (Kid.hasPlayedLaughSound this); traits.
Qed.

Lemma grab_traits self t shelf this w :
  sameTraits this (Kid.grab self t shelf this w).1.
Proof.
  unfold Kid.grab, Shelf.removeRandomVolumeBlock.
  destruct (length _ =? 0)%nat; simpl; [traits|].
  destruct (Shelf.removeVolumeBlock _ _ _) as [[[b|] s'] h']; simpl;
    [destruct (Num.ltb _ _)|]; traits.
Qed.

Lemma checkStuck_traits dt this w :
  sameTraits this (Kid.checkStuck dt this w).1.
Proof.
  unfold Kid.checkStuck.
  destruct (_ && _); simpl; [destruct (Num.gtb _ _); simpl|]; traits.
Qed.

Lemma checkCarryTimer_traits dt this w :
  sameTraits this (Kid.checkCarryTimer dt this w).1.
Proof.
  unfold Kid.checkCarryTimer.
  destruct (Kid.carriedVolumeBlock this) eqn:Hc; simpl; [|traits].
  destruct (Num.gtb _ _); simpl; [|traits].
  unfold Kid.dropVolumeBlock. simpl. rewrite Hc. traits.
Qed.

Lemma keepInBounds_traits this w : sameTraits this (Kid.keepInBounds this w).
Proof. unfold Kid.keepInBounds. destruct (_ && _); traits. Qed.

Lemma chooseHeading_traits dt seeking this w :
  sameTraits this (Kid.chooseHeading dt seeking this w).1.
Proof.
  unfold Kid.chooseHeading.
  destruct (_ && _).
  - destruct (Kid.findNearestShelf _ _ _ _); [traits|].
    simpl. destruct (Num.leb _ _); traits.
  - simpl. destruct (Num.leb _ _); [|traits].
    destruct (Kid.targetShelf _ _); traits.
Qed.

Lemma turnAtEdges_traits this w :
  sameTraits this (Kid.turnAtEdges this w).1.
Proof.
  unfold Kid.turnAtEdges.
  destruct (_ && _); [|traits].
  destruct (_ || _); traits.
Qed.

Lemma updateWandering_traits dt this w :
  sameTraits this (Kid.updateWandering dt this w).1.
Proof.
  unfold Kid.updateWandering.
  destruct (Kid.playerInRange this w); [apply startFleeing_traits|].
  destruct (if _ : bool then Kid.findStealTarget this 0 (Kid.shelves w) else None);
    [traits|].
  pose proof (chooseHeading_traits dt
                (negb (notNull (Kid.carriedVolumeBlock this))
                 && Num.leb (Kid.volumeBlockStealCooldown this) 0) this w) as H1.
  destruct (Kid.chooseHeading _ _ _ _) as [k1 w1]. simpl in H1.
  match goal with |- context [Kid.turnAtEdges ?k ?w0] =>
    pose proof (turnAtEdges_traits k w0) as H2;
    destruct (Kid.turnAtEdges k w0) as [k2 w2] end.
  simpl in H2.
  pose proof (applyMovement_traits dt k2 w2) as H3.
  eapply sameTraits_trans; [exact H1|].
  eapply sameTraits_trans; [|exact H3].
  eapply sameTraits_trans; [|exact H2]. traits.
Qed.

Lemma updateFleeing_traits dt this w :
  sameTraits this (Kid.updateFleeing dt this w).1.
Proof.
  unfold Kid.updateFleeing.
  destruct (Kid.player w) as [p|] eqn:Hp.
  - destruct (Num.gtb _ _); [traits|].
    match goal with |- context [Kid.applyMovement ?d ?k ?w0] =>
      pose proof (applyMovement_traits d k w0) as Hf;
      destruct (Kid.applyMovement d k w0) as [k1 w1] end.
    simpl in Hf.
    assert (Hk1 : sameTraits this k1).
    { eapply sameTraits_trans; [|exact Hf].
      destruct (Num.gtb _ 0); traits. }
    destruct (Kid.carriedVolumeBlock k1); [|exact Hk1].
    simpl. destruct (Num.ltb _ _); simpl; [|exact Hk1].
    eapply sameTraits_trans; [exact Hk1|]. apply dropVolumeBlock_traits.
  - match goal with |- context [Kid.applyMovement ?d ?k ?w0] =>
      pose proof (applyMovement_traits d k w0) as Hf;
      destruct (Kid.applyMovement d k w0) as [k1 w1] end.
    simpl in Hf.
    assert (Hk1 : sameTraits this k1).
    { eapply sameTraits_trans; [|exact Hf]. traits. }
    destruct (Num.leb _ _); simpl;
      (eapply sameTraits_trans; [exact Hk1|]; traits).
Qed.

Lemma updateStealing_traits self dt this w :
  sameTraits this (Kid.updateStealing self dt this w).1.
Proof.
  unfold Kid.updateStealing.
  destruct (Kid.target this) as [t|] eqn:Ht; [|traits].
  destruct (Kid.targetShelf this w) as [shelf|] eqn:Hs; [|traits].
  destruct (notNull (Kid.carriedVolumeBlock this)); [traits|].
  destruct (Kid.playerInRange this w); [apply startFleeing_traits|].
  destruct (negb _).
  - eapply sameTraits_trans; [|apply applyMovement_traits]. traits.
  - destruct (Num.leb (Kid.grabDelay this) 0);
      (destruct (Num.leb _ 0);
       [eapply sameTraits_trans; [|apply grab_traits]; traits | traits]).
Qed.

Lemma step_traits self dt this w :
  sameTraits this (Kid.step self dt this w).1.
Proof.
  unfold Kid.step. destruct (Kid.state this).
  - apply updateWandering_traits.
  - apply updateFleeing_traits.
  - apply updateStealing_traits.
Qed.

Lemma update_traits self dt this w :
  sameTraits this (Kid.update self dt this w).1.
Proof.
  rewrite update_unfold. cbv zeta.
  match goal with |- context [Kid.step self dt ?k0 w] =>
    pose proof (step_traits self dt k0 w) as H1;
    assert (H0 : sameTraits this k0) by (destruct (Num.gtb _ _); traits);
    destruct (Kid.step self dt k0 w) as [k1 w1] end.
  pose proof (checkStuck_traits dt k1 w1) as H2.
  destruct (Kid.checkStuck dt k1 w1) as [k2 w2].
  pose proof (checkCarryTimer_traits dt k2 w2) as H3.
  destruct (Kid.checkCarryTimer dt k2 w2) as [k3 w3].
  simpl in *.
  eapply sameTraits_trans; [exact H0|].
  eapply sameTraits_trans; [exact H1|].
  eapply sameTraits_trans; [exact H2|].
  eapply sameTraits_trans; [exact H3|].
  apply keepInBounds_traits.
Qed.

(** The world keeps its bounds and its player through the update of a
    kid. *)
Lemma startFleeing_world this w :
  Kid.worldWidth (Kid.startFleeing this w).2 = Kid.worldWidth w
  /\ Kid.worldHeight (Kid.startFleeing this w).2 = Kid.worldHeight w.
Proof.
  unfold Kid.startFleeing, Kid.playLaughingSound. simpl.
  destruct (Kid.hasPlayedLaughSound this); destruct (bool_decide _); simpl; auto.
Qed.

Lemma step_world self dt this w :
  Kid.worldWidth (Kid.step self dt this w).2 = Kid.worldWidth w
  /\ Kid.worldHeight (Kid.step self dt this w).2 = Kid.worldHeight w.
Proof.
  destruct (repelled this w) eqn:Hrep.
  - rewrite (step_repelled self dt this w Hrep). apply startFleeing_world.
  - assert (Hf : kidFrame w (Kid.step self dt this w).2).
    { unfold Kid.step, repelled in *. destruct (Kid.state this).
      + apply updateWandering_frame. exact Hrep.
      + apply updateFleeing_frame.
      + apply updateStealing_frame. exact Hrep. }
    destruct Hf as (_ & _ & _ & ? & ?). auto.
Qed.

Lemma update_world self dt this w :
  Kid.worldWidth (Kid.update self dt this w).2 = Kid.worldWidth w
  /\ Kid.worldHeight (Kid.update self dt this w).2 = Kid.worldHeight w.
Proof.
  rewrite update_unfold. cbv zeta.
  match goal with |- context [Kid.step self dt ?k0 w] =>
    pose proof (step_world self dt k0 w) as [H1 H1'];
    destruct (Kid.step self dt k0 w) as [k1 w1] end.
  pose proof (checkStuck_frame dt k1 w1) as ((_ & _ & _ & H2 & H2') & _).
  destruct (Kid.checkStuck dt k1 w1) as [k2 w2].
  pose proof (checkCarryTimer_frame dt k2 w2) as ((_ & _ & _ & H3 & H3') & _).
  destruct (Kid.checkCarryTimer dt k2 w2) as [k3 w3].
  simpl in *. split; congruence.
Qed.

(** X7.  After any update a kid lies within the bounds of the world, and
    it has the size, the sprite, the speeds, the ranges and the times it
    was created with. *)
Theorem update_stays_in_world (self : nat) (deltaTime : Q) (this : Kid.t)
    (w : Kid.World) :
  Num.truthy (Kid.worldWidth w) && Num.truthy (Kid.worldHeight w) = true ->
  Kid.width this <= Kid.worldWidth w ->
  Kid.height this <= Kid.worldHeight w ->
  let '(this', w') := Kid.update self deltaTime this w in
  sameTraits this this'
  /\ Kid.worldWidth w' = Kid.worldWidth w
  /\ Kid.worldHeight w' = Kid.worldHeight w
  /\ 0 <= Kid.x this' <= Kid.worldWidth w - Kid.width this
  /\ 0 <= Kid.y this' <= Kid.worldHeight w - Kid.height this.
Proof.
  intros Hdims Hw Hh.
  pose proof (update_traits self deltaTime this w) as Ht.
  pose proof (update_world self deltaTime this w) as [Hww Hwh].
  revert Ht Hww Hwh. rewrite update_unfold. cbv zeta.
  match goal with |- context [Kid.step self deltaTime ?k0 w] =>
    destruct (Kid.step self deltaTime k0 w) as [k1 w1] end.
  destruct (Kid.checkStuck deltaTime k1 w1) as [k2 w2].
  destruct (Kid.checkCarryTimer deltaTime k2 w2) as [k3 w3].
  cbn [fst snd]. intros Ht Hww Hwh.
  split; [exact Ht|]. split; [exact Hww|]. split; [exact Hwh|].
  destruct Ht as (Hwd & Hht & _).
  unfold Kid.keepInBounds in *. rewrite Hww, Hwh, Hdims in *.
  simpl in Hwd, Hht. simpl. rewrite ?Hwd, ?Hht.
  split; apply clamp_range; lra.
Qed.
End Traits.

Section Carrying.
Context `{MathEnv}.
Local Open Scope Q_scope.

Lemma sameButDraws_refl w : sameButDraws w w.
Proof. unfold sameButDraws. destruct w; reflexivity. Qed.

Lemma sameButDraws_trans w1 w2 w3 :
  sameButDraws w1 w2 -> sameButDraws w2 w3 -> sameButDraws w1 w3.
Proof.
  unfold sameButDraws. intros E1 E2. rewrite E2, E1. reflexivity.
Qed.

Lemma sameButDraws_rng n w : sameButDraws w (Kid.set_rng n w).
Proof. reflexivity. Qed.

Lemma sameButDraws_fields w w' :
  sameButDraws w w' ->
  Kid.volumeBlocks w' = Kid.volumeBlocks w
  /\ Kid.shelves w' = Kid.shelves w
  /\ Kid.player w' = Kid.player w.
Proof. intros ->. auto. Qed.

Lemma applyMovement_draws dt this w :
  sameButDraws w (Kid.applyMovement dt this w).2.
Proof.
  unfold Kid.applyMovement.
  destruct (Kid.scanShelves _ _ _ _ _ _) as [[] []];
  destruct this; simpl;
  match goal with s : Kid.State |- _ => destruct s end;
  apply sameButDraws_refl || reflexivity.
Qed.

Lemma chooseHeading_draws dt seeking this w :
  sameButDraws w (Kid.chooseHeading dt seeking this w).2
  /\ Kid.state (Kid.chooseHeading dt seeking this w).1 = Kid.state this
  /\ Kid.carriedVolumeBlock (Kid.chooseHeading dt seeking this w).1
     = Kid.carriedVolumeBlock this.
Proof.
  unfold Kid.chooseHeading.
  destruct (_ && _).
  - destruct (Kid.findNearestShelf _ _ _ _); [split; [apply sameButDraws_refl | auto]|].
    simpl. destruct (Num.leb _ _); simpl;
      (split; [apply sameButDraws_refl || reflexivity | auto]).
  - simpl. destruct (Num.leb _ _);
      [|split; [apply sameButDraws_refl | auto]].
    destruct (Kid.targetShelf _ _); simpl; (split; [reflexivity | auto]).
Qed.

Lemma turnAtEdges_draws this w :
  sameButDraws w (Kid.turnAtEdges this w).2
  /\ Kid.state (Kid.turnAtEdges this w).1 = Kid.state this
  /\ Kid.carriedVolumeBlock (Kid.turnAtEdges this w).1
     = Kid.carriedVolumeBlock this.
Proof.
  unfold Kid.turnAtEdges.
  destruct (_ && _); [|split; [apply sameButDraws_refl | auto]].
  destruct (_ || _); simpl;
    (split; [apply sameButDraws_refl || reflexivity | auto]).
Qed.

Lemma checkStuck_draws dt this w :
  sameButDraws w (Kid.checkStuck dt this w).2.
Proof.
  unfold Kid.checkStuck.
  destruct (_ && _); simpl; [destruct (Num.gtb _ _); simpl|];
    apply sameButDraws_refl || reflexivity.
Qed.

Lemma startFleeing_blocks this w :
  Kid.carriedVolumeBlock (Kid.startFleeing this w).1 = Kid.carriedVolumeBlock this
  /\ Kid.volumeBlocks (Kid.startFleeing this w).2 = Kid.volumeBlocks w
  /\ Kid.shelves (Kid.startFleeing this w).2 = Kid.shelves w.
Proof.
  unfold Kid.startFleeing, Kid.playLaughingSound. simpl.
  destruct (Kid.hasPlayedLaughSound this); destruct (bool_decide _); simpl; auto.
Qed.

Lemma kept k w k' w' :
  Kid.carriedVolumeBlock k' = Kid.carriedVolumeBlock k ->
  Kid.volumeBlocks w' = Kid.volumeBlocks w ->
  Kid.shelves w' = Kid.shelves w ->
  keptOrDropped k w k' w'.
Proof. left. auto. Qed.

Lemma keptOrDropped_trans k1 w1 k2 w2 k3 w3 :
  keptOrDropped k1 w1 k2 w2 -> keptOrDropped k2 w2 k3 w3 ->
  keptOrDropped k1 w1 k3 w3.
Proof.
  intros [(Hc & Hb & Hs) | (b & Hc & Hn & Hs & Hl & Hrel & Hoth)]
         [(Hc' & Hb' & Hs') | (b' & Hc' & Hn' & Hs' & Hl' & Hrel' & Hoth')].
  - left. repeat split; congruence.
  - right. exists b'. rewrite <- Hc, <- Hb, <- Hs. auto 10.
  - right. exists b. rewrite Hc', Hb', Hs'. auto 10.
  - congruence.
Qed.

(** What [dropVolumeBlock] does to the block the kid carries. *)
Lemma dropVolumeBlock_released this w b :
  Kid.carriedVolumeBlock this = Some b ->
  keptOrDropped this w (Kid.dropVolumeBlock this w).1
    (Kid.dropVolumeBlock this w).2.
Proof.
  intros Hc. right. exists b. unfold Kid.dropVolumeBlock. rewrite Hc. simpl.
  split; [reflexivity|]. split; [reflexivity|]. split; [reflexivity|].
  split; [apply length_alter|]. split.
  - intros blk'. rewrite list_lookup_alter_eq.
    destruct (Kid.volumeBlocks w !! b) as [blk|]; [|discriminate].
    simpl. intros [= <-].
    destruct (Kid.targetShelf _ _); destruct (_ && _); repeat split.
  - intros r Hr. apply list_lookup_alter_ne. congruence.
Qed.

Lemma dropVolumeBlock_keptOrDropped this w :
  keptOrDropped this w (Kid.dropVolumeBlock this w).1
    (Kid.dropVolumeBlock this w).2.
Proof.
  destruct (Kid.carriedVolumeBlock this) as [b|] eqn:Hc.
  - eapply dropVolumeBlock_released; eauto.
  - unfold Kid.dropVolumeBlock. rewrite Hc. left. auto.
Qed.

Lemma applyMovement_kept dt this w :
  keptOrDropped this w (Kid.applyMovement dt this w).1
    (Kid.applyMovement dt this w).2.
Proof.
  pose proof (applyMovement_draws dt this w) as Hd.
  apply sameButDraws_fields in Hd as (? & ? & _).
  apply kept; auto. apply applyMovement_frame.
Qed.

Lemma updateWandering_kept dt this w :
  keptOrDropped this w (Kid.updateWandering dt this w).1
    (Kid.updateWandering dt this w).2.
Proof.
  unfold Kid.updateWandering.
  destruct (Kid.playerInRange this w).
  { apply kept; apply startFleeing_blocks. }
  destruct (if _ : bool then Kid.findStealTarget this 0 (Kid.shelves w) else None).
  { apply kept; reflexivity. }
  pose proof (chooseHeading_draws dt
                (negb (notNull (Kid.carriedVolumeBlock this))
                 && Num.leb (Kid.volumeBlockStealCooldown this) 0) this w)
    as (H1 & _ & H1c).
  destruct (Kid.chooseHeading _ _ _ _) as [k1 w1]. simpl in H1, H1c.
  apply sameButDraws_fields in H1 as (H1b & H1s & _).
  match goal with |- context [Kid.turnAtEdges ?k ?w0] =>
    pose proof (turnAtEdges_draws k w0) as (H2 & _ & H2c);
    destruct (Kid.turnAtEdges k w0) as [k2 w2] end.
  simpl in H2, H2c.
  apply sameButDraws_fields in H2 as (H2b & H2s & _).
  eapply keptOrDropped_trans; [|apply applyMovement_kept].
  apply kept; congruence.
Qed.

Lemma updateFleeing_keptOrDropped dt this w :
  keptOrDropped this w (Kid.updateFleeing dt this w).1
    (Kid.updateFleeing dt this w).2.
Proof.
  unfold Kid.updateFleeing.
  destruct (Kid.player w) as [p|] eqn:Hp.
  - destruct (Num.gtb _ _); [apply kept; reflexivity|].
    match goal with |- context [Kid.applyMovement ?d ?k ?w0] =>
      pose proof (applyMovement_kept d k w0) as Hm;
      assert (H0 : keptOrDropped this w k w0)
        by (apply kept; destruct (Num.gtb _ 0); reflexivity);
      destruct (Kid.applyMovement d k w0) as [k1 w1] end.
    simpl in Hm.
    pose proof (keptOrDropped_trans _ _ _ _ _ _ H0 Hm) as H1.
    destruct (Kid.carriedVolumeBlock k1) eqn:Hc1; [|exact H1].
    simpl. destruct (Num.ltb _ _).
    + eapply keptOrDropped_trans; [exact H1|].
      eapply keptOrDropped_trans;
        [|apply (dropVolumeBlock_keptOrDropped k1 (Kid.set_rng (S (Kid.rng w1)) w1))].
      apply kept; reflexivity.
    + eapply keptOrDropped_trans; [exact H1|]. apply kept; reflexivity.
  - match goal with |- context [Kid.applyMovement ?d ?k ?w0] =>
      pose proof (applyMovement_kept d k w0) as Hm;
      assert (H0 : keptOrDropped this w k w0) by (apply kept; reflexivity);
      destruct (Kid.applyMovement d k w0) as [k1 w1] end.
    simpl in Hm.
    pose proof (keptOrDropped_trans _ _ _ _ _ _ H0 Hm) as H1.
    destruct (Num.leb _ _); simpl;
      (eapply keptOrDropped_trans; [exact H1|]; apply kept; reflexivity).
Qed.

Lemma checkStuck_kept dt this w :
  keptOrDropped this w (Kid.checkStuck dt this w).1 (Kid.checkStuck dt this w).2.
Proof.
  pose proof (checkStuck_draws dt this w) as Hd.
  apply sameButDraws_fields in Hd as (? & ? & _).
  apply kept; auto. apply checkStuck_frame.
Qed.

Lemma checkCarryTimer_keptOrDropped dt this w :
  keptOrDropped this w (Kid.checkCarryTimer dt this w).1
    (Kid.checkCarryTimer dt this w).2.
Proof.
  unfold Kid.checkCarryTimer.
  destruct (Kid.carriedVolumeBlock this) as [b|] eqn:Hc; [|apply kept; reflexivity].
  simpl. destruct (Num.gtb _ _); [|apply kept; reflexivity].
  match goal with |- context [Kid.dropVolumeBlock ?k ?w0] =>
    pose proof (dropVolumeBlock_released k w0 b Hc) as Hd;
    destruct (Kid.dropVolumeBlock k w0) as [k1 w1] end.
  simpl in *.
  eapply keptOrDropped_trans; [|eapply keptOrDropped_trans; [exact Hd|]].
  - apply kept; reflexivity.
  - apply kept; reflexivity.
Qed.

(** A kid that carries a block does not touch a shelf. *)
Lemma updateStealing_carrying self dt this w b :
  Kid.carriedVolumeBlock this = Some b ->
  keptOrDropped this w (Kid.updateStealing self dt this w).1
    (Kid.updateStealing self dt this w).2.
Proof.
  intros Hc. unfold Kid.updateStealing.
  destruct (Kid.target this); [|apply kept; reflexivity].
  destruct (Kid.targetShelf this w); [|apply kept; reflexivity].
  rewrite Hc. simpl. apply kept; reflexivity.
Qed.

Lemma step_carrying self dt this w b :
  Kid.carriedVolumeBlock this = Some b ->
  keptOrDropped this w (Kid.step self dt this w).1 (Kid.step self dt this w).2.
Proof.
  intros Hc. unfold Kid.step. destruct (Kid.state this).
  - apply updateWandering_kept.
  - apply updateFleeing_keptOrDropped.
  - eapply updateStealing_carrying; eauto.
Qed.

Lemma carryAway_heldBy self blk :
  heldBy self (Kid.carryAway self (VolumeBlock.unshelve blk)).
Proof. repeat split. Qed.

(** The grab of a kid with empty hands: it ends with empty hands, or with
    a block in its hands. *)
Lemma grab_carries self t shelf this w :
  Kid.carriedVolumeBlock this = None ->
  carriesItsOwn self (Kid.grab self t shelf this w).1
    (Kid.grab self t shelf this w).2.
Proof.
  intros Hc. unfold Kid.grab, Shelf.removeRandomVolumeBlock, carriesItsOwn.
  destruct (length _ =? 0)%nat; simpl; [congruence|].
  unfold Shelf.removeVolumeBlock.
  destruct (Shelf.pickIndex _ _) as [i|]; simpl; [|congruence].
  destruct (Shelf.volumeBlocks shelf !! i) as [[vb|]|]; simpl; try congruence.
  destruct (Num.ltb _ _); simpl; [congruence|].
  intros b blk [= <-]. rewrite !list_lookup_alter_eq.
  destruct (Kid.volumeBlocks w !! vb); simpl; [|discriminate].
  intros [= <-]. repeat split.
Qed.

Lemma keptOrDropped_carries self k w k' w' :
  carriesItsOwn self k w -> keptOrDropped k w k' w' ->
  carriesItsOwn self k' w'.
Proof.
  intros Hinv [(Hc & Hb & _) | (b & _ & Hn & _)]; unfold carriesItsOwn in *.
  - rewrite Hc, Hb. exact Hinv.
  - rewrite Hn. discriminate.
Qed.

Lemma updateStealing_carries self dt this w :
  carriesItsOwn self this w ->
  carriesItsOwn self (Kid.updateStealing self dt this w).1
    (Kid.updateStealing self dt this w).2.
Proof.
  intros Hinv.
  destruct (Kid.carriedVolumeBlock this) as [b|] eqn:Hc.
  { eapply keptOrDropped_carries; [exact Hinv|].
    eapply updateStealing_carrying; eauto. }
  unfold Kid.updateStealing.
  destruct (Kid.target this) as [t|];
    [|eapply keptOrDropped_carries; [exact Hinv | apply kept; reflexivity]].
  destruct (Kid.targetShelf this w) as [shelf|];
    [|eapply keptOrDropped_carries; [exact Hinv | apply kept; reflexivity]].
  rewrite Hc. simpl.
  destruct (Kid.playerInRange this w).
  { eapply keptOrDropped_carries; [exact Hinv|].
    apply kept; apply startFleeing_blocks. }
  destruct (negb _).
  { eapply keptOrDropped_carries; [exact Hinv|].
    eapply keptOrDropped_trans; [|apply applyMovement_kept].
    apply kept; reflexivity. }
  destruct (Num.leb (Kid.grabDelay this) 0);
    (destruct (Num.leb _ 0);
     [apply grab_carries; exact Hc
     |eapply keptOrDropped_carries; [exact Hinv | apply kept; reflexivity]]).
Qed.

Lemma step_carries self dt this w :
  carriesItsOwn self this w ->
  carriesItsOwn self (Kid.step self dt this w).1 (Kid.step self dt this w).2.
Proof.
  intros Hinv. unfold Kid.step. destruct (Kid.state this).
  - eapply keptOrDropped_carries; [exact Hinv | apply updateWandering_kept].
  - eapply keptOrDropped_carries; [exact Hinv | apply updateFleeing_keptOrDropped].
  - apply updateStealing_carries. exact Hinv.
Qed.

Lemma tail_keptOrDropped dt k1 w1 :
  let '(k2, w2) := Kid.checkStuck dt k1 w1 in
  let '(k3, w3) := Kid.checkCarryTimer dt k2 w2 in
  keptOrDropped k1 w1 (Kid.keepInBounds k3 w3) w3.
Proof.
  pose proof (checkStuck_kept dt k1 w1) as H2.
  destruct (Kid.checkStuck dt k1 w1) as [k2 w2].
  pose proof (checkCarryTimer_keptOrDropped dt k2 w2) as H3.
  destruct (Kid.checkCarryTimer dt k2 w2) as [k3 w3].
  simpl in *.
  eapply keptOrDropped_trans; [exact H2|].
  eapply keptOrDropped_trans; [exact H3|].
  apply kept; try reflexivity.
  unfold Kid.keepInBounds. destruct (_ && _); reflexivity.
Qed.

(** X8.  A kid that goes into an update with the block it carries in its
    hands comes out of it the same way: the block it carries is Held, with
    this kid as holder.  A kid that carried a block still carries it and
    no block was touched, or it carries nothing and that block lies on the
    floor, visible and without holder, no other block being touched; no
    shelf is touched either way. *)
Theorem update_carries_its_own (self : nat) (deltaTime : Q) (this : Kid.t)
    (w : Kid.World) :
  carriesItsOwn self this w ->
  let '(this', w') := Kid.update self deltaTime this w in
  carriesItsOwn self this' w'
  /\ (forall b,
        Kid.carriedVolumeBlock this = Some b ->
        Kid.shelves w' = Kid.shelves w
        /\ (Kid.carriedVolumeBlock this' = Some b
            /\ Kid.volumeBlocks w' = Kid.volumeBlocks w
            \/ Kid.carriedVolumeBlock this' = None
               /\ (forall blk',
                     Kid.volumeBlocks w' !! b = Some blk' -> released blk')
               /\ (forall r, r <> b ->
                     Kid.volumeBlocks w' !! r = Kid.volumeBlocks w !! r))).
Proof.
  intros Hinv. rewrite update_unfold. cbv zeta.
  set (k0 := if Num.gtb (Kid.volumeBlockStealCooldown this) 0
             then Kid.set_volumeBlockStealCooldown
                    (Kid.volumeBlockStealCooldown this - deltaTime) this
             else this).
  assert (Hc0 : Kid.carriedVolumeBlock k0 = Kid.carriedVolumeBlock this).
  { subst k0. destruct (Num.gtb (Kid.volumeBlockStealCooldown this) 0);
      reflexivity. }
  assert (H0 : keptOrDropped this w k0 w) by (apply kept; auto).
  pose proof (step_carries self deltaTime k0 w
                (keptOrDropped_carries _ _ _ _ _ Hinv H0)) as H1.
  pose proof (step_carrying self deltaTime k0 w) as H1'.
  destruct (Kid.step self deltaTime k0 w) as [k1 w1].
  pose proof (tail_keptOrDropped deltaTime k1 w1) as H2.
  destruct (Kid.checkStuck deltaTime k1 w1) as [k2 w2].
  destruct (Kid.checkCarryTimer deltaTime k2 w2) as [k3 w3].
  simpl in *. split.
  - eapply keptOrDropped_carries; eauto.
  - intros b Hb.
    assert (Hall : keptOrDropped this w (Kid.keepInBounds k3 w3) w3).
    { eapply keptOrDropped_trans; [exact H0|].
      eapply keptOrDropped_trans; [|exact H2].
      apply (H1' b). congruence. }
    destruct Hall as [(Hc & Hblocks & Hs) | (b' & Hc & Hn & Hs & _ & Hrel & Hoth)].
    + split; [exact Hs|]. left. split; congruence.
    + assert (b' = b) by congruence. subst b'.
      split; [exact Hs|]. right. auto.
Qed.
End Carrying.

Section KidMore.
Context `{MathEnv}.
Local Open Scope Q_scope.

(** X9.  A wandering kid that carries a block, or whose steal cooldown has
    not run out, does not go for a shelf: it ends the update wandering or
    fleeing, and no shelf was touched. *)
Theorem update_waits_for_cooldown (self : nat) (deltaTime : Q)
    (this : Kid.t) (w : Kid.World) :
  Kid.state this = Kid.wandering ->
  notNull (Kid.carriedVolumeBlock this) = true
  \/ (0 < Kid.volumeBlockStealCooldown this
      /\ deltaTime < Kid.volumeBlockStealCooldown this) ->
  let '(this', w') := Kid.update self deltaTime this w in
  Kid.state this' <> Kid.stealing
  /\ Kid.shelves w' = Kid.shelves w.
Proof.
  intros Hstate Hbusy. rewrite update_unfold. cbv zeta.
  set (k0 := if Num.gtb (Kid.volumeBlockStealCooldown this) 0
             then Kid.set_volumeBlockStealCooldown
                    (Kid.volumeBlockStealCooldown this - deltaTime) this
             else this).
  assert (Hk0 : Kid.state k0 = Kid.wandering
                /\ Kid.carriedVolumeBlock k0 = Kid.carriedVolumeBlock this).
  { subst k0. destruct (Num.gtb (Kid.volumeBlockStealCooldown this) 0); auto. }
  destruct Hk0 as (Hs0 & Hc0).
  assert (Hseek : negb (notNull (Kid.carriedVolumeBlock k0))
                  && Num.leb (Kid.volumeBlockStealCooldown k0) 0 = false).
  { destruct Hbusy as [Hcarry | [Hpos Hlong]].
    - rewrite Hc0, Hcarry. reflexivity.
    - apply andb_false_iff. right. apply leb_gt. subst k0.
      apply gtb_gt in Hpos. rewrite Hpos. simpl. lra. }
  unfold Kid.step. rewrite Hs0.
  assert (Hstep : Kid.state (Kid.updateWandering deltaTime k0 w).1 <> Kid.stealing
                  /\ Kid.shelves (Kid.updateWandering deltaTime k0 w).2 = Kid.shelves w).
  { pose proof (updateWandering_kept deltaTime k0 w) as Hk.
    split.
    - unfold Kid.updateWandering. rewrite Hseek.
      destruct (Kid.playerInRange k0 w).
      + pose proof (startFleeing_effect k0 w) as He.
        destruct (Kid.startFleeing k0 w). simpl.
        destruct He as (_ & -> & _). discriminate.
      + pose proof (chooseHeading_draws deltaTime false k0 w) as (_ & H1 & _).
        destruct (Kid.chooseHeading _ _ _ _) as [k1 w1]. simpl in H1.
        match goal with |- context [Kid.turnAtEdges ?k ?w0] =>
          pose proof (turnAtEdges_draws k w0) as (_ & H2 & _);
          destruct (Kid.turnAtEdges k w0) as [k2 w2] end.
        simpl in H2.
        pose proof (applyMovement_frame deltaTime k2 w2) as (_ & H3 & _).
        rewrite H3, H2, H1, Hs0. discriminate.
    - destruct Hk as [(_ & _ & ?) | (? & _ & _ & ? & _)]; assumption. }
  destruct (Kid.updateWandering deltaTime k0 w) as [k1 w1].
  destruct Hstep as [Hs1 Hsh1]. simpl in Hs1, Hsh1.
  pose proof (tail_keptOrDropped deltaTime k1 w1) as Ht.
  pose proof (checkStuck_frame deltaTime k1 w1) as (_ & Hs2 & _).
  destruct (Kid.checkStuck deltaTime k1 w1) as [k2 w2].
  pose proof (checkCarryTimer_frame deltaTime k2 w2) as (_ & _ & Hs3).
  destruct (Kid.checkCarryTimer deltaTime k2 w2) as [k3 w3].
  simpl in *. split.
  - assert (Hb : Kid.state (Kid.keepInBounds k3 w3) = Kid.state k3)
      by (unfold Kid.keepInBounds; destruct (Num.truthy _ && _); reflexivity).
    rewrite Hb. destruct Hs3 as [-> | ->]; congruence.
  - destruct Ht as [(_ & _ & ?) | (? & _ & _ & ? & _)]; congruence.
Qed.

(** The scan of the shelves: an axis found blocked stays blocked, and a
    shelf in reach that the move along an axis would hit blocks that
    axis. *)
Lemma scanShelves_blocks this newX newY shelves : forall cx cy,
  let r := Kid.scanShelves this newX newY shelves cx cy in
  (cx = false -> r.1 = false)
  /\ (cy = false -> r.2 = false)
  /\ (forall shelf, In shelf shelves ->
        Num.gtb (Num.abs (Shelf.x shelf - Kid.x this)) 150
        || Num.gtb (Num.abs (Shelf.y shelf - Kid.y this)) 150 = false ->
        (Kid.checkCollision this newX (Kid.y this) shelf = true -> r.1 = false)
        /\ (Kid.checkCollision this (Kid.x this) newY shelf = true ->
            r.2 = false)).
Proof.
  induction shelves as [|s rest IH]; intros cx cy; cbn zeta.
  - simpl. split; [auto|]. split; [auto|]. intros ? [].
  - cbn [Kid.scanShelves]. cbv zeta.
    destruct (Num.gtb (Num.abs (Shelf.x s - Kid.x this)) 150
              || Num.gtb (Num.abs (Shelf.y s - Kid.y this)) 150) eqn:Hfar.
    + destruct (IH cx cy) as (Hx & Hy & Hin).
      split; [exact Hx|]. split; [exact Hy|].
      intros shelf [<- | Hmem] Hnear; [congruence | auto].
    + set (cx' := if cx && Kid.checkCollision this newX (Kid.y this) s
                  then false else cx).
      set (cy' := if cy && Kid.checkCollision this (Kid.x this) newY s
                  then false else cy).
      assert (Hcx : cx = false -> cx' = false)
        by (intros ->; reflexivity).
      assert (Hcy : cy = false -> cy' = false)
        by (intros ->; reflexivity).
      assert (Hsx : Kid.checkCollision this newX (Kid.y this) s = true ->
                    cx' = false)
        by (intros E; subst cx'; rewrite E; destruct cx; reflexivity).
      assert (Hsy : Kid.checkCollision this (Kid.x this) newY s = true ->
                    cy' = false)
        by (intros E; subst cy'; rewrite E; destruct cy; reflexivity).
      destruct (IH cx' cy') as (Hx & Hy & Hin).
      destruct (negb cx' && negb cy') eqn:Hboth.
      * apply andb_true_iff in Hboth as [Ex Ey].
        apply negb_true_iff in Ex, Ey. simpl.
        split; [auto|]. split; [auto|]. intros; auto.
      * split; [auto|]. split; [auto|].
        intros shelf [<- | Hmem] Hnear; [split; auto | auto].
Qed.

(** X10.  A kid never takes a step along an axis that, taken alone, would
    make it overlap a shelf within the check radius: its coordinate on
    that axis stays as it was. *)
Theorem applyMovement_respects_shelves (deltaTime : Q) (this : Kid.t)
    (w : Kid.World) (shelf : Shelf.t) :
  In shelf (Kid.shelves w) ->
  Num.gtb (Num.abs (Shelf.x shelf - Kid.x this)) 150
  || Num.gtb (Num.abs (Shelf.y shelf - Kid.y this)) 150 = false ->
  let '(this', w') := Kid.applyMovement deltaTime this w in
  (Kid.checkCollision this (Kid.x this + Kid.vx this * deltaTime)
     (Kid.y this) shelf = true ->
   Kid.x this' = Kid.x this)
  /\ (Kid.checkCollision this (Kid.x this)
        (Kid.y this + Kid.vy this * deltaTime) shelf = true ->
      Kid.y this' = Kid.y this).
Proof.
  intros Hin Hnear. unfold Kid.applyMovement. cbv zeta.
  pose proof (scanShelves_blocks this (Kid.x this + Kid.vx this * deltaTime)
                (Kid.y this + Kid.vy this * deltaTime) (Kid.shelves w)
                true true) as (_ & _ & Hscan).
  specialize (Hscan shelf Hin Hnear).
  destruct (Kid.scanShelves _ _ _ _ _ _) as [cx cy]. simpl in Hscan.
  destruct Hscan as [Hx Hy].
  destruct cx, cy; destruct this; simpl in *;
    match goal with s : Kid.State |- _ => destruct s end; simpl;
    (split; intros E; try reflexivity;
     first [specialize (Hx E) | specialize (Hy E)]; discriminate).
Qed.
End KidMore.

Section KidTargets.
Context `{MathEnv}.
Local Open Scope Q_scope.

Lemma clamp_between (lo hi v : Q) :
  lo <= hi -> lo <= Num.max lo (Num.min hi v) <= hi.
Proof.
  intros Hle.
  destruct (min_spec hi v) as [[? ->]|[? ->]];
    destruct (max_spec lo hi) as [[? E1]|[? E1]];
    destruct (max_spec lo v) as [[? E2]|[? E2]];
    rewrite ?E1, ?E2; lra.
Qed.

(** X11.  A block a kid drops ends on the floor at least 20 pixels from
    every edge of the world; four draws are made. *)
Theorem dropVolumeBlock_lands (this : Kid.t) (w : Kid.World) (b : nat)
    (blk : VolumeBlock.t) :
  Kid.carriedVolumeBlock this = Some b ->
  Kid.volumeBlocks w !! b = Some blk ->
  Num.truthy (Kid.worldWidth w) && Num.truthy (Kid.worldHeight w) = true ->
  40 + VolumeBlock.width blk <= Kid.worldWidth w ->
  40 + VolumeBlock.height blk <= Kid.worldHeight w ->
  let '(this', w') := Kid.dropVolumeBlock this w in
  Kid.carriedVolumeBlock this' = None
  /\ Kid.rng w' = (Kid.rng w + 4)%nat
  /\ exists blk',
       Kid.volumeBlocks w' !! b = Some blk'
       /\ released blk'
       /\ VolumeBlock.color blk' = VolumeBlock.color blk
       /\ 20 <= VolumeBlock.x blk'
          <= Kid.worldWidth w - VolumeBlock.width blk - 20
       /\ 20 <= VolumeBlock.y blk'
          <= Kid.worldHeight w - VolumeBlock.height blk - 20.
Proof.
  intros Hc Hb Hdims Hw Hh. unfold Kid.dropVolumeBlock. rewrite Hc. simpl.
  split; [reflexivity|]. split; [lia|].
  rewrite list_lookup_alter_eq, Hb. simpl.
  rewrite Hdims.
  eexists. split; [reflexivity|].
  destruct (Kid.targetShelf _ _); simpl;
    (split; [repeat split|]; split; [reflexivity|];
     split; apply clamp_between; lra).
Qed.

(** X12.  [getUnstuck] leaves a wandering kid without target at least 50
    pixels from every edge of the world, makes one draw and touches
    nothing else in the world. *)
Theorem getUnstuck_frees (this : Kid.t) (w : Kid.World) :
  Num.truthy (Kid.worldWidth w) && Num.truthy (Kid.worldHeight w) = true ->
  200 + Kid.width this <= Kid.worldWidth w ->
  200 + Kid.height this <= Kid.worldHeight w ->
  let '(this', w') := Kid.getUnstuck this w in
  Kid.state this' = Kid.wandering
  /\ Kid.target this' = None
  /\ Kid.carriedVolumeBlock this' = Kid.carriedVolumeBlock this
  /\ sameTraits this this'
  /\ w' = Kid.set_rng (S (Kid.rng w)) w
  /\ 50 <= Kid.x this' <= Kid.worldWidth w - 50 - Kid.width this
  /\ 50 <= Kid.y this' <= Kid.worldHeight w - 50 - Kid.height this.
Proof.
  intros Hdims Hw Hh. unfold Kid.getUnstuck. rewrite Hdims. simpl.
  destruct (Num.ltb (Kid.x this) 50) eqn:E1; simpl.
  { repeat split; try reflexivity;
      match goal with |- _ <= _ =>
        pose proof (clamp_between 100 (Kid.worldWidth w - 100 - Kid.width this)
                      (Kid.x this));
        pose proof (clamp_between 100 (Kid.worldHeight w - 100 - Kid.height this)
                      (Kid.y this)); lra end. }
  destruct (Num.gtb (Kid.x this) _) eqn:E2; simpl.
  { repeat split; try reflexivity;
      match goal with |- _ <= _ =>
        pose proof (clamp_between 100 (Kid.worldWidth w - 100 - Kid.width this)
                      (Kid.x this));
        pose proof (clamp_between 100 (Kid.worldHeight w - 100 - Kid.height this)
                      (Kid.y this)); lra end. }
  destruct (Num.ltb (Kid.y this) 50) eqn:E3; simpl.
  { repeat split; try reflexivity;
      match goal with |- _ <= _ =>
        pose proof (clamp_between 100 (Kid.worldWidth w - 100 - Kid.width this)
                      (Kid.x this));
        pose proof (clamp_between 100 (Kid.worldHeight w - 100 - Kid.height this)
                      (Kid.y this)); lra end. }
  destruct (Num.gtb (Kid.y this) _) eqn:E4; simpl.
  { repeat split; try reflexivity;
      match goal with |- _ <= _ =>
        pose proof (clamp_between 100 (Kid.worldWidth w - 100 - Kid.width this)
                      (Kid.x this));
        pose proof (clamp_between 100 (Kid.worldHeight w - 100 - Kid.height this)
                      (Kid.y this)); lra end. }
  apply ltb_ge in E1, E3. apply gtb_le in E2, E4.
  repeat split; try reflexivity; lra.
Qed.




End KidTargets.

Section KidNew.
Context `{MathEnv}.
Local Open Scope Q_scope.

Lemma existsb_false_In {A} (f : A -> bool) (l : list A) :
  existsb f l = false -> forall a, In a l -> f a = false.
Proof.
  intros Hf a Ha. destruct (f a) eqn:E; [|reflexivity].
  assert (existsb f l = true) by (apply existsb_exists; eauto). congruence.
Qed.

(** X6.  A kid is created wandering with empty hands, with one of the three
    sprites, slower when it wanders than when it flees, and with a carry
    time that has room to vary; it stands where it was asked to, clear of
    every shelf, or else at (30, 30).  Two draws are made and nothing else
    in the world changes. *)
Theorem new_kid_is_sound (x y : Q) (aggressionLevel : Z) (w : Kid.World) :
  0 <= Math_random (Kid.rng w) < 1 ->
  let '(kid, w') := Kid.new x y aggressionLevel w in
  (1 <= Kid.spriteType kid <= 3)%Z
  /\ Kid.state kid = Kid.wandering
  /\ Kid.carriedVolumeBlock kid = None
  /\ Kid.target kid = None
  /\ Kid.hasPlayedLaughSound kid = false
  /\ Kid.speed kid < Kid.fleeSpeed kid
  /\ Kid.dropVolumeBlockMinTime kid < Kid.dropVolumeBlockMaxTime kid
  /\ w' = Kid.set_rng (S (S (Kid.rng w))) w
  /\ ((Kid.x kid = x /\ Kid.y kid = y
       /\ forall shelf, In shelf (Kid.shelves w) ->
            Kid.checkCollision kid x y shelf = false)
      \/ (Kid.x kid = 30 /\ Kid.y kid = 30
          /\ exists shelf, In shelf (Kid.shelves w)
               /\ Kid.collides 48 60 x y shelf = true)).
Proof.
  intros Hr. unfold Kid.new, Kid.ensureSafeSpawnPosition.
  pose proof (floor_draw_bounds (Math_random (Kid.rng w)) 3 Hr ltac:(lia)) as Hf.
  change (inject_Z (Z.of_nat 3)) with 3 in Hf.
  destruct (existsb (Kid.collides 48 60 x y) (Kid.shelves w)) eqn:Hhit;
    cbn -[Qfloor Qmult Qlt].
  - unfold Num.floor.
    split; [lia|]. do 4 (split; [reflexivity|]).
    split; [destruct (aggressionLevel =? 1)%Z; [|destruct (aggressionLevel =? 2)%Z];
            reflexivity|].
    split; [destruct (aggressionLevel =? 1)%Z; [|destruct (aggressionLevel =? 2)%Z];
            reflexivity|].
    split; [reflexivity|]. right.
    apply existsb_exists in Hhit as (shelf & Hin & Hc). eauto.
  - unfold Num.floor.
    split; [lia|]. do 4 (split; [reflexivity|]).
    split; [destruct (aggressionLevel =? 1)%Z; [|destruct (aggressionLevel =? 2)%Z];
            reflexivity|].
    split; [destruct (aggressionLevel =? 1)%Z; [|destruct (aggressionLevel =? 2)%Z];
            reflexivity|].
    split; [reflexivity|]. left. split; [reflexivity|]. split; [reflexivity|].
    intros shelf Hin. unfold Kid.checkCollision. cbn [Kid.width Kid.height].
    eapply existsb_false_In in Hhit; eauto.
Qed.
End KidNew.

Section KidExamples.
Local Open Scope Q_scope.

Lemma update_stays_in_world_witness :
  let M := Scenario.exampleMath [] in
  let this := Scenario.wanderer in
  let w := Scenario.meetingWorld in
  Num.truthy (Kid.worldWidth w) && Num.truthy (Kid.worldHeight w) = true
  /\ Kid.width this <= Kid.worldWidth w
  /\ Kid.height this <= Kid.worldHeight w
  /\ sameTraits this (Kid.update 0 (1 # 60) this w).1
  /\ 0 <= Kid.x (Kid.update 0 (1 # 60) this w).1 <= 1920 - 48
  /\ 0 <= Kid.y (Kid.update 0 (1 # 60) this w).1 <= 1080 - 60.
Proof.
  intros M this w.
  assert (Hwide : Kid.width this <= Kid.worldWidth w) by (vm_compute; discriminate).
  assert (Hhigh : Kid.height this <= Kid.worldHeight w) by (vm_compute; discriminate).
  split; [reflexivity|]. split; [exact Hwide|]. split; [exact Hhigh|].
  pose proof (update_stays_in_world 0 (1 # 60) this w eq_refl Hwide Hhigh)
    as Hspec.
  destruct (Kid.update 0 (1 # 60) this w) as [this' w'].
  destruct Hspec as (Htraits & _ & _ & Hx & Hy).
  split; [exact Htraits|]. split; [exact Hx | exact Hy].
Defined.

Lemma carriesItsOwn_loadedWanderer :
  carriesItsOwn 0 Scenario.loadedWanderer Scenario.meetingWorld.
Proof.
  intros b blk Hb Hblk. injection Hb as <-. injection Hblk as <-.
  repeat split.
Defined.

Lemma update_carries_its_own_witness :
  let M := Scenario.exampleMath [2 # 5; 1 # 2; 1 # 2; 1 # 2; 1 # 2] in
  let this := Scenario.loadedWanderer in
  let w := Scenario.meetingWorld in
  carriesItsOwn 0 this w
  /\ Kid.carriedVolumeBlock this = Some 0%nat
  /\ Kid.carriedVolumeBlock (Kid.update 0 (1 # 60) this w).1 = None
  /\ carriesItsOwn 0 (Kid.update 0 (1 # 60) this w).1
       (Kid.update 0 (1 # 60) this w).2
  /\ forall blk',
       Kid.volumeBlocks (Kid.update 0 (1 # 60) this w).2 !! 0%nat = Some blk' ->
       released blk'.
Proof.
  intros M this w.
  split; [exact carriesItsOwn_loadedWanderer|]. split; [reflexivity|].
  pose proof (update_carries_its_own 0 (1 # 60) this w
                carriesItsOwn_loadedWanderer) as Hspec.
  destruct (Kid.update 0 (1 # 60) this w) as [this' w'] eqn:E.
  assert (Hdropped : Kid.carriedVolumeBlock this' = None).
  { apply (f_equal (fun r => Kid.carriedVolumeBlock r.1)) in E.
    cbn [fst] in E. rewrite <- E. reflexivity. }
  destruct Hspec as (Hown & Hfate).
  split; [exact Hdropped|]. split; [exact Hown|].
  destruct (Hfate 0%nat eq_refl) as (_ & [[Hkept _] | (_ & Hreleased & _)]).
  - rewrite Hdropped in Hkept. discriminate.
  - exact Hreleased.
Defined.

Lemma update_waits_for_cooldown_witness :
  let M := Scenario.exampleMath [] in
  let eager := Scenario.kidAt 150 210 Kid.wandering in
  let this := Kid.set_volumeBlockStealCooldown 2 eager in
  let w := Scenario.theftWorld in
  Kid.state this = Kid.wandering
  /\ 0 < Kid.volumeBlockStealCooldown this
  /\ 1 # 60 < Kid.volumeBlockStealCooldown this
  /\ Kid.state (Kid.update 0 (1 # 60) this w).1 <> Kid.stealing
  /\ Kid.state (Kid.update 0 (1 # 60) eager w).1 = Kid.stealing.
Proof.
  intros M eager this w.
  assert (Hcool : 0 < Kid.volumeBlockStealCooldown this
                  /\ 1 # 60 < Kid.volumeBlockStealCooldown this)
    by (split; reflexivity).
  split; [reflexivity|]. split; [apply Hcool|]. split; [apply Hcool|].
  split; [|reflexivity].
  pose proof (update_waits_for_cooldown 0 (1 # 60) this w eq_refl
                (or_intror Hcool)) as Hspec.
  destruct (Kid.update 0 (1 # 60) this w) as [this' w'].
  exact (proj1 Hspec).
Defined.

Lemma applyMovement_respects_shelves_witness :
  let M := Scenario.exampleMath [] in
  let this := Scenario.boxedIn Kid.stealing in
  let w := Scenario.boxedWorld in
  let shelf := Shelf.new 200 200 red 6 in
  In shelf (Kid.shelves w)
  /\ Num.gtb (Num.abs (Shelf.x shelf - Kid.x this)) 150
     || Num.gtb (Num.abs (Shelf.y shelf - Kid.y this)) 150 = false
  /\ Kid.x (Kid.applyMovement (1 # 60) this w).1 = 205
  /\ Kid.y (Kid.applyMovement (1 # 60) this w).1 = 210.
Proof.
  intros M this w shelf.
  assert (Hin : In shelf (Kid.shelves w)) by (left; reflexivity).
  split; [exact Hin|]. split; [reflexivity|].
  pose proof (applyMovement_respects_shelves (1 # 60) this w shelf Hin eq_refl)
    as Hspec.
  destruct (Kid.applyMovement (1 # 60) this w) as [this' w'].
  destruct Hspec as [Hx Hy].
  split; [exact (Hx eq_refl) | exact (Hy eq_refl)].
Defined.

Lemma dropVolumeBlock_lands_witness :
  let M := Scenario.exampleMath [1 # 2; 1 # 4; 3 # 4; 1 # 2] in
  let this := Scenario.loadedWanderer in
  let w := Scenario.meetingWorld in
  Kid.carriedVolumeBlock this = Some 0%nat
  /\ Kid.volumeBlocks w !! 0%nat = Some Scenario.stolenBlock
  /\ Num.truthy (Kid.worldWidth w) && Num.truthy (Kid.worldHeight w) = true
  /\ 40 + VolumeBlock.width Scenario.stolenBlock <= Kid.worldWidth w
  /\ 40 + VolumeBlock.height Scenario.stolenBlock <= Kid.worldHeight w
  /\ Kid.carriedVolumeBlock (Kid.dropVolumeBlock this w).1 = None
  /\ exists blk',
       Kid.volumeBlocks (Kid.dropVolumeBlock this w).2 !! 0%nat = Some blk'
       /\ released blk'
       /\ 20 <= VolumeBlock.x blk' <= 1920 - 24 - 20
       /\ 20 <= VolumeBlock.y blk' <= 1080 - 24 - 20.
Proof.
  intros M this w.
  assert (Hwide : 40 + VolumeBlock.width Scenario.stolenBlock
                  <= Kid.worldWidth w) by (vm_compute; discriminate).
  assert (Hhigh : 40 + VolumeBlock.height Scenario.stolenBlock
                  <= Kid.worldHeight w) by (vm_compute; discriminate).
  split; [reflexivity|]. split; [reflexivity|]. split; [reflexivity|].
  split; [exact Hwide|]. split; [exact Hhigh|].
  pose proof (dropVolumeBlock_lands this w 0%nat Scenario.stolenBlock
                eq_refl eq_refl eq_refl Hwide Hhigh) as Hspec.
  destruct (Kid.dropVolumeBlock this w) as [this' w'].
  destruct Hspec as (Hnone & _ & blk' & Hblk & Hrel & _ & Hx & Hy).
  split; [exact Hnone|]. exists blk'.
  split; [exact Hblk|]. split; [exact Hrel|]. split; [exact Hx | exact Hy].
Defined.

Lemma getUnstuck_frees_witness :
  let M := Scenario.exampleMath [1 # 2] in
  let this := Scenario.boxedIn Kid.stealing in
  let w := Scenario.boxedWorld in
  Num.truthy (Kid.worldWidth w) && Num.truthy (Kid.worldHeight w) = true
  /\ 200 + Kid.width this <= Kid.worldWidth w
  /\ 200 + Kid.height this <= Kid.worldHeight w
  /\ Kid.state (Kid.getUnstuck this w).1 = Kid.wandering
  /\ 50 <= Kid.x (Kid.getUnstuck this w).1 <= 1920 - 50 - 48
  /\ 50 <= Kid.y (Kid.getUnstuck this w).1 <= 1080 - 50 - 60.
Proof.
  intros M this w.
  assert (Hwide : 200 + Kid.width this <= Kid.worldWidth w) by (vm_compute; discriminate).
  assert (Hhigh : 200 + Kid.height this <= Kid.worldHeight w) by (vm_compute; discriminate).
  split; [reflexivity|]. split; [exact Hwide|]. split; [exact Hhigh|].
  pose proof (getUnstuck_frees this w eq_refl Hwide Hhigh) as Hspec.
  destruct (Kid.getUnstuck this w) as [this' w'].
  destruct Hspec as (Hstate & _ & _ & _ & _ & Hx & Hy).
  split; [exact Hstate|]. split; [exact Hx | exact Hy].
Defined.

Lemma new_kid_is_sound_witness :
  let M := Scenario.exampleMath [1 # 2; 1 # 2] in
  let w := Scenario.boxedWorld in
  0 <= Math_random (Kid.rng w) < 1
  /\ (1 <= Kid.spriteType (Kid.new 500 400 1 w).1 <= 3)%Z
  /\ Kid.speed (Kid.new 500 400 1 w).1 < Kid.fleeSpeed (Kid.new 500 400 1 w).1
  /\ (Kid.x (Kid.new 500 400 1 w).1 = 500
      /\ Kid.y (Kid.new 500 400 1 w).1 = 400)
  /\ (Kid.x (Kid.new 205 210 1 w).1 = 30
      /\ Kid.y (Kid.new 205 210 1 w).1 = 30).
Proof.
  intros M w.
  assert (Hdraw : 0 <= Math_random (Kid.rng w) < 1) by (split; [vm_compute; discriminate | reflexivity]).
  split; [exact Hdraw|].
  pose proof (new_kid_is_sound 500 400 1 w Hdraw) as Hspec.
  destruct (Kid.new 500 400 1 w) as [kid w'] eqn:E.
  destruct Hspec as (Hsprite & _ & _ & _ & _ & Hspeed & _).
  split; [exact Hsprite|]. split; [exact Hspeed|].
  split; [|split; reflexivity].
  apply (f_equal fst) in E. cbn [fst] in E. rewrite <- E.
  split; reflexivity.
Defined.



End KidExamples.

(** ** The level: the vault, the validation, the floating texts and
    [enter] *)

Section Layout.
Context `{MathEnv}.
Context (bw bh : Q).
Import PlayingState.
Local Open Scope Q_scope.

Lemma fillShelf_fills self color n : forall bs shelf heap,
  Shelf.capacity shelf = (length bs + n)%nat ->
  Shelf.volumeBlocks shelf = (Some <$> bs) ++ replicate n None ->
  Shelf.color shelf = color ->
  fillShelf bw bh n self color shelf heap
  = (Shelf.set_volumeBlocks (Some <$> (bs ++ seq (length heap) n)) shelf,
     heap ++ replicate n (vaultBlock bw bh self color)).
Proof.
  induction n as [|n IH]; intros bs shelf heap Hcap Hslots Hcolor.
  - simpl. rewrite !app_nil_r. simpl in Hslots. rewrite app_nil_r in Hslots.
    rewrite <- Hslots. destruct shelf; reflexivity.
  - cbn [fillShelf].
    set (blk := VolumeBlock.new bw bh 0 0 color).
    assert (Hwf : shelf_wf shelf).
    { unfold shelf_wf. rewrite Hslots, Hcap, length_app, length_fmap,
        length_replicate. reflexivity. }
    assert (Hb : (heap ++ [blk]) !! length heap = Some blk)
      by apply list_lookup_middle, eq_refl.
    assert (Hcount : Shelf.volumeBlockCount shelf = length bs).
    { unfold Shelf.volumeBlockCount. rewrite Hslots.
      clear. induction bs as [|b bs IHb]; simpl.
      - induction n; simpl; auto.
      - f_equal. exact IHb. }
    assert (Hempty : Shelf.hasEmptySlots shelf = true).
    { unfold Shelf.hasEmptySlots. rewrite Hcount, Hcap. apply Nat.ltb_lt. lia. }
    destruct (addVolumeBlock_success self shelf (length heap) (heap ++ [blk])
                blk Hwf Hb Hempty (eq_sym Hcolor))
      as (i & Hi & Hlow & ->).
    assert (i = length bs) as ->.
    { destruct (Nat.lt_trichotomy i (length bs)) as [Hlt | [-> | Hgt]];
        [|reflexivity|].
      - rewrite Hslots, lookup_app_l in Hi by (rewrite length_fmap; exact Hlt).
        rewrite list_lookup_fmap in Hi.
        destruct (bs !! i); discriminate.
      - destruct (Hlow (length bs) Hgt) as [c Hc].
        rewrite Hslots, lookup_app_r in Hc by (rewrite length_fmap; lia).
        rewrite length_fmap, Nat.sub_diag in Hc. discriminate. }
    assert (Halter : alter (VolumeBlock.shelve self) (length heap) (heap ++ [blk])
                     = heap ++ [vaultBlock bw bh self color]).
    { rewrite <- (Nat.add_0_r (length heap)) at 1.
      rewrite alter_app_r. reflexivity. }
    rewrite Halter.
    rewrite (IH (bs ++ [length heap])).
    + f_equal.
      * unfold Shelf.set_volumeBlocks. cbn [Shelf.x Shelf.y Shelf.width
          Shelf.height Shelf.color Shelf.capacity Shelf.collisionBox].
        f_equal. f_equal.
        rewrite length_app. cbn [length seq].
        rewrite <- app_assoc, Nat.add_1_r. reflexivity.
      * rewrite <- app_assoc. reflexivity.
    + cbn [Shelf.capacity Shelf.set_volumeBlocks]. rewrite length_app.
      cbn [length]. lia.
    + cbn [Shelf.volumeBlocks Shelf.set_volumeBlocks]. rewrite Hslots.
      rewrite <- (length_fmap Some bs) at 1.
      rewrite <- (Nat.add_0_r (length (Some <$> bs))).
      rewrite insert_app_r. cbn [replicate]. rewrite fmap_app.
      rewrite <- app_assoc. reflexivity.
    + exact Hcolor.
Qed.

Lemma length_chunks {A B} (cs : list A) : forall (f : nat -> A -> list B),
  (forall k c, length (f k c) = 6%nat) ->
  length (mjoin (imap f cs)) = (6 * length cs)%nat.
Proof.
  induction cs as [|c cs IH]; intros f Hf; [reflexivity|].
  rewrite imap_cons.
  change (mjoin (f 0%nat c :: imap (f ∘ S) cs))
    with (f 0%nat c ++ mjoin (imap (f ∘ S) cs)).
  rewrite length_app, Hf.
  rewrite (IH (f ∘ S)) by (intros; apply Hf). cbn [length]. lia.
Qed.

Lemma div6_step (b : nat) : (6 <= b)%nat -> (b / 6 = S ((b - 6) / 6))%nat.
Proof.
  intros Hb. replace b with (1 * 6 + (b - 6))%nat at 1 by lia.
  rewrite Nat.div_add_l by lia. lia.
Qed.

Lemma lookup_chunks {A B} (cs : list A) :
  forall (f : nat -> A -> list B) (g : nat -> A -> B) (b : nat),
  (forall k c, f k c = replicate 6 (g k c)) ->
  mjoin (imap f cs) !! b = g (b / 6)%nat <$> cs !! (b / 6)%nat.
Proof.
  induction cs as [|c cs IH]; intros f g b Hf; [reflexivity|].
  rewrite imap_cons.
  change (mjoin (f 0%nat c :: imap (f ∘ S) cs))
    with (f 0%nat c ++ mjoin (imap (f ∘ S) cs)).
  rewrite Hf.
  destruct (Nat.lt_ge_cases b 6) as [Hlt | Hge].
  - rewrite lookup_app_l by (rewrite length_replicate; exact Hlt).
    rewrite lookup_replicate_2 by exact Hlt.
    rewrite (Nat.div_small b 6) by exact Hlt. reflexivity.
  - rewrite lookup_app_r by (rewrite length_replicate; exact Hge).
    rewrite length_replicate.
    rewrite (IH (f ∘ S) (fun k => g (S k))) by (intros; apply Hf).
    rewrite (div6_step b Hge). reflexivity.
Qed.

Lemma length_vaultShelves cs : length (vaultShelves cs) = length cs.
Proof. apply length_imap. Qed.

Lemma length_vaultBlocks cs : length (vaultBlocks bw bh cs) = (6 * length cs)%nat.
Proof. apply length_chunks. intros. apply length_replicate. Qed.

Lemma lookup_vaultBlocks cs b :
  vaultBlocks bw bh cs !! b = vaultBlock bw bh (b / 6) <$> cs !! (b / 6)%nat.
Proof. apply lookup_chunks. reflexivity. Qed.

Lemma vaultShelves_snoc cs c :
  vaultShelves (cs ++ [c]) = vaultShelves cs ++ [vaultShelf (length cs) c].
Proof.
  unfold vaultShelves. rewrite imap_app. cbn [imap]. rewrite Nat.add_0_r.
  reflexivity.
Qed.

Lemma vaultBlocks_snoc cs c :
  vaultBlocks bw bh (cs ++ [c])
  = vaultBlocks bw bh cs ++ replicate 6 (vaultBlock bw bh (length cs) c).
Proof.
  unfold vaultBlocks. rewrite imap_app, join_app. cbn [imap mjoin list_join].
  rewrite Nat.add_0_r, app_nil_r. reflexivity.
Qed.

Lemma cells_lookup n :
  (n < 50)%nat -> cells !! n = Some ((n / 10)%nat, (n mod 10)%nat).
Proof.
  intros Hn.
  do 50 (destruct n as [|n]; [reflexivity|]). lia.
Qed.

Lemma placeShelf_vault (cs : list Color) (n : nat) (c : Color) (g0 : Game) :
  cs !! n = Some c ->
  placeShelf bw bh cs (withVault bw bh (take n cs) g0, n)
    ((n / 10)%nat, (n mod 10)%nat)
  = (withVault bw bh (take (S n) cs) g0, S n).
Proof.
  intros Hc. unfold placeShelf. rewrite Hc.
  assert (Hlen : length (take n cs) = n).
  { apply length_take_le. apply lookup_lt_Some in Hc. lia. }
  cbn [withVault withState currentState set_currentState shelves
       volumeBlocks set_volumeBlocks set_shelves].
  rewrite length_vaultShelves, Hlen.
  change (Shelf.capacity (Shelf.new _ _ c 6)) with 6%nat.
  rewrite (fillShelf_fills n c 6 [] (Shelf.new _ _ c 6) _ eq_refl eq_refl eq_refl).
  rewrite length_vaultBlocks, Hlen.
  rewrite (take_S_r cs n c Hc). unfold withVault.
  rewrite vaultShelves_snoc, vaultBlocks_snoc, Hlen.
  reflexivity.
Qed.

Lemma placeShelves_vault (cs : list Color) (g0 : Game) : forall n,
  (n <= 50)%nat -> length cs = 50%nat ->
  foldl (placeShelf bw bh cs) (withVault bw bh [] g0, 0%nat) (take n cells)
  = (withVault bw bh (take n cs) g0, n).
Proof.
  induction n as [|n IH]; intros Hn Hlen; [reflexivity|].
  destruct (cs !! n) as [c|] eqn:Hc.
  2: { apply lookup_ge_None in Hc. lia. }
  rewrite (take_S_r cells n _ (cells_lookup n ltac:(lia))).
  rewrite foldl_app, IH by (lia || assumption).
  cbn [foldl]. apply (placeShelf_vault cs n c g0 Hc).
Qed.

(** The shuffle permutes the colours and makes one draw per round. *)
Lemma swap_Permutation i j (l : list Color) : swap i j l ≡ₚ l.
Proof.
  unfold swap. destruct (j <? 0)%Z; [reflexivity|].
  destruct (l !! i) as [a|] eqn:Ha; [|reflexivity].
  destruct (l !! Z.to_nat j) as [b|] eqn:Hb; [|reflexivity].
  apply Permutation_insert_swap; assumption.
Qed.

Lemma shuffle_effect i : forall l g,
  (shuffle i l g).1 ≡ₚ l
  /\ (shuffle i l g).2 = set_rng (rng g + i) g.
Proof.
  induction i as [|i IH]; intros l g.
  - simpl. split; [reflexivity|]. rewrite Nat.add_0_r. destruct g; reflexivity.
  - cbn [shuffle random]. cbv zeta.
    destruct (IH (swap (S i) (Num.floor (Math_random (rng g)
                                          * inject_Z (Z.of_nat (S i + 1)))) l)
                 (set_rng (S (rng g)) g)) as [Hp Hg].
    split.
    + rewrite Hp. apply swap_Permutation.
    + rewrite Hg. unfold set_rng.
      cbn [gameData currentState stateManager audio rng]. f_equal. lia.
Qed.

Lemma length_colorDistribution : length colorDistribution = 50%nat.
Proof. reflexivity. Qed.

(** The layout in closed form. *)
Lemma generateVolumeVaultLayout_vault (g : Game) :
  shelves (currentState g) = [] ->
  volumeBlocks (currentState g) = [] ->
  exists cs,
    cs ≡ₚ colorDistribution
    /\ generateVolumeVaultLayout bw bh g
       = withVault bw bh cs (set_rng (rng g + 49) g).
Proof.
  intros Hs Hb. unfold generateVolumeVaultLayout.
  destruct (shuffle_effect (length colorDistribution - 1) colorDistribution g)
    as [Hp Hg].
  destruct (shuffle _ _ _) as [cs g1]. cbn [fst snd] in Hp, Hg.
  exists cs. split; [exact Hp|].
  assert (Hlen : length cs = 50%nat).
  { rewrite (Permutation_length Hp). reflexivity. }
  assert (Hg1 : g1 = withVault bw bh [] g1).
  { subst g1. destruct g as [d s m a r]. destruct s. simpl in Hs, Hb.
    subst. reflexivity. }
  rewrite Hg1.
  change cells with (take 50 cells).
  rewrite (placeShelves_vault cs g1 50 (le_n _) Hlen).
  cbn [fst]. rewrite <- Hlen, firstn_all. subst g1. reflexivity.
Qed.
End Layout.

Section Vault.
Context `{MathEnv}.
Context (bw bh : Q).
Import PlayingState.
Local Open Scope Q_scope.

Lemma vaultShelf_full k c :
  shelf_wf (vaultShelf k c)
  /\ Shelf.capacity (vaultShelf k c) = 6%nat
  /\ Shelf.hasEmptySlots (vaultShelf k c) = false
  /\ Shelf.color (vaultShelf k c) = c.
Proof. repeat split. Qed.

Lemma lookup_vaultShelves cs k s :
  vaultShelves cs !! k = Some s ->
  exists c, cs !! k = Some c /\ s = vaultShelf k c.
Proof.
  unfold vaultShelves. rewrite list_lookup_imap.
  destruct (cs !! k) as [c|]; [|discriminate].
  intros [= <-]. eauto.
Qed.

Lemma chunks_quiet (cs : list Color) : forall f : nat -> Color -> VolumeBlock.t,
  (forall k c, VolumeBlock.onFloor (f k c) = false
               /\ heldByKid (f k c) = false) ->
  List.filter VolumeBlock.onFloor
    (mjoin (imap (fun k color => replicate 6 (f k color)) cs)) = []
  /\ List.filter heldByKid
       (mjoin (imap (fun k color => replicate 6 (f k color)) cs)) = [].
Proof.
  induction cs as [|c cs IH]; intros f Hall; [split; reflexivity|].
  rewrite imap_cons.
  change (mjoin (replicate 6 (f 0%nat c)
                 :: imap ((fun k color => replicate 6 (f k color)) ∘ S) cs))
    with (replicate 6 (f 0%nat c)
          ++ mjoin (imap (fun k color => replicate 6 (f (S k) color)) cs)).
  rewrite !List.filter_app.
  destruct (IH (fun k => f (S k))) as [-> ->]; [intros; apply Hall|].
  destruct (Hall 0%nat c) as [E1 E2]. simpl. rewrite E1, E2. split; reflexivity.
Qed.

Lemma vault_quiet cs :
  List.filter VolumeBlock.onFloor (vaultBlocks bw bh cs) = []
  /\ List.filter heldByKid (vaultBlocks bw bh cs) = [].
Proof. apply chunks_quiet. intros. split; reflexivity. Qed.

(** X15.  The vault [generateVolumeVaultLayout] builds in an empty playing
    state: 50 full shelves of capacity 6 on a grid of 5 rows and 10 columns
    180 pixels apart from (200, 200), and 300 blocks, each Shelved on the
    shelf that lists it, whose colour it has.  No block counts towards
    chaos; 49 draws are made. *)
Theorem generateVolumeVaultLayout_fills (g : Game) :
  fairDraws ->
  shelves (currentState g) = [] ->
  volumeBlocks (currentState g) = [] ->
  let g' := generateVolumeVaultLayout bw bh g in
  length (shelves (currentState g')) = 50%nat
  /\ length (volumeBlocks (currentState g')) = 300%nat
  /\ (forall k s,
        shelves (currentState g') !! k = Some s ->
        shelf_wf s
        /\ Shelf.capacity s = 6%nat
        /\ Shelf.hasEmptySlots s = false
        /\ Shelf.x s = 200 + inject_Z (Z.of_nat (k mod 10)) * 180
        /\ Shelf.y s = 200 + inject_Z (Z.of_nat (k / 10)) * 180
        /\ Shelf.volumeBlocks s = Some <$> seq (6 * k) 6)
  /\ (forall b blk,
        volumeBlocks (currentState g') !! b = Some blk ->
        exists s,
          shelves (currentState g') !! (b / 6)%nat = Some s
          /\ VolumeBlock.isShelved blk = true
          /\ VolumeBlock.isHeld blk = false
          /\ VolumeBlock.shelf blk = Some (b / 6)%nat
          /\ VolumeBlock.color blk = Shelf.color s
          /\ Shelf.volumeBlocks s !! (b mod 6)%nat = Some (Some b))
  /\ totalChaosVolumeBlocks g' = 0%nat
  /\ rng g' = (rng g + 49)%nat
  /\ gameData g' = gameData g
  /\ kids (currentState g') = kids (currentState g)
  /\ player (currentState g') = player (currentState g).
Proof.
  intros _ Hs Hb.
  destruct (generateVolumeVaultLayout_vault bw bh g Hs Hb) as (cs & Hp & ->).
  assert (Hlen : length cs = 50%nat).
  { rewrite (Permutation_length Hp). reflexivity. }
  cbn [withVault withState currentState set_currentState shelves
       volumeBlocks set_volumeBlocks set_shelves set_rng].
  split; [rewrite length_vaultShelves; exact Hlen|].
  split; [rewrite length_vaultBlocks, Hlen; reflexivity|].
  split.
  { intros k s Hk. apply lookup_vaultShelves in Hk as (c & _ & ->).
    repeat split. }
  split.
  { intros b blk Hblk. rewrite lookup_vaultBlocks in Hblk.
    destruct (cs !! (b / 6)%nat) as [c|] eqn:Hc; [|discriminate].
    injection Hblk as <-.
    exists (vaultShelf (b / 6) c). split.
    { unfold vaultShelves. rewrite list_lookup_imap, Hc. reflexivity. }
    do 4 (split; [reflexivity|]).
    cbn [vaultShelf Shelf.volumeBlocks Shelf.set_volumeBlocks].
    rewrite list_lookup_fmap.
    assert (Hseq : seq (6 * (b / 6)) 6 !! (b mod 6)%nat = Some b).
    { apply lookup_seq. split.
      - pose proof (Nat.div_mod_eq b 6). lia.
      - apply Nat.mod_upper_bound. lia. }
    rewrite Hseq. reflexivity. }
  split.
  { unfold totalChaosVolumeBlocks.
    change (volumeBlocks (currentState (withVault bw bh cs _)))
      with (vaultBlocks bw bh cs).
    destruct (vault_quiet cs) as [-> ->]. reflexivity. }
  repeat split.
Qed.

(** X16.  The shuffle only permutes the balanced distribution: the vault has
    nine red and nine blue shelves and eight of each other colour,
    whatever the draws. *)
Theorem generateVolumeVaultLayout_balanced (g : Game) :
  fairDraws ->
  shelves (currentState g) = [] ->
  volumeBlocks (currentState g) = [] ->
  let shelves' := shelves (currentState (generateVolumeVaultLayout bw bh g)) in
  Shelf.color <$> shelves' ≡ₚ colorDistribution
  /\ forall c,
       length (filter (fun s => Shelf.color s = c) shelves')
       = match c with red | blue => 9%nat | _ => 8%nat end.
Proof.
  intros _ Hs Hb.
  destruct (generateVolumeVaultLayout_vault bw bh g Hs Hb) as (cs & Hp & ->).
  cbn [withVault withState currentState set_currentState shelves
       volumeBlocks set_volumeBlocks set_shelves set_rng].
  assert (Hcolors : Shelf.color <$> vaultShelves cs = cs).
  { unfold vaultShelves. rewrite fmap_imap.
    rewrite (imap_ext _ (fun _ c => c)) by reflexivity.
    clear. induction cs as [|c cs IH]; [reflexivity|].
    rewrite imap_cons. f_equal. exact IH. }
  split; [rewrite Hcolors; exact Hp|].
  intros c.
  assert (Hcount : length (filter (fun s => Shelf.color s = c) (vaultShelves cs))
                   = length (filter (fun c' => c' = c) (Shelf.color <$> vaultShelves cs))).
  { generalize (vaultShelves cs). clear.
    induction l as [|s l IH]; [reflexivity|].
    rewrite fmap_cons, !filter_cons.
    destruct (decide (Shelf.color s = c)); simpl; rewrite IH; reflexivity. }
  rewrite Hcount, Hcolors, Hp. destruct c; reflexivity.
Qed.

(** Whether a kid at a place hits a shelf of the vault does not depend on
    the colour of the shelf. *)
Lemma hits_vault (x y : Q) (cs : list Color) : forall (g : nat -> Color -> Shelf.t),
  (forall k c, Kid.collides 48 60 x y (g k c) = Kid.collides 48 60 x y (g k red)) ->
  forall start,
  existsb (Kid.collides 48 60 x y) (imap (fun k => g (start + k)%nat) cs)
  = existsb (fun k => Kid.collides 48 60 x y (g k red)) (seq start (length cs)).
Proof.
  intros g Hg. induction cs as [|c cs IH]; intros start; [reflexivity|].
  rewrite imap_cons. cbn [existsb length seq].
  rewrite Nat.add_0_r, Hg. f_equal.
  rewrite <- (IH (S start)). f_equal.
  apply imap_ext. intros k c' _. simpl. f_equal. lia.
Qed.

Lemma ensureSafeSpawnPosition_vault (x y : Q) (cs : list Color) :
  length cs = 50%nat ->
  Kid.ensureSafeSpawnPosition 48 60 x y (vaultShelves cs)
  = if existsb (fun k => Kid.collides 48 60 x y (vaultShelf k red)) (seq 0 50)
    then (30, 30) else (x, y).
Proof.
  intros Hlen. unfold Kid.ensureSafeSpawnPosition, vaultShelves.
  rewrite <- Hlen.
  rewrite <- (hits_vault x y cs vaultShelf (fun _ _ => eq_refl) 0).
  reflexivity.
Qed.

(** X17.  Three of the eight spawn points lie inside a shelf of the vault:
    a kid created at (1500, 400), (1500, 800) or (1700, 600) is moved to
    (30, 30); a kid created at one of the other five stays there.  No
    shelf of the vault reaches (30, 30). *)
Theorem spawn_points_in_the_vault (g : Game) :
  fairDraws ->
  shelves (currentState g) = [] ->
  volumeBlocks (currentState g) = [] ->
  let shelves' := shelves (currentState (generateVolumeVaultLayout bw bh g)) in
  map (fun p => Kid.ensureSafeSpawnPosition 48 60 (fst p) (snd p) shelves')
    defaultSpawnPoints
  = [(500, 400); (30, 30); (500, 800); (30, 30);
     (1000, 300); (1000, 900); (300, 600); (30, 30)]
  /\ Kid.ensureSafeSpawnPosition 48 60 30 30 shelves' = (30, 30)
  /\ forall shelf, In shelf shelves' -> Kid.collides 48 60 30 30 shelf = false.
Proof.
  intros _ Hs Hb.
  destruct (generateVolumeVaultLayout_vault bw bh g Hs Hb) as (cs & Hp & ->).
  assert (Hlen : length cs = 50%nat).
  { rewrite (Permutation_length Hp). reflexivity. }
  cbn [withVault withState currentState set_currentState shelves
       volumeBlocks set_volumeBlocks set_shelves set_rng].
  split; [|split].
  - unfold defaultSpawnPoints. cbn [map fst snd].
    rewrite !(ensureSafeSpawnPosition_vault _ _ cs Hlen).
    vm_compute. reflexivity.
  - rewrite (ensureSafeSpawnPosition_vault _ _ cs Hlen). reflexivity.
  - intros shelf Hin.
    assert (Hhit : existsb (Kid.collides 48 60 30 30) (vaultShelves cs) = false).
    { unfold vaultShelves.
      change (imap vaultShelf cs) with (imap (fun k => vaultShelf (0 + k)) cs).
      rewrite (hits_vault 30 30 cs vaultShelf (fun _ _ => eq_refl) 0), Hlen.
      vm_compute. reflexivity. }
    destruct (Kid.collides 48 60 30 30 shelf) eqn:Hc; [|reflexivity].
    assert (existsb (Kid.collides 48 60 30 30) (vaultShelves cs) = true)
      by (apply existsb_exists; eauto).
    congruence.
Qed.
End Vault.

Section Particles.
Context `{MathEnv}.
Import PlayingState.
Local Open Scope Q_scope.

Lemma filter_map_swap {A B} (f : A -> B) (p : B -> bool) (l : list A) :
  List.filter p (List.map f l)
  = List.map f (List.filter (fun a => p (f a)) l).
Proof.
  induction l as [|a l IH]; [reflexivity|]. simpl.
  destruct (p (f a)); simpl; rewrite IH; reflexivity.
Qed.

Lemma filter_length_le {A} (p : A -> bool) (l : list A) :
  (length (List.filter p l) <= length l)%nat.
Proof.
  induction l as [|a l IH]; [reflexivity|]. simpl.
  destruct (p a); simpl; lia.
Qed.


(** X20.  A tick of the floating texts: the texts whose age reaches their
    lifetime in this tick are removed, in place; the others age by
    [deltaTime], move by their speed and gain speed downwards.  No text
    left has expired, none is added, and nothing else changes. *)
Theorem updateParticles_expires (deltaTime : Q) (g : Game) :
  let ps := particles (currentState g) in
  let ps' := particles (currentState (updateParticles deltaTime g)) in
  ps' = List.map (fun p =>
          mkParticle (px p) (py p + pvy p * deltaTime) (amount p)
            (pvy p + 100 * deltaTime) (lifetime p) (age p + deltaTime))
          (List.filter
             (fun p => if Qlt_le_dec (age p + deltaTime) (lifetime p)
                       then true else false) ps)
  /\ Forall (fun p => age p < lifetime p) ps'
  /\ (length ps' <= length ps)%nat
  /\ updateParticles deltaTime g = withState (set_particles ps') g.
Proof.
  cbv zeta.
  split; [|split; [|split; [|reflexivity]]]; unfold updateParticles;
    cbn [withState currentState set_currentState particles set_particles];
    rewrite filter_map_swap; cbn [age lifetime].
  - f_equal. apply List.filter_ext. intros p.
    destruct (Qlt_le_dec _ _) as [Hlt | Hge].
    + apply ltb_lt. exact Hlt.
    + apply ltb_ge. exact Hge.
  - apply List.Forall_forall. intros p Hp.
    apply List.in_map_iff in Hp as (q & <- & Hq).
    apply List.filter_In in Hq as [_ Hq]. cbn [age lifetime].
    apply ltb_lt. exact Hq.
  - rewrite length_map. apply filter_length_le.
Qed.

End Particles.

Section Validation.
Context `{MathEnv}.
Import PlayingState.

Lemma imap_pair_snoc {A} (l : list A) (x : A) :
  imap pair (l ++ [x]) = imap pair l ++ [(length l, x)].
Proof.
  rewrite imap_app. cbn [imap]. rewrite Nat.add_0_r. reflexivity.
Qed.

(** The tally and the reports of a run of the loop over the blocks. *)
Lemma validate_run (shelves : list Shelf.t) (blocks : list VolumeBlock.t) :
  let r := foldl (validateStep shelves) (mkVolumeBlockStates 0 0 0 0, [])
             (imap pair blocks) in
  shelved r.1
  = length (List.filter (fun b => VolumeBlock.isShelved b
                                  && negb (VolumeBlock.isHeld b)) blocks)
  /\ held r.1
     = length (List.filter (fun b => negb (VolumeBlock.isShelved b)
                                     && VolumeBlock.isHeld b) blocks)
  /\ floor r.1
     = length (List.filter (fun b => negb (VolumeBlock.isHeld b)
                                     && negb (VolumeBlock.isShelved b)) blocks)
  /\ invalid r.1
     = length (List.filter (fun b => VolumeBlock.isShelved b
                                     && VolumeBlock.isHeld b) blocks)
  /\ (shelved r.1 + held r.1 + floor r.1 + invalid r.1 = length blocks)%nat
  /\ forall i,
       (In (BothShelvedAndHeld i) r.2 <->
        exists b, blocks !! i = Some b
          /\ VolumeBlock.isShelved b = true /\ VolumeBlock.isHeld b = true)
       /\ (In (ShelvedButInNoShelf i) r.2 <->
           exists b, blocks !! i = Some b
             /\ VolumeBlock.isShelved b = true
             /\ VolumeBlock.isHeld b = false
             /\ foundInShelf shelves i = false)
       /\ (In (HeldWithoutHolder i) r.2 <->
           exists b, blocks !! i = Some b
             /\ VolumeBlock.isShelved b = false
             /\ VolumeBlock.isHeld b = true
             /\ VolumeBlock.holder b = None).
Proof.
  induction blocks as [|x blocks IH] using rev_ind.
  - cbn. repeat split; try (intros []);
      match goal with Hb : _ /\ _ |- _ => destruct Hb as [Hb _] end;
      discriminate.
  - cbv zeta in *. rewrite imap_pair_snoc, foldl_app.
    destruct (foldl _ _ (imap pair blocks)) as [st log].
    cbn [fst snd] in IH. destruct IH as (I1 & I2 & I3 & I4 & I5 & I6).
    rewrite !List.filter_app, !length_app.
    set (n := length blocks) in *.
    assert (Hlast : forall P : VolumeBlock.t -> Prop,
              (exists b, (blocks ++ [x]) !! n = Some b /\ P b) <-> P x).
    { intros P. unfold n. rewrite list_lookup_middle by reflexivity. split.
      - intros (b & [= <-] & Hb). exact Hb.
      - eauto. }
    assert (Hold : forall i (P : VolumeBlock.t -> Prop),
              i <> n ->
              (exists b, (blocks ++ [x]) !! i = Some b /\ P b)
              <-> (exists b, blocks !! i = Some b /\ P b)).
    { intros i P Hi. split; intros (b & Hb & HP); exists b; (split; [|exact HP]).
      - apply lookup_app_Some in Hb as [Hb | [Hge Hb]]; [exact Hb|].
        apply list_lookup_singleton_Some in Hb as [Hz _]. unfold n in Hi. lia.
      - apply lookup_app_l_Some. exact Hb. }
    assert (Hno : ~ In (BothShelvedAndHeld n) log
                  /\ ~ In (ShelvedButInNoShelf n) log
                  /\ ~ In (HeldWithoutHolder n) log).
    { destruct (I6 n) as (J1 & J2 & J3).
      repeat split; intros Hin;
        [apply J1 in Hin | apply J2 in Hin | apply J3 in Hin];
        destruct Hin as (b & Hb & _); apply lookup_lt_Some in Hb;
        unfold n in Hb; lia. }
    destruct Hno as (N1 & N2 & N3).
    cbn [foldl validateStep List.filter].
    destruct (VolumeBlock.isShelved x) eqn:Es,
      (VolumeBlock.isHeld x) eqn:Eh; cbn [andb negb];
      [| destruct (foundInShelf shelves n) eqn:Ef
       | destruct (VolumeBlock.holder x) as [holder|] eqn:Eo; cbn [notNull]
       | ];
      cbn [fst snd shelved held floor invalid length];
      (split; [lia|]); (split; [lia|]); (split; [lia|]); (split; [lia|]);
      (split; [lia|]);
      intros i; destruct (I6 i) as (J1 & J2 & J3);
      (destruct (decide (i = n)) as [-> | Hne];
       [rewrite !Hlast
       |rewrite !(Hold i _ Hne), <- J1, <- J2, <- J3]);
      rewrite ?in_app_iff; cbn [In];
      intuition congruence.
Qed.

Lemma foundInShelf_false (shelves : list Shelf.t) (i : nat) :
  foundInShelf shelves i = false
  <-> forall shelf, In shelf shelves -> ~ In (Some i) (Shelf.volumeBlocks shelf).
Proof.
  unfold foundInShelf. split.
  - intros Hnone shelf Hshelf Hslot.
    assert (Hsome : existsb (fun shelf =>
              existsb (fun slot => bool_decide (slot = Some i))
                (Shelf.volumeBlocks shelf)) shelves = true).
    { apply existsb_exists. exists shelf. split; [exact Hshelf|].
      apply existsb_exists. exists (Some i). split; [exact Hslot|].
      apply bool_decide_eq_true. reflexivity. }
    congruence.
  - intros Hall. destruct (existsb _ shelves) eqn:E; [|reflexivity].
    apply existsb_exists in E as (shelf & Hshelf & E).
    apply existsb_exists in E as (slot & Hslot & E).
    apply bool_decide_eq_true in E. subst slot.
    destruct (Hall shelf Hshelf Hslot).
Qed.

Lemma heldByKid_count (blocks : list VolumeBlock.t) :
  (length (List.filter heldByKid blocks)
   <= length (List.filter (fun b => negb (VolumeBlock.isShelved b)
                                    && VolumeBlock.isHeld b) blocks)
      + length (List.filter (fun b => VolumeBlock.isShelved b
                                      && VolumeBlock.isHeld b) blocks))%nat.
Proof.
  induction blocks as [|b blocks IH]; [reflexivity|]. cbn [List.filter].
  unfold heldByKid at 1.
  destruct (VolumeBlock.isShelved b), (VolumeBlock.isHeld b); cbn [andb negb];
    try destruct (VolumeBlock.holder b) as [[|k]|]; cbn [length]; lia.
Qed.

(** X18.  The tally of [validateVolumeBlockStates] counts every block once:
    as shelved, held, on the floor, or invalid when it is both Shelved
    and Held.  Its floor count is the number of blocks that are neither
    Held nor Shelved, as in the chaos economy, and the blocks that count
    towards chaos are among the floor, held and invalid ones.  It reports a block exactly when the block is both
    Shelved and Held, is Shelved but in no slot of any shelf, or is Held
    without holder. *)
Theorem validateVolumeBlockStates_tally (g : Game) :
  let blocks := volumeBlocks (currentState g) in
  let '(states, log) := validateVolumeBlockStates g in
  (shelved states + held states + floor states + invalid states
   = length blocks)%nat
  /\ shelved states
     = length (List.filter (fun b => VolumeBlock.isShelved b
                                     && negb (VolumeBlock.isHeld b)) blocks)
  /\ held states
     = length (List.filter (fun b => negb (VolumeBlock.isShelved b)
                                     && VolumeBlock.isHeld b) blocks)
  /\ floor states
     = length (List.filter (fun b => negb (VolumeBlock.isHeld b)
                                     && negb (VolumeBlock.isShelved b)) blocks)
  /\ invalid states
     = length (List.filter (fun b => VolumeBlock.isShelved b
                                     && VolumeBlock.isHeld b) blocks)
  /\ (totalChaosVolumeBlocks g
      <= floor states + held states + invalid states)%nat
  /\ forall i,
       (In (BothShelvedAndHeld i) log <->
        exists b, blocks !! i = Some b
          /\ VolumeBlock.isShelved b = true /\ VolumeBlock.isHeld b = true)
       /\ (In (ShelvedButInNoShelf i) log <->
           exists b, blocks !! i = Some b
             /\ VolumeBlock.isShelved b = true
             /\ VolumeBlock.isHeld b = false
             /\ (forall shelf, In shelf (shelves (currentState g)) ->
                   ~ In (Some i) (Shelf.volumeBlocks shelf)))
       /\ (In (HeldWithoutHolder i) log <->
           exists b, blocks !! i = Some b
             /\ VolumeBlock.isShelved b = false
             /\ VolumeBlock.isHeld b = true
             /\ VolumeBlock.holder b = None).
Proof.
  cbv zeta. unfold validateVolumeBlockStates.
  pose proof (validate_run (shelves (currentState g))
                (volumeBlocks (currentState g))) as Hrun.
  cbv zeta in Hrun.
  destruct (foldl _ _ _) as [states log]. cbn [fst snd] in Hrun.
  destruct Hrun as (I1 & I2 & I3 & I4 & I5 & I6).
  split; [exact I5|]. split; [exact I1|]. split; [exact I2|].
  split; [exact I3|]. split; [exact I4|].
  split.
  { unfold totalChaosVolumeBlocks. cbv zeta.
    pose proof (heldByKid_count (volumeBlocks (currentState g))) as Hheld.
    assert (E : length (List.filter VolumeBlock.onFloor
                          (volumeBlocks (currentState g))) = floor states)
      by (symmetry; exact I3).
    rewrite E, I2, I4. lia. }
  intros i. destruct (I6 i) as (J1 & J2 & J3).
  split; [exact J1|]. split; [|exact J3].
  rewrite J2. split; intros (b & Hb & Hs & Hh & Hf); exists b;
    (split; [exact Hb|]); (split; [exact Hs|]); (split; [exact Hh|]);
    apply foundInShelf_false; exact Hf.
Qed.

(** X19.  The vault that [generateVolumeVaultLayout] builds passes the
    validation: its 300 blocks are tallied as shelved and nothing is
    reported. *)
Theorem vault_is_valid (bw bh : Q) (g : Game) :
  fairDraws ->
  shelves (currentState g) = [] ->
  volumeBlocks (currentState g) = [] ->
  validateVolumeBlockStates (generateVolumeVaultLayout bw bh g)
  = (mkVolumeBlockStates 300 0 0 0, []).
Proof.
  intros _ Hs Hb.
  destruct (generateVolumeVaultLayout_vault bw bh g Hs Hb) as (cs & Hp & ->).
  assert (Hlen : length cs = 50%nat).
  { rewrite (Permutation_length Hp). reflexivity. }
  unfold validateVolumeBlockStates.
  cbn [withVault withState currentState set_currentState shelves
       volumeBlocks set_volumeBlocks set_shelves set_rng].
  pose proof (validate_run (vaultShelves cs) (vaultBlocks bw bh cs)) as Hrun.
  cbv zeta in Hrun.
  destruct (foldl _ _ _) as [states log]. cbn [fst snd] in Hrun.
  destruct Hrun as (I1 & I2 & I3 & I4 & I5 & I6).
  assert (Hblock : forall i b, vaultBlocks bw bh cs !! i = Some b ->
            VolumeBlock.isShelved b = true /\ VolumeBlock.isHeld b = false
            /\ foundInShelf (vaultShelves cs) i = true).
  { intros i b Hi. rewrite lookup_vaultBlocks in Hi.
    destruct (cs !! (i / 6)%nat) as [c|] eqn:Hc; [|discriminate].
    injection Hi as <-. split; [reflexivity|]. split; [reflexivity|].
    apply existsb_exists. exists (vaultShelf (i / 6) c). split.
    - apply list_elem_of_In.
      apply list_elem_of_lookup. exists (i / 6)%nat.
      unfold vaultShelves. rewrite list_lookup_imap, Hc. reflexivity.
    - apply existsb_exists. exists (Some i). split.
      + apply list_elem_of_In. apply list_elem_of_lookup.
        exists (i mod 6)%nat.
        cbn [vaultShelf Shelf.volumeBlocks Shelf.set_volumeBlocks].
        rewrite list_lookup_fmap.
        assert (Hseq : seq (6 * (i / 6)) 6 !! (i mod 6)%nat = Some i).
        { apply lookup_seq. split.
          - pose proof (Nat.div_mod_eq i 6). lia.
          - apply Nat.mod_upper_bound. lia. }
        rewrite Hseq. reflexivity.
      + apply bool_decide_eq_true. reflexivity. }
  assert (Hall : forall (p : VolumeBlock.t -> bool),
            (forall i b, vaultBlocks bw bh cs !! i = Some b -> p b = false) ->
            length (List.filter p (vaultBlocks bw bh cs)) = 0%nat).
  { intros p Hp'. 
    assert (Hnil : List.filter p (vaultBlocks bw bh cs) = []).
    { destruct (List.filter p _) as [|b l] eqn:E; [reflexivity|].
      assert (Hin : In b (List.filter p (vaultBlocks bw bh cs)))
        by (rewrite E; left; reflexivity).
      apply List.filter_In in Hin as [Hin Hpb].
      apply list_elem_of_In in Hin.
      apply list_elem_of_lookup in Hin as [i Hi].
      rewrite (Hp' i b Hi) in Hpb. discriminate. }
    rewrite Hnil. reflexivity. }
  rewrite Hall in I2, I3, I4.
  2-4: intros i b Hi; destruct (Hblock i b Hi) as (-> & -> & _); reflexivity.
  rewrite length_vaultBlocks, Hlen in I5.
  assert (Hlog : log = []).
  { destruct log as [|c log]; [reflexivity|]. exfalso.
    destruct c as [i|i|i]; destruct (I6 i) as (J1 & J2 & J3);
      [destruct (proj1 J1 (or_introl eq_refl)) as (b & Hi & Hs' & Hh)
      |destruct (proj1 J2 (or_introl eq_refl)) as (b & Hi & Hs' & Hh & Hf)
      |destruct (proj1 J3 (or_introl eq_refl)) as (b & Hi & Hs' & Hh & Ho)];
      destruct (Hblock i b Hi) as (K1 & K2 & K3); congruence. }
  subst log. destruct states as [s h f v]. cbn in *. subst.
  f_equal. f_equal. lia.
Qed.
End Validation.

Section Enter.
Context `{MathEnv}.
Context (bw bh : Q).
Context `{Player.Spawn}.
Import PlayingState.
Local Open Scope Q_scope.

(** The colours the shuffle gives depend on the draws only. *)
Lemma shuffle_draws i : forall l g g',
  rng g' = rng g -> (shuffle i l g').1 = (shuffle i l g).1.
Proof.
  induction i as [|i IH]; intros l g g' Hr; [reflexivity|].
  cbn [shuffle random]. cbv zeta. rewrite Hr. apply IH.
  reflexivity.
Qed.

Lemma enter_unfold isCurrent g :
  enter bw bh isCurrent g
  = withState (set_kidSpawnTimer 15)
      (spawnInitialKid isCurrent (spawnInitialKid isCurrent (furnished bw bh g))).
Proof.
  unfold enter, initializeLevel.
  set (g3 := withState resetSpawning _).
  assert (Hg3 : g3 = cleared (player (currentState g)) g) by reflexivity.
  assert (Hlay : generateVolumeVaultLayout bw bh g3
                 = withVault bw bh (shuffle 49 colorDistribution g).1
                     (set_rng (rng g + 49) g3)).
  { unfold generateVolumeVaultLayout.
    pose proof (shuffle_draws 49 colorDistribution g g3 eq_refl) as Hcs.
    destruct (shuffle_effect 49 colorDistribution g3) as [Hp Hg].
    change (length colorDistribution - 1)%nat with 49%nat.
    destruct (shuffle 49 colorDistribution g3) as [cs g4].
    cbn [fst snd] in Hcs, Hp, Hg. subst cs g4.
    assert (Hlen : length (shuffle 49 colorDistribution g).1 = 50%nat).
    { rewrite (Permutation_length Hp). reflexivity. }
    change cells with (take 50 cells).
    change (set_rng (rng g3 + 49) g3)
      with (withVault bw bh [] (set_rng (rng g3 + 49) g3)).
    rewrite (placeShelves_vault bw bh _ _ 50 (le_n _) Hlen).
    cbn [fst]. rewrite <- Hlen, firstn_all. reflexivity. }
  rewrite Hlay. unfold furnished.
  generalize (shuffle 49 colorDistribution g).1. intros cs.
  clearbody g3. subst g3.
  do 3 f_equal.
Qed.

(** X22.  [enter] is a fresh start: the state it leaves does not depend on
    the entities, the player, the game data or the wave settings it
    finds.  Two games that agree on the bounds of the world, the spawn
    points, the requests and cues sent and the draws made are the same
    after [enter]; so [enter] after [exit] is [enter]. *)
Theorem enter_is_a_fresh_start (isCurrent : bool) (g g' : Game) :
  worldWidth (currentState g') = worldWidth (currentState g) ->
  worldHeight (currentState g') = worldHeight (currentState g) ->
  spawnPoints (currentState g') = spawnPoints (currentState g) ->
  stateManager g' = stateManager g ->
  audio g' = audio g ->
  rng g' = rng g ->
  enter bw bh isCurrent g' = enter bw bh isCurrent g
  /\ enter bw bh isCurrent (exit g) = enter bw bh isCurrent g.
Proof.
  intros Hw Hh Hp Hm Ha Hr.
  rewrite !enter_unfold.
  assert (Hf : forall g1 g2,
            worldWidth (currentState g2) = worldWidth (currentState g1) ->
            worldHeight (currentState g2) = worldHeight (currentState g1) ->
            spawnPoints (currentState g2) = spawnPoints (currentState g1) ->
            stateManager g2 = stateManager g1 ->
            audio g2 = audio g1 ->
            rng g2 = rng g1 ->
            furnished bw bh g2 = furnished bw bh g1).
  { intros g1 g2 E1 E2 E3 E4 E5 E6. unfold furnished, cleared.
    rewrite (shuffle_draws 49 colorDistribution g1 g2 E6).
    rewrite E1, E2, E3, E4, E5, E6. reflexivity. }
  split.
  - rewrite (Hf g g'); auto.
  - rewrite (Hf g (exit g)); reflexivity.
Qed.

Lemma spawnInitialKid_effect (isCurrent : bool) (g : Game) :
  (0 <= Math_random (rng g) < 1) ->
  spawnPoints (currentState g) <> [] ->
  exists sp kid,
    In sp (spawnPoints (currentState g))
    /\ spawnInitialKid isCurrent g
       = withState (fun s => set_kids (kids s ++ [kid]) s)
           (set_rng (rng g + 3) g)
    /\ Kid.state kid = Kid.wandering
    /\ Kid.aggressionLevel kid = 1%Z
    /\ Kid.carriedVolumeBlock kid = None
    /\ (Kid.x kid, Kid.y kid)
       = if isCurrent
         then Kid.ensureSafeSpawnPosition 48 60 sp.1 sp.2
                (shelves (currentState g))
         else sp.
Proof.
  intros Hdraw Hne.
  destruct (pickSpawnPoint_some _ _ Hdraw Hne) as (sp & Hpick & Hlookup).
  unfold spawnInitialKid, random. cbv zeta.
  cbn [currentState set_rng spawnPoints]. rewrite Hpick.
  set (view := if isCurrent then _ else _).
  pose proof (new_kid sp.1 sp.2 1 view) as (Hlevel & Hstate & Hcarried & _ & Hplace).
  assert (Hrng : Kid.rng (Kid.new sp.1 sp.2 1 view).2 = (rng g + 3)%nat).
  { unfold Kid.new. destruct (Kid.ensureSafeSpawnPosition _ _ _ _ _).
    subst view. destruct isCurrent; cbn; lia. }
  destruct (Kid.new sp.1 sp.2 1 view) as [kid w]. cbn [fst snd] in *.
  exists sp, kid.
  split; [apply list_elem_of_In; eapply list_elem_of_lookup_2; exact Hlookup|].
  split; [rewrite Hrng; destruct g; reflexivity|].
  split; [exact Hstate|]. split; [exact Hlevel|]. split; [exact Hcarried|].
  rewrite Hplace. subst view. destruct isCurrent; [reflexivity|].
  destruct sp. reflexivity.
Qed.

Lemma furnished_vault (g : Game) :
  exists cs,
    cs ≡ₚ colorDistribution
    /\ furnished bw bh g
       = withState (set_player (Some (Player.new 100 500)))
           (withVault bw bh cs (set_rng (rng g + 49) (cleared None g))).
Proof.
  exists (shuffle 49 colorDistribution g).1.
  split; [apply shuffle_effect | reflexivity].
Qed.

(** X23.  What [enter] leaves: the game data of a new game, a new player at
    (100, 500), the vault of 50 full shelves and 300 blocks, none of
    which counts towards chaos, no floating text, the wave system at its
    start with the first spawn due in 15 seconds, and two wandering kids
    of aggression level 1 with empty hands.  Each kid stands at a spawn
    point, unless the playing state is the current one already and the
    spawn point lies inside a shelf.  55 draws are made. *)
Theorem enter_furnishes (isCurrent : bool) (g : Game) :
  fairDraws ->
  spawnPoints (currentState g) <> [] ->
  let g' := enter bw bh isCurrent g in
  let s' := currentState g' in
  gameData g' = initialGameData
  /\ player s' = Some (Player.new 100 500)
  /\ length (shelves s') = 50%nat
  /\ length (volumeBlocks s') = 300%nat
  /\ totalChaosVolumeBlocks g' = 0%nat
  /\ particles s' = []
  /\ (kidSpawnTimer s' = 15 /\ kidSpawnInterval s' = 15
      /\ maxKids s' = 3%Z /\ lastMaxKids s' = 3%Z)
  /\ (exists sp1 kid1 sp2 kid2,
        kids s' = [kid1; kid2]
        /\ Forall (fun kid =>
             Kid.state kid = Kid.wandering
             /\ Kid.aggressionLevel kid = 1%Z
             /\ Kid.carriedVolumeBlock kid = None) [kid1; kid2]
        /\ Forall2 (fun sp kid =>
             In sp (spawnPoints (currentState g))
             /\ (Kid.x kid, Kid.y kid)
                = if isCurrent
                  then Kid.ensureSafeSpawnPosition 48 60 sp.1 sp.2 (shelves s')
                  else sp) [sp1; sp2] [kid1; kid2])
  /\ rng g' = (rng g + 55)%nat
  /\ stateManager g' = stateManager g
  /\ audio g' = audio g
  /\ spawnPoints s' = spawnPoints (currentState g).
Proof.
  intros Hfair Hne. cbv zeta. rewrite enter_unfold.
  destruct (furnished_vault g) as (cs & Hp & ->).
  assert (Hlen : length cs = 50%nat).
  { rewrite (Permutation_length Hp). reflexivity. }
  clear Hp.
  set (g1 := withState _ (withVault bw bh cs _)).
  assert (H1 : gameData g1 = initialGameData
               /\ player (currentState g1) = Some (Player.new 100 500)
               /\ shelves (currentState g1) = vaultShelves cs
               /\ volumeBlocks (currentState g1) = vaultBlocks bw bh cs
               /\ particles (currentState g1) = []
               /\ kids (currentState g1) = []
               /\ kidSpawnInterval (currentState g1) = 15
               /\ maxKids (currentState g1) = 3%Z
               /\ lastMaxKids (currentState g1) = 3%Z
               /\ rng g1 = (rng g + 49)%nat
               /\ stateManager g1 = stateManager g
               /\ audio g1 = audio g
               /\ spawnPoints (currentState g1) = spawnPoints (currentState g))
    by (repeat split).
  clearbody g1.
  destruct H1 as (A1 & A2 & A3 & A4 & A5 & A6 & A7 & A8 & A9 & A10 & A11
                  & A12 & A13).
  destruct (spawnInitialKid_effect isCurrent g1 (Hfair _))
    as (sp1 & kid1 & Hsp1 & E1 & K1 & L1 & C1 & P1);
    [rewrite A13; exact Hne|].
  rewrite E1.
  set (g2 := withState _ (set_rng _ g1)).
  assert (H2 : gameData g2 = gameData g1
               /\ player (currentState g2) = player (currentState g1)
               /\ shelves (currentState g2) = shelves (currentState g1)
               /\ volumeBlocks (currentState g2) = volumeBlocks (currentState g1)
               /\ particles (currentState g2) = particles (currentState g1)
               /\ kids (currentState g2) = kids (currentState g1) ++ [kid1]
               /\ kidSpawnInterval (currentState g2)
                  = kidSpawnInterval (currentState g1)
               /\ maxKids (currentState g2) = maxKids (currentState g1)
               /\ lastMaxKids (currentState g2) = lastMaxKids (currentState g1)
               /\ rng g2 = (rng g1 + 3)%nat
               /\ stateManager g2 = stateManager g1
               /\ audio g2 = audio g1
               /\ spawnPoints (currentState g2) = spawnPoints (currentState g1))
    by (repeat split).
  clearbody g2.
  destruct H2 as (B1 & B2 & B3 & B4 & B5 & B6 & B7 & B8 & B9 & B10 & B11
                  & B12 & B13).
  destruct (spawnInitialKid_effect isCurrent g2 (Hfair _))
    as (sp2 & kid2 & Hsp2 & E2 & K2 & L2 & C2 & P2);
    [rewrite B13, A13; exact Hne|].
  rewrite E2.
  cbn [withState currentState set_currentState gameData set_rng rng
       stateManager audio player shelves volumeBlocks particles kids
       set_kids set_kidSpawnTimer kidSpawnTimer kidSpawnInterval maxKids
       lastMaxKids spawnPoints].
  rewrite B1, A1, B2, A2, B3, A3, B4, A4, B5, A5, B6, A6, B7, A7, B8, A8,
    B9, A9, B10, A10, B11, A11, B12, A12, B13, A13.
  rewrite B3, A3 in P2. rewrite A3 in P1. rewrite B13, A13 in Hsp2.
  rewrite A13 in Hsp1.
  split; [reflexivity|]. split; [reflexivity|].
  split; [rewrite length_vaultShelves; exact Hlen|].
  split; [rewrite length_vaultBlocks, Hlen; reflexivity|].
  split.
  { unfold totalChaosVolumeBlocks.
    cbn [currentState set_currentState withState volumeBlocks set_kids
         set_kidSpawnTimer set_rng].
    rewrite B4, A4.
    destruct (vault_quiet bw bh cs) as [-> ->]. reflexivity. }
  split; [reflexivity|].
  split; [repeat split|].
  split.
  { exists sp1, kid1, sp2, kid2. split; [reflexivity|].
    split; [repeat constructor; assumption|].
    repeat constructor; assumption. }
  split; [lia|]. repeat split.
Qed.
End Enter.

Section VaultExamples.
Import PlayingState.
Local Open Scope Q_scope.

Lemma fairDraws_example : @fairDraws (Scenario.exampleMath [1 # 2; 1 # 4]).
Proof.
  intros [|[|[|n]]]; (split; [vm_compute; discriminate | reflexivity]).
Defined.

Lemma generateVolumeVaultLayout_fills_witness :
  let M := Scenario.exampleMath [1 # 2; 1 # 4] in
  let g := Scenario.gameOf initialGameData Scenario.emptyState in
  let g' := generateVolumeVaultLayout 24 24 g in
  fairDraws
  /\ shelves (currentState g) = []
  /\ volumeBlocks (currentState g) = []
  /\ length (shelves (currentState g')) = 50%nat
  /\ length (volumeBlocks (currentState g')) = 300%nat
  /\ totalChaosVolumeBlocks g' = 0%nat.
Proof.
  intros M g g'.
  split; [exact fairDraws_example|]. split; [reflexivity|].
  split; [reflexivity|].
  destruct (generateVolumeVaultLayout_fills 24 24 g fairDraws_example
              eq_refl eq_refl) as (Hshelves & Hblocks & _ & _ & Hchaos & _).
  split; [exact Hshelves|]. split; [exact Hblocks | exact Hchaos].
Defined.

Lemma generateVolumeVaultLayout_balanced_witness :
  let M := Scenario.exampleMath [1 # 2; 1 # 4] in
  let g := Scenario.gameOf initialGameData Scenario.emptyState in
  let shelves' := shelves (currentState (generateVolumeVaultLayout 24 24 g)) in
  fairDraws
  /\ length (filter (fun s => Shelf.color s = red) shelves') = 9%nat
  /\ length (filter (fun s => Shelf.color s = green) shelves') = 8%nat.
Proof.
  intros M g shelves'.
  split; [exact fairDraws_example|].
  destruct (generateVolumeVaultLayout_balanced 24 24 g fairDraws_example
              eq_refl eq_refl) as (_ & Hcount).
  split; [exact (Hcount red) | exact (Hcount green)].
Defined.

Lemma spawn_points_in_the_vault_witness :
  let M := Scenario.exampleMath [1 # 2; 1 # 4] in
  let g := Scenario.gameOf initialGameData Scenario.emptyState in
  let shelves' := shelves (currentState (generateVolumeVaultLayout 24 24 g)) in
  fairDraws
  /\ map (fun p => Kid.ensureSafeSpawnPosition 48 60 (fst p) (snd p) shelves')
       defaultSpawnPoints
     = [(500, 400); (30, 30); (500, 800); (30, 30);
        (1000, 300); (1000, 900); (300, 600); (30, 30)]
  /\ Kid.ensureSafeSpawnPosition 48 60 30 30 shelves' = (30, 30).
Proof.
  intros M g shelves'.
  split; [exact fairDraws_example|].
  destruct (spawn_points_in_the_vault 24 24 g fairDraws_example
              eq_refl eq_refl) as (Hpoints & Hcorner & _).
  split; [exact Hpoints | exact Hcorner].
Defined.

End VaultExamples.

Section LevelExamples.
Import PlayingState.
Local Open Scope Q_scope.


Lemma vault_is_valid_witness :
  let M := Scenario.exampleMath [1 # 2; 1 # 4] in
  let g := Scenario.gameOf initialGameData Scenario.emptyState in
  fairDraws
  /\ shelves (currentState g) = []
  /\ volumeBlocks (currentState g) = []
  /\ validateVolumeBlockStates (generateVolumeVaultLayout 24 24 g)
     = (mkVolumeBlockStates 300 0 0 0, []).
Proof.
  intros M g.
  split; [exact fairDraws_example|]. split; [reflexivity|].
  split; [reflexivity|].
  exact (vault_is_valid 24 24 g fairDraws_example eq_refl eq_refl).
Defined.

Lemma enter_is_a_fresh_start_witness :
  let M := Scenario.exampleMath [1 # 2; 1 # 4] in
  let P := Scenario.newPlayer in
  let g := Scenario.spawnDue in
  let g' := Scenario.robbery in
  kids (currentState g) <> kids (currentState g')
  /\ gameData g <> gameData g'
  /\ rng g' = rng g
  /\ enter 24 24 true g' = enter 24 24 true g
  /\ enter 24 24 true (exit g) = enter 24 24 true g.
Proof.
  intros M P g g'.
  split; [discriminate|]. split; [discriminate|]. split; [reflexivity|].
  exact (enter_is_a_fresh_start 24 24 true g g' eq_refl eq_refl eq_refl
           eq_refl eq_refl eq_refl).
Defined.

Lemma enter_furnishes_witness :
  let M := Scenario.exampleMath [1 # 2; 1 # 4] in
  let P := Scenario.newPlayer in
  let g := Scenario.robbery in
  fairDraws
  /\ spawnPoints (currentState g) <> []
  /\ length (kids (currentState (enter 24 24 false g))) = 2%nat
  /\ length (shelves (currentState (enter 24 24 false g))) = 50%nat
  /\ rng (enter 24 24 false g) = 55%nat.
Proof.
  intros M P g.
  assert (Hne : spawnPoints (currentState g) <> []) by discriminate.
  split; [exact fairDraws_example|]. split; [exact Hne|].
  destruct (enter_furnishes 24 24 false g fairDraws_example Hne)
    as (_ & _ & Hshelves & _ & _ & _ & _ & Hkids & Hrng & _).
  destruct Hkids as (sp1 & kid1 & sp2 & kid2 & Hkids & _).
  split; [exact (f_equal length Hkids)|].
  split; [exact Hshelves | exact Hrng].
Defined.

Lemma validateVolumeBlockStates_tally_witness :
  let M := Scenario.exampleMath [] in
  let g :=
    Scenario.gameOf initialGameData
      (set_shelves [Scenario.stockedShelf]
         (set_volumeBlocks
            [Scenario.shelvedBlock; Scenario.shelvedBlock;
             Scenario.floorBlock 300 300 red; Scenario.stolenBlock;
             VolumeBlock.set_isHeld true Scenario.shelvedBlock;
             VolumeBlock.set_holder None Scenario.stolenBlock;
             Scenario.shelvedBlock] Scenario.emptyState)) in
  validateVolumeBlockStates g
  = (mkVolumeBlockStates 3 2 1 1,
     [BothShelvedAndHeld 4; HeldWithoutHolder 5; ShelvedButInNoShelf 6])
  /\ totalChaosVolumeBlocks g = 2%nat
  /\ (In (ShelvedButInNoShelf 6) (validateVolumeBlockStates g).2 <->
      exists b, volumeBlocks (currentState g) !! 6%nat = Some b
        /\ VolumeBlock.isShelved b = true
        /\ VolumeBlock.isHeld b = false
        /\ (forall shelf, In shelf (shelves (currentState g)) ->
              ~ In (Some 6%nat) (Shelf.volumeBlocks shelf))).
Proof.
  intros M g.
  split; [reflexivity|]. split; [reflexivity|].
  pose proof (validateVolumeBlockStates_tally g) as Hspec.
  destruct (validateVolumeBlockStates g) as [states log].
  destruct Hspec as (_ & _ & _ & _ & _ & _ & Hlog).
  exact (proj1 (proj2 (Hlog 6%nat))).
Defined.

Lemma updateParticles_expires_witness :
  let M := Scenario.exampleMath [] in
  particles (currentState (updateParticles (6 # 10) Scenario.twoTexts))
  = [mkParticle 116 (490 + -50 * (6 # 10)) 7 (-50 + 100 * (6 # 10)) (3 # 2)
       (0 + (6 # 10))]
  /\ Forall (fun p => age p < lifetime p)
       (particles (currentState (updateParticles (6 # 10) Scenario.twoTexts))).
Proof.
  intros M.
  destruct (updateParticles_expires (6 # 10) Scenario.twoTexts)
    as (Hleft & Hfresh & _).
  split; [rewrite Hleft; reflexivity | exact Hfresh].
Defined.

End LevelExamples.

(** ** The pause menu *)

Section PauseMenu.
Import PausedState.
Local Open Scope Q_scope.



Lemma isOverItem_width g g' pos i :
  width g' = width g -> height g' = height g ->
  isOverItem g' pos i = isOverItem g pos i.
Proof. intros Hw Hh. unfold isOverItem. rewrite Hw, Hh. reflexivity. Qed.

(** At most one item lies under the pointer. *)
Lemma isOverItem_unique g pos i j :
  isOverItem g pos i = true -> isOverItem g pos j = true -> i = j.
Proof.
  unfold isOverItem. cbv zeta. intros Hi Hj.
  apply andb_prop in Hi as [Hi Hi4]. apply andb_prop in Hi as [_ Hi3].
  apply andb_prop in Hj as [Hj Hj4]. apply andb_prop in Hj as [_ Hj3].
  apply geb_ge in Hi3, Hj3. apply leb_le in Hi4, Hj4.
  destruct (Nat.lt_trichotomy i j) as [Hlt | [-> | Hgt]]; [|reflexivity|].
  - exfalso.
    assert (H1 : inject_Z (Z.of_nat i) + 1 <= inject_Z (Z.of_nat j)).
    { rewrite <- (inject_Z_plus _ 1). rewrite <- Zle_Qle. lia. }
    lra.
  - exfalso.
    assert (H1 : inject_Z (Z.of_nat j) + 1 <= inject_Z (Z.of_nat i)).
    { rewrite <- (inject_Z_plus _ 1). rewrite <- Zle_Qle. lia. }
    lra.
Qed.
End PauseMenu.

Section PauseMenuUpdate.
Import PausedState.
Local Open Scope Q_scope.









(** X25.  With the pointer away, an update with an up key followed by one
    with a down key brings the selection back, and so do three updates
    with a down key: the menu wraps around.  No request is sent, and the
    select sound is played once per update if there is one. *)
Theorem navigation_wraps_around (up down : Key) (this : t) (g : Game) :
  (0 <= selectedIndex this < 3)%Z ->
  up = KeyArrowUp \/ up = KeyW ->
  down = KeyArrowDown \/ down = KeyS ->
  let step key st :=
    st ≫= fun st => update (pressing key) (fst st) (snd st) in
  let played n :=
    if selectSound this then set_selectSounds (n + selectSounds g) g else g in
  step down (step up (Some (this, g))) = Some (this, played 2%nat)
  /\ step down (step down (step down (Some (this, g))))
     = Some (this, played 3%nat)
  /\ exists this1 g1,
       step up (Some (this, g)) = Some (this1, g1)
       /\ selectedIndex this1 <> selectedIndex this.
Proof.
  intros Hsel Hup Hdown. destruct this as [i s]. cbn in Hsel.
  assert (Hi : i = 0%Z \/ i = 1%Z \/ i = 2%Z) by lia.
  destruct g as [d w h m n r].
  destruct Hi as [-> | [-> | ->]], Hup as [-> | ->], Hdown as [-> | ->],
    s; cbn; (split; [reflexivity|]); (split; [reflexivity|]);
    eexists _, _; (split; [reflexivity | discriminate]).
Qed.

(** X26.  The item [i] of the menu reaches 150 pixels to each side of the
    middle of the canvas and 20 pixels up and down from its line, the
    lines being 50 pixels apart: the items do not overlap, so the pointer
    is over one item at most.  With no key pressed and the pointer over the item [i],
    [update] selects that item, plays the select sound when the selection
    changes, and on a click of the left button runs the action of that
    item; with the pointer over no item it does nothing. *)
Theorem update_follows_pointer (input : Input) (this : t) (g : Game)
    (pos : Q * Q) :
  (forall key, isKeyPressed input key = false) ->
  getMousePosition input = Some pos ->
  (forall i,
     isOverItem g pos i = true
     <-> ((width g - 400) / 2 + 50 <= fst pos
          <= (width g - 400) / 2 + 400 - 50
          /\ (height g - 300) / 2 + 140 + inject_Z (Z.of_nat i) * 50 - 20
             <= snd pos
             <= (height g - 300) / 2 + 140 + inject_Z (Z.of_nat i) * 50 + 20))
  /\ (forall i j,
        isOverItem g pos i = true -> isOverItem g pos j = true -> i = j)
  /\ (forall i item,
        menuItems !! i = Some item ->
        isOverItem g pos i = true ->
        let this' := set_selectedIndex (Z.of_nat i) this in
        let g' :=
          if bool_decide (selectedIndex this <> Z.of_nat i)
          then playSelectSound this g else g in
        update input this g
        = Some (this',
                if isMouseButtonPressed input 0 then action item g' else g'))
  /\ ((forall i, (i < 3)%nat -> isOverItem g pos i = false) ->
      update input this g = Some (this, g)).
Proof.
  intros Hkeys Hpos.
  split.
  { intros i. unfold isOverItem. cbv zeta.
    rewrite !andb_true_iff, !geb_ge, !leb_le. tauto. }
  split; [intros i j; apply isOverItem_unique|].
  assert (Hupdate : update input this g
                    = checkItems input pos [0; 1; 2]%nat this g).
  { unfold update. rewrite !Hkeys, Hpos. reflexivity. }
  rewrite Hupdate. split.
  - intros i item Hitem Hover. cbv zeta.
    assert (Hfirst : forall j, (j < i)%nat -> isOverItem g pos j = false).
    { intros j Hj. destruct (isOverItem g pos j) eqn:E; [|reflexivity].
      pose proof (isOverItem_unique g pos i j Hover E). lia. }
    assert (Hat : forall this0,
              selectedIndex this0 = Z.of_nat i ->
              activate this0 = fun g0 => Some (action item g0)).
    { intros this0 E. unfold activate. rewrite E.
      destruct (Z.of_nat i <? 0)%Z eqn:E0; [apply Z.ltb_lt in E0; lia|].
      rewrite Nat2Z.id, Hitem. reflexivity. }
    assert (Hbranch :
      checkItems input pos [0; 1; 2]%nat this g
      = let '(this0, g0) :=
          if bool_decide (selectedIndex this <> Z.of_nat i)
          then (set_selectedIndex (Z.of_nat i) this,
                playSelectSound (set_selectedIndex (Z.of_nat i) this) g)
          else (this, g) in
        if isMouseButtonPressed input 0
        then activate this0 g0 ≫= fun g1 => Some (this0, g1)
        else Some (this0, g0)).
    { destruct i as [|[|[|i]]]; [| | |discriminate]; cbn [checkItems];
        rewrite ?(Hfirst 0%nat), ?(Hfirst 1%nat) by lia; rewrite Hover;
        reflexivity. }
    rewrite Hbranch. clear Hbranch.
    destruct (decide (selectedIndex this = Z.of_nat i)) as [E | E].
    + rewrite !bool_decide_eq_false_2 by (intros Hne; contradiction).
      rewrite (Hat this E).
      assert (Hthis : set_selectedIndex (Z.of_nat i) this = this).
      { destruct this as [i0 s0]. cbn in E. subst i0. reflexivity. }
      rewrite Hthis.
      destruct (isMouseButtonPressed input 0); reflexivity.
    + rewrite !bool_decide_eq_true_2 by exact E.
      rewrite (Hat (set_selectedIndex (Z.of_nat i) this) eq_refl).
      destruct (isMouseButtonPressed input 0); reflexivity.
  - intros Hnone. cbn [checkItems].
    rewrite !Hnone by lia. reflexivity.
Qed.

(** X27.  Entering the pause menu selects its first item and marks the game
    paused; leaving it marks the game running again and changes nothing
    else, so that leaving undoes entering for a game that was running. *)
Theorem exit_undoes_enter (this : t) (g : Game) :
  PlayingState.isPaused (gameData g) = false ->
  let '(this', g') := enter this g in
  selectedIndex this' = 0%Z
  /\ selectSound this' = true
  /\ PlayingState.isPaused (gameData g') = true
  /\ g = exit g'
  /\ g' = set_gameData (PlayingState.set_isPaused true (gameData g)) g.
Proof.
  intros Hrun. destruct g as [d w h m n r]. destruct d. cbn in Hrun.
  subst. cbn. repeat split.
Qed.
End PauseMenuUpdate.

Section PauseMenuExamples.
Import PausedState.
Local Open Scope Q_scope.


Lemma navigation_wraps_around_witness :
  let this := Scenario.pauseMenu in
  let g := Scenario.pausedGame in
  (0 <= selectedIndex this < 3)%Z
  /\ update (pressing KeyW) this g
     = Some (set_selectedIndex 2 this, set_selectSounds 1 g)
  /\ update (pressing KeyS) (set_selectedIndex 2 this) (set_selectSounds 1 g)
     = Some (this, set_selectSounds 2 g)
  /\ (Some (this, g) ≫= (fun st => update (pressing KeyW) st.1 st.2))
       ≫= (fun st => update (pressing KeyS) st.1 st.2)
     = Some (this, set_selectSounds 2 g).
Proof.
  intros this g.
  assert (Hsel : (0 <= selectedIndex this < 3)%Z) by (cbn; lia).
  split; [exact Hsel|]. split; [reflexivity|]. split; [reflexivity|].
  exact (proj1 (navigation_wraps_around KeyW KeyS this g Hsel
                  (or_intror eq_refl) (or_intror eq_refl))).
Defined.

Lemma update_follows_pointer_witness :
  let this := Scenario.pauseMenu in
  let g := Scenario.pausedGame in
  let hover := Scenario.pointerAt (400, 340) false in
  let click := Scenario.pointerAt (400, 340) true in
  (forall key, isKeyPressed hover key = false)
  /\ getMousePosition hover = Some (400, 340)
  /\ isOverItem g (400, 340) 1 = true
  /\ update hover this g
     = Some (set_selectedIndex 1 this, set_selectSounds 1 g)
  /\ update click this g
     = Some (set_selectedIndex 1 this,
             restart (set_selectSounds 1 g))
  /\ update (Scenario.pointerAt (10, 10) true) this g = Some (this, g).
Proof.
  intros this g hover click.
  assert (Hkeys : forall key, isKeyPressed hover key = false)
    by (intros key; reflexivity).
  split; [exact Hkeys|]. split; [reflexivity|]. split; [reflexivity|].
  destruct (update_follows_pointer hover this g (400, 340) Hkeys eq_refl)
    as (_ & _ & Hover & _).
  split; [exact (Hover 1%nat Restart eq_refl eq_refl)|].
  split; reflexivity.
Defined.

Lemma exit_undoes_enter_witness :
  let g := exit Scenario.pausedGame in
  PlayingState.isPaused (gameData g) = false
  /\ (enter new g).1 = Scenario.pauseMenu
  /\ (enter new g).2 = Scenario.pausedGame
  /\ exit (enter new g).2 = g.
Proof.
  intros g.
  split; [reflexivity|]. split; [reflexivity|]. split; [reflexivity|].
  pose proof (exit_undoes_enter new g eq_refl) as Hspec.
  destruct (enter new g) as [this' g'].
  destruct Hspec as (_ & _ & _ & Hexit & _). symmetry. exact Hexit.
Defined.

End PauseMenuExamples.
